(** * Arithmetic crossword: puzzle generator and game engine

    A shallow embedding of [src/game/GameEngine.ts], of the two versions of
    [PuzzleGenerator.ts] and of the constants of [types/game.ts], followed
    by the properties of the engine and of the generator.

    Conventions of the embedding:
    - a JavaScript [Map<string, V>] is an insertion-ordered association
      list ([JsMap.t V]); mutating an object fetched from a map is an
      in-place update of the entry ([JsMap.update]);
    - [number]s that the program only ever uses as integers are [Z];
    - [Math.random()] is a draw from an explicit source ([Rng]); a draw is
      the numerator [k] of the fraction [k / 2^53];
    - [Date.now()] is an explicit argument [now] of every command;
    - [emit] appends to a trace of emitted events. *)

From Stdlib Require Import ZArith Ascii String DecimalString DecimalZ.
From stdpp Require Import base list gmap strings.

Local Open Scope Z_scope.

(** ** Template literals and identifiers *)

(** [`${n}`] for an integer [n]. *)
Definition showZ (n : Z) : string :=
  NilEmpty.string_of_int (Z.to_int n).

(** [`${x}-${y}`], the key of the cell at column [x], row [y]. *)
Definition cellId (x y : Z) : string :=
  showZ x +:+ "-" +:+ showZ y.

(** ** Insertion-ordered maps *)

Module JsMap.

Definition t (V : Type) : Type := list (string * V).

Definition empty {V} : t V := [].

Fixpoint get {V} (k : string) (m : t V) : option V :=
    match m with
    | [] => None
    | (k', v) :: m' => if String.eqb k k' then Some v else get k m'
    end.

(** [m.set(k, v)]: an existing key keeps its place. *)
Fixpoint set {V} (k : string) (v : V) (m : t V) : t V :=
    match m with
    | [] => [(k, v)]
    | (k', v') :: m' =>
        if String.eqb k k' then (k', v) :: m' else (k', v') :: set k v m'
    end.

(** Mutation of the object stored under [k]. *)
Fixpoint update {V} (k : string) (f : V -> V) (m : t V) : t V :=
    match m with
    | [] => []
    | (k', v) :: m' =>
        if String.eqb k k' then (k', f v) :: m' else (k', v) :: update k f m'
    end.

Definition keys {V} (m : t V) : list string := map fst m.
Definition values {V} (m : t V) : list V := map snd m.

End JsMap.

(** ** Data model ([types/game.ts]) *)

Inductive DifficultyLevel := easy | medium | hard | epic.

Inductive Operation := Plus | Minus | Times | Divide.

Definition opSymbol (o : Operation) : string :=
  match o with
  | Plus => "+" | Minus => "-" | Times => "*" | Divide => "/"
  end.

Record Position := mkPosition { pos_x : Z; pos_y : Z }.

Inductive CellType := number | operator | equals | empty.

(** [string | number | null] *)
Inductive CellValue := VNum (n : Z) | VStr (s : string) | VNull.

Record CellData := mkCell {
  cell_id : string;
  cell_type : CellType;
  cell_value : CellValue;
  cell_position : Position;
  cell_isFixed : bool;
  cell_isCorrect : option bool;
  cell_belongsToEquation : list string
}.

Record Equation := mkEquation {
  eq_id : string;
  eq_cells : list string;
  eq_expression : string;
  eq_result : Z;
  eq_isHorizontal : bool;
  eq_startPosition : Position;
  eq_isComplete : bool;
  eq_isValid : bool
}.

Record GridSize := mkGridSize { width : Z; height : Z }.

Record GameBoard := mkBoard {
  cells : JsMap.t CellData;
  equations : JsMap.t Equation;
  gridSize : GridSize
}.

Record NumberTile := mkTile {
  tile_id : string;
  tile_value : Z;
  tile_isUsed : bool
}.

Inductive MoveType := place | remove.

(** The [id] of a move is [`move-${Date.now()}`]; it is kept as the
    instant it was built from. *)
Record GameMove := mkMove {
  move_id : Z;
  move_type : MoveType;
  move_tileId : string;
  move_cellId : string;
  move_timestamp : Z
}.

Record GameConfig := mkConfig {
  level : DifficultyLevel;
  equationCount : Z;
  cfg_gridSize : GridSize
}.

Record GameState := mkState {
  config : GameConfig;
  board : GameBoard;
  availableNumbers : list NumberTile;
  currentScore : Z;
  timeElapsed : Z;
  isComplete : bool;
  moves : list GameMove;
  hints : Z
}.

Inductive GameEvent :=
| GameStarted (timestamp : Z)
| TilePlaced (timestamp : Z) (tileId cellId : string) (value : Z)
| EquationCompleted (timestamp : Z) (equationId : string) (isValid : bool)
| GameCompleted (timestamp : Z) (score time : Z) (lvl : DifficultyLevel).

Definition DIFFICULTY_CONFIG (d : DifficultyLevel) : GameConfig :=
  match d with
  | easy => mkConfig easy 10 (mkGridSize 8 6)
  | medium => mkConfig medium 15 (mkGridSize 10 8)
  | hard => mkConfig hard 20 (mkGridSize 12 10)
  | epic => mkConfig epic 25 (mkGridSize 15 12)
  end.

Module SCORING.
Definition BASE_POINTS : Z := 100.
Definition TIME_BONUS_MULTIPLIER : Z := 10.
(** The multipliers 1, 1.5, 2, 2.5, in tenths. *)
Definition DIFFICULTY_MULTIPLIER_tenths (d : DifficultyLevel) : Z :=
    match d with
    | easy => 10 | medium => 15 | hard => 20 | epic => 25
    end.
Definition HINT_PENALTY : Z := 50.
End SCORING.

#[global] Instance CellType_eq_dec : EqDecision CellType.
Proof. solve_decision. Defined.
#[global] Instance MoveType_eq_dec : EqDecision MoveType.
Proof. solve_decision. Defined.
#[global] Instance CellValue_eq_dec : EqDecision CellValue.
Proof. solve_decision. Defined.

(** ** The expression pattern

    Both [generateAvailableNumbers] and [getCorrectValueForCell] read the
    three numbers back from [equation.expression] with
    [/(\d+)\s*([+\-*/])\s*(\d+)\s*=\s*(\d+)/].  Each quantifier of this
    pattern is followed by a class disjoint from the one it repeats, so
    the backtracking matcher and the greedy one below agree; [match]
    returns the leftmost match. *)

Definition isDigit (c : ascii) : bool :=
  let n := nat_of_ascii c in (48 <=? n)%nat && (n <=? 57)%nat.

(** ASCII members of [\s]. *)
Definition isSpace (c : ascii) : bool :=
  let n := nat_of_ascii c in
  (n =? 32)%nat || ((9 <=? n)%nat && (n <=? 13)%nat).

Definition isOperatorChar (c : ascii) : bool :=
  (Ascii.eqb c "+" || Ascii.eqb c "-" || Ascii.eqb c "*" || Ascii.eqb c "/")%char.

(** [\d*] at the head of [s]: the digits and what follows them. *)
Fixpoint spanDigits (s : string) : string * string :=
  match s with
  | String c s' =>
      if isDigit c then
        let '(d, r) := spanDigits s' in (String c d, r)
      else (EmptyString, s)
  | EmptyString => (EmptyString, EmptyString)
  end.

(** [\s*] at the head of [s]: what follows the blanks. *)
Fixpoint skipSpaces (s : string) : string :=
  match s with
  | String c s' => if isSpace c then skipSpaces s' else s
  | EmptyString => EmptyString
  end.

(** The value of a run of decimal digits ([Number], [parseInt]). *)
Definition digitsValue (s : string) : Z :=
  match NilEmpty.uint_of_string s with
  | Some d => Z.of_uint d
  | None => 0
  end.

Record ExprMatch := mkExprMatch {
  m_num1 : string; m_op : ascii; m_num2 : string; m_result : string
}.

(** A match of the pattern that starts at the head of [s]. *)
Definition matchHere (s : string) : option ExprMatch :=
  let '(d1, r1) := spanDigits s in
  if String.eqb d1 "" then None else
  match skipSpaces r1 with
  | String c r2 =>
      if isOperatorChar c then
        let '(d2, r3) := spanDigits (skipSpaces r2) in
        if String.eqb d2 "" then None else
        match skipSpaces r3 with
        | String c' r4 =>
            if Ascii.eqb c' "="%char then
              let '(d3, _) := spanDigits (skipSpaces r4) in
              if String.eqb d3 "" then None
              else Some (mkExprMatch d1 c d2 d3)
            else None
        | EmptyString => None
        end
      else None
  | EmptyString => None
  end.

(** [expression.match(/.../)]: the leftmost match. *)
Fixpoint matchExpression (s : string) : option ExprMatch :=
  match matchHere s with
  | Some m => Some m
  | None =>
      match s with
      | String _ s' => matchExpression s'
      | EmptyString => None
      end
  end.

(** [equation.cells.indexOf(cell.id)], [-1] when absent. *)
Fixpoint indexOf (k : string) (l : list string) : Z :=
  match l with
  | [] => -1
  | k' :: l' =>
      if String.eqb k' k then 0
      else let i := indexOf k l' in if i <? 0 then -1 else i + 1
  end.

(** [`${num1} ${operation} ${num2} = ${result}`] *)
Definition showExpression (num1 : Z) (operation : string) (num2 result : Z) : string :=
  showZ num1 +:+ " " +:+ operation +:+ " " +:+ showZ num2 +:+ " = " +:+ showZ result.

(** [parseInt(s)]: blanks, a sign, then the longest run of digits.  A
    string without such a run gives [NaN]; no call site passes one, and
    it is rendered as [0] here. *)
Definition parseInt (s : string) : Z :=
  let s1 := skipSpaces s in
  match s1 with
  | String c s2 =>
      if Ascii.eqb c "-"%char then - digitsValue (fst (spanDigits s2))
      else if Ascii.eqb c "+"%char then digitsValue (fst (spanDigits s2))
      else digitsValue (fst (spanDigits s1))
  | EmptyString => 0
  end.

(** [s.split(sep)] for a one-character separator *)
Fixpoint splitOn (sep : ascii) (s : string) : list string :=
  match s with
  | EmptyString => [EmptyString]
  | String c s' =>
      if Ascii.eqb c sep then EmptyString :: splitOn sep s'
      else match splitOn sep s' with
           | p :: ps => String c p :: ps
           | [] => [String c EmptyString]
           end
  end.

(** ** The random source

    [Math.random()] returns a double in [[0, 1)]: here the fraction
    [k / 2^53] given by its numerator [0 <= k < 2^53].  A source is the
    sequence of the draws still to come.  [Math.floor(Math.random() * n)]
    and [Math.random() < p] are computed on the exact fraction. *)

Definition RESOLUTION : Z := 2 ^ 53.

Definition Rng : Type := nat -> Z.

Definition random (g : Rng) : Z * Rng :=
  (g 0%nat mod RESOLUTION, fun i => g (S i)).

(** [Math.floor(r * n)] *)
Definition floorMul (r n : Z) : Z := (r * n) / RESOLUTION.

(** [r < num / den] for a positive [den] *)
Definition below (r num den : Z) : bool := r * den <? num * RESOLUTION.

(** ** The game engine ([GameEngine.ts]) *)

Record Engine := mkEngine {
  gameState : option GameState;
  gameTimer : bool;
  startTime : Z;
  emitted : list GameEvent
}.

Definition emit (ev : GameEvent) (e : Engine) : Engine :=
  mkEngine (gameState e) (gameTimer e) (startTime e) (emitted e ++ [ev]).

Definition withState (g : GameState) (e : Engine) : Engine :=
  mkEngine (Some g) (gameTimer e) (startTime e) (emitted e).

Definition setCells (cs : JsMap.t CellData) (g : GameState) : GameState :=
  mkState (config g)
    (mkBoard cs (equations (board g)) (gridSize (board g)))
    (availableNumbers g) (currentScore g) (timeElapsed g) (isComplete g)
    (moves g) (hints g).

Definition setEquations (es : JsMap.t Equation) (g : GameState) : GameState :=
  mkState (config g)
    (mkBoard (cells (board g)) es (gridSize (board g)))
    (availableNumbers g) (currentScore g) (timeElapsed g) (isComplete g)
    (moves g) (hints g).

Definition setTiles (ts : list NumberTile) (g : GameState) : GameState :=
  mkState (config g) (board g) ts (currentScore g) (timeElapsed g)
    (isComplete g) (moves g) (hints g).

Definition setScore (s : Z) (g : GameState) : GameState :=
  mkState (config g) (board g) (availableNumbers g) s (timeElapsed g)
    (isComplete g) (moves g) (hints g).

Definition setTimeElapsed (t : Z) (g : GameState) : GameState :=
  mkState (config g) (board g) (availableNumbers g) (currentScore g) t
    (isComplete g) (moves g) (hints g).

Definition setIsComplete (b : bool) (g : GameState) : GameState :=
  mkState (config g) (board g) (availableNumbers g) (currentScore g)
    (timeElapsed g) b (moves g) (hints g).

Definition setMoves (ms : list GameMove) (g : GameState) : GameState :=
  mkState (config g) (board g) (availableNumbers g) (currentScore g)
    (timeElapsed g) (isComplete g) ms (hints g).

Definition setHints (h : Z) (g : GameState) : GameState :=
  mkState (config g) (board g) (availableNumbers g) (currentScore g)
    (timeElapsed g) (isComplete g) (moves g) h.

Definition setValue (v : CellValue) (c : CellData) : CellData :=
  mkCell (cell_id c) (cell_type c) v (cell_position c) (cell_isFixed c)
    (cell_isCorrect c) (cell_belongsToEquation c).

Definition setIsCorrect (b : bool) (c : CellData) : CellData :=
  mkCell (cell_id c) (cell_type c) (cell_value c) (cell_position c)
    (cell_isFixed c) (Some b) (cell_belongsToEquation c).

Definition setIsUsed (b : bool) (t : NumberTile) : NumberTile :=
  mkTile (tile_id t) (tile_value t) b.

Definition setFlags (complete valid : bool) (q : Equation) : Equation :=
  mkEquation (eq_id q) (eq_cells q) (eq_expression q) (eq_result q)
    (eq_isHorizontal q) (eq_startPosition q) complete valid.

(** [availableNumbers.find(t => t.id === tileId)] *)
Fixpoint findTile (tileId : string) (ts : list NumberTile) : option NumberTile :=
  match ts with
  | [] => None
  | t :: ts' => if String.eqb (tile_id t) tileId then Some t else findTile tileId ts'
  end.

(** Mutation of the tile object that [findTile] returns. *)
Fixpoint updateTile (tileId : string) (f : NumberTile -> NumberTile)
    (ts : list NumberTile) : list NumberTile :=
  match ts with
  | [] => []
  | t :: ts' =>
      if String.eqb (tile_id t) tileId then f t :: ts'
      else t :: updateTile tileId f ts'
  end.

(** [[...moves].reverse().find(move => move.type === 'place' && move.cellId === cellId)] *)
Definition findLastPlace (cellId : string) (ms : list GameMove) : option GameMove :=
  find (fun m => bool_decide (move_type m = place) && String.eqb (move_cellId m) cellId)
       (rev ms).

Definition isEquationComplete (cs : JsMap.t CellData) (q : Equation) : bool :=
  forallb (fun cellId =>
    match JsMap.get cellId cs with
    | Some cell =>
        negb (bool_decide (cell_value cell = VNull))
        || bool_decide (cell_type cell = operator)
        || bool_decide (cell_type cell = equals)
    | None => false
    end) (eq_cells q).

(** [cells[i]?.value] *)
Definition valueAt (cs : JsMap.t CellData) (q : Equation) (i : nat) : option CellValue :=
  match nth_error (eq_cells q) i with
  | Some cellId => cell_value <$> JsMap.get cellId cs
  | None => None
  end.

(** [num1 / num2 === result] on integers, for [num2 <> 0]. *)
Definition quotientIs (num1 num2 result : Z) : bool :=
  (num1 mod num2 =? 0) && (num1 / num2 =? result).

(** The [switch (operator)] of [validateEquation]. *)
Definition applyOperator (o : string) (num1 num2 result : Z) : bool :=
  if String.eqb o "+" then num1 + num2 =? result
  else if String.eqb o "-" then num1 - num2 =? result
  else if String.eqb o "*" then num1 * num2 =? result
  else if String.eqb o "/" then negb (num2 =? 0) && quotientIs num1 num2 result
  else false.

Definition validateEquation (cs : JsMap.t CellData) (q : Equation) : bool :=
  match valueAt cs q 0, valueAt cs q 2, valueAt cs q 4 with
  | Some (VNum num1), Some (VNum num2), Some (VNum result) =>
      match valueAt cs q 1 with
      | Some (VStr o) => applyOperator o num1 num2 result
      | _ => false
      end
  | _, _, _ => false
  end.

(** The body of [equation.cells.forEach] in [checkEquations]. *)
Definition markCorrectness (isValid : bool) (ids : list string)
    (cs : JsMap.t CellData) : JsMap.t CellData :=
  fold_left (fun cs cellId =>
    match JsMap.get cellId cs with
    | Some cell =>
        if bool_decide (cell_type cell = number)
        then JsMap.update cellId (setIsCorrect isValid) cs
        else cs
    | None => cs
    end) ids cs.

(** The state that [checkEquations] threads through its loop. *)
Record CheckAcc := mkCheckAcc {
  acc_cells : JsMap.t CellData;
  acc_score : Z;
  acc_events : list GameEvent
}.

(** [board.equations.forEach(equation => ...)] *)
Fixpoint checkEquationsLoop (now : Z) (es : JsMap.t Equation) (a : CheckAcc)
    : JsMap.t Equation * CheckAcc :=
  match es with
  | [] => ([], a)
  | (k, equation) :: es' =>
      let wasComplete := eq_isComplete equation in
      let isNowComplete := isEquationComplete (acc_cells a) equation in
      let isValid :=
        if isNowComplete then validateEquation (acc_cells a) equation else false in
      let cs := markCorrectness isValid (eq_cells equation) (acc_cells a) in
      let a' :=
        if negb wasComplete && isNowComplete then
          mkCheckAcc cs
            (if isValid then acc_score a + SCORING.BASE_POINTS else acc_score a)
            (acc_events a ++ [EquationCompleted now (eq_id equation) isValid])
        else mkCheckAcc cs (acc_score a) (acc_events a) in
      let '(es'', a'') := checkEquationsLoop now es' a' in
      ((k, setFlags isNowComplete isValid equation) :: es'', a'')
  end.

Definition checkEquations (now : Z) (e : Engine) : Engine :=
  match gameState e with
  | None => e
  | Some g =>
      let '(es, a) :=
        checkEquationsLoop now (equations (board g))
          (mkCheckAcc (cells (board g)) (currentScore g) (emitted e)) in
      mkEngine
        (Some (setScore (acc_score a) (setEquations es (setCells (acc_cells a) g))))
        (gameTimer e) (startTime e) (acc_events a)
  end.

Definition stopTimer (e : Engine) : Engine :=
  mkEngine (gameState e) false (startTime e) (emitted e).

Definition completeGame (now : Z) (e : Engine) : Engine :=
  match gameState e with
  | None => e
  | Some g =>
      let e1 := stopTimer e in
      let timeBonus := Z.max 0 (300 - timeElapsed g) * SCORING.TIME_BONUS_MULTIPLIER in
      let difficultyBonus :=
        SCORING.BASE_POINTS * SCORING.DIFFICULTY_MULTIPLIER_tenths (level (config g)) / 10 in
      let g' := setScore (currentScore g + (timeBonus + difficultyBonus))
                  (setIsComplete true g) in
      emit (GameCompleted now (currentScore g') (timeElapsed g') (level (config g')))
           (withState g' e1)
  end.

Definition checkGameCompletion (now : Z) (e : Engine) : Engine :=
  match gameState e with
  | None => e
  | Some g =>
      if isComplete g then e else
      let allEquationsValid :=
        forallb (fun q => eq_isComplete q && eq_isValid q)
                (JsMap.values (equations (board g))) in
      if allEquationsValid then completeGame now e else e
  end.

(** [tile.isUsed = used; cell.value = value], on the tile that
    [findTile tileId] returns and on the cell stored under [cellId]. *)
Definition writeTileAndCell (tileId cellId : string) (used : bool) (value : CellValue)
    (g : GameState) : GameState :=
  let g1 := setTiles (updateTile tileId (setIsUsed used) (availableNumbers g)) g in
  setCells (JsMap.update cellId (setValue value) (cells (board g1))) g1.

(** [this.gameState.moves.push(move)] *)
Definition pushMove (move : GameMove) (g : GameState) : GameState :=
  setMoves (moves g ++ [move]) g.

Definition placeTile (now : Z) (tileId cellId : string) (e : Engine) : bool * Engine :=
  match gameState e with
  | None => (false, e)
  | Some g =>
      if isComplete g then (false, e) else
      match findTile tileId (availableNumbers g), JsMap.get cellId (cells (board g)) with
      | Some tile, Some cell =>
          if tile_isUsed tile || cell_isFixed cell
             || negb (bool_decide (cell_type cell = number))
          then (false, e)
          else
            let g1 := writeTileAndCell tileId cellId true (VNum (tile_value tile)) g in
            let g2 := pushMove (mkMove now place tileId cellId now) g1 in
            let e1 := emit (TilePlaced now tileId cellId (tile_value tile)) (withState g2 e) in
            (true, checkGameCompletion now (checkEquations now e1))
      | _, _ => (false, e)
      end
  end.

Definition removeTile (now : Z) (cellId : string) (e : Engine) : bool * Engine :=
  match gameState e with
  | None => (false, e)
  | Some g =>
      if isComplete g then (false, e) else
      match JsMap.get cellId (cells (board g)) with
      | None => (false, e)
      | Some cell =>
          if cell_isFixed cell || bool_decide (cell_value cell = VNull) then (false, e) else
          match findLastPlace cellId (moves g) with
          | None => (false, e)
          | Some lastMove =>
              match findTile (move_tileId lastMove) (availableNumbers g) with
              | None => (false, e)
              | Some tile =>
                  let g1 := writeTileAndCell (move_tileId lastMove) cellId false VNull g in
                  let g2 := pushMove (mkMove now remove (move_tileId lastMove) cellId now) g1 in
                  (true, checkEquations now (withState g2 e))
              end
          end
      end
  end.

(** [moves.pop()] *)
Definition popMove (ms : list GameMove) : option (GameMove * list GameMove) :=
  match rev ms with
  | [] => None
  | m :: r => Some (m, rev r)
  end.

(** The inverse of [lastMove], applied when its tile and its cell are
    both found. *)
Definition revertMove (lastMove : GameMove) (g : GameState) : GameState :=
  match findTile (move_tileId lastMove) (availableNumbers g),
        JsMap.get (move_cellId lastMove) (cells (board g)) with
  | Some tile, Some cell =>
      match move_type lastMove with
      | place =>
          writeTileAndCell (move_tileId lastMove) (move_cellId lastMove) false VNull g
      | remove =>
          writeTileAndCell (move_tileId lastMove) (move_cellId lastMove) true
            (VNum (tile_value tile)) g
      end
  | _, _ => g
  end.

Definition undoLastMove (now : Z) (e : Engine) : bool * Engine :=
  match gameState e with
  | None => (false, e)
  | Some g =>
      match popMove (moves g) with
      | None => (false, e)
      | Some (lastMove, rest) =>
          let g1 := revertMove lastMove (setMoves rest g) in
          (true, checkEquations now (withState g1 e))
      end
  end.

Definition canPlaceTile (tileId cellId : string) (e : Engine) : bool :=
  match gameState e with
  | None => false
  | Some g =>
      match findTile tileId (availableNumbers g), JsMap.get cellId (cells (board g)) with
      | Some tile, Some cell =>
          negb (tile_isUsed tile) && negb (cell_isFixed cell)
          && bool_decide (cell_type cell = number)
          && bool_decide (cell_value cell = VNull)
      | _, _ => false
      end
  end.

Definition getCorrectValueForCell (g : GameState) (cell : CellData) : option Z :=
  match cell_belongsToEquation cell with
  | [] => None
  | equationId :: _ =>
      if String.eqb equationId "" then None else
      match JsMap.get equationId (equations (board g)) with
      | None => None
      | Some equation =>
          match matchExpression (eq_expression equation) with
          | None => None
          | Some m =>
              let cellIndex := indexOf (cell_id cell) (eq_cells equation) in
              if cellIndex =? 0 then Some (parseInt (m_num1 m))
              else if cellIndex =? 2 then Some (parseInt (m_num2 m))
              else if cellIndex =? 4 then Some (parseInt (m_result m))
              else None
          end
      end
  end.

Definition isUnfilled (cell : CellData) : bool :=
  bool_decide (cell_type cell = number) && negb (cell_isFixed cell)
  && bool_decide (cell_value cell = VNull).

Definition getHint (rng : Rng) (e : Engine) : option (string * Z) * Engine * Rng :=
  match gameState e with
  | None => (None, e, rng)
  | Some g =>
      if hints g <=? 0 then (None, e, rng) else
      let unfilledCells := List.filter isUnfilled (JsMap.values (cells (board g))) in
      match unfilledCells with
      | [] => (None, e, rng)
      | _ =>
          let '(r, rng') := random rng in
          match nth_error unfilledCells
                  (Z.to_nat (floorMul r (Z.of_nat (length unfilledCells)))) with
          | None => (None, e, rng')
          | Some targetCell =>
              match getCorrectValueForCell g targetCell with
              | None => (None, e, rng')
              | Some correctValue =>
                  let g1 := setHints (hints g - 1) g in
                  let g2 := setScore (Z.max 0 (currentScore g1 - SCORING.HINT_PENALTY)) g1 in
                  (Some (cell_id targetCell, correctValue), withState g2 e, rng')
              end
          end
      end
  end.

(** The callback of [startTimer]'s interval. *)
Definition timerTick (now : Z) (e : Engine) : Engine :=
  if gameTimer e then
    match gameState e with
    | Some g =>
        if isComplete g then e
        else withState (setTimeElapsed ((now - startTime e) / 1000) g) e
    | None => e
    end
  else e.

Definition startTimer (now : Z) (e : Engine) : Engine :=
  mkEngine (gameState e) true now (emitted e).

(** [loadGameState(saveData)], where [data] is what [JSON.parse] and the
    rebuilding of the two maps give ([None] when one of them throws).
    Whatever state the text describes becomes the state of the engine. *)
Definition loadGameState (now : Z) (data : option GameState) (e : Engine)
    : bool * Engine :=
  match data with
  | Some g =>
      let e1 := withState g e in
      (true, if isComplete g then e1 else startTimer now e1)
  | None => (false, e)
  end.

(** ** The puzzle generator ([PuzzleGenerator.ts])

    The repository holds two versions of the class.  What they share word
    for word is defined once; what differs lives in [V1] and [V2]. *)

Record Generator := mkGenerator {
  gen_gridSize : GridSize;
  gen_equationCount : Z;
  usedPositions : gset string;
  gen_equations : list Equation;
  gen_cells : JsMap.t CellData
}.

(** [new PuzzleGenerator(difficulty)] *)
Definition newGenerator (difficulty : DifficultyLevel) : Generator :=
  let config := DIFFICULTY_CONFIG difficulty in
  mkGenerator (cfg_gridSize config) (equationCount config) ∅ [] [].

(** A method of the generator: it reads and writes the fields and the
    random source, and either returns or throws (a [TypeError] from a
    property write on [undefined]). What was written before a throw stays
    written. *)
Inductive Outcome (A : Type) :=
| Returned (a : A) (s : Generator) (rng : Rng)
| Thrown (s : Generator) (rng : Rng).
Arguments Returned {A} a s rng.
Arguments Thrown {A} s rng.

Definition Gen (A : Type) : Type := Generator -> Rng -> Outcome A.

Definition ret {A} (a : A) : Gen A := fun s rng => Returned a s rng.

Definition bind {A B} (m : Gen A) (k : A -> Gen B) : Gen B :=
  fun s rng =>
    match m s rng with
    | Returned a s' rng' => k a s' rng'
    | Thrown s' rng' => Thrown s' rng'
    end.

Definition throw {A} : Gen A := fun s rng => Thrown s rng.

Definition this : Gen Generator := fun s rng => Returned s s rng.

Definition modify (f : Generator -> Generator) : Gen unit :=
  fun s rng => Returned tt (f s) rng.

(** [Math.random()] *)
Definition mathRandom : Gen Z :=
  fun s rng => let '(r, rng') := random rng in Returned r s rng'.

(** [Math.floor(Math.random() * n)] *)
Definition randomBelow (n : Z) : Gen Z :=
  fun s rng => let '(r, rng') := random rng in Returned (floorMul r n) s rng'.

Notation "x <- m ;; k" := (bind m (fun x => k))
  (at level 100, m at next level, right associativity).
Notation "m ;;; k" := (bind m (fun _ => k))
  (at level 100, right associativity).

Definition setUsedPositions (u : gset string) (s : Generator) : Generator :=
  mkGenerator (gen_gridSize s) (gen_equationCount s) u (gen_equations s) (gen_cells s).

Definition setGenEquations (es : list Equation) (s : Generator) : Generator :=
  mkGenerator (gen_gridSize s) (gen_equationCount s) (usedPositions s) es (gen_cells s).

Definition setGenCells (cs : JsMap.t CellData) (s : Generator) : Generator :=
  mkGenerator (gen_gridSize s) (gen_equationCount s) (usedPositions s)
    (gen_equations s) cs.

Definition emptyCell (x y : Z) : CellData :=
  mkCell (cellId x y) empty VNull (mkPosition x y) false None [].

(** The grid that [reset] builds, row by row. *)
Definition emptyGrid (size : GridSize) : JsMap.t CellData :=
  foldl (fun cs y =>
           foldl (fun cs x => JsMap.set (cellId x y) (emptyCell x y) cs)
                 cs (seqZ 0 (width size)))
        JsMap.empty (seqZ 0 (height size)).

Definition reset : Gen unit :=
  modify (fun s =>
    mkGenerator (gen_gridSize s) (gen_equationCount s) ∅ []
      (emptyGrid (gen_gridSize s))).

Definition getRandomOperation : Gen Operation :=
  r <- mathRandom ;;
  let operations :=
    if below r 1 10 then [Plus; Minus; Times; Divide] else [Plus; Minus; Times] in
  i <- randomBelow (Z.of_nat (length operations)) ;;
  ret (nth (Z.to_nat i) operations Plus).

Definition generateNumbers (operation : Operation) : Gen (Z * Z * Z) :=
  match operation with
  | Plus =>
      a <- randomBelow 20 ;; let num1 := a + 1 in
      b <- randomBelow 20 ;; let num2 := b + 1 in
      ret (num1, num2, num1 + num2)
  | Minus =>
      a <- randomBelow 30 ;; let result := a + 1 in
      b <- randomBelow result ;; let num2 := b + 1 in
      ret (result + num2, num2, result)
  | Times =>
      a <- randomBelow 12 ;; let num1 := a + 1 in
      b <- randomBelow 12 ;; let num2 := b + 1 in
      ret (num1, num2, num1 * num2)
  | Divide =>
      a <- randomBelow 20 ;; let result := a + 1 in
      b <- randomBelow 10 ;; let num2 := b + 2 in
      ret (result * num2, num2, result)
  end.

(** An entry of the [positions] array of the [create...Equation] methods. *)
Record Slot := mkSlot {
  slot_x : Z; slot_y : Z;
  slot_type : CellType;
  slot_value : CellValue;
  slot_isFixed : bool
}.

Definition fixSlot (v : Z) (p : Slot) : Slot :=
  mkSlot (slot_x p) (slot_y p) (slot_type p) (VNum v) true.

(** The five slots of a strip from [(startX, startY)] in direction
    [(dx, dy)], all three numbers left to the player. *)
Definition stripSlots (startX startY dx dy : Z) (operation : string) : list Slot :=
  [ mkSlot startX startY number VNull false;
    mkSlot (startX + dx) (startY + dy) operator (VStr operation) true;
    mkSlot (startX + 2 * dx) (startY + 2 * dy) number VNull false;
    mkSlot (startX + 3 * dx) (startY + 3 * dy) equals (VStr "=") true;
    mkSlot (startX + 4 * dx) (startY + 4 * dy) number VNull false ].

(** [if (hintIndex === 0) ...; if (hintIndex === 1) ...; if (hintIndex === 2) ...] *)
Definition applyHint (hintIndex num1 num2 result : Z) (positions : list Slot) : list Slot :=
  let p1 := if hintIndex =? 0 then alter (fixSlot num1) 0%nat positions else positions in
  let p2 := if hintIndex =? 1 then alter (fixSlot num2) 2%nat p1 else p1 in
  if hintIndex =? 2 then alter (fixSlot result) 4%nat p2 else p2.

(** [Math.random() < p ? Math.floor(Math.random() * 3) : -1] with [p = num/10] *)
Definition drawHintIndex (num : Z) : Gen Z :=
  r <- mathRandom ;;
  if below r num 10 then randomBelow 3 else ret (-1).

Definition writeCell (equationId : string) (pos : Slot) (cell : CellData) : CellData :=
  mkCell (cell_id cell) (slot_type pos) (slot_value pos) (cell_position cell)
    (slot_isFixed pos) (cell_isCorrect cell)
    (cell_belongsToEquation cell ++ [equationId]).

(** The body of [positions.forEach]: the identifiers pushed so far are
    [cellIds]. *)
Fixpoint commitSlots (equationId : string) (positions : list Slot)
    (cellIds : list string) : Gen (list string) :=
  match positions with
  | [] => ret cellIds
  | pos :: rest =>
      let id := cellId (slot_x pos) (slot_y pos) in
      modify (fun s => setUsedPositions ({[ id ]} ∪ usedPositions s) s) ;;;
      s <- this ;;
      match JsMap.get id (gen_cells s) with
      | None => throw
      | Some _ =>
          modify (setGenCells (JsMap.update id (writeCell equationId pos) (gen_cells s))) ;;;
          commitSlots equationId rest (cellIds ++ [id])
      end
  end.

Definition pushEquation (q : Equation) : Gen unit :=
  modify (fun s => setGenEquations (gen_equations s ++ [q]) s).

(** [createHorizontalEquation] ([horizontal = true]) and
    [createVerticalEquation] ([horizontal = false]), which differ in the
    direction of the strip and in [isHorizontal] only. *)
Definition createEquation (horizontal : bool) (startX startY : Z) : Gen unit :=
  s <- this ;;
  let equationId := "eq-" +:+ showZ (Z.of_nat (length (gen_equations s)) + 1) in
  operation <- getRandomOperation ;;
  nums <- generateNumbers operation ;;
  let '(num1, num2, result) := nums in
  let positions :=
    if horizontal then stripSlots startX startY 1 0 (opSymbol operation)
    else stripSlots startX startY 0 1 (opSymbol operation) in
  hintIndex <- drawHintIndex 4 ;;
  cellIds <- commitSlots equationId (applyHint hintIndex num1 num2 result positions) [] ;;
  pushEquation
    (mkEquation equationId cellIds
       (showExpression num1 (opSymbol operation) num2 result) result
       horizontal (mkPosition startX startY) false false).

Definition createHorizontalEquation : Z -> Z -> Gen unit := createEquation true.
Definition createVerticalEquation : Z -> Z -> Gen unit := createEquation false.

(** The loops of [canPlaceHorizontalEquation] and
    [canPlaceVerticalEquation], which test [len] cells ([len] is 7 in the
    first version and 5 in the second). *)
Definition horizontalRunIsFree (len : Z) (startX startY : Z) (s : Generator) : bool :=
  forallb (fun i =>
    negb (width (gen_gridSize s) <=? startX + i)
    && negb (bool_decide (cellId (startX + i) startY ∈ usedPositions s)))
    (seqZ 0 len).

Definition verticalRunIsFree (len : Z) (startX startY : Z) (s : Generator) : bool :=
  forallb (fun i =>
    negb (height (gen_gridSize s) <=? startY + i)
    && negb (bool_decide (cellId startX (startY + i) ∈ usedPositions s)))
    (seqZ 0 len).

Definition countHorizontal (horizontal : bool) (s : Generator) : Z :=
  Z.of_nat (length (List.filter (fun q => Bool.eqb (eq_isHorizontal q) horizontal)
                      (gen_equations s))).

(** [Math.ceil(a / b)] and [Math.floor(a / b)] for a positive [b] *)
Definition ceilDiv (a b : Z) : Z := - ((- a) / b).

(** The board that [generatePuzzle] returns. *)
Definition boardOf (s : Generator) : GameBoard :=
  mkBoard (gen_cells s)
    (foldl (fun m q => JsMap.set (eq_id q) q m) JsMap.empty (gen_equations s))
    (gen_gridSize s).

(** [for (const x of l) body(x)] *)
Fixpoint forEach {A} (l : list A) (body : A -> Gen unit) : Gen unit :=
  match l with
  | [] => ret tt
  | a :: l' => body a ;;; forEach l' body
  end.

(** [try { body } catch { handler }] *)
Definition tryCatch {A} (body handler : Gen A) : Gen A :=
  fun s rng =>
    match body s rng with
    | Returned a s' rng' => Returned a s' rng'
    | Thrown s' rng' => handler s' rng'
    end.

(** [addRandomEquation], over the feasibility checks of its version. *)
Fixpoint addRandomEquationLoop
    (canPlaceHorizontalEquation canPlaceVerticalEquation : Z -> Z -> Generator -> bool)
    (budget : nat) : Gen unit :=
  match budget with
  | O => ret tt
  | S budget' =>
      r <- mathRandom ;;
      s <- this ;;
      if below r 6 10 then
        startX <- randomBelow (width (gen_gridSize s) - 6) ;;
        startY <- randomBelow (height (gen_gridSize s)) ;;
        if canPlaceHorizontalEquation startX startY s
        then createHorizontalEquation startX startY
        else addRandomEquationLoop canPlaceHorizontalEquation canPlaceVerticalEquation budget'
      else
        startX <- randomBelow (width (gen_gridSize s)) ;;
        startY <- randomBelow (height (gen_gridSize s) - 6) ;;
        if canPlaceVerticalEquation startX startY s
        then createVerticalEquation startX startY
        else addRandomEquationLoop canPlaceHorizontalEquation canPlaceVerticalEquation budget'
  end.

(** [Number(s)] for a run of digits [s] *)
Definition toNumber (s : string) : Z := digitsValue s.

(** [cell.type === 'number' && !cell.isFixed] *)
Definition isBlank (cell : CellData) : bool :=
  bool_decide (cell_type cell = number) && negb (cell_isFixed cell).

(** The callback of [board.cells.forEach] in [generateAvailableNumbers]:
    the numbers that it pushes for [cell]. *)
Definition numbersFor (b : GameBoard) (cell : CellData) : list Z :=
  if isBlank cell then
    flat_map (fun eqId =>
      match JsMap.get eqId (equations b) with
      | Some equation =>
          match matchExpression (eq_expression equation) with
          | Some m =>
              let cellIndex := indexOf (cell_id cell) (eq_cells equation) in
              if cellIndex =? 0 then [toNumber (m_num1 m)]
              else if cellIndex =? 2 then [toNumber (m_num2 m)]
              else if cellIndex =? 4 then [toNumber (m_result m)]
              else []
          | None => []
          end
      | None => []
      end) (cell_belongsToEquation cell)
  else [].

(** The numbers that [generateAvailableNumbers] collects before it adds
    the extra ones. *)
Definition neededNumbers (b : GameBoard) : list Z :=
  flat_map (numbersFor b) (JsMap.values (cells b)).

(** [[a[i], a[j]] = [a[j], a[i]]] *)
Definition swap {A} (i j : nat) (a : list A) : list A :=
  match a !! i, a !! j with
  | Some ai, Some aj => <[ j := ai ]> (<[ i := aj ]> a)
  | _, _ => a
  end.

(** The loop of [shuffleArray], [i] running from [n] down to 1. *)
Fixpoint shuffleFrom {A} (n : nat) (a : list A) : Gen (list A) :=
  match n with
  | O => ret a
  | S n' =>
      j <- randomBelow (Z.of_nat n + 1) ;;
      shuffleFrom n' (swap n (Z.to_nat j) a)
  end.

Definition shuffleArray {A} (array : list A) : Gen (list A) :=
  shuffleFrom (length array - 1) array.

(** The loop that appends the extra numbers. *)
Fixpoint addExtras (count : nat) (numbers : list Z) : Gen (list Z) :=
  match count with
  | O => ret numbers
  | S count' =>
      v <- randomBelow 50 ;;
      addExtras count' (numbers ++ [v + 1])
  end.

Definition generateAvailableNumbers (b : GameBoard) : Gen (list Z) :=
  let needed := neededNumbers b in
  let extraCount := ceilDiv (Z.of_nat (length needed) * 2) 10 in
  numbers <- addExtras (Z.to_nat extraCount) needed ;;
  shuffleArray numbers.

(** *** First version *)

Module V1.

Definition canPlaceHorizontalEquation : Z -> Z -> Generator -> bool :=
  horizontalRunIsFree 7.

Definition canPlaceVerticalEquation : Z -> Z -> Generator -> bool :=
  verticalRunIsFree 7.

Fixpoint horizontalAttempts (budget : nat) (targetCount : Z) : Gen unit :=
  match budget with
  | O => ret tt
  | S budget' =>
      s <- this ;;
      if countHorizontal true s <? targetCount then
        startX <- randomBelow (width (gen_gridSize s) - 6) ;;
        startY <- randomBelow (height (gen_gridSize s)) ;;
        (if canPlaceHorizontalEquation startX startY s
         then createHorizontalEquation startX startY else ret tt) ;;;
        horizontalAttempts budget' targetCount
      else ret tt
  end.

Definition generateHorizontalEquations : Gen unit :=
  s <- this ;;
  horizontalAttempts 100 (ceilDiv (gen_equationCount s * 6) 10).

Fixpoint verticalAttempts (budget : nat) (targetCount : Z) : Gen unit :=
  match budget with
  | O => ret tt
  | S budget' =>
      s <- this ;;
      if countHorizontal false s <? targetCount then
        startX <- randomBelow (width (gen_gridSize s)) ;;
        startY <- randomBelow (height (gen_gridSize s) - 6) ;;
        (if canPlaceVerticalEquation startX startY s
         then createVerticalEquation startX startY else ret tt) ;;;
        verticalAttempts budget' targetCount
      else ret tt
  end.

Definition generateVerticalEquations : Gen unit :=
  s <- this ;;
  verticalAttempts 100 (ceilDiv (gen_equationCount s * 4) 10).

(** [createVerticalEquationWithIntersection] has an empty body, so the
    loops of [addIntersectionChallenges] only read the fields: they
    neither write nor draw. *)
Definition addIntersectionChallenges : Gen unit := ret tt.

Definition addRandomEquation : Gen unit :=
  addRandomEquationLoop canPlaceHorizontalEquation canPlaceVerticalEquation 50.

(** [while (this.equations.length < this.equationCount) this.addRandomEquation()].
    The loop has no bound of its own: [fuel] bounds the number of times
    its condition is evaluated, and [None] says that the fuel ran out. *)
Fixpoint ensureEnough (fuel : nat) (s : Generator) (rng : Rng) : option (Outcome unit) :=
  match fuel with
  | O => None
  | S fuel' =>
      if Z.of_nat (length (gen_equations s)) <? gen_equationCount s then
        match addRandomEquation s rng with
        | Returned _ s' rng' => ensureEnough fuel' s' rng'
        | Thrown s' rng' => Some (Thrown s' rng')
        end
      else Some (Returned tt s rng)
  end.

Definition generatePuzzle (fuel : nat) (s : Generator) (rng : Rng)
    : option (Outcome GameBoard) :=
  match (reset ;;; generateHorizontalEquations ;;; generateVerticalEquations ;;;
         addIntersectionChallenges) s rng with
  | Returned _ s1 rng1 =>
      match ensureEnough fuel s1 rng1 with
      | Some (Returned _ s2 rng2) => Some (Returned (boardOf s2) s2 rng2)
      | Some (Thrown s2 rng2) => Some (Thrown s2 rng2)
      | None => None
      end
  | Thrown s1 rng1 => Some (Thrown s1 rng1)
  end.

End V1.

(** *** Second version *)

Module V2.

Definition canPlaceHorizontalEquation : Z -> Z -> Generator -> bool :=
  horizontalRunIsFree 5.

Definition canPlaceVerticalEquation : Z -> Z -> Generator -> bool :=
  verticalRunIsFree 5.

Fixpoint horizontalAttempts (budget : nat) (targetCount : Z) : Gen unit :=
  match budget with
  | O => ret tt
  | S budget' =>
      s <- this ;;
      if countHorizontal true s <? targetCount then
        startX <- randomBelow (Z.max 1 (width (gen_gridSize s) - 4)) ;;
        startY <- randomBelow (height (gen_gridSize s)) ;;
        (if canPlaceHorizontalEquation startX startY s
         then createHorizontalEquation startX startY else ret tt) ;;;
        horizontalAttempts budget' targetCount
      else ret tt
  end.

Definition generateHorizontalEquations : Gen unit :=
  s <- this ;;
  horizontalAttempts 50
    (Z.min (ceilDiv (gen_equationCount s * 6) 10) (height (gen_gridSize s) * 8 / 10)).

Fixpoint verticalAttempts (budget : nat) (targetCount : Z) : Gen unit :=
  match budget with
  | O => ret tt
  | S budget' =>
      s <- this ;;
      if countHorizontal false s <? targetCount then
        startX <- randomBelow (width (gen_gridSize s)) ;;
        startY <- randomBelow (Z.max 1 (height (gen_gridSize s) - 4)) ;;
        (if canPlaceVerticalEquation startX startY s
         then createVerticalEquation startX startY else ret tt) ;;;
        verticalAttempts budget' targetCount
      else ret tt
  end.

Definition generateVerticalEquations : Gen unit :=
  s <- this ;;
  verticalAttempts 50
    (Z.min (ceilDiv (gen_equationCount s * 4) 10) (width (gen_gridSize s) * 8 / 10)).

Definition addRandomEquation : Gen unit :=
  addRandomEquationLoop canPlaceHorizontalEquation canPlaceVerticalEquation 50.

(** [while (this.equations.length < this.equationCount && attempts < 50)] *)
Fixpoint addRandomEquations (budget : nat) : Gen unit :=
  match budget with
  | O => ret tt
  | S budget' =>
      s <- this ;;
      if Z.of_nat (length (gen_equations s)) <? gen_equationCount s
      then addRandomEquation ;;; addRandomEquations budget'
      else ret tt
  end.

Definition createSimpleEquation (startX startY : Z) (expression id : string) : Gen unit :=
  let parts := splitOn " "%char expression in
  let num1 := parseInt (nth 0 parts "") in
  let op := nth 1 parts "" in
  let num2 := parseInt (nth 2 parts "") in
  let result := parseInt (nth 4 parts "") in
  let positions := stripSlots startX startY 1 0 op in
  hintIndex <- drawHintIndex 5 ;;
  cellIds <- commitSlots id (applyHint hintIndex num1 num2 result positions) [] ;;
  pushEquation
    (mkEquation id cellIds expression result true (mkPosition startX startY) false false).

(** The [switch] of [fillWithSimpleEquations]. *)
Definition simpleNumbers (op : Operation) : Gen (Z * Z * Z) :=
  match op with
  | Plus =>
      a <- randomBelow 10 ;; let num1 := a + 1 in
      b <- randomBelow 10 ;; let num2 := b + 1 in
      ret (num1, num2, num1 + num2)
  | Minus =>
      a <- randomBelow 15 ;; let result := a + 1 in
      b <- randomBelow result ;; let num2 := b + 1 in
      ret (result + num2, num2, result)
  | Times =>
      a <- randomBelow 5 ;; let num1 := a + 1 in
      b <- randomBelow 5 ;; let num2 := b + 1 in
      ret (num1, num2, num1 * num2)
  | Divide => ret (2, 3, 5)
  end.

(** [for (let attempts = 0; attempts < 20; attempts++)] *)
Fixpoint placeSimple (budget : nat) (expression id : string) : Gen unit :=
  match budget with
  | O => ret tt
  | S budget' =>
      s <- this ;;
      startX <- randomBelow (Z.max 1 (width (gen_gridSize s) - 4)) ;;
      startY <- randomBelow (height (gen_gridSize s)) ;;
      if canPlaceHorizontalEquation startX startY s
      then createSimpleEquation startX startY expression id
      else placeSimple budget' expression id
  end.

Definition fillWithSimpleEquations : Gen unit :=
  s <- this ;;
  let needed := gen_equationCount s - Z.of_nat (length (gen_equations s)) in
  forEach (seqZ 0 needed) (fun i =>
    k <- randomBelow 3 ;;
    let op := nth (Z.to_nat k) [Plus; Minus; Times] Plus in
    nums <- simpleNumbers op ;;
    let '(num1, num2, result) := nums in
    placeSimple 20 (showExpression num1 (opSymbol op) num2 result)
                ("simple-" +:+ showZ i)).

Definition createFallbackPuzzle : Gen GameBoard :=
  reset ;;;
  forEach [ (1, 1, "2 + 3 = 5", 0); (1, 3, "4 - 1 = 3", 1); (1, 5, "3 * 2 = 6", 2) ]
    (fun '(x, y, eq, index) =>
       s <- this ;;
       if (y <? height (gen_gridSize s)) && (x + 4 <? width (gen_gridSize s))
       then createSimpleEquation x y eq ("fallback-" +:+ showZ index)
       else ret tt) ;;;
  s <- this ;;
  ret (boardOf s).

(** The [try] block of [generatePuzzle]. *)
Definition generateOrThrow : Gen GameBoard :=
  generateHorizontalEquations ;;;
  generateVerticalEquations ;;;
  addRandomEquations 50 ;;;
  s <- this ;;
  (if Z.of_nat (length (gen_equations s)) <? gen_equationCount s
   then fillWithSimpleEquations else ret tt) ;;;
  s' <- this ;;
  ret (boardOf s').

Definition generatePuzzle : Gen GameBoard :=
  reset ;;;
  tryCatch generateOrThrow createFallbackPuzzle.

End V2.

(** ** Starting a game

    [GameEngine.ts] imports the generator from its own directory; it is
    taken to be the second version, whose imports are written like the
    engine's. *)

(** [availableNumbers.map((value, index) => ({ id: `tile-${index}`, value, isUsed: false }))] *)
Definition makeTiles (values : list Z) : list NumberTile :=
  imap (fun index value => mkTile ("tile-" +:+ showZ (Z.of_nat index)) value false) values.

Definition startNewGame (now : Z) (difficulty : DifficultyLevel) (rng : Rng) (e : Engine)
    : option (GameState * Engine * Rng) :=
  let e0 := stopTimer e in
  match (board <- V2.generatePuzzle ;;
         availableNumbers <- generateAvailableNumbers board ;;
         ret (board, availableNumbers)) (newGenerator difficulty) rng with
  | Returned (board, availableNumbers) _ rng' =>
      let g := mkState (DIFFICULTY_CONFIG difficulty) board (makeTiles availableNumbers)
                 0 0 false [] 3 in
      Some (g, emit (GameStarted now) (startTimer now (withState g e0)), rng')
  | Thrown _ rng' => None
  end.

(** ** Play

    The commands of a session, each run at an instant [now]. *)

Inductive Command :=
| CPlace (tileId cellId : string)
| CRemove (cellId : string)
| CUndo
| CHint (rng : Rng)
| CTick.

Definition exec (now : Z) (c : Command) (e : Engine) : Engine :=
  match c with
  | CPlace tileId cellId => snd (placeTile now tileId cellId e)
  | CRemove cellId => snd (removeTile now cellId e)
  | CUndo => snd (undoLastMove now e)
  | CHint rng => snd (fst (getHint rng e))
  | CTick => timerTick now e
  end.

Fixpoint run (cs : list (Z * Command)) (e : Engine) : Engine :=
  match cs with
  | [] => e
  | (now, c) :: cs' => run cs' (exec now c e)
  end.

Definition isHint (c : Command) : bool :=
  match c with CHint _ => true | _ => false end.

(** The engines that a session can be in: a game was started, then any
    commands were run. *)
Inductive reachable : Engine -> Prop :=
| reachable_start now difficulty rng e g e' rng' :
    startNewGame now difficulty rng e = Some (g, e', rng') -> reachable e'
| reachable_step now c e :
    reachable e -> reachable (exec now c e).

Definition scoreOf (e : Engine) : Z :=
  match gameState e with Some g => currentScore g | None => 0 end.

Definition hintsOf (e : Engine) : Z :=
  match gameState e with Some g => hints g | None => 0 end.

Definition cellValueOf (cellId : string) (g : GameState) : option CellValue :=
  cell_value <$> JsMap.get cellId (cells (board g)).

Definition tileUsedOf (tileId : string) (g : GameState) : option bool :=
  tile_isUsed <$> findTile tileId (availableNumbers g).

(** Every equation of the board is complete and valid on the cells as
    they stand. *)
Definition allEquationsSatisfied (g : GameState) : bool :=
  forallb (fun q => isEquationComplete (cells (board g)) q
                    && validateEquation (cells (board g)) q)
          (JsMap.values (equations (board g))).

(** What a cell is, its correctness mark left out. *)
Definition cellCore (c : CellData)
    : string * CellType * CellValue * Position * bool * list string :=
  (cell_id c, cell_type c, cell_value c, cell_position c, cell_isFixed c,
   cell_belongsToEquation c).

Definition sameCores (cs cs' : JsMap.t CellData) : Prop :=
  map (fun kc => (kc.1, cellCore kc.2)) cs = map (fun kc => (kc.1, cellCore kc.2)) cs'.

(** The flags that [checkEquations] leaves on an equation. *)
Definition refreshFlags (cs : JsMap.t CellData) (q : Equation) : Equation :=
  setFlags (isEquationComplete cs q)
    (isEquationComplete cs q && validateEquation cs q) q.

(** ** Sample sessions *)

Definition zeroDraws : Rng := fun _ => 0.

Definition freshEngine : Engine := mkEngine None false 0 [].

(** The easy game that the all-zero source gives: one equation,
    [1 + 1 = 2] on the cells [0-0 .. 4-0], its first operand fixed, and
    the hand [tile-0 = 2], [tile-1 = 1], [tile-2 = 1]. *)
Definition sampleStart : Engine :=
  Eval vm_compute in
    match startNewGame 0 easy zeroDraws freshEngine with
    | Some (_, e, _) => e
    | None => freshEngine
    end.

(** [tile-1] placed on the cell [2-0]. *)
Definition sampleFilled : Engine :=
  exec 1 (CPlace "tile-1" "2-0") sampleStart.

(** Then [tile-0] placed on [4-0], which completes the game. *)
Definition sampleCompleted : Engine :=
  exec 2 (CPlace "tile-0" "4-0") sampleFilled.

(** The states of these two engines, evaluated. *)
Definition sampleFilledState : option GameState :=
  Eval vm_compute in gameState sampleFilled.

Definition sampleCompletedState : option GameState :=
  Eval vm_compute in gameState sampleCompleted.

(** ** Vocabulary of the statements *)

Fixpoint allDigits (s : string) : bool :=
  match s with
  | EmptyString => true
  | String c s' => isDigit c && allDigits s'
  end.

(** [m], run from [s] and [rng], returns (it does not throw), and the
    value, the fields and the source it leaves satisfy [Q]. *)
Definition returns {A} (m : Gen A) (s : Generator) (rng : Rng)
    (Q : A -> Generator -> Rng -> Prop) : Prop :=
  match m s rng with
  | Returned a s' rng' => Q a s' rng'
  | Thrown _ _ => False
  end.

Definition startsWithDigit (s : string) : bool :=
  match s with String c _ => isDigit c | EmptyString => false end.

(** [sep] does not occur in [s]. *)
Fixpoint lacks (sep : ascii) (s : string) : bool :=
  match s with
  | EmptyString => true
  | String c s' => negb (Ascii.eqb c sep) && lacks sep s'
  end.

(** The key under which a slot is committed. *)
Definition slotId (p : Slot) : string := cellId (slot_x p) (slot_y p).

(** What a committed slot of the equation [equationId] leaves in its
    cell. *)
Definition slotCore (equationId : string) (p : Slot)
    : string * CellType * CellValue * Position * bool * list string :=
  (slotId p, slot_type p, slot_value p, mkPosition (slot_x p) (slot_y p),
   slot_isFixed p, [equationId]).

(** The cells that [commitSlots] leaves. *)
Definition commitCells (equationId : string) (positions : list Slot)
    (cs : JsMap.t CellData) : JsMap.t CellData :=
  foldl (fun cs p => JsMap.update (slotId p) (writeCell equationId p) cs) cs positions.

Definition commitUsed (positions : list Slot) (u : gset string) : gset string :=
  foldl (fun u p => {[ slotId p ]} ∪ u) u positions.

(** The coordinates of the grid in the order in which [reset] visits
    them. *)
Definition gridCoords (size : GridSize) : list (Z * Z) :=
  y ← seqZ 0 (height size); x ← seqZ 0 (width size); [(x, y)].

(** The slots of the equation [q], given its operator, its numbers and
    the index of its pre-filled number ([-1]: none). *)
Definition slotsOf (q : Equation) (operation : Operation)
    (num1 num2 result hintIndex : Z) : list Slot :=
  applyHint hintIndex num1 num2 result
    (stripSlots (pos_x (eq_startPosition q)) (pos_y (eq_startPosition q))
       (if eq_isHorizontal q then 1 else 0) (if eq_isHorizontal q then 0 else 1)
       (opSymbol operation)).

(** The equation [q] lies within the grid and [numbers] are its
    operator, its three numbers and its hint: they satisfy the operator,
    they are what the expression spells, and the five cells hold them. *)
Definition equationHolds (size : GridSize) (cs : JsMap.t CellData) (q : Equation)
    (operation : Operation) (num1 num2 result hintIndex : Z) : Prop :=
  let x := pos_x (eq_startPosition q) in
  let y := pos_y (eq_startPosition q) in
  0 <= x /\ 0 <= y
  /\ (if eq_isHorizontal q then x + 4 < width size /\ y < height size
      else x < width size /\ y + 4 < height size)
  /\ 1 <= num1 /\ 1 <= num2 /\ 1 <= result
  /\ applyOperator (opSymbol operation) num1 num2 result = true
  /\ -1 <= hintIndex <= 2
  /\ eq_expression q = showExpression num1 (opSymbol operation) num2 result
  /\ eq_cells q = map slotId (slotsOf q operation num1 num2 result hintIndex)
  /\ Forall (fun p => cellCore <$> JsMap.get (slotId p) cs = Some (slotCore (eq_id q) p))
        (slotsOf q operation num1 num2 result hintIndex).

Definition equationOk (size : GridSize) (cs : JsMap.t CellData) (q : Equation) : Prop :=
  exists operation num1 num2 result hintIndex,
    equationHolds size cs q operation num1 num2 result hintIndex.

(** The identifiers of the five cells of a strip from [(x, y)]. *)
Definition stripIds (horizontal : bool) (x y : Z) : list string :=
  map (fun i => if horizontal then cellId (x + i) y else cellId x (y + i)) (seqZ 0 5).

(** A strip of five cells from [(x, y)] fits in the grid, and none of
    its cells is claimed. *)
Definition stripFits (size : GridSize) (horizontal : bool) (x y : Z) : Prop :=
  0 <= x /\ 0 <= y
  /\ (if horizontal then x + 4 < width size /\ y < height size
      else x < width size /\ y + 4 < height size).

Definition stripFree (horizontal : bool) (x y : Z) (s : Generator) : Prop :=
  forall i, 0 <= i < 5 ->
    (if horizontal then cellId (x + i) y else cellId x (y + i)) ∉ usedPositions s.

(** The identifier of [q] is [eq-j] for a [j] up to [count], or
    [simple-i] for an [i] below [bound]. *)
Definition idShape (count : nat) (bound : Z) (id : string) : Prop :=
  (exists j, 1 <= j <= Z.of_nat count /\ id = "eq-" +:+ showZ j)
  \/ (exists i, 0 <= i < bound /\ id = "simple-" +:+ showZ i).

(** The invariant of the generator between two placements. *)
Record GenInv (size : GridSize) (bound : Z) (s : Generator) : Prop := mkGenInv {
  inv_size : gen_gridSize s = size;
  inv_keys : JsMap.keys (gen_cells s) = map (fun p => cellId p.1 p.2) (gridCoords size);
  inv_equations : Forall (equationOk size (gen_cells s)) (gen_equations s);
  inv_disjoint : NoDup (concat (map eq_cells (gen_equations s)));
  inv_used : forall k, k ∈ concat (map eq_cells (gen_equations s)) -> k ∈ usedPositions s;
  inv_unclaimed : forall x y,
    0 <= x < width size -> 0 <= y < height size ->
    cellId x y ∉ concat (map eq_cells (gen_equations s)) ->
    cellCore <$> JsMap.get (cellId x y) (gen_cells s) = Some (cellCore (emptyCell x y));
  inv_ids : NoDup (map eq_id (gen_equations s));
  inv_idShape : Forall (fun q => idShape (length (gen_equations s)) bound (eq_id q))
                  (gen_equations s)
}.

(** Every tier has a grid of at least six columns and six rows. *)
Definition roomy (size : GridSize) : Prop := 6 <= width size /\ 6 <= height size.

(** From [s] to [s'] the generator only added equations, of the
    orientations that [allowed] admits, and kept its invariant. *)
Definition extends (allowed : bool -> Prop) (size : GridSize) (s s' : Generator) : Prop :=
  GenInv size 0 s'
  /\ gen_equationCount s' = gen_equationCount s
  /\ exists qs, gen_equations s' = gen_equations s ++ qs
       /\ Forall (fun q => allowed (eq_isHorizontal q)) qs.

(** What holds of a board that the generator returns. *)
Record BoardOk (b : GameBoard) : Prop := mkBoardOk {
  bo_cellKeys :
    JsMap.keys (cells b) = map (fun p => cellId p.1 p.2) (gridCoords (gridSize b));
  bo_equationKeys :
    equations b = map (fun q => (eq_id q, q)) (JsMap.values (equations b));
  bo_equationIds : NoDup (map eq_id (JsMap.values (equations b)));
  bo_equations :
    Forall (equationOk (gridSize b) (cells b)) (JsMap.values (equations b));
  bo_disjoint : NoDup (concat (map eq_cells (JsMap.values (equations b))));
  bo_unclaimed : forall x y,
    0 <= x < width (gridSize b) -> 0 <= y < height (gridSize b) ->
    cellId x y ∉ concat (map eq_cells (JsMap.values (equations b))) ->
    cellCore <$> JsMap.get (cellId x y) (cells b) = Some (cellCore (emptyCell x y))
}.

(** What [generateNumbers] promises for each operator. *)
Definition exactContract (operation : Operation) (num1 num2 result : Z) : Prop :=
  match operation with
  | Plus => result = num1 + num2
  | Minus => num1 - num2 = result /\ num1 > num2 /\ num2 > 0
  | Times => result = num1 * num2
  | Divide => 2 <= num2 <= 11 /\ num1 = result * num2
  end.

(** ** Solving a board

    The number cells left to the player, in the order of the map. *)
Definition blankCells (b : GameBoard) : list CellData :=
  List.filter isBlank (JsMap.values (cells b)).

(** [placeTile] for each pair of a tile and a cell in turn; the boolean
    says that every call returned [true]. *)
Fixpoint placeAll (now : Z) (ps : list (string * string)) (e : Engine) : bool * Engine :=
  match ps with
  | [] => (true, e)
  | (tileId, cellId) :: ps' =>
      let '(ok, e1) := placeTile now tileId cellId e in
      let '(ok', e2) := placeAll now ps' e1 in
      (ok && ok', e2)
  end.

(** A plan: the tiles to place, each with its cell and its value. *)
Definition Plan : Type := list (string * string * Z).

Definition planTile (p : string * string * Z) : string := p.1.1.
Definition planCell (p : string * string * Z) : string := p.1.2.
Definition planValue (p : string * string * Z) : Z := p.2.

(** The cell [k] holds [v], or the plan [ps] puts [v] there. *)
Definition settled (cs : JsMap.t CellData) (ps : Plan) (k : string) (v : CellValue) : Prop :=
  ((k ∉ map planCell ps) /\ cell_value <$> JsMap.get k cs = Some v)
  \/ (exists p, p ∈ ps /\ planCell p = k /\ v = VNum (planValue p)).

(** Once the plan [ps] is carried out, the five cells of [q] spell a
    true equation. *)
Definition solvedBy (cs : JsMap.t CellData) (ps : Plan) (q : Equation) : Prop :=
  exists k0 k1 k2 k3 k4 num1 o num2 result,
    eq_cells q = [k0; k1; k2; k3; k4]
    /\ applyOperator o num1 num2 result = true
    /\ settled cs ps k0 (VNum num1)
    /\ settled cs ps k1 (VStr o)
    /\ settled cs ps k2 (VNum num2)
    /\ settled cs ps k3 (VStr "=")
    /\ settled cs ps k4 (VNum result).

(** ** The move log and the board

    In the log [ms], the last tile placed on the cell [cellId] is
    [tileId], and this tile was not placed again since. *)
Definition heldBy (cellId tileId : string) (ms : list GameMove) : Prop :=
  exists before m after,
    ms = before ++ m :: after
    /\ move_type m = place /\ move_cellId m = cellId /\ move_tileId m = tileId
    /\ Forall (fun m' => move_type m' = place ->
                 move_cellId m' <> cellId /\ move_tileId m' <> tileId) after.

(** Every removal in the log names the tile that the log before it says
    was on its cell. *)
Definition removalsJustified (ms : list GameMove) : Prop :=
  forall before m after,
    ms = before ++ m :: after -> move_type m = remove ->
    heldBy (move_cellId m) (move_tileId m) before.

(** What play maintains between the log, the cells and the tiles: a cell
    that the player filled holds the value of the tile that the log says
    is on it, and this tile is used. *)
Record Consistent (g : GameState) : Prop := mkConsistent {
  con_cells : forall c cell,
    JsMap.get c (cells (board g)) = Some cell ->
    cell_isFixed cell = false -> cell_value cell <> VNull ->
    exists t tile,
      heldBy c t (moves g)
      /\ findTile t (availableNumbers g) = Some tile
      /\ cell_value cell = VNum (tile_value tile)
      /\ tile_isUsed tile = true;
  con_log : removalsJustified (moves g)
}.

(** ** What play leaves alone

    A cell without its value and its mark, an equation without its two
    flags, a tile without its used-flag. *)
Definition cellFrame (c : CellData)
    : string * CellType * Position * bool * list string :=
  (cell_id c, cell_type c, cell_position c, cell_isFixed c, cell_belongsToEquation c).

Definition equationFrame (q : Equation)
    : string * list string * string * Z * bool * Position :=
  (eq_id q, eq_cells q, eq_expression q, eq_result q, eq_isHorizontal q,
   eq_startPosition q).

Definition tileFrame (t : NumberTile) : string * Z := (tile_id t, tile_value t).

Record Layout := mkLayout {
  lay_cells : list (string * (string * CellType * Position * bool * list string));
  lay_equations : list (string * (string * list string * string * Z * bool * Position));
  lay_gridSize : GridSize;
  lay_tiles : list (string * Z);
  lay_config : GameConfig
}.

Definition layoutOf (g : GameState) : Layout :=
  mkLayout (map (fun kc => (kc.1, cellFrame kc.2)) (cells (board g)))
    (map (fun kq => (kq.1, equationFrame kq.2)) (equations (board g)))
    (gridSize (board g))
    (map tileFrame (availableNumbers g))
    (config g).

(** The cells that hold a given number, with what they hold. *)
Definition givens (g : GameState) : list (string * CellValue) :=
  map (fun kc => (kc.1, cell_value kc.2))
    (List.filter (fun kc : string * CellData => cell_isFixed kc.2) (cells (board g))).

(** The moves of the log are on cells left to the player. *)
Definition logOnBlanks (g : GameState) : Prop :=
  Forall (fun m => forall cell,
            JsMap.get (move_cellId m) (cells (board g)) = Some cell ->
            cell_isFixed cell = false) (moves g).

(** ** Accounting of a re-validation

    The equation [q], not yet flagged complete, is complete on the cells
    [cs]; it is moreover valid. *)
Definition newlyComplete (cs : JsMap.t CellData) (q : Equation) : bool :=
  negb (eq_isComplete q) && isEquationComplete cs q.

Definition newlyValid (cs : JsMap.t CellData) (q : Equation) : bool :=
  newlyComplete cs q && validateEquation cs q.

(** The bonus of [completeGame]. *)
Definition completionBonus (g : GameState) : Z :=
  Z.max 0 (300 - timeElapsed g) * SCORING.TIME_BONUS_MULTIPLIER
  + SCORING.BASE_POINTS * SCORING.DIFFICULTY_MULTIPLIER_tenths (level (config g)) / 10.

(** [isGameActive()] *)
Definition isGameActive (e : Engine) : bool :=
  match gameState e with
  | Some g => negb (isComplete g)
  | None => false
  end.

(** ** The solution of a cell

    [v] is the number that the expression of an equation of [b] has at
    the place of the cell [k], and this expression is a true statement. *)
Definition solutionAt (b : GameBoard) (k : string) (v : Z) : Prop :=
  exists q num1 o num2 result k0 k1 k2 k3 k4,
    q ∈ JsMap.values (equations b)
    /\ eq_expression q = showExpression num1 o num2 result
    /\ applyOperator o num1 num2 result = true
    /\ eq_cells q = [k0; k1; k2; k3; k4]
    /\ ((k = k0 /\ v = num1) \/ (k = k2 /\ v = num2) \/ (k = k4 /\ v = result)).

(** The board of [g] is a board that satisfies [BoardOk], up to the
    values, marks and flags that play writes; no equation has an empty
    identifier. *)
Definition Generated (g : GameState) : Prop :=
  exists b0,
    BoardOk b0
    /\ Forall (fun q => eq_id q <> "") (JsMap.values (equations b0))
    /\ map (fun kc : string * CellData => (kc.1, cellFrame kc.2)) (cells (board g))
       = map (fun kc => (kc.1, cellFrame kc.2)) (cells b0)
    /\ map (fun kq : string * Equation => (kq.1, equationFrame kq.2))
         (equations (board g))
       = map (fun kq => (kq.1, equationFrame kq.2)) (equations b0).

(** ** The check button ([main.ts])

    [currentGameState] is the object that [startNewGame] returned, which
    the engine updates in place: at every instant it is the state of
    the engine.  [checkSolution] either shows the success dialogue, with
    the score, the time and the level, or announces how many equations
    are left. *)
Inductive CheckOutcome :=
| ShowSuccess (score time : Z) (lvl : DifficultyLevel)
| StillToSolve (incompleteCount : Z).

Definition checkSolution (currentGameState : option GameState) : option CheckOutcome :=
  match currentGameState with
  | None => None
  | Some g =>
      let allComplete :=
        forallb (fun q => eq_isComplete q && eq_isValid q)
                (JsMap.values (equations (board g))) in
      if allComplete
      then Some (ShowSuccess (currentScore g) (timeElapsed g) (level (config g)))
      else
        let incompleteCount :=
          length (List.filter (fun q => negb (eq_isComplete q) || negb (eq_isValid q))
                    (JsMap.values (equations (board g)))) in
        Some (StillToSolve (Z.of_nat incompleteCount))
  end.

(** The two flags of every equation are what [checkEquations] computes
    from the cells as they stand. *)
Definition flagsFresh (b : GameBoard) : Prop :=
  Forall (fun q =>
            eq_isComplete q = isEquationComplete (cells b) q
            /\ eq_isValid q
               = (isEquationComplete (cells b) q && validateEquation (cells b) q))
    (JsMap.values (equations b)).

(** No equation of the generator is flagged. *)
Definition unflagged (s : Generator) : Prop :=
  Forall (fun q => eq_isComplete q = false /\ eq_isValid q = false) (gen_equations s).

(** When [m] returns, it has kept [I]. *)
Definition keeps {A} (I : Generator -> Prop) (m : Gen A) : Prop :=
  forall s rng a s' rng', m s rng = Returned a s' rng' -> I s -> I s'.


(** ** The log and the used tiles

    Every entry of the log names a cell of the board and a tile of the
    hand, and a tile that is marked used has a placement in the log. *)
Definition usedTilesLogged (g : GameState) : Prop :=
  Forall (fun m =>
            is_Some (JsMap.get (move_cellId m) (cells (board g)))
            /\ is_Some (findTile (move_tileId m) (availableNumbers g)))
    (moves g)
  /\ forall t tile,
       findTile t (availableNumbers g) = Some tile -> tile_isUsed tile = true ->
       exists m, m ∈ moves g /\ move_type m = place /\ move_tileId m = t.


(** ** Undoing the log in thought

    What [undoLastMove] does to the cells when it reverts [m]: the cell
    of a placement is emptied, the cell of a removal gets the value of
    its tile back. *)
Definition revertCells (ts : list NumberTile) (m : GameMove)
    (cs : JsMap.t CellData) : JsMap.t CellData :=
  match findTile (move_tileId m) ts, JsMap.get (move_cellId m) cs with
  | Some tile, Some _ =>
      JsMap.update (move_cellId m)
        (setValue (match move_type m with
                   | place => VNull
                   | remove => VNum (tile_value tile)
                   end)) cs
  | _, _ => cs
  end.

(** The cells after the moves [ms] have been reverted, the last one
    first. *)
Definition unwindCells (ts : list NumberTile) (ms : list GameMove)
    (cs : JsMap.t CellData) : JsMap.t CellData :=
  foldr (revertCells ts) cs ms.

(** Every equation of [es] is complete and valid on the cells [cs]. *)
Definition allSatOn (es : JsMap.t Equation) (cs : JsMap.t CellData) : bool :=
  forallb (fun q => isEquationComplete cs q && validateEquation cs q) (JsMap.values es).

(** The cell [c'] is the cell [c], or [c] emptied; an emptied cell is
    not an operator or an equals sign. *)
Definition lowerCell (c' c : CellData) : Prop :=
  cellFrame c' = cellFrame c
  /\ (cell_value c' = cell_value c
      \/ (cell_value c' = VNull
          /\ cell_type c' <> operator /\ cell_type c' <> equals)).

Definition lower (cs' cs : JsMap.t CellData) : Prop :=
  forall k, option_Forall2 lowerCell (JsMap.get k cs') (JsMap.get k cs).

(** Undoing the log down to a removal, that removal included, gives
    cells on which some equation is open or false: the cells on which
    the removal was accepted were such. *)
Definition removalsUnsolved (g : GameState) : Prop :=
  forall before m after,
    moves g = before ++ m :: after -> move_type m = remove ->
    allSatOn (equations (board g))
      (unwindCells (availableNumbers g) (m :: after) (cells (board g))) = false.

(** A game in progress is not solved, and no removal of its log was made
    on a solved board. *)
Definition Unsolved (g : GameState) : Prop :=
  (isComplete g = false -> allEquationsSatisfied g = false)
  /\ removalsUnsolved g.


(** * Properties *)

(** ** Insertion-ordered maps *)

Section JsMapFacts.
Context {V : Type}.
Implicit Types (m : JsMap.t V) (k : string) (f : V -> V).

Lemma get_update_eq m k f :
  JsMap.get k (JsMap.update k f m) = f <$> JsMap.get k m.
Proof.
  induction m as [|[k' v] m IH]; simpl; [done|].
  destruct (String.eqb k k') eqn:E; simpl; rewrite E; [done|apply IH].
Qed.

Lemma get_update_ne m k k' f :
  k <> k' -> JsMap.get k' (JsMap.update k f m) = JsMap.get k' m.
Proof.
  intros Hne. induction m as [|[k0 v] m IH]; simpl; [done|].
  destruct (String.eqb k k0) eqn:E; simpl.
  - apply String.eqb_eq in E. subst k0.
    destruct (String.eqb k' k) eqn:E'; [|done].
    apply String.eqb_eq in E'. congruence.
  - destruct (String.eqb k' k0); [done|apply IH].
Qed.

Lemma keys_update m k f : JsMap.keys (JsMap.update k f m) = JsMap.keys m.
Proof.
  induction m as [|[k' v] m IH]; simpl; [done|].
  destruct (String.eqb k k'); simpl; [done|]. f_equal. apply IH.
Qed.

Lemma update_absent m k f : JsMap.get k m = None -> JsMap.update k f m = m.
Proof.
  induction m as [|[k' v] m IH]; simpl; [done|].
  destruct (String.eqb k k'); [done|]. intros H. f_equal. auto.
Qed.

Lemma get_Some_values m k v : JsMap.get k m = Some v -> v ∈ JsMap.values m.
Proof.
  induction m as [|[k' v'] m IH]; simpl; [done|].
  destruct (String.eqb k k').
  - intros [= ->]. apply list_elem_of_here.
  - intros H. apply list_elem_of_further. auto.
Qed.

End JsMapFacts.

(** ** Re-validation of the equations *)

Lemma forallb_pointwise {A} (f g : A -> bool) (l : list A) :
  (forall x, f x = g x) -> forallb f l = forallb g l.
Proof. intros H. induction l as [|a l IH]; simpl; [done|]. by rewrite H, IH. Qed.

Lemma cellCore_eq c c' :
  cellCore c = cellCore c' ->
  cell_id c = cell_id c' /\ cell_type c = cell_type c'
  /\ cell_value c = cell_value c' /\ cell_position c = cell_position c'
  /\ cell_isFixed c = cell_isFixed c'
  /\ cell_belongsToEquation c = cell_belongsToEquation c'.
Proof. unfold cellCore. intros H. injection H as H1 H2 H3 H4 H5 H6. repeat split; assumption. Qed.

Lemma sameCores_refl cs : sameCores cs cs.
Proof. reflexivity. Qed.

Lemma sameCores_trans cs1 cs2 cs3 :
  sameCores cs1 cs2 -> sameCores cs2 cs3 -> sameCores cs1 cs3.
Proof. unfold sameCores. congruence. Qed.

Lemma sameCores_get cs cs' k :
  sameCores cs cs' ->
  cellCore <$> JsMap.get k cs = cellCore <$> JsMap.get k cs'.
Proof.
  unfold sameCores. revert cs'.
  induction cs as [|[k1 c1] cs IH]; intros [|[k2 c2] cs']; simpl; try done.
  intros H. apply (inj2 cons) in H as [H1 Hrest].
  apply pair_equal_spec in H1 as [-> Hc].
  destruct (String.eqb k k2); simpl.
  - by rewrite Hc.
  - by apply IH.
Qed.

Lemma sameCores_keys cs cs' : sameCores cs cs' -> JsMap.keys cs = JsMap.keys cs'.
Proof.
  unfold sameCores, JsMap.keys. intros H.
  apply (f_equal (map fst)) in H. rewrite !map_map in H. exact H.
Qed.

Lemma sameCores_update cs k b :
  sameCores cs (JsMap.update k (setIsCorrect b) cs).
Proof.
  unfold sameCores. induction cs as [|[k' c] cs IH]; simpl; [done|].
  destruct (String.eqb k k'); simpl; [done|]. by f_equal.
Qed.

Lemma sameCores_markCorrectness b ids cs :
  sameCores cs (markCorrectness b ids cs).
Proof.
  unfold markCorrectness. revert cs.
  induction ids as [|k ids IH]; intros cs; simpl; [apply sameCores_refl|].
  eapply sameCores_trans; [|apply IH].
  destruct (JsMap.get k cs) as [c|]; [|apply sameCores_refl].
  case_bool_decide; [apply sameCores_update|apply sameCores_refl].
Qed.

Lemma sameCores_value cs cs' k :
  sameCores cs cs' ->
  cell_value <$> JsMap.get k cs = cell_value <$> JsMap.get k cs'.
Proof.
  intros H. pose proof (sameCores_get _ _ k H) as Hk.
  destruct (JsMap.get k cs), (JsMap.get k cs'); simpl in *; try done.
  apply (inj Some) in Hk. apply cellCore_eq in Hk as (_ & _ & -> & _). done.
Qed.

Lemma isEquationComplete_sameCores cs cs' q :
  sameCores cs cs' -> isEquationComplete cs q = isEquationComplete cs' q.
Proof.
  intros H. unfold isEquationComplete. apply forallb_pointwise. intros k.
  pose proof (sameCores_get _ _ k H) as Hk.
  destruct (JsMap.get k cs), (JsMap.get k cs'); simpl in *; try done.
  apply (inj Some) in Hk. apply cellCore_eq in Hk as (_ & -> & -> & _). done.
Qed.

Lemma valueAt_sameCores cs cs' q i :
  sameCores cs cs' -> valueAt cs q i = valueAt cs' q i.
Proof.
  intros H. unfold valueAt. destruct (nth_error (eq_cells q) i); [|done].
  by apply sameCores_value.
Qed.

Lemma validateEquation_sameCores cs cs' q :
  sameCores cs cs' -> validateEquation cs q = validateEquation cs' q.
Proof.
  intros H. unfold validateEquation.
  by rewrite !(valueAt_sameCores cs cs' q _ H).
Qed.

Lemma refreshFlags_sameCores cs cs' q :
  sameCores cs cs' -> refreshFlags cs q = refreshFlags cs' q.
Proof.
  intros H. unfold refreshFlags.
  by rewrite (isEquationComplete_sameCores _ _ _ H), (validateEquation_sameCores _ _ _ H).
Qed.

Lemma checkEquationsLoop_spec now es a es' a' :
  checkEquationsLoop now es a = (es', a') ->
  sameCores (acc_cells a) (acc_cells a')
  /\ acc_score a <= acc_score a'
  /\ es' = map (fun kq => (kq.1, refreshFlags (acc_cells a) kq.2)) es.
Proof.
  revert a es' a'. induction es as [|[k q] es IH]; intros a es' a'; simpl.
  - intros [= <- <-]. split; [apply sameCores_refl|]. split; [lia|done].
  - set (c := isEquationComplete (acc_cells a) q).
    set (v := if c then validateEquation (acc_cells a) q else false).
    set (cs := markCorrectness v (eq_cells q) (acc_cells a)).
    set (a1 := if negb (eq_isComplete q) && c then _ else _).
    destruct (checkEquationsLoop now es a1) as [es1 a2] eqn:Hloop.
    intros [= <- <-]. apply IH in Hloop as (Hc & Hs & ->).
    assert (Hcs : sameCores (acc_cells a) (acc_cells a1)).
    { subst a1. destruct (negb (eq_isComplete q) && c); simpl;
        apply sameCores_markCorrectness. }
    assert (Hsc : acc_score a <= acc_score a1).
    { subst a1. destruct (negb (eq_isComplete q) && c); simpl; [|lia].
      destruct v; unfold SCORING.BASE_POINTS; lia. }
    split; [by eapply sameCores_trans|]. split; [lia|].
    simpl.
    assert (Hq : setFlags c v q = refreshFlags (acc_cells a) q).
    { unfold refreshFlags. fold c. subst v. by destruct c. }
    assert (Hes : map (fun kq => (kq.1, refreshFlags (acc_cells a1) kq.2)) es
                  = map (fun kq => (kq.1, refreshFlags (acc_cells a) kq.2)) es).
    { apply map_ext. intros [k' q']. simpl.
      by rewrite (refreshFlags_sameCores _ _ q' Hcs). }
    by rewrite Hq, Hes.
Qed.

(** What [checkEquations] changes: the correctness marks, the flags of
    the equations, and the score, which can only grow. *)
Lemma checkEquations_spec now e g :
  gameState e = Some g ->
  exists g',
    gameState (checkEquations now e) = Some g'
    /\ gameTimer (checkEquations now e) = gameTimer e
    /\ startTime (checkEquations now e) = startTime e
    /\ sameCores (cells (board g)) (cells (board g'))
    /\ equations (board g')
       = map (fun kq => (kq.1, refreshFlags (cells (board g)) kq.2)) (equations (board g))
    /\ currentScore g <= currentScore g'
    /\ availableNumbers g' = availableNumbers g
    /\ moves g' = moves g
    /\ hints g' = hints g
    /\ isComplete g' = isComplete g
    /\ timeElapsed g' = timeElapsed g
    /\ config g' = config g.
Proof.
  intros Hg. unfold checkEquations. rewrite Hg.
  destruct (checkEquationsLoop _ _ _) as [es a] eqn:Hloop.
  apply checkEquationsLoop_spec in Hloop as (Hc & Hs & ->). simpl in *.
  eexists. split; [reflexivity|]. simpl. repeat split; auto.
Qed.

(** ** The score *)

Lemma scoreOf_checkEquations now e : scoreOf e <= scoreOf (checkEquations now e).
Proof.
  unfold scoreOf at 1. destruct (gameState e) as [g|] eqn:Hg.
  - destruct (checkEquations_spec now e g Hg) as (g' & Hg' & _ & _ & _ & _ & Hs & _).
    unfold scoreOf. by rewrite Hg'.
  - unfold checkEquations, scoreOf. by rewrite Hg, Hg.
Qed.

Lemma completion_bonus_nonneg t d :
  0 <= Z.max 0 (300 - t) * SCORING.TIME_BONUS_MULTIPLIER
       + SCORING.BASE_POINTS * SCORING.DIFFICULTY_MULTIPLIER_tenths d / 10.
Proof.
  unfold SCORING.TIME_BONUS_MULTIPLIER, SCORING.BASE_POINTS.
  assert (0 <= 100 * SCORING.DIFFICULTY_MULTIPLIER_tenths d / 10)
    by (destruct d; simpl; apply Z.div_pos; lia).
  lia.
Qed.

Lemma scoreOf_completeGame now e : scoreOf e <= scoreOf (completeGame now e).
Proof.
  unfold completeGame, scoreOf. destruct (gameState e) as [g|] eqn:Hg; simpl.
  - pose proof (completion_bonus_nonneg (timeElapsed g) (level (config g))). lia.
  - by rewrite Hg.
Qed.

Lemma scoreOf_checkGameCompletion now e :
  scoreOf e <= scoreOf (checkGameCompletion now e).
Proof.
  unfold checkGameCompletion. destruct (gameState e) as [g|] eqn:Hg; [|lia].
  destruct (isComplete g); [lia|].
  destruct (forallb _ _); [apply scoreOf_completeGame|lia].
Qed.

Lemma scoreOf_placeTile now tileId cellId e :
  scoreOf e <= scoreOf (snd (placeTile now tileId cellId e)).
Proof.
  unfold placeTile. destruct (gameState e) as [g|] eqn:Hg; simpl; [|lia].
  destruct (isComplete g); simpl; [lia|].
  destruct (findTile _ _) as [tile|]; simpl; [|lia].
  destruct (JsMap.get _ _) as [cell|]; simpl; [|lia].
  destruct (_ || _); simpl; [lia|].
  etrans; [|apply scoreOf_checkGameCompletion].
  etrans; [|apply scoreOf_checkEquations].
  unfold scoreOf. rewrite Hg. simpl. lia.
Qed.

Lemma scoreOf_removeTile now cellId e :
  scoreOf e <= scoreOf (snd (removeTile now cellId e)).
Proof.
  unfold removeTile. destruct (gameState e) as [g|] eqn:Hg; simpl; [|lia].
  destruct (isComplete g); simpl; [lia|].
  destruct (JsMap.get _ _) as [cell|]; simpl; [|lia].
  destruct (_ || _); simpl; [lia|].
  destruct (findLastPlace _ _) as [lastMove|]; simpl; [|lia].
  destruct (findTile _ _) as [tile|]; simpl; [|lia].
  etrans; [|apply scoreOf_checkEquations].
  unfold scoreOf. rewrite Hg. simpl. lia.
Qed.

Lemma currentScore_revertMove m g : currentScore (revertMove m g) = currentScore g.
Proof.
  unfold revertMove. destruct (findTile _ _); [|done].
  destruct (JsMap.get _ _); [|done]. by destruct (move_type m).
Qed.

Lemma scoreOf_undoLastMove now e :
  scoreOf e <= scoreOf (snd (undoLastMove now e)).
Proof.
  unfold undoLastMove. destruct (gameState e) as [g|] eqn:Hg; simpl; [|lia].
  destruct (popMove _) as [[lastMove rest]|]; simpl; [|lia].
  etrans; [|apply scoreOf_checkEquations].
  unfold scoreOf. rewrite Hg. simpl. rewrite currentScore_revertMove. simpl. lia.
Qed.

Lemma scoreOf_timerTick now e : scoreOf (timerTick now e) = scoreOf e.
Proof.
  unfold timerTick, scoreOf. destruct (gameTimer e); [|done].
  destruct (gameState e) as [g|] eqn:Hg; [|by rewrite Hg].
  destruct (isComplete g); [by rewrite Hg|done].
Qed.

Lemma scoreOf_exec now c e :
  isHint c = false -> scoreOf e <= scoreOf (exec now c e).
Proof.
  destruct c; simpl; intros H; try done.
  - apply scoreOf_placeTile.
  - apply scoreOf_removeTile.
  - apply scoreOf_undoLastMove.
  - rewrite scoreOf_timerTick. lia.
Qed.

Lemma getHint_score rng e r e' rng' :
  getHint rng e = (Some r, e', rng') ->
  scoreOf e' = Z.max 0 (scoreOf e - SCORING.HINT_PENALTY).
Proof.
  unfold getHint, scoreOf. destruct (gameState e) as [g|] eqn:Hg; [|done].
  destruct (hints g <=? 0); [done|].
  destruct (List.filter _ _) as [|c l]; [done|].
  destruct (random rng) as [k rng1].
  destruct (nth_error _ _) as [target|]; [|done].
  destruct (getCorrectValueForCell _ _); [|done].
  by intros [= _ <- _].
Qed.

(** C8: no sequence of placements, removals and undos (nor the ticks of
    the timer between them) lowers the score: points once awarded are
    never taken back.  A hint that is granted is what lowers it, to
    [max(0, score - HINT_PENALTY)]. *)
Theorem score_never_decreases :
  (forall cs e,
      forallb (fun nc => negb (isHint nc.2)) cs = true ->
      scoreOf e <= scoreOf (run cs e))
  /\ (forall rng e r e' rng',
         getHint rng e = (Some r, e', rng') ->
         scoreOf e' = Z.max 0 (scoreOf e - SCORING.HINT_PENALTY)).
Proof.
  split; [|apply getHint_score].
  intros cs. induction cs as [|[now c] cs IH]; intros e; simpl; [lia|].
  intros [Hc Hcs]%andb_prop. etrans; [|by apply IH].
  apply scoreOf_exec. by destruct (isHint c).
Qed.

(** ** Hints *)

Lemma hintsOf_checkEquations now e : hintsOf (checkEquations now e) = hintsOf e.
Proof.
  unfold hintsOf at 2. destruct (gameState e) as [g|] eqn:Hg.
  - destruct (checkEquations_spec now e g Hg)
      as (g' & Hg' & _ & _ & _ & _ & _ & _ & _ & Hh & _).
    unfold hintsOf. by rewrite Hg'.
  - unfold checkEquations, hintsOf. by rewrite Hg, Hg.
Qed.

Lemma hintsOf_checkGameCompletion now e :
  hintsOf (checkGameCompletion now e) = hintsOf e.
Proof.
  unfold checkGameCompletion. destruct (gameState e) as [g|] eqn:Hg; [|done].
  destruct (isComplete g); [done|]. destruct (forallb _ _); [|done].
  unfold completeGame, hintsOf. by rewrite Hg.
Qed.

Lemma hints_revertMove m g : hints (revertMove m g) = hints g.
Proof.
  unfold revertMove. destruct (findTile _ _); [|done].
  destruct (JsMap.get _ _); [|done]. by destruct (move_type m).
Qed.

Lemma hintsOf_timerTick now e : hintsOf (timerTick now e) = hintsOf e.
Proof.
  unfold timerTick, hintsOf. destruct (gameTimer e); [|done].
  destruct (gameState e) as [g|] eqn:Hg; [|by rewrite Hg].
  destruct (isComplete g); [by rewrite Hg|done].
Qed.

Lemma hintsOf_exec now c e :
  isHint c = false -> hintsOf (exec now c e) = hintsOf e.
Proof.
  destruct c as [tileId cellId|cellId| | |]; simpl; intros H; try done.
  - unfold placeTile. destruct (gameState e) as [g|] eqn:Hg; simpl; [|done].
    destruct (isComplete g); simpl; [done|].
    destruct (findTile _ _) as [tile|]; simpl; [|done].
    destruct (JsMap.get _ _) as [cell|]; simpl; [|done].
    destruct (_ || _); simpl; [done|].
    rewrite hintsOf_checkGameCompletion, hintsOf_checkEquations.
    unfold hintsOf. by rewrite Hg.
  - unfold removeTile. destruct (gameState e) as [g|] eqn:Hg; simpl; [|done].
    destruct (isComplete g); simpl; [done|].
    destruct (JsMap.get _ _) as [cell|]; simpl; [|done].
    destruct (_ || _); simpl; [done|].
    destruct (findLastPlace _ _) as [lastMove|]; simpl; [|done].
    destruct (findTile _ _) as [tile|]; simpl; [|done].
    rewrite hintsOf_checkEquations. unfold hintsOf. by rewrite Hg.
  - unfold undoLastMove. destruct (gameState e) as [g|] eqn:Hg; simpl; [|done].
    destruct (popMove _) as [[lastMove rest]|]; simpl; [|done].
    rewrite hintsOf_checkEquations. unfold hintsOf. rewrite Hg. simpl.
    by rewrite hints_revertMove.
  - apply hintsOf_timerTick.
Qed.

Lemma getHint_refused rng e :
  gameState e = None
  \/ hintsOf e <= 0
  \/ (exists g, gameState e = Some g
        /\ List.filter isUnfilled (JsMap.values (cells (board g))) = []) ->
  getHint rng e = (None, e, rng).
Proof.
  unfold getHint, hintsOf. destruct (gameState e) as [g|]; [|done].
  intros [H|[H|(g' & [= <-] & H)]]; [done| |].
  - by destruct (Z.leb_spec (hints g) 0); [|lia].
  - destruct (hints g <=? 0); [done|]. by rewrite H.
Qed.

Lemma getHint_cases rng e r e' rng' :
  getHint rng e = (r, e', rng') ->
  (r = None /\ e' = e)
  \/ (exists h, r = Some h
        /\ 0 < hintsOf e
        /\ hintsOf e' = hintsOf e - 1
        /\ scoreOf e' = Z.max 0 (scoreOf e - SCORING.HINT_PENALTY)).
Proof.
  unfold getHint, hintsOf, scoreOf.
  destruct (gameState e) as [g|] eqn:Hg; [|intros [= <- <- _]; by left].
  destruct (Z.leb_spec (hints g) 0); [intros [= <- <- _]; by left|].
  destruct (List.filter _ _) as [|c l]; [intros [= <- <- _]; by left|].
  destruct (random rng) as [k rng1].
  destruct (nth_error _ _) as [target|]; [|intros [= <- <- _]; by left].
  destruct (getCorrectValueForCell _ _) as [v|]; [|intros [= <- <- _]; by left].
  intros [= <- <- _]. right. eexists. split; [done|]. simpl.
  repeat split; try done; lia.
Qed.

Lemma hintsOf_run cs e :
  0 <= hintsOf e -> 0 <= hintsOf (run cs e) <= hintsOf e.
Proof.
  revert e. induction cs as [|[now c] cs IH]; intros e He; simpl; [lia|].
  assert (0 <= hintsOf (exec now c e) <= hintsOf e) as Hstep.
  { destruct (isHint c) eqn:Hc.
    - destruct c; try done. simpl.
      destruct (getHint rng e) as [[r e'] rng'] eqn:Hh. simpl.
      apply getHint_cases in Hh as [[_ ->]|(h & _ & Hpos & -> & _)]; lia.
    - rewrite hintsOf_exec by done. lia. }
  specialize (IH (exec now c e)). lia.
Qed.

(** C9: [getHint] returns nothing and changes nothing when there is no
    game, no hint left or no blank cell to fill; a hint that is granted
    takes exactly one from a positive counter and leaves the score at
    [max(0, score - HINT_PENALTY)]; no other command touches the
    counter, which therefore never goes below zero. *)
Theorem hint_accounting :
  (forall rng e,
      gameState e = None
      \/ hintsOf e <= 0
      \/ (exists g, gameState e = Some g
            /\ List.filter isUnfilled (JsMap.values (cells (board g))) = []) ->
      getHint rng e = (None, e, rng))
  /\ (forall rng e r e' rng',
         getHint rng e = (r, e', rng') ->
         (r = None /\ e' = e)
         \/ (exists h, r = Some h
               /\ hintsOf e' = hintsOf e - 1 /\ 0 <= hintsOf e'
               /\ scoreOf e' = Z.max 0 (scoreOf e - SCORING.HINT_PENALTY)
               /\ 0 <= scoreOf e'))
  /\ (forall now c e, isHint c = false -> hintsOf (exec now c e) = hintsOf e)
  /\ (forall cs e, 0 <= hintsOf e -> 0 <= hintsOf (run cs e) <= hintsOf e).
Proof.
  split; [apply getHint_refused|]. split; [|split; [apply hintsOf_exec|apply hintsOf_run]].
  intros rng e r e' rng' H.
  apply getHint_cases in H as [H|(h & -> & Hpos & Hh & Hs)]; [by left|right].
  exists h. repeat split; try done; lia.
Qed.

(** ** Tiles and the move log *)

Lemma findTile_updateTile_eq k f ts :
  (forall t, tile_id (f t) = tile_id t) ->
  findTile k (updateTile k f ts) = f <$> findTile k ts.
Proof.
  intros Hf. induction ts as [|t ts IH]; simpl; [done|].
  destruct (String.eqb (tile_id t) k) eqn:E; simpl.
  - by rewrite Hf, E.
  - by rewrite E.
Qed.

Lemma findTile_updateTile_ne k k' f ts :
  (forall t, tile_id (f t) = tile_id t) -> k <> k' ->
  findTile k' (updateTile k f ts) = findTile k' ts.
Proof.
  intros Hf Hne. induction ts as [|t ts IH]; simpl; [done|].
  destruct (String.eqb (tile_id t) k) eqn:E; simpl.
  - rewrite Hf. apply String.eqb_eq in E.
    destruct (String.eqb (tile_id t) k') eqn:E'; [|done].
    apply String.eqb_eq in E'. congruence.
  - destruct (String.eqb (tile_id t) k'); [done|apply IH].
Qed.

Lemma findTile_value_updateTile k k' b ts :
  tile_value <$> findTile k' (updateTile k (setIsUsed b) ts)
  = tile_value <$> findTile k' ts.
Proof.
  induction ts as [|t ts IH]; simpl; [done|].
  destruct (String.eqb (tile_id t) k) eqn:E; simpl.
  - by destruct (String.eqb (tile_id t) k').
  - by destruct (String.eqb (tile_id t) k').
Qed.

Lemma popMove_snoc ms m : popMove (ms ++ [m]) = Some (m, ms).
Proof. unfold popMove. rewrite rev_app_distr. simpl. by rewrite rev_involutive. Qed.

Lemma popMove_Some ms m rest : popMove ms = Some (m, rest) -> ms = rest ++ [m].
Proof.
  unfold popMove. destruct (rev ms) as [|m' r] eqn:E; [done|].
  intros [= -> <-]. rewrite <- (rev_involutive ms), E. done.
Qed.

Lemma popMove_None ms : popMove ms = None -> ms = [].
Proof.
  unfold popMove. destruct (rev ms) as [|m' r] eqn:E; [|done].
  intros _. by rewrite <- (rev_involutive ms), E.
Qed.

Lemma findLastPlace_snoc cellId ms m :
  findLastPlace cellId (ms ++ [m])
  = if bool_decide (move_type m = place) && String.eqb (move_cellId m) cellId
    then Some m else findLastPlace cellId ms.
Proof. unfold findLastPlace. by rewrite rev_app_distr. Qed.

(** What [writeTileAndCell] leaves in place. *)
Lemma writeTileAndCell_fields t c b v g :
  isComplete (writeTileAndCell t c b v g) = isComplete g
  /\ moves (writeTileAndCell t c b v g) = moves g
  /\ hints (writeTileAndCell t c b v g) = hints g
  /\ currentScore (writeTileAndCell t c b v g) = currentScore g
  /\ equations (board (writeTileAndCell t c b v g)) = equations (board g)
  /\ config (writeTileAndCell t c b v g) = config g
  /\ timeElapsed (writeTileAndCell t c b v g) = timeElapsed g.
Proof. done. Qed.

Lemma cellValueOf_write_eq t c b v g cell :
  JsMap.get c (cells (board g)) = Some cell ->
  cellValueOf c (writeTileAndCell t c b v g) = Some v.
Proof.
  intros H. unfold cellValueOf, writeTileAndCell. simpl.
  by rewrite get_update_eq, H.
Qed.

Lemma cellValueOf_write_ne t c c' b v g :
  c <> c' -> cellValueOf c' (writeTileAndCell t c b v g) = cellValueOf c' g.
Proof.
  intros H. unfold cellValueOf, writeTileAndCell. simpl.
  by rewrite get_update_ne.
Qed.

Lemma tileUsedOf_write_eq t c b v g tile :
  findTile t (availableNumbers g) = Some tile ->
  tileUsedOf t (writeTileAndCell t c b v g) = Some b.
Proof.
  intros H. unfold tileUsedOf, writeTileAndCell. simpl.
  rewrite findTile_updateTile_eq by done. by rewrite H.
Qed.

Lemma tileUsedOf_write_ne t t' c b v g :
  t <> t' -> tileUsedOf t' (writeTileAndCell t c b v g) = tileUsedOf t' g.
Proof.
  intros H. unfold tileUsedOf, writeTileAndCell. simpl.
  by rewrite findTile_updateTile_ne.
Qed.

(** [checkEquations] changes neither a value nor a tile. *)
Lemma checkEquations_state now e g :
  gameState e = Some g ->
  exists g',
    gameState (checkEquations now e) = Some g'
    /\ (forall c, cellValueOf c g' = cellValueOf c g)
    /\ availableNumbers g' = availableNumbers g
    /\ moves g' = moves g
    /\ isComplete g' = isComplete g.
Proof.
  intros Hg.
  destruct (checkEquations_spec now e g Hg)
    as (g' & Hg' & _ & _ & Hc & _ & _ & Ht & Hm & _ & Hi & _).
  exists g'. repeat split; try done.
  intros c. unfold cellValueOf. symmetry. by apply sameCores_value.
Qed.

(** C10: a completed game still accepts [undoLastMove]: with a move in
    the log the call returns [true], takes that move off the log and
    reverts it on the board (the cell is cleared and the tile freed for a
    placement, the cell refilled and the tile taken for a removal), and
    [isComplete] stays set, so that [placeTile] and [removeTile] keep
    being refused on the changed board. *)
Theorem undo_accepted_after_completion now e g ms m :
  gameState e = Some g ->
  isComplete g = true ->
  moves g = ms ++ [m] ->
  exists e' g',
    undoLastMove now e = (true, e')
    /\ gameState e' = Some g'
    /\ isComplete g' = true
    /\ moves g' = ms
    /\ (forall tile cell,
          findTile (move_tileId m) (availableNumbers g) = Some tile ->
          JsMap.get (move_cellId m) (cells (board g)) = Some cell ->
          cellValueOf (move_cellId m) g'
          = Some (match move_type m with
                  | place => VNull
                  | remove => VNum (tile_value tile)
                  end)
          /\ tileUsedOf (move_tileId m) g'
             = Some (match move_type m with place => false | remove => true end))
    /\ (forall now' tileId cellId,
          placeTile now' tileId cellId e' = (false, e')
          /\ removeTile now' cellId e' = (false, e')).
Proof.
  intros Hg Hc Hm. unfold undoLastMove. rewrite Hg, Hm, popMove_snoc.
  set (g1 := revertMove m (setMoves ms g)).
  destruct (checkEquations_state now (withState g1 e) g1 eq_refl)
    as (g' & Hg' & Hv & Ht & Hms & Hi).
  assert (Hg1 : isComplete g1 = true /\ moves g1 = ms).
  { subst g1. unfold revertMove. simpl.
    destruct (findTile _ _); [|done]. destruct (JsMap.get _ _); [|done].
    by destruct (move_type m). }
  destruct Hg1 as [Hc1 Hm1].
  exists (checkEquations now (withState g1 e)), g'.
  split; [done|]. split; [done|]. split; [congruence|]. split; [congruence|].
  split.
  - intros tile cell Htile Hcell. rewrite Hv. unfold tileUsedOf. rewrite Ht.
    subst g1. unfold revertMove. simpl. rewrite Htile, Hcell.
    destruct (move_type m).
    + split; [by eapply cellValueOf_write_eq|].
      by apply (tileUsedOf_write_eq _ _ _ _ (setMoves ms g) tile).
    + split; [by eapply cellValueOf_write_eq|].
      by apply (tileUsedOf_write_eq _ _ _ _ (setMoves ms g) tile).
  - intros now' tileId cellId. unfold placeTile, removeTile.
    rewrite Hg', Hi, Hc1. done.
Qed.

(** ** The completion check *)

Lemma isEquationComplete_setFlags cs b1 b2 q :
  isEquationComplete cs (setFlags b1 b2 q) = isEquationComplete cs q.
Proof. done. Qed.

Lemma validateEquation_setFlags cs b1 b2 q :
  validateEquation cs (setFlags b1 b2 q) = validateEquation cs q.
Proof. done. Qed.

(** After [checkEquations] the flags say what the cells say. *)
Lemma checkEquations_flags now e g g' :
  gameState e = Some g ->
  gameState (checkEquations now e) = Some g' ->
  forallb (fun q => eq_isComplete q && eq_isValid q)
          (JsMap.values (equations (board g')))
  = allEquationsSatisfied g'.
Proof.
  intros Hg Hg'.
  destruct (checkEquations_spec now e g Hg)
    as (g'' & Hg'' & _ & _ & Hc & He & _).
  assert (g'' = g') as -> by congruence.
  unfold allEquationsSatisfied. rewrite He. unfold JsMap.values.
  rewrite !map_map. simpl. clear He.
  induction (equations (board g)) as [|[k q] es IH]; simpl; [done|].
  rewrite IH. f_equal. unfold refreshFlags.
  rewrite isEquationComplete_setFlags, validateEquation_setFlags.
  rewrite <- (isEquationComplete_sameCores _ _ q Hc).
  rewrite <- (validateEquation_sameCores _ _ q Hc).
  by destruct (isEquationComplete _ q), (validateEquation _ q).
Qed.

Lemma checkGameCompletion_spec now e g :
  gameState e = Some g ->
  isComplete g = false ->
  exists g',
    gameState (checkGameCompletion now e) = Some g'
    /\ board g' = board g
    /\ availableNumbers g' = availableNumbers g
    /\ moves g' = moves g
    /\ isComplete g'
       = forallb (fun q => eq_isComplete q && eq_isValid q)
                 (JsMap.values (equations (board g))).
Proof.
  intros Hg Hc. unfold checkGameCompletion. rewrite Hg, Hc.
  destruct (forallb _ _).
  - unfold completeGame. rewrite Hg. simpl. eexists. by split.
  - exists g. by repeat split.
Qed.

Lemma isComplete_revertMove m g : isComplete (revertMove m g) = isComplete g.
Proof.
  unfold revertMove. destruct (findTile _ _); [|done].
  destruct (JsMap.get _ _); [|done]. by destruct (move_type m).
Qed.

Lemma placeTile_true now tileId cellId e e' :
  placeTile now tileId cellId e = (true, e') ->
  exists g tile cell,
    gameState e = Some g
    /\ isComplete g = false
    /\ findTile tileId (availableNumbers g) = Some tile
    /\ JsMap.get cellId (cells (board g)) = Some cell
    /\ tile_isUsed tile = false
    /\ cell_isFixed cell = false
    /\ cell_type cell = number
    /\ e' = checkGameCompletion now (checkEquations now
              (emit (TilePlaced now tileId cellId (tile_value tile))
                 (withState
                    (pushMove (mkMove now place tileId cellId now)
                       (writeTileAndCell tileId cellId true (VNum (tile_value tile)) g))
                    e))).
Proof.
  unfold placeTile. destruct (gameState e) as [g|]; [|done].
  destruct (isComplete g) eqn:Hc; [done|].
  destruct (findTile _ _) as [tile|] eqn:Ht; [|done].
  destruct (JsMap.get _ _) as [cell|] eqn:Hcell; [|done].
  destruct (tile_isUsed tile) eqn:Hu; [done|].
  destruct (cell_isFixed cell) eqn:Hf; [done|].
  case_bool_decide; [|done]. simpl. intros [= <-].
  exists g, tile, cell. by repeat split.
Qed.

Lemma placeTile_false now tileId cellId e e' :
  placeTile now tileId cellId e = (false, e') -> e' = e.
Proof.
  unfold placeTile. destruct (gameState e) as [g|]; [|by intros [= <-]].
  destruct (isComplete g); [by intros [= <-]|].
  destruct (findTile _ _) as [tile|]; [|by intros [= <-]].
  destruct (JsMap.get _ _) as [cell|]; [|by intros [= <-]].
  destruct (_ || _); [by intros [= <-]|done].
Qed.

Lemma removeTile_true now cellId e e' :
  removeTile now cellId e = (true, e') ->
  exists g cell lastMove tile,
    gameState e = Some g
    /\ isComplete g = false
    /\ JsMap.get cellId (cells (board g)) = Some cell
    /\ cell_isFixed cell = false
    /\ cell_value cell <> VNull
    /\ findLastPlace cellId (moves g) = Some lastMove
    /\ findTile (move_tileId lastMove) (availableNumbers g) = Some tile
    /\ e' = checkEquations now
              (withState
                 (pushMove (mkMove now remove (move_tileId lastMove) cellId now)
                    (writeTileAndCell (move_tileId lastMove) cellId false VNull g))
                 e).
Proof.
  unfold removeTile. destruct (gameState e) as [g|]; [|done].
  destruct (isComplete g) eqn:Hc; [done|].
  destruct (JsMap.get _ _) as [cell|] eqn:Hcell; [|done].
  destruct (cell_isFixed cell) eqn:Hf; [done|].
  case_bool_decide; [done|]. simpl.
  destruct (findLastPlace _ _) as [lastMove|] eqn:Hl; [|done].
  destruct (findTile _ _) as [tile|] eqn:Ht; [|done].
  intros [= <-]. exists g, cell, lastMove, tile. by repeat split.
Qed.

Lemma removeTile_false now cellId e e' :
  removeTile now cellId e = (false, e') -> e' = e.
Proof.
  unfold removeTile. destruct (gameState e) as [g|]; [|by intros [= <-]].
  destruct (isComplete g); [by intros [= <-]|].
  destruct (JsMap.get _ _) as [cell|]; [|by intros [= <-]].
  destruct (_ || _); [by intros [= <-]|].
  destruct (findLastPlace _ _) as [lastMove|]; [|by intros [= <-]].
  destruct (findTile _ _) as [tile|]; [done|by intros [= <-]].
Qed.

Lemma undoLastMove_true now e e' :
  undoLastMove now e = (true, e') ->
  exists g lastMove rest,
    gameState e = Some g
    /\ moves g = rest ++ [lastMove]
    /\ e' = checkEquations now (withState (revertMove lastMove (setMoves rest g)) e).
Proof.
  unfold undoLastMove. destruct (gameState e) as [g|]; [|done].
  destruct (popMove _) as [[lastMove rest]|] eqn:Hp; [|done].
  intros [= <-]. exists g, lastMove, rest. split; [done|].
  split; [by apply popMove_Some|done].
Qed.

Lemma undoLastMove_false now e e' :
  undoLastMove now e = (false, e') -> e' = e.
Proof.
  unfold undoLastMove. destruct (gameState e) as [g|]; [|by intros [= <-]].
  destruct (popMove _) as [[lastMove rest]|]; [done|by intros [= <-]].
Qed.

(** [checkGameCompletion] runs at the end of a successful [placeTile]:
    a placement on a game in progress completes it exactly when it
    leaves every equation complete and valid.  [removeTile] and
    [undoLastMove] re-validate the equations and leave [isComplete] as
    it was. *)
Lemma placement_checks_completion now e g :
  gameState e = Some g ->
  isComplete g = false ->
  (forall tileId cellId e' g',
      placeTile now tileId cellId e = (true, e') ->
      gameState e' = Some g' ->
      (isComplete g' = true <-> allEquationsSatisfied g' = true))
  /\ (forall cellId e' g',
         removeTile now cellId e = (true, e') ->
         gameState e' = Some g' ->
         isComplete g' = false)
  /\ (forall e' g',
         undoLastMove now e = (true, e') ->
         gameState e' = Some g' ->
         isComplete g' = false).
Proof.
  intros Hg Hc. split; [|split].
  - intros tileId cellId e' g' Hp Hg'.
    apply placeTile_true in Hp
      as (g0 & tile & cell & Hg0 & _ & _ & _ & _ & _ & _ & ->).
    assert (g0 = g) as -> by congruence.
    set (e1 := emit _ _) in *.
    destruct (checkEquations_spec now e1 _ eq_refl)
      as (g1 & Hg1 & _ & _ & _ & _ & _ & _ & _ & _ & Hi1 & _).
    pose proof (checkEquations_flags now e1 _ g1 eq_refl Hg1) as Hflags.
    simpl in Hi1. rewrite Hc in Hi1.
    destruct (checkGameCompletion_spec now _ g1 Hg1 Hi1)
      as (g2 & Hg2 & Hb & _ & _ & Hi2).
    assert (g2 = g') as -> by congruence.
    rewrite Hi2, Hflags. unfold allEquationsSatisfied. by rewrite Hb.
  - intros cellId e' g' Hr Hg'.
    apply removeTile_true in Hr
      as (g0 & cell & lastMove & tile & Hg0 & _ & _ & _ & _ & _ & _ & ->).
    assert (g0 = g) as -> by congruence.
    match type of Hg' with
    | gameState (checkEquations _ ?e1) = _ =>
        destruct (checkEquations_state now e1 _ eq_refl) as (g1 & Hg1 & _ & _ & _ & Hi)
    end.
    assert (g1 = g') as -> by congruence. by rewrite Hi.
  - intros e' g' Hu Hg'.
    apply undoLastMove_true in Hu as (g0 & lastMove & rest & Hg0 & _ & ->).
    assert (g0 = g) as -> by congruence.
    match type of Hg' with
    | gameState (checkEquations _ ?e1) = _ =>
        destruct (checkEquations_state now e1 _ eq_refl) as (g1 & Hg1 & _ & _ & _ & Hi)
    end.
    assert (g1 = g') as -> by congruence.
    by rewrite Hi, isComplete_revertMove.
Qed.

(** ** The sample sessions *)

Lemma sampleStart_state :
  exists g,
    gameState sampleStart = Some g
    /\ isComplete g = false
    /\ map (fun q => (eq_expression q, eq_cells q)) (JsMap.values (equations (board g)))
       = [("1 + 1 = 2", ["0-0"; "1-0"; "2-0"; "3-0"; "4-0"])]
    /\ map (fun c => cellValueOf c g) ["0-0"; "1-0"; "2-0"; "3-0"; "4-0"]
       = [Some (VNum 1); Some (VStr "+"); Some VNull; Some (VStr "="); Some VNull]
    /\ availableNumbers g
       = [mkTile "tile-0" 2 false; mkTile "tile-1" 1 false; mkTile "tile-2" 1 false].
Proof.
  eexists. split; [vm_compute; reflexivity|].
  vm_compute. repeat split; reflexivity.
Qed.

Lemma sampleStart_reachable : reachable sampleStart.
Proof.
  assert (exists g rng,
             startNewGame 0 easy zeroDraws freshEngine = Some (g, sampleStart, rng))
    as (g & rng & H) by (eexists _, _; vm_compute; reflexivity).
  eapply reachable_start. exact H.
Qed.

Lemma sampleFilled_reachable : reachable sampleFilled.
Proof. unfold sampleFilled. apply reachable_step, sampleStart_reachable. Qed.

Lemma sampleCompleted_reachable : reachable sampleCompleted.
Proof. unfold sampleCompleted. apply reachable_step, sampleFilled_reachable. Qed.

(** C1: the cell [2-0] of the sample game already holds [tile-1];
    [canPlaceTile] refuses to put [tile-2] there, but [placeTile] accepts:
    it returns [true], overwrites the cell and takes [tile-2], while
    [tile-1] stays taken. *)
Theorem placeTile_overwrites_filled_cell :
  reachable sampleFilled
  /\ (cellValueOf "2-0" <$> gameState sampleFilled) = Some (Some (VNum 1))
  /\ (tileUsedOf "tile-1" <$> gameState sampleFilled) = Some (Some true)
  /\ (tileUsedOf "tile-2" <$> gameState sampleFilled) = Some (Some false)
  /\ canPlaceTile "tile-2" "2-0" sampleFilled = false
  /\ fst (placeTile 2 "tile-2" "2-0" sampleFilled) = true
  /\ (tileUsedOf "tile-1" <$> gameState (snd (placeTile 2 "tile-2" "2-0" sampleFilled)))
     = Some (Some true)
  /\ (tileUsedOf "tile-2" <$> gameState (snd (placeTile 2 "tile-2" "2-0" sampleFilled)))
     = Some (Some true)
  /\ (length ∘ moves <$> gameState (snd (placeTile 2 "tile-2" "2-0" sampleFilled)))
     = Some 2%nat.
Proof.
  split; [apply sampleFilled_reachable|].
  vm_compute. repeat split; reflexivity.
Qed.

Lemma score_never_decreases_witness :
  forallb (fun nc => negb (isHint nc.2))
    [(1, CPlace "tile-1" "2-0"); (2, CRemove "2-0"); (3, CUndo);
     (4, CPlace "tile-0" "4-0")] = true
  /\ scoreOf sampleStart
     <= scoreOf (run [(1, CPlace "tile-1" "2-0"); (2, CRemove "2-0"); (3, CUndo);
                      (4, CPlace "tile-0" "4-0")] sampleStart)
  /\ exists r e' rng',
       getHint zeroDraws (exec 3 CUndo sampleCompleted) = (Some r, e', rng')
       /\ scoreOf e'
          = Z.max 0 (scoreOf (exec 3 CUndo sampleCompleted) - SCORING.HINT_PENALTY).
Proof.
  split; [reflexivity|]. split.
  - apply (proj1 score_never_decreases). reflexivity.
  - assert (exists r e' rng',
               getHint zeroDraws (exec 3 CUndo sampleCompleted) = (Some r, e', rng'))
      as (r & e' & rng' & H) by (eexists _, _, _; vm_compute; reflexivity).
    exists r, e', rng'. split; [exact H|].
    exact (proj2 score_never_decreases _ _ _ _ _ H).
Defined.

Lemma hint_accounting_witness :
  (hintsOf freshEngine <= 0 /\ getHint zeroDraws freshEngine = (None, freshEngine, zeroDraws))
  /\ (exists r e' rng',
        getHint zeroDraws sampleFilled = (r, e', rng')
        /\ ((r = None /\ e' = sampleFilled)
            \/ (exists h, r = Some h
                  /\ hintsOf e' = hintsOf sampleFilled - 1 /\ 0 <= hintsOf e'
                  /\ scoreOf e' = Z.max 0 (scoreOf sampleFilled - SCORING.HINT_PENALTY)
                  /\ 0 <= scoreOf e')))
  /\ (isHint CUndo = false
      /\ hintsOf (exec 2 CUndo sampleFilled) = hintsOf sampleFilled)
  /\ (0 <= hintsOf sampleStart
      /\ 0 <= hintsOf (run [(1, CHint zeroDraws); (2, CHint zeroDraws);
                            (3, CHint zeroDraws); (4, CHint zeroDraws)] sampleStart)
         <= hintsOf sampleStart).
Proof.
  destruct hint_accounting as (H1 & H2 & H3 & H4).
  split; [|split; [|split]].
  - split; [vm_compute; discriminate|]. apply H1. by left.
  - destruct (getHint zeroDraws sampleFilled) as [[r e'] rng'] eqn:H.
    exists r, e', rng'. split; [reflexivity|]. exact (H2 _ _ _ _ _ H).
  - split; [reflexivity|]. apply H3. reflexivity.
  - assert (0 <= hintsOf sampleStart) as H0 by (vm_compute; discriminate).
    split; [exact H0|]. apply H4. exact H0.
Defined.

Lemma sampleFilledState_eq : gameState sampleFilled = sampleFilledState.
Proof. vm_compute. reflexivity. Qed.

Lemma sampleCompletedState_eq : gameState sampleCompleted = sampleCompletedState.
Proof. vm_compute. reflexivity. Qed.

Lemma undo_accepted_after_completion_witness :
  exists g,
    gameState sampleCompleted = Some g
    /\ isComplete g = true
    /\ moves g = [mkMove 1 place "tile-1" "2-0" 1] ++ [mkMove 2 place "tile-0" "4-0" 2]
    /\ exists e' g',
         undoLastMove 3 sampleCompleted = (true, e')
         /\ gameState e' = Some g'
         /\ isComplete g' = true
         /\ moves g' = [mkMove 1 place "tile-1" "2-0" 1]
         /\ cellValueOf "4-0" g' = Some VNull
         /\ tileUsedOf "tile-0" g' = Some false.
Proof.
  pose proof sampleCompletedState_eq as Hg. unfold sampleCompletedState in Hg.
  eexists. split; [exact Hg|]. split; [reflexivity|]. split; [reflexivity|].
  destruct (undo_accepted_after_completion 3 sampleCompleted _
              [mkMove 1 place "tile-1" "2-0" 1] (mkMove 2 place "tile-0" "4-0" 2)
              Hg eq_refl eq_refl)
    as (e' & g' & Hu & Hg' & Hc' & Hm' & Hb & _).
  exists e', g'. destruct (Hb (mkTile "tile-0" 2 true) _ eq_refl eq_refl) as [Hv Hused].
  split; [exact Hu|]. split; [exact Hg'|]. split; [exact Hc'|].
  split; [exact Hm'|]. split; [exact Hv|exact Hused].
Defined.

(** ** Numbers as text *)

Lemma allDigits_string_of_uint d : allDigits (NilEmpty.string_of_uint d) = true.
Proof. induction d; simpl; auto. Qed.

Lemma showZ_nonneg n :
  0 <= n ->
  exists d, showZ n = NilEmpty.string_of_uint d /\ d <> Decimal.Nil /\ Z.of_uint d = n.
Proof.
  intros Hn. unfold showZ. pose proof (DecimalZ.of_to n) as Hof.
  destruct n as [|p|p]; [| |lia]; simpl in *.
  - exists Decimal.zero. by repeat split.
  - exists (Pos.to_uint p). repeat split; [|done].
    apply DecimalPos.Unsigned.to_uint_nonnil.
Qed.

Lemma showZ_inj a b : showZ a = showZ b -> a = b.
Proof.
  unfold showZ. intros H. apply DecimalZ.to_int_inj.
  apply (f_equal NilEmpty.int_of_string) in H.
  rewrite !NilEmpty.isi in H. by injection H.
Qed.

Lemma showZ_digits n : 0 <= n -> allDigits (showZ n) = true /\ showZ n <> "".
Proof.
  intros Hn. destruct (showZ_nonneg n Hn) as (d & -> & Hd & _).
  split; [apply allDigits_string_of_uint|]. by destruct d.
Qed.

Lemma digitsValue_showZ n : 0 <= n -> digitsValue (showZ n) = n.
Proof.
  intros Hn. destruct (showZ_nonneg n Hn) as (d & -> & _ & Hv).
  unfold digitsValue. by rewrite NilEmpty.usu.
Qed.

Lemma append_Empty (s : string) : "" +:+ s = s.
Proof. reflexivity. Qed.

Lemma append_String (c : ascii) (s t : string) : String c s +:+ t = String c (s +:+ t).
Proof. reflexivity. Qed.

Ltac push_append := rewrite ?append_String, ?append_Empty.

(** A run of digits is read back whole when what follows does not start
    with a digit. *)
Lemma spanDigits_app ds rest :
  allDigits ds = true -> startsWithDigit rest = false ->
  spanDigits (ds +:+ rest) = (ds, rest).
Proof.
  intros Hd Hr. induction ds as [|c ds IH]; push_append; cbn [spanDigits allDigits] in *.
  - destruct rest as [|c r]; [done|]. cbn [startsWithDigit spanDigits] in *.
    by rewrite Hr.
  - apply andb_prop in Hd as [Hc Hd]. by rewrite Hc, IH.
Qed.

Lemma spanDigits_all ds : allDigits ds = true -> spanDigits ds = (ds, "").
Proof.
  intros Hd. induction ds as [|c ds IH]; cbn [spanDigits allDigits] in *; [done|].
  apply andb_prop in Hd as [Hc Hd]. by rewrite Hc, IH.
Qed.

Lemma append_assoc (a b c : string) : (a +:+ b) +:+ c = a +:+ (b +:+ c).
Proof. induction a as [|x a IH]; push_append; [done|]. by rewrite IH. Qed.

Lemma isDigit_not_space c : isDigit c = true -> isSpace c = false.
Proof.
  destruct c as [[] [] [] [] [] [] [] []]; vm_compute; congruence.
Qed.

Lemma isOperatorChar_cases o :
  isOperatorChar o = true ->
  o = "+"%char \/ o = "-"%char \/ o = "*"%char \/ o = "/"%char.
Proof.
  unfold isOperatorChar. intros H.
  repeat (apply orb_prop in H as [H|H]); apply Ascii.eqb_eq in H; auto.
Qed.

Lemma isOperatorChar_plain o :
  isOperatorChar o = true ->
  isSpace o = false /\ isDigit o = false /\ Ascii.eqb o " " = false.
Proof. intros [->|[->|[->| ->]]]%isOperatorChar_cases; by vm_compute. Qed.

Lemma skipSpaces_space s : skipSpaces (String " " s) = skipSpaces s.
Proof. reflexivity. Qed.

Lemma skipSpaces_plain c s : isSpace c = false -> skipSpaces (String c s) = String c s.
Proof. intros H. cbn [skipSpaces]. by rewrite H. Qed.

Lemma skipSpaces_digits ds rest :
  allDigits ds = true -> ds <> "" -> skipSpaces (ds +:+ rest) = ds +:+ rest.
Proof.
  destruct ds as [|c ds]; [done|]. cbn [allDigits]. intros [Hc _]%andb_prop _.
  push_append. by apply skipSpaces_plain, isDigit_not_space.
Qed.

Lemma matchHere_showExpression num1 num2 result (o : ascii) :
  0 <= num1 -> 0 <= num2 -> 0 <= result ->
  isOperatorChar o = true ->
  matchHere (showExpression num1 (String o "") num2 result)
  = Some (mkExprMatch (showZ num1) o (showZ num2) (showZ result)).
Proof.
  intros H1 H2 H3 Ho. unfold showExpression, matchHere.
  destruct (showZ_digits _ H1) as [D1 N1].
  destruct (showZ_digits _ H2) as [D2 N2].
  destruct (showZ_digits _ H3) as [D3 N3].
  destruct (isOperatorChar_plain o Ho) as (Hs & Hd & _).
  rewrite (spanDigits_app _ _ D1) by done.
  destruct (String.eqb_spec (showZ num1) ""); [done|].
  push_append. rewrite skipSpaces_space, (skipSpaces_plain o) by done.
  rewrite Ho, skipSpaces_space. rewrite (skipSpaces_digits _ _ D2 N2).
  rewrite (spanDigits_app _ _ D2) by done.
  destruct (String.eqb_spec (showZ num2) ""); [done|].
  rewrite skipSpaces_space, (skipSpaces_plain "=") by done.
  change (Ascii.eqb "=" "=") with true. cbn iota.
  rewrite skipSpaces_space.
  assert (skipSpaces (showZ result) = showZ result) as ->.
  { destruct (showZ result) as [|c r]; [done|]. cbn [allDigits] in D3.
    apply andb_prop in D3 as [Hc _]. by apply skipSpaces_plain, isDigit_not_space. }
  rewrite (spanDigits_all _ D3).
  by destruct (String.eqb_spec (showZ result) "").
Qed.

Lemma matchExpression_showExpression num1 num2 result (o : ascii) :
  0 <= num1 -> 0 <= num2 -> 0 <= result ->
  isOperatorChar o = true ->
  matchExpression (showExpression num1 (String o "") num2 result)
  = Some (mkExprMatch (showZ num1) o (showZ num2) (showZ result)).
Proof.
  intros H1 H2 H3 Ho.
  pose proof (matchHere_showExpression _ _ _ _ H1 H2 H3 Ho) as H.
  destruct (showExpression num1 (String o "") num2 result);
    cbn [matchExpression]; by rewrite H.
Qed.

Lemma splitOn_whole sep s : lacks sep s = true -> splitOn sep s = [s].
Proof.
  induction s as [|c s IH]; cbn [lacks splitOn]; [done|].
  intros [Hc Hs]%andb_prop. apply negb_true_iff in Hc. by rewrite Hc, IH.
Qed.

Lemma splitOn_app sep a b :
  lacks sep a = true -> splitOn sep (a +:+ String sep b) = a :: splitOn sep b.
Proof.
  induction a as [|c a IH]; push_append; cbn [lacks splitOn].
  - by rewrite Ascii.eqb_refl.
  - intros [Hc Hs]%andb_prop. apply negb_true_iff in Hc. by rewrite Hc, IH.
Qed.

Lemma allDigits_lacks sep s : isDigit sep = false -> allDigits s = true -> lacks sep s = true.
Proof.
  intros Hsep. induction s as [|c s IH]; cbn [allDigits lacks]; [done|].
  intros [Hc Hs]%andb_prop. rewrite IH by done.
  destruct (Ascii.eqb_spec c sep) as [->|]; [congruence|done].
Qed.

Lemma splitOn_showExpression num1 num2 result (o : ascii) :
  0 <= num1 -> 0 <= num2 -> 0 <= result ->
  Ascii.eqb o " " = false ->
  splitOn " " (showExpression num1 (String o "") num2 result)
  = [showZ num1; String o ""; showZ num2; "="; showZ result].
Proof.
  intros H1 H2 H3 Ho. unfold showExpression.
  destruct (showZ_digits _ H1) as [D1 _].
  destruct (showZ_digits _ H2) as [D2 _].
  destruct (showZ_digits _ H3) as [D3 _].
  change (" = " +:+ showZ result) with (String " " ("=" +:+ String " " (showZ result))).
  rewrite !(append_String " " ""), !append_Empty.
  rewrite splitOn_app by (by apply allDigits_lacks).
  rewrite (splitOn_app " " (String o "")) by (cbn [lacks]; by rewrite Ho).
  rewrite splitOn_app by (by apply allDigits_lacks).
  rewrite (splitOn_app " " "=") by done.
  rewrite splitOn_whole by (by apply allDigits_lacks). done.
Qed.

Lemma parseInt_showZ n : 0 <= n -> parseInt (showZ n) = n.
Proof.
  intros Hn. destruct (showZ_digits _ Hn) as [D N].
  pose proof (digitsValue_showZ n Hn) as Hv. unfold parseInt.
  destruct (showZ n) as [|c s] eqn:E; [done|].
  cbn [allDigits] in D. apply andb_prop in D as [Hc Hs].
  rewrite skipSpaces_plain by (by apply isDigit_not_space).
  destruct (Ascii.eqb_spec c "-") as [->|_]; [done|].
  destruct (Ascii.eqb_spec c "+") as [->|_]; [done|].
  rewrite spanDigits_all by (cbn [allDigits]; by rewrite Hc, Hs). done.
Qed.

(** ** Identifiers *)

Lemma digits_dash_split a a' b b' :
  allDigits a = true -> allDigits a' = true ->
  a +:+ String "-" b = a' +:+ String "-" b' -> a = a' /\ b = b'.
Proof.
  revert a'. induction a as [|c a IH]; intros [|c' a']; push_append;
    cbn [allDigits]; intros Ha Ha' H.
  - by injection H.
  - injection H as <- _. by apply andb_prop in Ha' as [? _].
  - injection H as -> _. by apply andb_prop in Ha as [? _].
  - injection H as -> H. apply andb_prop in Ha as [_ Ha].
    apply andb_prop in Ha' as [_ Ha'].
    destruct (IH a' Ha Ha' H) as [-> ->]. done.
Qed.

Lemma cellId_inj x y x' y' :
  0 <= x -> 0 <= x' -> cellId x y = cellId x' y' -> x = x' /\ y = y'.
Proof.
  intros Hx Hx'. unfold cellId. push_append. intros H.
  destruct (showZ_digits _ Hx) as [D _]. destruct (showZ_digits _ Hx') as [D' _].
  change ("-" +:+ showZ y) with (String "-" (showZ y)) in H.
  change ("-" +:+ showZ y') with (String "-" (showZ y')) in H.
  apply digits_dash_split in H as [Hxx Hyy]; [|done..].
  split; by apply showZ_inj.
Qed.

Lemma prefixed_inj (p : string) a b : p +:+ showZ a = p +:+ showZ b -> a = b.
Proof. intros H. apply showZ_inj. by apply (inj (String.append p)). Qed.

(** ** The random source *)

Lemma RESOLUTION_pos : 0 < RESOLUTION.
Proof. by vm_compute. Qed.

Lemma random_range rng : 0 <= (random rng).1 < RESOLUTION.
Proof. unfold random. simpl. apply Z.mod_pos_bound, RESOLUTION_pos. Qed.

Lemma floorMul_range r n :
  0 <= r < RESOLUTION -> 0 < n -> 0 <= floorMul r n < n.
Proof.
  intros Hr Hn. unfold floorMul. pose proof RESOLUTION_pos. split.
  - apply Z.div_pos; nia.
  - apply Z.div_lt_upper_bound; nia.
Qed.

Lemma floorMul_zero r : floorMul r 0 = 0.
Proof. unfold floorMul. by rewrite Z.mul_0_r. Qed.

(** ** Reasoning about the methods of the generator *)

Section Returns.
Context {A B : Type}.

Lemma returns_ret (a : A) s rng Q : Q a s rng -> returns (ret a) s rng Q.
Proof. done. Qed.

Lemma returns_bind (m : Gen A) (k : A -> Gen B) s rng Q :
  returns m s rng (fun a s' rng' => returns (k a) s' rng' Q) ->
  returns (bind m k) s rng Q.
Proof. unfold returns, bind. by destruct (m s rng). Qed.

Lemma returns_mono (m : Gen A) s rng (P Q : A -> Generator -> Rng -> Prop) :
  returns m s rng P -> (forall a s' rng', P a s' rng' -> Q a s' rng') ->
  returns m s rng Q.
Proof. unfold returns. destruct (m s rng); [|done]. auto. Qed.

Lemma returns_eq (m : Gen A) s rng Q :
  returns m s rng Q -> exists a s' rng', m s rng = Returned a s' rng' /\ Q a s' rng'.
Proof. unfold returns. destruct (m s rng) as [a s' rng'|]; [|done]. eauto. Qed.

Lemma returns_tryCatch (m h : Gen A) s rng Q :
  returns m s rng Q -> returns (tryCatch m h) s rng Q.
Proof. unfold returns, tryCatch. by destruct (m s rng). Qed.

End Returns.

Lemma returns_this s rng Q : Q s s rng -> returns this s rng Q.
Proof. done. Qed.

Lemma returns_modify f s rng Q : Q tt (f s) rng -> returns (modify f) s rng Q.
Proof. done. Qed.

Lemma returns_mathRandom s rng Q :
  (forall r rng', 0 <= r < RESOLUTION -> Q r s rng') -> returns mathRandom s rng Q.
Proof.
  intros H. unfold returns, mathRandom.
  pose proof (random_range rng). destruct (random rng) as [r rng']. by apply H.
Qed.

Lemma returns_randomBelow n s rng Q :
  (forall v rng', (0 < n -> 0 <= v < n) -> (n = 0 -> v = 0) -> Q v s rng') ->
  returns (randomBelow n) s rng Q.
Proof.
  intros H. unfold returns, randomBelow.
  pose proof (random_range rng). destruct (random rng) as [r rng']. apply H.
  - by apply floorMul_range.
  - intros ->. apply floorMul_zero.
Qed.

(** ** The numbers of an equation *)

Lemma generateNumbers_spec operation s rng :
  returns (generateNumbers operation) s rng (fun nums s' _ =>
    s' = s
    /\ exactContract operation nums.1.1 nums.1.2 nums.2
    /\ 1 <= nums.1.1 /\ 1 <= nums.1.2 /\ 1 <= nums.2).
Proof.
  destruct operation; unfold generateNumbers;
    repeat (apply returns_bind, returns_randomBelow; intros ? ? ? _);
    apply returns_ret; simpl; repeat split; try lia; try nia.
Qed.

(** C4: whatever the draws, [generateNumbers] returns a triple that meets
    the exact arithmetic of the operator: a sum, a difference of two
    positive numbers the first of which is the larger, a product, or an
    exact quotient by a divisor between 2 and 11. *)
Theorem generateNumbers_exact operation s rng :
  exists num1 num2 result rng',
    generateNumbers operation s rng = Returned (num1, num2, result) s rng'
    /\ exactContract operation num1 num2 result.
Proof.
  destruct (returns_eq _ _ _ _ (generateNumbers_spec operation s rng))
    as ([[num1 num2] result] & s' & rng' & Heq & -> & Hc & _).
  by exists num1, num2, result, rng'.
Qed.

(** ** The empty grid *)

Section JsMapOrder.
Context {V : Type}.
Implicit Types (m : JsMap.t V) (k : string).

Lemma get_None_keys m k : JsMap.get k m = None <-> k ∉ JsMap.keys m.
Proof.
  induction m as [|[k' v] m IH]; simpl.
  - split; [intros _; apply not_elem_of_nil|done].
  - rewrite not_elem_of_cons. destruct (String.eqb_spec k k') as [->|Hne].
    + split; [done|]. by intros [? _].
    + rewrite IH. split; [by intros H|by intros [_ H]].
Qed.

Lemma get_Some_keys m k v : JsMap.get k m = Some v -> k ∈ JsMap.keys m.
Proof.
  intros H. destruct (decide (k ∈ JsMap.keys m)) as [|Hn]; [done|].
  apply get_None_keys in Hn. congruence.
Qed.

Lemma set_fresh m k v : k ∉ JsMap.keys m -> JsMap.set k v m = m ++ [(k, v)].
Proof.
  induction m as [|[k' v'] m IH]; simpl; [done|].
  rewrite not_elem_of_cons. intros [Hne Hk].
  destruct (String.eqb_spec k k'); [done|]. by rewrite IH.
Qed.

Lemma foldl_set_fresh {A} (f : A -> string) (g : A -> V) (l : list A) m :
  NoDup (JsMap.keys m ++ map f l) ->
  foldl (fun m a => JsMap.set (f a) (g a) m) m l = m ++ map (fun a => (f a, g a)) l.
Proof.
  revert m. induction l as [|a l IH]; intros m Hnd; simpl.
  - by rewrite app_nil_r.
  - rewrite set_fresh.
    + rewrite IH.
      * by rewrite <- app_assoc.
      * unfold JsMap.keys in *. rewrite map_app. simpl.
        rewrite <- app_assoc. done.
    + apply NoDup_app in Hnd as (_ & Hd & _). intros Hk.
      apply (Hd _ Hk). simpl. apply list_elem_of_here.
Qed.

Lemma get_mk {A} (f : A -> string) (g : A -> V) (l : list A) a :
  NoDup (map f l) -> a ∈ l ->
  JsMap.get (f a) (map (fun a => (f a, g a)) l) = Some (g a).
Proof.
  induction l as [|b l IH]; simpl; [by intros _ ?%elem_of_nil|].
  rewrite NoDup_cons. intros [Hb Hl] [->|Ha]%elem_of_cons.
  - by rewrite String.eqb_refl.
  - destruct (String.eqb_spec (f a) (f b)) as [E|_]; [|by apply IH].
    exfalso. apply Hb. rewrite <- E. apply list_elem_of_fmap. eauto.
Qed.

Lemma get_entry m k v :
  NoDup (JsMap.keys m) -> (k, v) ∈ m -> JsMap.get k m = Some v.
Proof.
  induction m as [|[k' v'] m IH]; simpl; [by intros _ ?%elem_of_nil|].
  rewrite NoDup_cons. intros [Hk Hm] [[= -> ->]|Hin]%elem_of_cons.
  - by rewrite String.eqb_refl.
  - destruct (String.eqb_spec k k') as [->|_]; [|by apply IH].
    exfalso. apply Hk. apply list_elem_of_fmap. by exists (k', v).
Qed.

Lemma get_Some_entry m k v : JsMap.get k m = Some v -> (k, v) ∈ m.
Proof.
  induction m as [|[k' v'] m IH]; simpl; [done|].
  destruct (String.eqb_spec k k') as [->|_].
  - intros [= ->]. apply list_elem_of_here.
  - intros H. apply list_elem_of_further. auto.
Qed.

End JsMapOrder.

Lemma elem_of_gridCoords size x y :
  (x, y) ∈ gridCoords size <-> 0 <= x < width size /\ 0 <= y < height size.
Proof.
  unfold gridCoords. rewrite list_elem_of_bind. split.
  - intros (y' & Hin & Hy). apply list_elem_of_bind in Hin as (x' & Hin & Hx).
    apply list_elem_of_singleton in Hin as [= -> ->].
    apply elem_of_seqZ in Hx, Hy. lia.
  - intros [Hx Hy]. exists y. split; [|apply elem_of_seqZ; lia].
    apply list_elem_of_bind. exists x. split; [|apply elem_of_seqZ; lia].
    by apply list_elem_of_singleton.
Qed.

Lemma NoDup_gridCoords size : NoDup (gridCoords size).
Proof.
  unfold gridCoords. apply NoDup_bind; [| |apply NoDup_seqZ].
  - intros y1 y2 [x y] _ _ H1 H2.
    apply list_elem_of_bind in H1 as (x1 & H1 & _).
    apply list_elem_of_bind in H2 as (x2 & H2 & _).
    apply list_elem_of_singleton in H1, H2. congruence.
  - intros y _. apply NoDup_bind; [| |apply NoDup_seqZ].
    + intros x1 x2 [x' y'] _ _ H1 H2.
      apply list_elem_of_singleton in H1, H2. congruence.
    + intros x _. apply NoDup_singleton.
Qed.

Lemma NoDup_gridKeys size :
  NoDup (map (fun p : Z * Z => cellId p.1 p.2) (gridCoords size)).
Proof.
  apply (NoDup_fmap_2_strong (fun p : Z * Z => cellId p.1 p.2)); [|apply NoDup_gridCoords].
  intros [x y] [x' y'] Hin Hin' H. simpl in H.
  apply elem_of_gridCoords in Hin, Hin'.
  apply cellId_inj in H as [-> ->]; [done|lia..].
Qed.

Lemma emptyGrid_eq size :
  emptyGrid size
  = map (fun p : Z * Z => (cellId p.1 p.2, emptyCell p.1 p.2)) (gridCoords size).
Proof.
  unfold emptyGrid.
  assert (Hflat : forall (ys : list Z) cs,
    foldl (fun cs y =>
             foldl (fun cs x => JsMap.set (cellId x y) (emptyCell x y) cs)
                   cs (seqZ 0 (width size))) cs ys
    = foldl (fun cs (p : Z * Z) => JsMap.set (cellId p.1 p.2) (emptyCell p.1 p.2) cs)
            cs (y ← ys; x ← seqZ 0 (width size); [(x, y)])).
  { induction ys as [|y ys IH]; intros cs; simpl; [done|].
    rewrite foldl_app, IH. f_equal.
    generalize (seqZ 0 (width size)). intros xs. revert cs.
    induction xs as [|x xs IHx]; intros cs; simpl; [done|]. by rewrite IHx. }
  rewrite Hflat. fold (gridCoords size).
  rewrite (foldl_set_fresh (fun p : Z * Z => cellId p.1 p.2)
             (fun p : Z * Z => emptyCell p.1 p.2)); [done|].
  apply NoDup_gridKeys.
Qed.

Lemma keys_emptyGrid size :
  JsMap.keys (emptyGrid size) = map (fun p : Z * Z => cellId p.1 p.2) (gridCoords size).
Proof. rewrite emptyGrid_eq. unfold JsMap.keys. by rewrite map_map. Qed.

Lemma get_emptyGrid size x y :
  0 <= x < width size -> 0 <= y < height size ->
  JsMap.get (cellId x y) (emptyGrid size) = Some (emptyCell x y).
Proof.
  intros Hx Hy. rewrite emptyGrid_eq.
  apply (get_mk (fun p : Z * Z => cellId p.1 p.2) (fun p : Z * Z => emptyCell p.1 p.2)
           (gridCoords size) (x, y)); [apply NoDup_gridKeys|].
  by apply elem_of_gridCoords.
Qed.

(** ** Committing a strip *)

Lemma keys_commitCells id slots cs :
  JsMap.keys (commitCells id slots cs) = JsMap.keys cs.
Proof.
  unfold commitCells. revert cs. induction slots as [|p slots IH]; intros cs; simpl; [done|].
  by rewrite IH, keys_update.
Qed.

Lemma get_commitCells_other id slots cs k :
  k ∉ map slotId slots -> JsMap.get k (commitCells id slots cs) = JsMap.get k cs.
Proof.
  unfold commitCells. revert cs. induction slots as [|p slots IH]; intros cs; simpl; [done|].
  rewrite not_elem_of_cons. intros [Hne Hk]. rewrite IH by done.
  by apply get_update_ne.
Qed.

Lemma get_commitCells_slot id slots cs p :
  NoDup (map slotId slots) -> p ∈ slots ->
  JsMap.get (slotId p) (commitCells id slots cs) = writeCell id p <$> JsMap.get (slotId p) cs.
Proof.
  unfold commitCells. revert cs. induction slots as [|p' slots IH]; intros cs; simpl.
  - by intros _ ?%elem_of_nil.
  - rewrite NoDup_cons. intros [Hp' Hnd] [->|Hin]%elem_of_cons.
    + fold (commitCells id slots (JsMap.update (slotId p') (writeCell id p') cs)).
      rewrite get_commitCells_other by done. apply get_update_eq.
    + rewrite IH by done. rewrite get_update_ne; [done|].
      intros E. apply Hp'. rewrite E. apply list_elem_of_fmap. eauto.
Qed.

Lemma elem_of_commitUsed slots u k :
  k ∈ commitUsed slots u <-> k ∈ map slotId slots \/ k ∈ u.
Proof.
  unfold commitUsed. revert u. induction slots as [|p slots IH]; intros u; simpl.
  - split; [auto|]. by intros [?%elem_of_nil|].
  - rewrite IH, elem_of_cons, elem_of_union, elem_of_singleton. tauto.
Qed.

Lemma commitSlots_eq id slots acc s rng :
  Forall (fun p => is_Some (JsMap.get (slotId p) (gen_cells s))) slots ->
  commitSlots id slots acc s rng
  = Returned (acc ++ map slotId slots)
      (setGenCells (commitCells id slots (gen_cells s))
         (setUsedPositions (commitUsed slots (usedPositions s)) s))
      rng.
Proof.
  revert acc s. induction slots as [|p slots IH]; intros acc s Hs.
  - simpl. unfold ret. rewrite app_nil_r. by destruct s.
  - apply Forall_cons in Hs as [[c Hc] Hs].
    cbn [commitSlots]. unfold bind at 1. unfold modify at 1.
    unfold bind at 1. unfold this at 1. cbn [gen_cells setUsedPositions].
    fold (slotId p). rewrite Hc.
    unfold bind at 1. unfold modify at 1. rewrite IH.
    + cbn. by rewrite <- app_assoc.
    + cbn. eapply Forall_impl; [exact Hs|]. intros p' [c' Hc']. simpl in Hc'.
      destruct (decide (slotId p = slotId p')) as [E|E].
      * rewrite <- E, get_update_eq. rewrite E, Hc'. by eexists.
      * rewrite get_update_ne by done. by eexists.
Qed.

(** ** The strip of an equation *)

Lemma slotId_applyHint hintIndex num1 num2 result x y dx dy o :
  map slotId (applyHint hintIndex num1 num2 result (stripSlots x y dx dy o))
  = map slotId (stripSlots x y dx dy o).
Proof.
  unfold applyHint.
  by destruct (hintIndex =? 0), (hintIndex =? 1), (hintIndex =? 2).
Qed.

Lemma slotId_stripSlots (h : bool) x y o :
  map slotId (stripSlots x y (if h then 1 else 0) (if h then 0 else 1) o)
  = stripIds h x y.
Proof.
  unfold stripIds, stripSlots, slotId. change (seqZ 0 5) with [0; 1; 2; 3; 4].
  destruct h; simpl; repeat f_equal; lia.
Qed.

Lemma slotId_slotsOf q operation num1 num2 result hintIndex :
  map slotId (slotsOf q operation num1 num2 result hintIndex)
  = stripIds (eq_isHorizontal q) (pos_x (eq_startPosition q)) (pos_y (eq_startPosition q)).
Proof. unfold slotsOf. by rewrite slotId_applyHint, slotId_stripSlots. Qed.

Lemma elem_of_stripIds h x y k :
  k ∈ stripIds h x y
  <-> exists i, 0 <= i < 5 /\ k = if h then cellId (x + i) y else cellId x (y + i).
Proof.
  unfold stripIds. rewrite list_elem_of_fmap. split.
  - intros (i & -> & Hi). apply elem_of_seqZ in Hi. exists i. split; [lia|done].
  - intros (i & Hi & ->). exists i. split; [done|]. apply elem_of_seqZ. lia.
Qed.

Lemma NoDup_stripIds h x y : 0 <= x -> 0 <= y -> NoDup (stripIds h x y).
Proof.
  intros Hx Hy. unfold stripIds.
  apply (NoDup_fmap_2_strong _); [|apply NoDup_seqZ].
  intros i j Hi%elem_of_seqZ Hj%elem_of_seqZ H. destruct h.
  - apply cellId_inj in H as [H _]; lia.
  - apply cellId_inj in H as [_ H]; lia.
Qed.

Lemma stripIds_inGrid size h x y k :
  stripFits size h x y -> k ∈ stripIds h x y ->
  exists x' y', 0 <= x' < width size /\ 0 <= y' < height size /\ k = cellId x' y'.
Proof.
  intros (Hx & Hy & Hfit) (i & Hi & ->)%elem_of_stripIds. destruct h.
  - exists (x + i), y. repeat split; lia.
  - exists x, (y + i). repeat split; lia.
Qed.

(** The slots of a strip, one by one. *)
Lemma slotsOf_cases q operation num1 num2 result hintIndex p :
  p ∈ slotsOf q operation num1 num2 result hintIndex ->
  exists i, 0 <= i < 5
    /\ slot_x p = pos_x (eq_startPosition q) + (if eq_isHorizontal q then i else 0)
    /\ slot_y p = pos_y (eq_startPosition q) + (if eq_isHorizontal q then 0 else i).
Proof.
  unfold slotsOf, applyHint, stripSlots. intros H.
  assert (Hcases :
    let x := pos_x (eq_startPosition q) in
    let y := pos_y (eq_startPosition q) in
    let dx := if eq_isHorizontal q then 1 else 0 in
    let dy := if eq_isHorizontal q then 0 else 1 in
    (slot_x p = x /\ slot_y p = y)
    \/ (slot_x p = x + dx /\ slot_y p = y + dy)
    \/ (slot_x p = x + 2 * dx /\ slot_y p = y + 2 * dy)
    \/ (slot_x p = x + 3 * dx /\ slot_y p = y + 3 * dy)
    \/ (slot_x p = x + 4 * dx /\ slot_y p = y + 4 * dy)).
  { destruct (hintIndex =? 0), (hintIndex =? 1), (hintIndex =? 2);
      cbn [alter list_alter] in H;
      repeat (apply elem_of_cons in H as [->|H]; [cbn; tauto|]);
      by apply elem_of_nil in H. }
  cbn zeta in Hcases.
  destruct Hcases as [[-> ->]|[[-> ->]|[[-> ->]|[[-> ->]|[-> ->]]]]];
    [exists 0|exists 1|exists 2|exists 3|exists 4];
    destruct (eq_isHorizontal q); lia.
Qed.

(** ** The invariant of the generator *)

Lemma elem_of_concat {A} (ls : list (list A)) (x : A) :
  x ∈ concat ls <-> exists l, x ∈ l /\ l ∈ ls.
Proof.
  induction ls as [|l ls IH]; simpl.
  - split; [by intros ?%elem_of_nil|by intros (l & _ & ?%elem_of_nil)].
  - rewrite elem_of_app, IH. split.
    + intros [H|(l' & H1 & H2)]; [exists l|exists l'];
        (split; [done|]); [apply list_elem_of_here|by apply list_elem_of_further].
    + intros (l' & H1 & [->|H2]%elem_of_cons); [by left|right; by exists l'].
Qed.

Lemma elem_of_cells_of (qs : list Equation) q k :
  q ∈ qs -> k ∈ eq_cells q -> k ∈ concat (map eq_cells qs).
Proof.
  intros Hq Hk. apply elem_of_concat. exists (eq_cells q). split; [done|].
  apply list_elem_of_fmap. by exists q.
Qed.

Lemma equationOk_ext size cs cs' q :
  (forall k, k ∈ eq_cells q -> JsMap.get k cs' = JsMap.get k cs) ->
  equationOk size cs q -> equationOk size cs' q.
Proof.
  intros Hext (operation & num1 & num2 & result & hintIndex & H).
  exists operation, num1, num2, result, hintIndex.
  destruct H as (Hx & Hy & Hfit & H1 & H2 & H3 & Hop & Hh & He & Hc & Hs).
  unfold equationHolds. repeat (split; [assumption|]).
  apply Forall_forall. intros p Hp.
  rewrite Forall_forall in Hs. rewrite Hext; [by apply Hs|].
  rewrite Hc. apply list_elem_of_fmap. by exists p.
Qed.

Lemma commit_strip size bound bound' s q operation num1 num2 result hintIndex :
  GenInv size bound s ->
  stripFits size (eq_isHorizontal q)
    (pos_x (eq_startPosition q)) (pos_y (eq_startPosition q)) ->
  stripFree (eq_isHorizontal q)
    (pos_x (eq_startPosition q)) (pos_y (eq_startPosition q)) s ->
  1 <= num1 -> 1 <= num2 -> 1 <= result ->
  applyOperator (opSymbol operation) num1 num2 result = true ->
  -1 <= hintIndex <= 2 ->
  eq_expression q = showExpression num1 (opSymbol operation) num2 result ->
  eq_cells q = map slotId (slotsOf q operation num1 num2 result hintIndex) ->
  eq_id q ∉ map eq_id (gen_equations s) ->
  idShape (S (length (gen_equations s))) bound' (eq_id q) ->
  bound <= bound' ->
  GenInv size bound'
    (setGenEquations (gen_equations s ++ [q])
       (setGenCells
          (commitCells (eq_id q) (slotsOf q operation num1 num2 result hintIndex)
             (gen_cells s))
          (setUsedPositions
             (commitUsed (slotsOf q operation num1 num2 result hintIndex)
                (usedPositions s)) s))).
Proof.
  intros [Isz Ikeys Ieqs Idis Iused Iun Iids Ishape]
    Hfit Hfree H1 H2 H3 Hop Hh He Hc Hfresh Hshape Hb.
  set (slots := slotsOf q operation num1 num2 result hintIndex) in *.
  set (h := eq_isHorizontal q) in *.
  set (x := pos_x (eq_startPosition q)) in *.
  set (y := pos_y (eq_startPosition q)) in *.
  assert (Hids : map slotId slots = stripIds h x y) by apply slotId_slotsOf.
  assert (Hnew : forall k, k ∈ stripIds h x y ->
                   k ∉ concat (map eq_cells (gen_equations s))).
  { intros k (i & Hi & ->)%elem_of_stripIds Hin. apply Iused in Hin.
    by apply (Hfree i Hi). }
  assert (Hnd : NoDup (stripIds h x y)).
  { destruct Hfit as (? & ? & _). by apply NoDup_stripIds. }
  split; cbn [gen_gridSize gen_cells gen_equations usedPositions
              setGenEquations setGenCells setUsedPositions].
  - done.
  - by rewrite keys_commitCells.
  - apply Forall_app. split.
    + eapply Forall_impl; [|intros q' Hq'; exact Hq'].
      apply Forall_forall. intros q' Hq'. rewrite Forall_forall in Ieqs.
      apply (equationOk_ext size (gen_cells s)); [|by apply Ieqs].
      intros k Hk. apply get_commitCells_other. rewrite Hids. intros Hin.
      apply (Hnew k Hin). by apply (elem_of_cells_of _ q').
    + apply Forall_singleton.
      exists operation, num1, num2, result, hintIndex.
      unfold equationHolds. fold x y h slots.
      destruct Hfit as (Hx & Hy & Hxy).
      repeat (split; [assumption|]).
      apply Forall_forall. intros p Hp.
      rewrite get_commitCells_slot; [|by rewrite Hids|done].
      destruct (slotsOf_cases _ _ _ _ _ _ _ Hp) as (i & Hi & Hpx & Hpy).
      fold x y h in Hpx, Hpy.
      assert (Hin : slotId p ∈ stripIds h x y).
      { rewrite <- Hids. apply list_elem_of_fmap. by exists p. }
      assert (Hgrid : 0 <= slot_x p < width size /\ 0 <= slot_y p < height size).
      { rewrite Hpx, Hpy. destruct h; lia. }
      destruct Hgrid as [Hgx Hgy].
      pose proof (Iun _ _ Hgx Hgy (Hnew _ Hin)) as Hcore.
      fold (slotId p) in Hcore.
      destruct (JsMap.get (slotId p) (gen_cells s)) as [c|]; [|done].
      simpl in *. apply (inj Some) in Hcore.
      apply cellCore_eq in Hcore as (Hid & _ & _ & Hpos & _ & Hbel).
      unfold cellCore, slotCore, writeCell. simpl.
      by rewrite Hid, Hpos, Hbel.
  - rewrite map_app, concat_app. simpl. rewrite app_nil_r, Hc, Hids.
    apply NoDup_app. split; [done|]. split; [|done].
    intros k Hk Hin. by apply (Hnew k Hin).
  - intros k. rewrite map_app, concat_app. simpl. rewrite app_nil_r, Hc.
    rewrite elem_of_app, elem_of_commitUsed. intros [Hk|Hk]; [right; by apply Iused|by left].
  - intros x' y' Hx' Hy'. rewrite map_app, concat_app. simpl.
    rewrite app_nil_r, Hc, elem_of_app. intros Hn.
    rewrite get_commitCells_other by tauto. apply Iun; [done..|tauto].
  - rewrite map_app. simpl. apply NoDup_app. split; [done|]. split.
    + intros k Hk ->%list_elem_of_singleton. done.
    + apply NoDup_singleton.
  - rewrite length_app. simpl. apply Forall_app. split.
    + eapply Forall_impl; [exact Ishape|]. intros q' [(j & Hj & E)|(i & Hi & E)].
      * left. exists j. split; [lia|done].
      * right. exists i. split; [lia|done].
    + apply Forall_singleton. by rewrite Nat.add_1_r.
Qed.

(** ** Creating an equation *)

Lemma quotientIs_exact num2 result :
  0 < num2 -> quotientIs (result * num2) num2 result = true.
Proof.
  intros H. unfold quotientIs.
  rewrite Z.mod_mul, Z.div_mul by lia. by rewrite !Z.eqb_refl.
Qed.

Lemma exactContract_applies operation num1 num2 result :
  exactContract operation num1 num2 result ->
  applyOperator (opSymbol operation) num1 num2 result = true.
Proof.
  destruct operation; unfold applyOperator; simpl.
  - intros ->. apply Z.eqb_refl.
  - intros (<- & _). apply Z.eqb_refl.
  - intros ->. apply Z.eqb_refl.
  - intros (Hd & ->). rewrite quotientIs_exact by lia.
    by destruct (Z.eqb_spec num2 0); [lia|].
Qed.

Lemma getRandomOperation_spec s rng :
  returns getRandomOperation s rng (fun _ s' _ => s' = s).
Proof.
  unfold getRandomOperation.
  apply returns_bind, returns_mathRandom. intros r rng1 _.
  apply returns_bind, returns_randomBelow. intros i rng2 _ _.
  by apply returns_ret.
Qed.

Lemma drawHintIndex_spec num s rng :
  returns (drawHintIndex num) s rng (fun hintIndex s' _ => s' = s /\ -1 <= hintIndex <= 2).
Proof.
  unfold drawHintIndex.
  apply returns_bind, returns_mathRandom. intros r rng1 _.
  destruct (below r num 10).
  - apply returns_randomBelow. intros v rng2 Hv _. split; [done|lia].
  - apply returns_ret. split; [done|lia].
Qed.

Lemma returns_commitSlots id slots s rng Q :
  Forall (fun p => is_Some (JsMap.get (slotId p) (gen_cells s))) slots ->
  Q (map slotId slots)
    (setGenCells (commitCells id slots (gen_cells s))
       (setUsedPositions (commitUsed slots (usedPositions s)) s))
    rng ->
  returns (commitSlots id slots []) s rng Q.
Proof. intros Hs HQ. unfold returns. by rewrite commitSlots_eq. Qed.

(** The cells of a strip that fits are cells of the grid. *)
Lemma slots_present size bound s q operation num1 num2 result hintIndex :
  GenInv size bound s ->
  stripFits size (eq_isHorizontal q)
    (pos_x (eq_startPosition q)) (pos_y (eq_startPosition q)) ->
  Forall (fun p => is_Some (JsMap.get (slotId p) (gen_cells s)))
    (slotsOf q operation num1 num2 result hintIndex).
Proof.
  intros Inv (Hx & Hy & Hfit). apply Forall_forall. intros p Hp.
  destruct (slotsOf_cases _ _ _ _ _ _ _ Hp) as (i & Hi & Hpx & Hpy).
  assert (Hk : slotId p ∈ JsMap.keys (gen_cells s)).
  { rewrite (inv_keys _ _ _ Inv). apply list_elem_of_fmap.
    exists (slot_x p, slot_y p). split; [done|]. apply elem_of_gridCoords.
    rewrite Hpx, Hpy. destruct (eq_isHorizontal q); lia. }
  destruct (JsMap.get (slotId p) (gen_cells s)) eqn:E; [by eexists|].
  by apply get_None_keys in E.
Qed.

Lemma idShape_fresh count bound id (ids : list string) :
  Forall (idShape count bound) ids ->
  (forall j, 1 <= j <= Z.of_nat count -> id <> "eq-" +:+ showZ j) ->
  (forall i, 0 <= i < bound -> id <> "simple-" +:+ showZ i) ->
  id ∉ ids.
Proof.
  intros Hs He Hsim Hin. rewrite Forall_forall in Hs.
  destruct (Hs _ Hin) as [(j & Hj & E)|(i & Hi & E)].
  - by apply (He j).
  - by apply (Hsim i).
Qed.

Lemma createEquation_spec size h x y s rng :
  GenInv size 0 s ->
  stripFits size h x y ->
  stripFree h x y s ->
  returns (createEquation h x y) s rng (fun _ s' _ =>
    GenInv size 0 s'
    /\ gen_equationCount s' = gen_equationCount s
    /\ exists q, gen_equations s' = gen_equations s ++ [q] /\ eq_isHorizontal q = h).
Proof.
  intros Inv Hfit Hfree. unfold createEquation.
  apply returns_bind, returns_this.
  apply returns_bind. eapply returns_mono; [apply getRandomOperation_spec|].
  intros operation s1 rng1 ->. cbn beta.
  apply returns_bind. eapply returns_mono; [apply generateNumbers_spec|].
  intros [[num1 num2] result] s1 rng2 (-> & Hc & H1 & H2 & H3). cbn beta iota.
  simpl in Hc, H1, H2, H3.
  apply returns_bind. eapply returns_mono; [apply drawHintIndex_spec|].
  intros hintIndex s1 rng3 (-> & Hh). cbn beta.
  set (id := "eq-" +:+ showZ (Z.of_nat (length (gen_equations s)) + 1)).
  set (slots := applyHint hintIndex num1 num2 result _).
  pose (q := mkEquation id (map slotId slots)
               (showExpression num1 (opSymbol operation) num2 result) result h
               (mkPosition x y) false false).
  assert (Hslots : slots = slotsOf q operation num1 num2 result hintIndex).
  { subst slots. unfold slotsOf. simpl. by destruct h. }
  apply returns_bind, returns_commitSlots.
  { rewrite Hslots. by eapply slots_present. }
  unfold pushEquation. apply returns_modify.
  cbn [gen_equations gen_equationCount setGenCells setUsedPositions setGenEquations].
  fold q. split; [|split; [done|by exists q]].
  rewrite Hslots.
  apply (commit_strip size 0 0 s q operation num1 num2 result hintIndex);
    try done.
  - by apply exactContract_applies.
  - simpl. by rewrite Hslots.
  - simpl. eapply (idShape_fresh (length (gen_equations s)) 0).
    + apply Forall_fmap, (inv_idShape _ _ _ Inv).
    + intros j Hj E. apply (prefixed_inj "eq-") in E. lia.
    + intros i Hi. lia.
  - left. exists (Z.of_nat (length (gen_equations s)) + 1). simpl. split; [lia|done].
Qed.

(** ** The feasibility checks *)

Lemma horizontalRunIsFree_true len x y s :
  horizontalRunIsFree len x y s = true ->
  forall i, 0 <= i < len ->
    x + i < width (gen_gridSize s) /\ cellId (x + i) y ∉ usedPositions s.
Proof.
  unfold horizontalRunIsFree. rewrite forallb_forall. intros H i Hi.
  specialize (H i). rewrite <- list_elem_of_In, elem_of_seqZ in H.
  apply andb_prop in H as [H1 H2]; [|lia].
  apply negb_true_iff, Z.leb_gt in H1. apply negb_true_iff in H2.
  split; [done|]. by apply bool_decide_eq_false in H2.
Qed.

Lemma verticalRunIsFree_true len x y s :
  verticalRunIsFree len x y s = true ->
  forall i, 0 <= i < len ->
    y + i < height (gen_gridSize s) /\ cellId x (y + i) ∉ usedPositions s.
Proof.
  unfold verticalRunIsFree. rewrite forallb_forall. intros H i Hi.
  specialize (H i). rewrite <- list_elem_of_In, elem_of_seqZ in H.
  apply andb_prop in H as [H1 H2]; [|lia].
  apply negb_true_iff, Z.leb_gt in H1. apply negb_true_iff in H2.
  split; [done|]. by apply bool_decide_eq_false in H2.
Qed.

Lemma horizontalRunIsFree_empty len x y s :
  usedPositions s = ∅ -> x + len <= width (gen_gridSize s) ->
  horizontalRunIsFree len x y s = true.
Proof.
  intros Hu Hw. unfold horizontalRunIsFree. apply forallb_forall.
  intros i Hi. rewrite <- list_elem_of_In, elem_of_seqZ in Hi.
  rewrite Hu. apply andb_true_intro. split.
  - apply negb_true_iff, Z.leb_gt. lia.
  - apply negb_true_iff, bool_decide_eq_false. apply not_elem_of_empty.
Qed.

(** A check that passes on a run of at least five cells, from a start in
    the grid, makes the strip fit and leaves it free. *)
Lemma horizontal_feasible size len x y s :
  gen_gridSize s = size -> 5 <= len ->
  0 <= x -> 0 <= y < height size ->
  horizontalRunIsFree len x y s = true ->
  stripFits size true x y /\ stripFree true x y s.
Proof.
  intros <- Hlen Hx Hy H.
  pose proof (horizontalRunIsFree_true _ _ _ _ H) as Hfree. split.
  - destruct (Hfree 4) as [? _]; [lia|]. unfold stripFits. lia.
  - intros i Hi. apply Hfree. lia.
Qed.

Lemma vertical_feasible size len x y s :
  gen_gridSize s = size -> 5 <= len ->
  0 <= x < width size -> 0 <= y ->
  verticalRunIsFree len x y s = true ->
  stripFits size false x y /\ stripFree false x y s.
Proof.
  intros <- Hlen Hx Hy H.
  pose proof (verticalRunIsFree_true _ _ _ _ H) as Hfree. split.
  - destruct (Hfree 4) as [? _]; [lia|]. unfold stripFits. lia.
  - intros i Hi. apply Hfree. lia.
Qed.

Lemma reset_spec s rng :
  returns reset s rng (fun _ s' rng' =>
    rng' = rng
    /\ GenInv (gen_gridSize s) 0 s'
    /\ gen_equations s' = []
    /\ usedPositions s' = ∅
    /\ gen_equationCount s' = gen_equationCount s).
Proof.
  unfold reset. apply returns_modify. repeat split; simpl.
  - apply keys_emptyGrid.
  - apply Forall_nil_2.
  - apply NoDup_nil_2.
  - by intros k ?%elem_of_nil.
  - intros x y Hx Hy _. by rewrite get_emptyGrid.
  - apply NoDup_nil_2.
  - apply Forall_nil_2.
Qed.

(** ** The placement loops *)

Section Loops.
Context (allowed : bool -> Prop) (size : GridSize).

Lemma extends_refl s : GenInv size 0 s -> extends allowed size s s.
Proof.
  intros H. split; [done|]. split; [done|]. exists []. by rewrite app_nil_r.
Qed.

Lemma extends_trans s1 s2 s3 :
  extends allowed size s1 s2 -> extends allowed size s2 s3 -> extends allowed size s1 s3.
Proof.
  intros (_ & Hc1 & qs1 & He1 & Hq1) (Inv & Hc2 & qs2 & He2 & Hq2).
  split; [done|]. split; [congruence|]. exists (qs1 ++ qs2).
  split; [by rewrite He2, He1, app_assoc|by apply Forall_app].
Qed.

Lemma extends_length s s' :
  extends allowed size s s' ->
  (length (gen_equations s) <= length (gen_equations s'))%nat.
Proof. intros (_ & _ & qs & -> & _). rewrite length_app. lia. Qed.

Lemma attempt_spec h (can : bool) x y s rng :
  GenInv size 0 s ->
  (can = true -> stripFits size h x y /\ stripFree h x y s /\ allowed h) ->
  returns (if can then createEquation h x y else ret tt) s rng (fun _ s' _ =>
    extends allowed size s s'
    /\ (can = true -> length (gen_equations s') = S (length (gen_equations s)))).
Proof.
  intros Inv Hcan. destruct can.
  - destruct (Hcan eq_refl) as (Hfit & Hfree & Hal).
    eapply returns_mono; [by apply (createEquation_spec size)|].
    intros ? s' ? (Inv' & Hc & q & He & Hq). cbn beta. split.
    + split; [done|]. split; [done|]. exists [q]. split; [done|].
      apply Forall_singleton. by rewrite Hq.
    + intros _. rewrite He, length_app. simpl. lia.
  - apply returns_ret. split; [by apply extends_refl|done].
Qed.

Lemma V2_horizontalAttempts_spec budget targetCount s rng :
  GenInv size 0 s -> roomy size -> allowed true ->
  returns (V2.horizontalAttempts budget targetCount) s rng (fun _ s' _ =>
    extends allowed size s s').
Proof.
  intros Inv [Hw Hh] Hal. revert s rng Inv.
  induction budget as [|budget IH]; intros s rng Inv; cbn [V2.horizontalAttempts].
  - apply returns_ret. by apply extends_refl.
  - apply returns_bind, returns_this.
    destruct (countHorizontal true s <? targetCount);
      [|apply returns_ret; by apply extends_refl].
    rewrite (inv_size _ _ _ Inv).
    apply returns_bind, returns_randomBelow. intros startX rng1 Hx _.
    apply returns_bind, returns_randomBelow. intros startY rng2 Hy _.
    apply returns_bind.
    eapply returns_mono; [apply attempt_spec; [done|]|].
    + intros Hcan. split_and!; [..|done];
        apply (horizontal_feasible size 5 startX startY s);
        try done; try lia; apply (inv_size _ _ _ Inv).
    + intros ? s1 rng3 [Hext _]. cbn beta.
      eapply returns_mono; [apply IH, Hext|].
      intros ? s2 ? Hext2. by eapply extends_trans.
Qed.

Lemma V2_verticalAttempts_spec budget targetCount s rng :
  GenInv size 0 s -> roomy size -> allowed false ->
  returns (V2.verticalAttempts budget targetCount) s rng (fun _ s' _ =>
    extends allowed size s s').
Proof.
  intros Inv [Hw Hh] Hal. revert s rng Inv.
  induction budget as [|budget IH]; intros s rng Inv; cbn [V2.verticalAttempts].
  - apply returns_ret. by apply extends_refl.
  - apply returns_bind, returns_this.
    destruct (countHorizontal false s <? targetCount);
      [|apply returns_ret; by apply extends_refl].
    rewrite (inv_size _ _ _ Inv).
    apply returns_bind, returns_randomBelow. intros startX rng1 Hx _.
    apply returns_bind, returns_randomBelow. intros startY rng2 Hy _.
    apply returns_bind.
    eapply returns_mono; [apply attempt_spec; [done|]|].
    + intros Hcan. split_and!; [..|done];
        apply (vertical_feasible size 5 startX startY s);
        try done; try lia; apply (inv_size _ _ _ Inv).
    + intros ? s1 rng3 [Hext _]. cbn beta.
      eapply returns_mono; [apply IH, Hext|].
      intros ? s2 ? Hext2. by eapply extends_trans.
Qed.

End Loops.

Section RandomEquation.
Context (allowed : bool -> Prop) (size : GridSize).
Context (canH canV : Z -> Z -> Generator -> bool).
Context (HcanH : forall x y s,
  gen_gridSize s = size -> 0 <= x -> 0 <= y < height size -> canH x y s = true ->
  stripFits size true x y /\ stripFree true x y s /\ allowed true).
Context (HcanV : forall x y s,
  gen_gridSize s = size -> 0 <= x < width size -> 0 <= y -> canV x y s = true ->
  stripFits size false x y /\ stripFree false x y s /\ allowed false).

Lemma addRandomEquationLoop_spec budget s rng :
  GenInv size 0 s -> roomy size ->
  returns (addRandomEquationLoop canH canV budget) s rng (fun _ s' _ =>
    extends allowed size s s').
Proof.
  intros Inv [Hw Hh]. revert rng.
  induction budget as [|budget IH]; intros rng; cbn [addRandomEquationLoop].
  - apply returns_ret. by apply extends_refl.
  - apply returns_bind, returns_mathRandom. intros r rng1 _.
    apply returns_bind, returns_this.
    rewrite (inv_size _ _ _ Inv). destruct (below r 6 10).
    + apply returns_bind, returns_randomBelow. intros startX rng2 Hx Hx0.
      apply returns_bind, returns_randomBelow. intros startY rng3 Hy _.
      destruct (canH startX startY s) eqn:Hcan; [|apply IH].
      eapply returns_mono;
        [apply (attempt_spec allowed size true true startX startY); [done|]|].
      * intros _. apply HcanH; [apply (inv_size _ _ _ Inv)| |lia|done].
        destruct (decide (width size - 6 = 0)); [rewrite Hx0 by done|]; lia.
      * by intros ? s1 ? [Hext _].
    + apply returns_bind, returns_randomBelow. intros startX rng2 Hx _.
      apply returns_bind, returns_randomBelow. intros startY rng3 Hy Hy0.
      destruct (canV startX startY s) eqn:Hcan; [|apply IH].
      eapply returns_mono;
        [apply (attempt_spec allowed size false true startX startY); [done|]|].
      * intros _. apply HcanV; [apply (inv_size _ _ _ Inv)|lia| |done].
        destruct (decide (height size - 6 = 0)); [rewrite Hy0 by done|]; lia.
      * by intros ? s1 ? [Hext _].
Qed.

End RandomEquation.

Lemma V2_addRandomEquation_spec size s rng :
  GenInv size 0 s -> roomy size ->
  returns V2.addRandomEquation s rng (fun _ s' _ => extends (fun _ => True) size s s').
Proof.
  intros Inv Hroomy. unfold V2.addRandomEquation.
  apply addRandomEquationLoop_spec; try done.
  - intros x y s' Hs Hx Hy Hcan.
    destruct (horizontal_feasible size 5 x y s' Hs ltac:(lia) Hx Hy Hcan). done.
  - intros x y s' Hs Hx Hy Hcan.
    destruct (vertical_feasible size 5 x y s' Hs ltac:(lia) Hx Hy Hcan). done.
Qed.

Lemma V2_addRandomEquations_spec size budget s rng :
  GenInv size 0 s -> roomy size ->
  returns (V2.addRandomEquations budget) s rng (fun _ s' _ =>
    extends (fun _ => True) size s s').
Proof.
  intros Inv Hroomy. revert s rng Inv.
  induction budget as [|budget IH]; intros s rng Inv; cbn [V2.addRandomEquations].
  - apply returns_ret. by apply extends_refl.
  - apply returns_bind, returns_this.
    destruct (_ <? _); [|apply returns_ret; by apply extends_refl].
    apply returns_bind.
    eapply returns_mono; [by apply V2_addRandomEquation_spec|].
    intros ? s1 rng1 Hext. cbn beta in *.
    eapply returns_mono; [apply IH, Hext|].
    intros ? s2 ? Hext2. cbn beta in *.
    exact (extends_trans _ _ _ _ _ Hext Hext2).
Qed.

(** ** Filling with simple equations *)

Lemma GenInv_bound_mono size bound bound' s :
  GenInv size bound s -> bound <= bound' -> GenInv size bound' s.
Proof.
  intros [? ? ? ? ? ? ? Hshape] Hb. split; try done.
  eapply Forall_impl; [exact Hshape|]. intros q [H|(i & Hi & E)]; [by left|].
  right. exists i. split; [lia|done].
Qed.

Lemma simpleNumbers_spec operation s rng :
  operation <> Divide ->
  returns (V2.simpleNumbers operation) s rng (fun nums s' _ =>
    s' = s
    /\ exactContract operation nums.1.1 nums.1.2 nums.2
    /\ 1 <= nums.1.1 /\ 1 <= nums.1.2 /\ 1 <= nums.2).
Proof.
  intros Hop. destruct operation; [| | |done]; unfold V2.simpleNumbers;
    repeat (apply returns_bind, returns_randomBelow; intros ? ? ? _);
    apply returns_ret; simpl; repeat split; try lia; try nia.
Qed.

Lemma opSymbol_char operation :
  exists o, opSymbol operation = String o "" /\ Ascii.eqb o " " = false.
Proof. destruct operation; eexists; by split. Qed.

Lemma createSimpleEquation_spec size bound i operation num1 num2 result x y s rng :
  GenInv size bound s -> 0 <= bound <= i ->
  stripFits size true x y -> stripFree true x y s ->
  exactContract operation num1 num2 result ->
  1 <= num1 -> 1 <= num2 -> 1 <= result ->
  returns (V2.createSimpleEquation x y
             (showExpression num1 (opSymbol operation) num2 result)
             ("simple-" +:+ showZ i)) s rng
    (fun _ s' _ =>
       GenInv size (i + 1) s'
       /\ gen_equationCount s' = gen_equationCount s
       /\ length (gen_equations s') = S (length (gen_equations s))).
Proof.
  intros Inv Hb Hfit Hfree Hc H1 H2 H3. unfold V2.createSimpleEquation.
  assert (Hsplit : splitOn " " (showExpression num1 (opSymbol operation) num2 result)
                   = [showZ num1; opSymbol operation; showZ num2; "="; showZ result]).
  { destruct (opSymbol_char operation) as (o & -> & Ho).
    apply splitOn_showExpression; (done || lia). }
  cbv zeta. rewrite Hsplit. cbn [nth]. rewrite !parseInt_showZ by lia.
  apply returns_bind. eapply returns_mono; [apply drawHintIndex_spec|].
  intros hintIndex s1 rng1 (-> & Hh). cbn beta.
  set (id := "simple-" +:+ showZ i).
  set (slots := applyHint hintIndex num1 num2 result _).
  pose (q := mkEquation id (map slotId slots)
               (showExpression num1 (opSymbol operation) num2 result) result true
               (mkPosition x y) false false).
  assert (Hslots : slots = slotsOf q operation num1 num2 result hintIndex) by done.
  apply returns_bind, returns_commitSlots.
  { by apply (slots_present size bound s q operation num1 num2 result hintIndex). }
  unfold pushEquation. apply returns_modify.
  cbn [gen_equations gen_equationCount setGenCells setUsedPositions setGenEquations].
  fold q. split; [|split; [done|rewrite length_app; simpl; lia]].
  change slots with (slotsOf q operation num1 num2 result hintIndex).
  apply (commit_strip size bound (i + 1) s q operation num1 num2 result hintIndex);
    try done; try lia.
  - by apply exactContract_applies.
  - simpl. eapply (idShape_fresh (length (gen_equations s)) bound).
    + apply Forall_fmap, (inv_idShape _ _ _ Inv).
    + intros j Hj E. discriminate E.
    + intros i' Hi' E. apply (prefixed_inj "simple-") in E. lia.
  - right. exists i. simpl. split; [lia|done].
Qed.

Lemma V2_placeSimple_spec size bound i operation num1 num2 result budget s rng :
  GenInv size bound s -> 0 <= bound <= i -> roomy size ->
  exactContract operation num1 num2 result ->
  1 <= num1 -> 1 <= num2 -> 1 <= result ->
  returns (V2.placeSimple budget
             (showExpression num1 (opSymbol operation) num2 result)
             ("simple-" +:+ showZ i)) s rng
    (fun _ s' _ =>
       GenInv size (i + 1) s'
       /\ gen_equationCount s' = gen_equationCount s
       /\ (length (gen_equations s) <= length (gen_equations s'))%nat).
Proof.
  intros Inv Hb [Hw Hh] Hc H1 H2 H3. revert rng.
  induction budget as [|budget IH]; intros rng; cbn [V2.placeSimple].
  - apply returns_ret. split; [|done]. apply (GenInv_bound_mono size bound); [done|lia].
  - apply returns_bind, returns_this. rewrite (inv_size _ _ _ Inv).
    apply returns_bind, returns_randomBelow. intros startX rng1 Hx _.
    apply returns_bind, returns_randomBelow. intros startY rng2 Hy _.
    destruct (V2.canPlaceHorizontalEquation startX startY s) eqn:Hcan; [|apply IH].
    destruct (horizontal_feasible size 5 startX startY s) as [Hfit Hfree];
      [apply (inv_size _ _ _ Inv)|lia..|done|].
    eapply returns_mono; [by eapply createSimpleEquation_spec|].
    intros ? s1 ? (Inv1 & Hc1 & Hl1). cbn beta. split; [done|]. split; [done|lia].
Qed.

Lemma forEach_spec {A} (l : list A) (body : A -> Gen unit)
    (I : nat -> Generator -> Prop) s rng :
  I 0%nat s ->
  (forall k a s rng, l !! k = Some a -> I k s ->
     returns (body a) s rng (fun _ s' _ => I (S k) s')) ->
  returns (forEach l body) s rng (fun _ s' _ => I (length l) s').
Proof.
  revert I s rng. induction l as [|a l IH]; intros I s rng H0 Hstep; cbn [forEach].
  - by apply returns_ret.
  - apply returns_bind. eapply returns_mono; [by apply (Hstep 0%nat a)|].
    intros ? s1 rng1 H1. cbn beta in *.
    apply (IH (fun k => I (S k))); [done|].
    intros k b s2 rng2 Hk. by apply (Hstep (S k)).
Qed.

Lemma V2_fillWithSimpleEquations_spec size s rng :
  GenInv size 0 s -> roomy size ->
  returns V2.fillWithSimpleEquations s rng (fun _ s' _ =>
    (exists bound, GenInv size bound s')
    /\ gen_equationCount s' = gen_equationCount s
    /\ (length (gen_equations s) <= length (gen_equations s'))%nat).
Proof.
  intros Inv Hroomy. unfold V2.fillWithSimpleEquations.
  apply returns_bind, returns_this.
  set (needed := gen_equationCount s - Z.of_nat (length (gen_equations s))).
  eapply returns_mono.
  - apply (forEach_spec _ _ (fun k s' =>
      GenInv size (Z.of_nat k) s'
      /\ gen_equationCount s' = gen_equationCount s
      /\ (length (gen_equations s) <= length (gen_equations s'))%nat)); [done|].
    intros k i s1 rng1 Hk (Inv1 & Hc1 & Hl1).
    apply lookup_seqZ in Hk as [-> _]. rewrite Z.add_0_l.
    apply returns_bind, returns_randomBelow. intros j rng2 Hj _.
    assert (Hop : nth (Z.to_nat j) [Plus; Minus; Times] Plus <> Divide).
    { destruct (Z.to_nat j) as [|[|[|[|?]]]]; done. }
    apply returns_bind. eapply returns_mono; [by apply simpleNumbers_spec|].
    intros [[num1 num2] result] s2 rng3 (-> & Hc & H1 & H2 & H3). cbn beta iota.
    simpl in Hc, H1, H2, H3.
    eapply returns_mono;
      [apply (V2_placeSimple_spec size (Z.of_nat k) (Z.of_nat k));
         [done|lia|done|exact Hc|done..]|].
    intros ? s3 ? (Inv3 & Hc3 & Hl3). cbn beta.
    split; [|split; [congruence|lia]].
    by replace (Z.of_nat (S k)) with (Z.of_nat k + 1) by lia.
  - intros ? s' ? (Inv' & Hc' & Hl'). cbn beta. split; [by eexists|done].
Qed.

(** ** The second version returns a board *)

Lemma ceilDiv_pos a : 1 <= a -> 1 <= ceilDiv a 10.
Proof. intros H. unfold ceilDiv. Z.div_mod_to_equations. lia. Qed.

Lemma V2_horizontal_first size budget targetCount s rng :
  GenInv size 0 s -> roomy size ->
  gen_equations s = [] -> usedPositions s = ∅ -> 1 <= targetCount ->
  returns (V2.horizontalAttempts (S budget) targetCount) s rng (fun _ s' _ =>
    extends (fun _ => True) size s s'
    /\ (1 <= length (gen_equations s'))%nat).
Proof.
  intros Inv [Hw Hh] He Hu Ht. cbn [V2.horizontalAttempts].
  apply returns_bind, returns_this.
  assert (countHorizontal true s = 0) as -> by (unfold countHorizontal; by rewrite He).
  destruct (Z.ltb_spec 0 targetCount); [|lia].
  pose proof (inv_size _ _ _ Inv) as Hsize. rewrite Hsize.
  apply returns_bind, returns_randomBelow. intros startX rng1 Hx _.
  apply returns_bind, returns_randomBelow. intros startY rng2 Hy _.
  assert (Hcan : V2.canPlaceHorizontalEquation startX startY s = true).
  { apply horizontalRunIsFree_empty; [done|]. rewrite Hsize. lia. }
  rewrite Hcan. apply returns_bind.
  eapply returns_mono;
    [apply (attempt_spec (fun _ => True) size true true startX startY); [done|]|].
  - intros _. split_and!; [..|done];
      apply (horizontal_feasible size 5 startX startY s); try done; lia.
  - intros ? s1 rng3 [Hext Hlen]. cbn beta.
    eapply returns_mono; [by apply (V2_horizontalAttempts_spec (fun _ => True) size);
                          [apply Hext|..]|].
    intros ? s2 ? Hext2. cbn beta in *. split; [by eapply extends_trans|].
    apply extends_length in Hext2. rewrite Hlen in Hext2 by done. lia.
Qed.

Lemma roomy_tiers d : roomy (cfg_gridSize (DIFFICULTY_CONFIG d)).
Proof. destruct d; split; simpl; lia. Qed.

Lemma V2_generateOrThrow_spec d s1 rng :
  GenInv (cfg_gridSize (DIFFICULTY_CONFIG d)) 0 s1 ->
  gen_equations s1 = [] -> usedPositions s1 = ∅ ->
  gen_equationCount s1 = equationCount (DIFFICULTY_CONFIG d) ->
  returns V2.generateOrThrow s1 rng (fun b s' _ =>
    b = boardOf s'
    /\ (exists bound, GenInv (cfg_gridSize (DIFFICULTY_CONFIG d)) bound s')
    /\ (1 <= length (gen_equations s'))%nat).
Proof.
  set (size := cfg_gridSize (DIFFICULTY_CONFIG d)).
  pose proof (roomy_tiers d) as Hroomy. fold size in Hroomy.
  intros Inv1 He1 Hu1 Hc1. unfold V2.generateOrThrow.
  apply returns_bind. unfold V2.generateHorizontalEquations.
  apply returns_bind, returns_this.
  eapply returns_mono.
  { apply (V2_horizontal_first size 49); try done.
    rewrite Hc1, (inv_size _ _ _ Inv1).
    destruct d; by vm_compute. }
  intros ? s2 rng2 [Hext2 Hlen2]. cbn beta.
  pose proof Hext2 as (Inv2 & _).
  apply returns_bind. unfold V2.generateVerticalEquations.
  apply returns_bind, returns_this.
  eapply returns_mono; [by apply (V2_verticalAttempts_spec (fun _ => True) size)|].
  intros ? s3 rng3 Hext3. cbn beta in *.
  pose proof Hext3 as (Inv3 & _). apply extends_length in Hext3.
  apply returns_bind.
  eapply returns_mono; [by apply (V2_addRandomEquations_spec size)|].
  intros ? s4 rng4 Hext4. cbn beta in *.
  pose proof Hext4 as (Inv4 & _). apply extends_length in Hext4.
  apply returns_bind, returns_this. apply returns_bind.
  eapply returns_mono with (P := fun _ s5 _ =>
    (exists bound, GenInv size bound s5)
    /\ (length (gen_equations s4) <= length (gen_equations s5))%nat).
  { destruct (_ <? _).
    - eapply returns_mono; [by apply V2_fillWithSimpleEquations_spec|].
      intros ? s5 ? (Inv5 & _ & Hl5). by split.
    - apply returns_ret. split; [by exists 0|done]. }
  intros ? s5 rng5 [Inv5 Hl5]. cbn beta.
  apply returns_bind, returns_this. apply returns_ret.
  split; [done|]. split; [done|lia].
Qed.

Lemma V2_generatePuzzle_spec d rng :
  returns V2.generatePuzzle (newGenerator d) rng (fun b s' _ =>
    b = boardOf s'
    /\ (exists bound, GenInv (cfg_gridSize (DIFFICULTY_CONFIG d)) bound s')
    /\ (1 <= length (gen_equations s'))%nat).
Proof.
  unfold V2.generatePuzzle.
  apply returns_bind. eapply returns_mono; [apply reset_spec|].
  intros ? s1 rng1 (-> & Inv1 & He1 & Hu1 & Hc1). cbn beta.
  apply returns_tryCatch. by apply V2_generateOrThrow_spec.
Qed.

(** ** The board *)

Lemma boardOf_equations s :
  NoDup (map eq_id (gen_equations s)) ->
  equations (boardOf s) = map (fun q => (eq_id q, q)) (gen_equations s).
Proof.
  intros Hnd. unfold boardOf. simpl.
  by rewrite (foldl_set_fresh eq_id (fun q => q)).
Qed.

Lemma values_mk {A} (f : A -> string) (l : list A) :
  JsMap.values (map (fun a => (f a, a)) l) = l.
Proof. unfold JsMap.values. rewrite map_map. simpl. apply map_id. Qed.

Lemma GenInv_BoardOk size bound s :
  GenInv size bound s -> BoardOk (boardOf s) /\ JsMap.values (equations (boardOf s)) = gen_equations s.
Proof.
  intros [Isz Ikeys Ieqs Idis Iused Iun Iids Ishape].
  pose proof (boardOf_equations s Iids) as He.
  assert (Hv : JsMap.values (equations (boardOf s)) = gen_equations s)
    by (rewrite He; apply values_mk).
  split; [|done]. split; rewrite ?Hv; try done.
  - by rewrite <- Isz in Ikeys.
  - simpl gridSize. by rewrite Isz.
  - simpl gridSize. by rewrite Isz.
Qed.

Lemma slotsOf_eq q operation num1 num2 result hintIndex :
  slotsOf q operation num1 num2 result hintIndex
  = let x := pos_x (eq_startPosition q) in
    let y := pos_y (eq_startPosition q) in
    let dx := if eq_isHorizontal q then 1 else 0 in
    let dy := if eq_isHorizontal q then 0 else 1 in
    [ mkSlot x y number
        (if hintIndex =? 0 then VNum num1 else VNull) (hintIndex =? 0);
      mkSlot (x + dx) (y + dy) operator (VStr (opSymbol operation)) true;
      mkSlot (x + 2 * dx) (y + 2 * dy) number
        (if hintIndex =? 1 then VNum num2 else VNull) (hintIndex =? 1);
      mkSlot (x + 3 * dx) (y + 3 * dy) equals (VStr "=") true;
      mkSlot (x + 4 * dx) (y + 4 * dy) number
        (if hintIndex =? 2 then VNum result else VNull) (hintIndex =? 2) ].
Proof.
  unfold slotsOf, applyHint, stripSlots.
  destruct (Z.eqb_spec hintIndex 0) as [->|]; [done|].
  destruct (Z.eqb_spec hintIndex 1) as [->|]; [done|].
  by destruct (Z.eqb_spec hintIndex 2) as [->|].
Qed.

Lemma slotsOf_type q operation num1 num2 result hintIndex p :
  p ∈ slotsOf q operation num1 num2 result hintIndex -> slot_type p <> empty.
Proof.
  rewrite slotsOf_eq. cbn zeta.
  repeat (rewrite elem_of_cons; intros [->|H]; [done|revert H]).
  by intros ?%elem_of_nil.
Qed.

(** The cells of a board are the cells of its grid. *)
Lemma BoardOk_cell b k c :
  BoardOk b -> JsMap.get k (cells b) = Some c ->
  exists x y, 0 <= x < width (gridSize b) /\ 0 <= y < height (gridSize b)
              /\ k = cellId x y.
Proof.
  intros Hb Hget. apply get_Some_keys in Hget.
  rewrite (bo_cellKeys _ Hb) in Hget.
  apply list_elem_of_fmap in Hget as ([x y] & -> & Hin).
  apply elem_of_gridCoords in Hin. exists x, y. simpl. tauto.
Qed.

(** Each cell of an equation carries its type, its membership and, when
    it is not left to the player, its value. *)
Lemma BoardOk_claimed b q k :
  BoardOk b -> q ∈ JsMap.values (equations b) -> k ∈ eq_cells q ->
  exists c, JsMap.get k (cells b) = Some c
            /\ cell_id c = k
            /\ cell_type c <> empty
            /\ cell_belongsToEquation c = [eq_id q]
            /\ (cell_isFixed c = false -> cell_type c = number /\ cell_value c = VNull).
Proof.
  intros Hb Hq Hk.
  pose proof (bo_equations _ Hb) as Heqs. rewrite Forall_forall in Heqs.
  destruct (Heqs q Hq) as (operation & num1 & num2 & result & hintIndex & H).
  destruct H as (_ & _ & _ & _ & _ & _ & _ & _ & _ & Hc & Hs).
  rewrite Hc in Hk. apply list_elem_of_fmap in Hk as (p & -> & Hp).
  pose proof (slotsOf_type _ _ _ _ _ _ _ Hp) as Hty.
  rewrite Forall_forall in Hs. specialize (Hs p Hp).
  destruct (JsMap.get (slotId p) (cells b)) as [c|]; [|done].
  apply (inj Some) in Hs. exists c. split; [done|].
  unfold cellCore, slotCore in Hs. injection Hs as Hid Hty' Hv _ Hf Hbel.
  split; [done|]. split; [by rewrite Hty'|]. split; [done|].
  rewrite Hf, Hty', Hv. clear -Hp.
  rewrite slotsOf_eq in Hp. cbn zeta in Hp.
  repeat (apply elem_of_cons in Hp as [->|Hp];
          [simpl; try done; by intros ->|]).
  by apply elem_of_nil in Hp.
Qed.

Lemma BoardOk_unclaimed b k c :
  BoardOk b -> JsMap.get k (cells b) = Some c ->
  k ∉ concat (map eq_cells (JsMap.values (equations b))) ->
  cell_type c = empty /\ cell_value c = VNull /\ cell_isFixed c = false
  /\ cell_belongsToEquation c = [].
Proof.
  intros Hb Hget Hk.
  destruct (BoardOk_cell b k c Hb Hget) as (x & y & Hx & Hy & ->).
  pose proof (bo_unclaimed _ Hb x y Hx Hy Hk) as Hcore.
  rewrite Hget in Hcore. apply (inj Some), cellCore_eq in Hcore.
  by destruct Hcore as (_ & -> & -> & _ & -> & ->).
Qed.

(** Whatever the tier and the draws, the second version returns, from
    its [try] block, a board that satisfies [BoardOk] and holds at least
    one equation. *)
Lemma V2_generatePuzzle_board d rng :
  exists b s1 rng1 s' rng',
    reset (newGenerator d) rng = Returned tt s1 rng1
    /\ V2.generateOrThrow s1 rng1 = Returned b s' rng'
    /\ V2.generatePuzzle (newGenerator d) rng = Returned b s' rng'
    /\ BoardOk b
    /\ gridSize b = cfg_gridSize (DIFFICULTY_CONFIG d)
    /\ JsMap.values (equations b) <> [].
Proof.
  destruct (returns_eq _ _ _ _ (reset_spec (newGenerator d) rng))
    as ([] & s1 & rng1 & Hreset & _ & Inv1 & He1 & Hu1 & Hc1).
  destruct (returns_eq _ _ _ _ (V2_generateOrThrow_spec d s1 rng1 Inv1 He1 Hu1 Hc1))
    as (b & s' & rng' & Hgen & -> & [bound Inv] & Hlen).
  exists (boardOf s'), s1, rng1, s', rng'.
  destruct (GenInv_BoardOk _ _ _ Inv) as [Hok Hv].
  split; [done|]. split; [done|]. split.
  { unfold V2.generatePuzzle, bind, tryCatch. by rewrite Hreset, Hgen. }
  split; [done|]. split; [apply (inv_size _ _ _ Inv)|].
  rewrite Hv. destruct (gen_equations s'); [simpl in Hlen; lia|done].
Qed.

(** C6: in the board that [generatePuzzle] returns, every equation lies
    on five consecutive cells of the grid along its orientation, no cell
    belongs to two equations, each of the five cells of an equation was
    written (it has a type and names the equation), and every other cell
    is as [reset] left it.  The board comes out of the [try] block:
    no strip was abandoned half-written. *)
Theorem equations_on_disjoint_strips d rng :
  exists b s1 rng1 s' rng',
    reset (newGenerator d) rng = Returned tt s1 rng1
    /\ V2.generateOrThrow s1 rng1 = Returned b s' rng'
    /\ V2.generatePuzzle (newGenerator d) rng = Returned b s' rng'
    /\ Forall (fun q =>
         stripFits (gridSize b) (eq_isHorizontal q)
           (pos_x (eq_startPosition q)) (pos_y (eq_startPosition q))
         /\ eq_cells q
            = stripIds (eq_isHorizontal q)
                (pos_x (eq_startPosition q)) (pos_y (eq_startPosition q))
         /\ Forall (fun k =>
              exists c, JsMap.get k (cells b) = Some c
                        /\ cell_type c <> empty
                        /\ cell_belongsToEquation c = [eq_id q])
              (eq_cells q))
         (JsMap.values (equations b))
    /\ NoDup (concat (map eq_cells (JsMap.values (equations b))))
    /\ (forall k c,
          JsMap.get k (cells b) = Some c ->
          k ∉ concat (map eq_cells (JsMap.values (equations b))) ->
          cell_type c = empty /\ cell_value c = VNull
          /\ cell_belongsToEquation c = []).
Proof.
  destruct (V2_generatePuzzle_board d rng)
    as (b & s1 & rng1 & s' & rng' & Hreset & Htry & Hgen & Hok & _ & _).
  exists b, s1, rng1, s', rng'.
  split; [done|]. split; [done|]. split; [done|]. split; [|split].
  - apply Forall_forall. intros q Hq.
    pose proof (bo_equations _ Hok) as Heqs. rewrite Forall_forall in Heqs.
    destruct (Heqs q Hq) as (operation & num1 & num2 & result & hintIndex & H).
    destruct H as (Hx & Hy & Hfit & _ & _ & _ & _ & _ & _ & Hc & _).
    split; [done|]. split; [by rewrite Hc, slotId_slotsOf|].
    apply Forall_forall. intros k Hk.
    destruct (BoardOk_claimed b q k Hok Hq Hk) as (c & Hget & _ & Hty & Hbel & _).
    by exists c.
  - apply (bo_disjoint _ Hok).
  - intros k c Hget Hk.
    destruct (BoardOk_unclaimed b k c Hok Hget Hk) as (? & ? & _ & ?). done.
Qed.

(** The second version always terminates (it is a total function: each
    of its loops has a budget) with a board of at least one equation in
    which every reference resolves: the cells that an equation lists are
    cells of the board, and the equations that a cell names are
    equations of the board. *)
Lemma second_version_returns_a_board d rng :
  exists b s' rng',
    V2.generatePuzzle (newGenerator d) rng = Returned b s' rng'
    /\ JsMap.values (equations b) <> []
    /\ Forall (fun q =>
         Forall (fun k => is_Some (JsMap.get k (cells b))) (eq_cells q))
         (JsMap.values (equations b))
    /\ Forall (fun c =>
         Forall (fun id => is_Some (JsMap.get id (equations b)))
           (cell_belongsToEquation c))
         (JsMap.values (cells b)).
Proof.
  destruct (V2_generatePuzzle_board d rng)
    as (b & s1 & rng1 & s' & rng' & _ & _ & Hgen & Hok & _ & Hne).
  exists b, s', rng'. split; [done|]. split; [done|]. split.
  - apply Forall_forall. intros q Hq. apply Forall_forall. intros k Hk.
    destruct (BoardOk_claimed b q k Hok Hq Hk) as (c & Hget & _). by exists c.
  - apply Forall_forall. intros c Hc.
    apply list_elem_of_fmap in Hc as ([k c'] & -> & Hin). simpl.
    assert (Hget : JsMap.get k (cells b) = Some c').
    { apply get_entry; [|done]. rewrite (bo_cellKeys _ Hok). apply NoDup_gridKeys. }
    destruct (decide (k ∈ concat (map eq_cells (JsMap.values (equations b)))))
      as [Hk|Hk].
    + apply elem_of_concat in Hk as (l & Hk & Hl).
      apply list_elem_of_fmap in Hl as (q & -> & Hq).
      destruct (BoardOk_claimed b q k Hok Hq Hk) as (c & Hget' & _ & _ & Hbel & _).
      assert (c = c') as -> by congruence. rewrite Hbel.
      apply Forall_singleton. exists q. rewrite (bo_equationKeys _ Hok).
      apply (get_mk eq_id (fun q => q)); [apply (bo_equationIds _ Hok)|done].
    + destruct (BoardOk_unclaimed b k c' Hok Hget Hk) as (_ & _ & _ & ->).
      apply Forall_nil_2.
Qed.

(** ** The first version on the smallest grid *)

Lemma length_gridCoords size :
  0 <= width size -> 0 <= height size ->
  Z.of_nat (length (gridCoords size)) = width size * height size.
Proof.
  intros Hw Hh. unfold gridCoords.
  assert (H : forall l : list Z,
    Z.of_nat (length (l ≫= fun y => seqZ 0 (width size) ≫= fun x => [(x, y)]))
    = width size * Z.of_nat (length l)).
  { induction l as [|y l IH]; [simpl; lia|].
    rewrite bind_cons, length_app, Nat2Z.inj_add, IH.
    assert (Hrow : forall l' : list Z,
      length (l' ≫= fun x => [(x, y)]) = length l').
    { induction l' as [|x l' IH']; [done|].
      rewrite bind_cons, length_app, IH'. done. }
    rewrite Hrow, length_seqZ. simpl length. lia. }
  transitivity (width size * Z.of_nat (length (seqZ 0 (height size))));
    [apply H|rewrite length_seqZ; lia].
Qed.

(** The strips are disjoint and lie in the grid, five cells each: the
    grid bounds their number. *)
Lemma GenInv_capacity size bound s :
  GenInv size bound s -> 0 <= width size -> 0 <= height size ->
  5 * Z.of_nat (length (gen_equations s)) <= width size * height size.
Proof.
  intros Inv Hw Hh.
  assert (Hsub : concat (map eq_cells (gen_equations s))
                 ⊆+ map (fun p : Z * Z => cellId p.1 p.2) (gridCoords size)).
  { apply NoDup_submseteq; [apply (inv_disjoint _ _ _ Inv)|].
    intros k (cs & Hk & Hcs)%elem_of_concat.
    apply list_elem_of_fmap in Hcs as (q & -> & Hq).
    pose proof (inv_equations _ _ _ Inv) as Heqs. rewrite Forall_forall in Heqs.
    destruct (Heqs q Hq) as (operation & num1 & num2 & result & hintIndex & H).
    destruct H as (Hx0 & Hy0 & Hfit & _ & _ & _ & _ & _ & _ & Hc & _).
    rewrite Hc, slotId_slotsOf in Hk.
    destruct (stripIds_inGrid size _ _ _ _ (conj Hx0 (conj Hy0 Hfit)) Hk) as (x & y & Hx & Hy & ->).
    apply (list_elem_of_fmap_2 (fun p : Z * Z => cellId p.1 p.2) _ (x, y)).
    by apply elem_of_gridCoords. }
  apply submseteq_length in Hsub. rewrite length_map in Hsub.
  assert (Hlen : length (concat (map eq_cells (gen_equations s)))
                 = (5 * length (gen_equations s))%nat).
  { clear Hsub. pose proof (inv_equations _ _ _ Inv) as Heqs.
    induction Heqs as [|q qs Hq _ IH]; simpl; [done|].
    rewrite length_app, IH.
    destruct Hq as (operation & num1 & num2 & result & hintIndex & H).
    destruct H as (_ & _ & _ & _ & _ & _ & _ & _ & _ & Hc & _).
    rewrite Hc, slotId_slotsOf. unfold stripIds. rewrite length_map, length_seqZ. lia. }
  pose proof (length_gridCoords size Hw Hh). lia.
Qed.

Section FirstVersion.
Context (size : GridSize) (Hroomy : roomy size).

Lemma V1_horizontalAttempts_spec budget targetCount s rng :
  GenInv size 0 s ->
  returns (V1.horizontalAttempts budget targetCount) s rng (fun _ s' _ =>
    extends (fun _ => True) size s s').
Proof.
  destruct Hroomy as [Hw Hh]. revert s rng.
  induction budget as [|budget IH]; intros s rng Inv; cbn [V1.horizontalAttempts].
  - apply returns_ret. by apply extends_refl.
  - apply returns_bind, returns_this.
    destruct (countHorizontal true s <? targetCount);
      [|apply returns_ret; by apply extends_refl].
    rewrite (inv_size _ _ _ Inv).
    apply returns_bind, returns_randomBelow. intros startX rng1 Hx Hx0.
    apply returns_bind, returns_randomBelow. intros startY rng2 Hy _.
    assert (0 <= startX).
    { destruct (decide (width size - 6 = 0)); [rewrite Hx0 by done|]; lia. }
    apply returns_bind.
    eapply returns_mono; [apply (attempt_spec (fun _ => True) size); [done|]|].
    + intros Hcan. split_and!; [..|done];
        apply (horizontal_feasible size 7 startX startY s);
        try done; try lia; apply (inv_size _ _ _ Inv).
    + intros ? s1 rng3 [Hext _]. cbn beta.
      eapply returns_mono; [apply IH, Hext|].
      intros ? s2 ? Hext2. cbn beta in *.
      exact (extends_trans _ _ _ _ _ Hext Hext2).
Qed.

Lemma V1_verticalAttempts_spec budget targetCount s rng :
  GenInv size 0 s ->
  returns (V1.verticalAttempts budget targetCount) s rng (fun _ s' _ =>
    extends (fun _ => True) size s s').
Proof.
  destruct Hroomy as [Hw Hh]. revert s rng.
  induction budget as [|budget IH]; intros s rng Inv; cbn [V1.verticalAttempts].
  - apply returns_ret. by apply extends_refl.
  - apply returns_bind, returns_this.
    destruct (countHorizontal false s <? targetCount);
      [|apply returns_ret; by apply extends_refl].
    rewrite (inv_size _ _ _ Inv).
    apply returns_bind, returns_randomBelow. intros startX rng1 Hx _.
    apply returns_bind, returns_randomBelow. intros startY rng2 Hy Hy0.
    assert (0 <= startY).
    { destruct (decide (height size - 6 = 0)); [rewrite Hy0 by done|]; lia. }
    apply returns_bind.
    eapply returns_mono; [apply (attempt_spec (fun _ => True) size); [done|]|].
    + intros Hcan. split_and!; [..|done];
        apply (vertical_feasible size 7 startX startY s);
        try done; try lia; apply (inv_size _ _ _ Inv).
    + intros ? s1 rng3 [Hext _]. cbn beta.
      eapply returns_mono; [apply IH, Hext|].
      intros ? s2 ? Hext2. cbn beta in *.
      exact (extends_trans _ _ _ _ _ Hext Hext2).
Qed.

Lemma V1_addRandomEquation_spec s rng :
  GenInv size 0 s ->
  returns V1.addRandomEquation s rng (fun _ s' _ => extends (fun _ => True) size s s').
Proof.
  intros Inv. unfold V1.addRandomEquation.
  apply addRandomEquationLoop_spec; try done.
  - intros x y s' Hs Hx Hy Hcan.
    destruct (horizontal_feasible size 7 x y s' Hs ltac:(lia) Hx Hy Hcan). done.
  - intros x y s' Hs Hx Hy Hcan.
    destruct (vertical_feasible size 7 x y s' Hs ltac:(lia) Hx Hy Hcan). done.
Qed.

(** When the grid has fewer than five cells for each equation asked
    for, the [while] loop of the first version finds its condition true
    however often it is evaluated. *)
Lemma V1_ensureEnough_starves fuel s rng :
  GenInv size 0 s ->
  width size * height size < 5 * gen_equationCount s ->
  V1.ensureEnough fuel s rng = None.
Proof.
  destruct Hroomy as [Hw Hh]. revert s rng.
  induction fuel as [|fuel IH]; intros s rng Inv Hcount; [done|].
  cbn [V1.ensureEnough].
  pose proof (GenInv_capacity _ _ _ Inv ltac:(lia) ltac:(lia)) as Hcap.
  destruct (Z.ltb_spec (Z.of_nat (length (gen_equations s))) (gen_equationCount s));
    [|lia].
  destruct (returns_eq _ _ _ _ (V1_addRandomEquation_spec s rng Inv))
    as ([] & s' & rng' & -> & Inv' & Hc & _).
  apply IH; [done|]. by rewrite Hc.
Qed.

Lemma V1_generatePuzzle_starves fuel s rng :
  gen_gridSize s = size ->
  width size * height size < 5 * gen_equationCount s ->
  V1.generatePuzzle fuel s rng = None.
Proof.
  intros Hsize Hcount. unfold V1.generatePuzzle.
  assert (Hpre : returns
    (reset ;;; V1.generateHorizontalEquations ;;; V1.generateVerticalEquations ;;;
     V1.addIntersectionChallenges) s rng
    (fun _ s' _ => GenInv size 0 s' /\ gen_equationCount s' = gen_equationCount s)).
  { apply returns_bind. eapply returns_mono; [apply reset_spec|].
    intros ? s1 rng1 (_ & Inv1 & _ & _ & Hc1). cbn beta. rewrite Hsize in Inv1.
    apply returns_bind. unfold V1.generateHorizontalEquations.
    apply returns_bind, returns_this.
    eapply returns_mono; [by apply V1_horizontalAttempts_spec|].
    intros ? s2 rng2 (Inv2 & Hc2 & _). cbn beta.
    apply returns_bind. unfold V1.generateVerticalEquations.
    apply returns_bind, returns_this.
    eapply returns_mono; [by apply V1_verticalAttempts_spec|].
    intros ? s3 rng3 (Inv3 & Hc3 & _). cbn beta.
    apply returns_ret. split; [done|congruence]. }
  destruct (returns_eq _ _ _ _ Hpre) as ([] & s1 & rng1 & -> & Inv1 & Hc1).
  rewrite V1_ensureEnough_starves; [done|done|by rewrite Hc1].
Qed.

End FirstVersion.

(** C5: on the easy tier the first version of [generatePuzzle] does not
    terminate, whatever the draws.  Its last loop,
    [while (this.equations.length < this.equationCount)], has no bound
    of its own, and the grid of 8 by 6 cells has no room for ten
    disjoint strips of five cells: however many times the condition is
    evaluated, it is true again. *)
Theorem first_version_diverges_on_easy fuel rng :
  V1.generatePuzzle fuel (newGenerator easy) rng = None.
Proof.
  apply (V1_generatePuzzle_starves (cfg_gridSize (DIFFICULTY_CONFIG easy))).
  - apply roomy_tiers.
  - done.
  - vm_compute. done.
Qed.

(** ** The move log *)

Lemma snoc_split {A} (before after l : list A) (m x : A) :
  before ++ m :: after = l ++ [x] ->
  (after = [] /\ m = x /\ before = l)
  \/ (exists after', after = after' ++ [x] /\ l = before ++ m :: after').
Proof.
  destruct (rev after) as [|y r] eqn:E.
  - apply (f_equal (@rev A)) in E. rewrite rev_involutive in E. simpl in E. subst after.
    intros H. apply app_inj_tail in H as [-> ->]. by left.
  - apply (f_equal (@rev A)) in E. rewrite rev_involutive in E. simpl in E. subst after.
    intros H. rewrite app_comm_cons, app_assoc in H.
    apply app_inj_tail in H as [<- ->]. right. by exists (rev r).
Qed.

Lemma heldBy_snoc c t ms x :
  heldBy c t (ms ++ [x])
  <-> (move_type x = place /\ move_cellId x = c /\ move_tileId x = t)
      \/ (heldBy c t ms
          /\ (move_type x = place -> move_cellId x <> c /\ move_tileId x <> t)).
Proof.
  split.
  - intros (before & m & after & Hms & Hp & Hc & Ht & Hafter).
    symmetry in Hms. apply snoc_split in Hms as [(-> & -> & ->)|(after' & -> & ->)]; [by left|].
    apply Forall_app in Hafter as [Hafter Hx]. rewrite Forall_singleton in Hx.
    right. split; [|done]. exists before, m, after'. by repeat split.
  - intros [(Hp & Hc & Ht)|[(before & m & after & -> & Hp & Hc & Ht & Hafter) Hx]].
    + exists ms, x, []. by repeat split.
    + exists before, m, (after ++ [x]). rewrite <- app_assoc. simpl.
      repeat split; try done. apply Forall_app. split; [done|].
      by apply Forall_singleton.
Qed.

Lemma heldBy_nil c t : ~ heldBy c t [].
Proof. intros (before & m & after & H & _). by destruct before. Qed.

Lemma heldBy_findLastPlace c t ms :
  heldBy c t ms ->
  exists m, findLastPlace c ms = Some m /\ move_tileId m = t.
Proof.
  induction ms as [|x ms IH] using rev_ind; [by intros ?%heldBy_nil|].
  rewrite heldBy_snoc, findLastPlace_snoc.
  intros [(Hp & Hc & Ht)|[H Hx]].
  - rewrite bool_decide_true by done. rewrite <- Hc, String.eqb_refl. simpl. by exists x.
  - destruct (bool_decide_reflect (move_type x = place)) as [Hp|Hp]; simpl; [|by apply IH].
    destruct (String.eqb_spec (move_cellId x) c) as [Hc|Hc]; [|by apply IH].
    by destruct (Hx Hp).
Qed.

(** A tile is held by one cell at most. *)
Lemma heldBy_inj c c' t ms : heldBy c t ms -> heldBy c' t ms -> c = c'.
Proof.
  induction ms as [|x ms IH] using rev_ind; [by intros ?%heldBy_nil|].
  rewrite !heldBy_snoc.
  intros [(Hp & Hc & Ht)|[H Hx]] [(Hp' & Hc' & Ht')|[H' Hx']].
  - congruence.
  - by destruct (Hx' Hp).
  - by destruct (Hx Hp').
  - by apply IH.
Qed.

Lemma updateTile_used_again t tile ts :
  findTile t ts = Some tile -> tile_isUsed tile = true ->
  updateTile t (setIsUsed true) (updateTile t (setIsUsed false) ts) = ts.
Proof.
  induction ts as [|t0 ts IH]; simpl; [done|].
  destruct (String.eqb (tile_id t0) t) eqn:E; simpl.
  - intros [= ->] Hu. rewrite E. destruct tile as [i v u]. simpl in *. by subst u.
  - intros H Hu. rewrite E. by rewrite IH.
Qed.

(** [Consistent] reads the cores of the cells, the tiles and the log. *)
Lemma Consistent_ext g g' :
  sameCores (cells (board g)) (cells (board g')) ->
  availableNumbers g' = availableNumbers g ->
  moves g' = moves g ->
  Consistent g -> Consistent g'.
Proof.
  intros Hc Ht Hm [Hcells Hlog]. split.
  - intros c cell' Hget Hfix Hval. rewrite Ht, Hm.
    pose proof (sameCores_get _ _ c Hc) as Hk. rewrite Hget in Hk.
    destruct (JsMap.get c (cells (board g))) as [cell|] eqn:Hget0; [|done].
    simpl in Hk. apply (inj Some) in Hk.
    apply cellCore_eq in Hk as (_ & _ & Hv & _ & Hf & _).
    destruct (Hcells c cell Hget0) as (t & tile & ? & ? & ? & ?); [congruence..|].
    exists t, tile. repeat split; try done. congruence.
  - by rewrite Hm.
Qed.

Lemma removalsJustified_snoc ms x :
  removalsJustified ms ->
  (move_type x = remove -> heldBy (move_cellId x) (move_tileId x) ms) ->
  removalsJustified (ms ++ [x]).
Proof.
  intros Hms Hx before m after H Hr. symmetry in H.
  apply snoc_split in H as [(-> & -> & ->)|(after' & -> & ->)]; [by apply Hx|].
  by apply (Hms before m after').
Qed.

Lemma removalsJustified_pop ms x :
  removalsJustified (ms ++ [x]) ->
  removalsJustified ms
  /\ (move_type x = remove -> heldBy (move_cellId x) (move_tileId x) ms).
Proof.
  intros H. split.
  - intros before m after -> Hr. apply (H before m (after ++ [x])); [|done].
    by rewrite <- app_assoc.
  - intros Hr. by apply (H ms x []).
Qed.

Lemma Consistent_place now t c g tile cell :
  Consistent g ->
  findTile t (availableNumbers g) = Some tile -> tile_isUsed tile = false ->
  JsMap.get c (cells (board g)) = Some cell ->
  Consistent (pushMove (mkMove now place t c now)
                (writeTileAndCell t c true (VNum (tile_value tile)) g)).
Proof.
  intros [Hcells Hlog] Htile Hunused Hcell. split; simpl.
  - intros c' cell' Hget Hfix Hval.
    destruct (decide (c = c')) as [<-|Hne].
    + rewrite get_update_eq, Hcell in Hget. simpl in Hget. injection Hget as <-.
      exists t, (setIsUsed true tile). split; [apply heldBy_snoc; by left|].
      split; [|done]. rewrite findTile_updateTile_eq by done. by rewrite Htile.
    + rewrite get_update_ne in Hget by done.
      destruct (Hcells c' cell' Hget Hfix Hval) as (t' & tile' & Hh & Hf & Hv & Hu).
      assert (t <> t') by (intros <-; congruence).
      exists t', tile'. split; [apply heldBy_snoc; right; by split|].
      split; [|done]. by rewrite findTile_updateTile_ne.
  - by apply removalsJustified_snoc.
Qed.

Lemma Consistent_remove now c g cell lastMove tile :
  Consistent g ->
  JsMap.get c (cells (board g)) = Some cell ->
  cell_isFixed cell = false -> cell_value cell <> VNull ->
  findLastPlace c (moves g) = Some lastMove ->
  findTile (move_tileId lastMove) (availableNumbers g) = Some tile ->
  Consistent (pushMove (mkMove now remove (move_tileId lastMove) c now)
                (writeTileAndCell (move_tileId lastMove) c false VNull g))
  /\ cell_value cell = VNum (tile_value tile)
  /\ tile_isUsed tile = true.
Proof.
  intros [Hcells Hlog] Hcell Hfix Hval Hlast Htile.
  destruct (Hcells c cell Hcell Hfix Hval) as (t & tile0 & Hh & Hf & Hv & Hu).
  destruct (heldBy_findLastPlace _ _ _ Hh) as (m & Hm & Ht).
  assert (m = lastMove) as -> by congruence. subst t.
  assert (tile0 = tile) as -> by congruence.
  split; [|done]. split; simpl.
  - intros c' cell' Hget Hfix' Hval'.
    destruct (decide (c = c')) as [<-|Hne].
    + rewrite get_update_eq, Hcell in Hget. simpl in Hget. by injection Hget as <-.
    + rewrite get_update_ne in Hget by done.
      destruct (Hcells c' cell' Hget Hfix' Hval') as (t' & tile' & Hh' & Hf' & Hv' & Hu').
      assert (move_tileId lastMove <> t').
      { intros <-. by apply Hne, (heldBy_inj _ _ _ _ Hh Hh'). }
      exists t', tile'. split; [apply heldBy_snoc; right; by split|].
      split; [|done]. by rewrite findTile_updateTile_ne.
  - by apply removalsJustified_snoc.
Qed.

Lemma Consistent_undo g lastMove rest :
  Consistent g -> moves g = rest ++ [lastMove] ->
  Consistent (revertMove lastMove (setMoves rest g)).
Proof.
  intros [Hcells Hlog] Hmoves. rewrite Hmoves in Hcells, Hlog.
  apply removalsJustified_pop in Hlog as [Hrest Hlast].
  unfold revertMove. simpl.
  destruct (findTile (move_tileId lastMove) (availableNumbers g)) as [tile|] eqn:Htile;
    [destruct (JsMap.get (move_cellId lastMove) (cells (board g))) as [cell|] eqn:Hcell|].
  - destruct (move_type lastMove) eqn:Hty; split; simpl; try done.
    + intros c' cell' Hget Hfix Hval.
      destruct (decide (move_cellId lastMove = c')) as [<-|Hne].
      * rewrite get_update_eq, Hcell in Hget. simpl in Hget. by injection Hget as <-.
      * rewrite get_update_ne in Hget by done.
        destruct (Hcells c' cell' Hget Hfix Hval) as (t' & tile' & Hh & Hf & Hv & Hu).
        apply heldBy_snoc in Hh as [(_ & Hc & _)|[Hh Hx]]; [done|].
        destruct (Hx Hty) as [_ Hne'].
        exists t', tile'. split; [done|]. split; [|done].
        by rewrite findTile_updateTile_ne.
    + intros c' cell' Hget Hfix Hval.
      destruct (decide (move_cellId lastMove = c')) as [<-|Hne].
      * rewrite get_update_eq, Hcell in Hget. simpl in Hget. injection Hget as <-.
        exists (move_tileId lastMove), (setIsUsed true tile).
        split; [by apply Hlast|]. split; [|done].
        rewrite findTile_updateTile_eq by done. by rewrite Htile.
      * rewrite get_update_ne in Hget by done.
        destruct (Hcells c' cell' Hget Hfix Hval) as (t' & tile' & Hh & Hf & Hv & Hu).
        apply heldBy_snoc in Hh as [(Hp & _)|[Hh _]]; [congruence|].
        exists t', (setIsUsed true tile'). split; [done|].
        split; [|by destruct tile'].
        destruct (decide (move_tileId lastMove = t')) as [<-|Hne'].
        -- rewrite findTile_updateTile_eq by done. by rewrite Hf.
        -- rewrite findTile_updateTile_ne by done. rewrite Hf.
           destruct tile' as [i v u]. simpl in *. by subst u.
  - split; simpl; [|done].
    intros c' cell' Hget Hfix Hval.
    destruct (Hcells c' cell' Hget Hfix Hval) as (t' & tile' & Hh & Hf & Hv & Hu).
    apply heldBy_snoc in Hh as [(_ & Hc & _)|[Hh _]]; [congruence|].
    by exists t', tile'.
  - split; simpl; [|done].
    intros c' cell' Hget Hfix Hval.
    destruct (Hcells c' cell' Hget Hfix Hval) as (t' & tile' & Hh & Hf & Hv & Hu).
    apply heldBy_snoc in Hh as [(_ & _ & Ht)|[Hh _]]; [congruence|].
    by exists t', tile'.
Qed.


(** ** The hand *)

Lemma swap_perm {A} i j (a : list A) : swap i j a ≡ₚ a.
Proof.
  unfold swap. destruct (a !! i) as [ai|] eqn:Hi; [|done].
  destruct (a !! j) as [aj|] eqn:Hj; [|done].
  by apply Permutation_insert_swap.
Qed.

Lemma shuffleFrom_spec {A} n (a : list A) s rng :
  returns (shuffleFrom n a) s rng (fun r s' _ => s' = s /\ r ≡ₚ a).
Proof.
  revert a rng. induction n as [|n IH]; intros a rng; cbn [shuffleFrom].
  - by apply returns_ret.
  - apply returns_bind, returns_randomBelow. intros j rng1 _ _.
    eapply returns_mono; [apply IH|].
    intros r s' _ [-> Hr]. split; [done|]. by rewrite Hr, swap_perm.
Qed.

Lemma addExtras_spec count numbers s rng :
  returns (addExtras count numbers) s rng (fun r s' _ =>
    s' = s /\ exists extras, r = numbers ++ extras).
Proof.
  revert numbers rng. induction count as [|count IH]; intros numbers rng;
    cbn [addExtras].
  - apply returns_ret. split; [done|]. exists []. by rewrite app_nil_r.
  - apply returns_bind, returns_randomBelow. intros v rng1 _ _.
    eapply returns_mono; [apply IH|].
    intros r s' _ [-> [extras ->]]. split; [done|].
    exists ((v + 1) :: extras). by rewrite <- app_assoc.
Qed.

(** The hand is the needed numbers and some extra ones, in some order. *)
Lemma generateAvailableNumbers_spec b s rng :
  returns (generateAvailableNumbers b) s rng (fun r s' _ =>
    s' = s /\ exists extras, r ≡ₚ neededNumbers b ++ extras).
Proof.
  unfold generateAvailableNumbers. apply returns_bind.
  eapply returns_mono; [apply addExtras_spec|].
  intros numbers s1 rng1 [-> [extras ->]]. cbn beta.
  eapply returns_mono; [apply shuffleFrom_spec|].
  intros r s' _ [-> Hr]. split; [done|]. by exists extras.
Qed.

(** [startNewGame] always starts a game: on a board that satisfies
    [BoardOk], with an empty log. *)
Lemma startNewGame_spec now d rng e :
  exists g e' rng' nums extras,
    startNewGame now d rng e = Some (g, e', rng')
    /\ gameState e' = Some g
    /\ BoardOk (board g)
    /\ gridSize (board g) = cfg_gridSize (DIFFICULTY_CONFIG d)
    /\ JsMap.values (equations (board g)) <> []
    /\ availableNumbers g = makeTiles nums
    /\ nums ≡ₚ neededNumbers (board g) ++ extras
    /\ moves g = [] /\ isComplete g = false.
Proof.
  destruct (V2_generatePuzzle_board d rng)
    as (b & s1 & rng1 & s' & rng2 & _ & _ & Hgen & Hok & Hsize & Hne).
  destruct (returns_eq _ _ _ _ (generateAvailableNumbers_spec b s' rng2))
    as (nums & s2 & rng3 & Hnums & -> & extras & Hperm).
  eexists _, _, rng3, nums, extras. split.
  { unfold startNewGame, bind. rewrite Hgen, Hnums. reflexivity. }
  simpl. split_and!; done.
Qed.

(** ** Play keeps the log and the board consistent *)

Lemma Consistent_checkEquations now e g :
  gameState e = Some g -> Consistent g ->
  exists g', gameState (checkEquations now e) = Some g' /\ Consistent g'
             /\ isComplete g' = isComplete g.
Proof.
  intros Hg Hcon.
  destruct (checkEquations_spec now e g Hg)
    as (g' & Hg' & _ & _ & Hc & _ & _ & Ht & Hm & _ & Hi & _).
  exists g'. split; [done|]. split; [|done]. by apply (Consistent_ext g).
Qed.

Lemma Consistent_checkGameCompletion now e g :
  gameState e = Some g -> Consistent g ->
  exists g', gameState (checkGameCompletion now e) = Some g' /\ Consistent g'.
Proof.
  intros Hg Hcon. destruct (isComplete g) eqn:Hi.
  - unfold checkGameCompletion. rewrite Hg, Hi. by exists g.
  - destruct (checkGameCompletion_spec now e g Hg Hi) as (g' & Hg' & Hb & Ht & Hm & _).
    exists g'. split; [done|]. apply (Consistent_ext g); try done. by rewrite Hb.
Qed.

Lemma Consistent_exec now c e g :
  gameState e = Some g -> Consistent g ->
  exists g', gameState (exec now c e) = Some g' /\ Consistent g'.
Proof.
  intros Hg Hcon. destruct c as [t c|c| |rng|]; simpl.
  - destruct (placeTile now t c e) as [[] e'] eqn:Hp; simpl.
    + apply placeTile_true in Hp
        as (g0 & tile & cell & Hg0 & _ & Htile & Hcell & Hunused & _ & _ & ->).
      assert (g0 = g) as -> by congruence.
      pose proof (Consistent_place now t c g tile cell Hcon Htile Hunused Hcell) as H1.
      match goal with
      | |- context [checkEquations now ?e1] =>
          destruct (Consistent_checkEquations now e1 _ eq_refl H1) as (g2 & Hg2 & H2 & _)
      end.
      by apply (Consistent_checkGameCompletion now _ g2).
    + apply placeTile_false in Hp as ->. by exists g.
  - destruct (removeTile now c e) as [[] e'] eqn:Hr; simpl.
    + apply removeTile_true in Hr
        as (g0 & cell & lastMove & tile & Hg0 & _ & Hcell & Hfix & Hval & Hlast & Htile & ->).
      assert (g0 = g) as -> by congruence.
      destruct (Consistent_remove now c g cell lastMove tile Hcon Hcell Hfix Hval Hlast Htile)
        as (H1 & _).
      match goal with
      | |- context [checkEquations now ?e1] =>
          destruct (Consistent_checkEquations now e1 _ eq_refl H1) as (g2 & Hg2 & H2 & _)
      end.
      by exists g2.
    + apply removeTile_false in Hr as ->. by exists g.
  - destruct (undoLastMove now e) as [[] e'] eqn:Hu; simpl.
    + apply undoLastMove_true in Hu as (g0 & lastMove & rest & Hg0 & Hm & ->).
      assert (g0 = g) as -> by congruence.
      pose proof (Consistent_undo g lastMove rest Hcon Hm) as H1.
      match goal with
      | |- context [checkEquations now ?e1] =>
          destruct (Consistent_checkEquations now e1 _ eq_refl H1) as (g2 & Hg2 & H2 & _)
      end.
      by exists g2.
    + apply undoLastMove_false in Hu as ->. by exists g.
  - unfold getHint. rewrite Hg.
    destruct (hints g <=? 0); [by exists g|].
    destruct (List.filter isUnfilled _) as [|u us]; [by exists g|].
    destruct (random rng) as [r rng'].
    destruct (nth_error _ _) as [target|]; [|by exists g].
    destruct (getCorrectValueForCell g target); [|by exists g].
    simpl. eexists. split; [done|]. by apply (Consistent_ext g).
  - unfold timerTick. destruct (gameTimer e); [|by exists g].
    rewrite Hg. destruct (isComplete g); [by exists g|].
    simpl. eexists. split; [done|]. by apply (Consistent_ext g).
Qed.

(** On a generated board every cell that is not fixed is blank. *)
Lemma BoardOk_blank b k c :
  BoardOk b -> JsMap.get k (cells b) = Some c ->
  cell_isFixed c = false -> cell_value c = VNull.
Proof.
  intros Hok Hget Hfix.
  destruct (decide (k ∈ concat (map eq_cells (JsMap.values (equations b)))))
    as [Hk|Hk].
  - apply elem_of_concat in Hk as (l & Hk & Hl).
    apply list_elem_of_fmap in Hl as (q & -> & Hq).
    destruct (BoardOk_claimed b q k Hok Hq Hk) as (c' & Hget' & _ & _ & _ & Hblank).
    assert (c' = c) as -> by congruence. by destruct (Hblank Hfix).
  - by destruct (BoardOk_unclaimed b k c Hok Hget Hk) as (_ & ? & _).
Qed.

Lemma reachable_Consistent e :
  reachable e -> exists g, gameState e = Some g /\ Consistent g.
Proof.
  induction 1 as [now d rng e g e' rng' Hstart|now c e _ (g & Hg & Hcon)].
  - destruct (startNewGame_spec now d rng e)
      as (g0 & e0 & rng0 & nums & extras & Hs & Hg0 & Hok & _ & _ & _ & _ & Hm & _).
    rewrite Hstart in Hs. injection Hs as -> -> ->.
    exists g0. split; [done|]. split.
    + intros c cell Hget Hfix Hval. by destruct Hval, (BoardOk_blank _ _ _ Hok Hget Hfix).
    + rewrite Hm. intros before m after H. by destruct before.
  - by apply (Consistent_exec now c e g).
Qed.

(** C7: in a session, when [removeTile] succeeds, an [undoLastMove]
    that follows at once succeeds too and restores the cells' values,
    the tiles and the log as they were before the removal: the cell
    holds its value again, the tile that was taken off is used again. *)
Theorem remove_then_undo_restores now now' cellId e e1 g :
  reachable e -> gameState e = Some g ->
  removeTile now cellId e = (true, e1) ->
  exists e2 g2 tile,
    undoLastMove now' e1 = (true, e2) /\ gameState e2 = Some g2
    /\ (forall c, cellValueOf c g2 = cellValueOf c g)
    /\ cellValueOf cellId g = Some (VNum (tile_value tile))
    /\ availableNumbers g2 = availableNumbers g
    /\ findTile (tile_id tile) (availableNumbers g) = Some tile
    /\ tile_isUsed tile = true
    /\ moves g2 = moves g.
Proof.
  intros Hreach Hg Hremove.
  destruct (reachable_Consistent e Hreach) as (g0 & Hg0 & Hcon).
  assert (g0 = g) as -> by congruence. clear Hg0.
  apply removeTile_true in Hremove
    as (g0 & cell & lastMove & tile & Hg0 & _ & Hcell & Hfix & Hval & Hlast & Htile & ->).
  assert (g0 = g) as -> by congruence. clear Hg0.
  destruct (Consistent_remove now cellId g cell lastMove tile Hcon Hcell Hfix Hval Hlast Htile)
    as (_ & Hv & Hu).
  set (t := move_tileId lastMove) in *.
  set (g1 := pushMove (mkMove now remove t cellId now)
               (writeTileAndCell t cellId false VNull g)).
  destruct (checkEquations_state now (withState g1 e) g1 eq_refl)
    as (g1' & Hg1' & Hcells1 & Htiles1 & Hmoves1 & _).
  assert (Hid : tile_id tile = t).
  { clear -Htile. induction (availableNumbers g) as [|t0 ts IH]; simpl in Htile; [done|].
    destruct (String.eqb_spec (tile_id t0) t); [congruence|auto]. }
  assert (Hget1 : exists cell1, JsMap.get cellId (cells (board g1')) = Some cell1).
  { pose proof (Hcells1 cellId) as H. unfold cellValueOf in H.
    destruct (JsMap.get cellId (cells (board g1'))) as [cell1|]; [by exists cell1|].
    subst g1. simpl in H. by rewrite get_update_eq, Hcell in H. }
  destruct Hget1 as [cell1 Hget1].
  assert (Htile1 : findTile t (availableNumbers g1') = Some (setIsUsed false tile)).
  { rewrite Htiles1. subst g1. simpl.
    rewrite findTile_updateTile_eq by done. by rewrite Htile. }
  set (g2 := writeTileAndCell t cellId true (VNum (tile_value tile)) (setMoves (moves g) g1')).
  assert (Hundo : undoLastMove now' (checkEquations now (withState g1 e))
                  = (true, checkEquations now'
                             (withState g2 (checkEquations now (withState g1 e))))).
  { unfold undoLastMove. rewrite Hg1', Hmoves1. subst g1. simpl moves.
    rewrite popMove_snoc. unfold revertMove. simpl move_tileId. simpl move_cellId.
    simpl move_type. cbn [availableNumbers setMoves board].
    fold t. by rewrite Htile1, Hget1. }
  destruct (checkEquations_state now'
              (withState g2 (checkEquations now (withState g1 e))) g2 eq_refl)
    as (g2' & Hg2' & Hcells2 & Htiles2 & Hmoves2 & _).
  exists (checkEquations now' (withState g2 (checkEquations now (withState g1 e)))),
    g2', tile.
  split; [done|]. split; [done|]. split; [|split; [|split; [|split; [|split]]]].
  - intros c. rewrite Hcells2. subst g2.
    destruct (decide (cellId = c)) as [<-|Hne].
    + rewrite (cellValueOf_write_eq _ _ _ _ _ cell1) by done.
      unfold cellValueOf. rewrite Hcell. simpl. by rewrite Hv.
    + rewrite cellValueOf_write_ne by done.
      transitivity (cellValueOf c g1'); [done|]. rewrite Hcells1. subst g1.
      change (cellValueOf c (writeTileAndCell t cellId false VNull g) = cellValueOf c g).
      by apply cellValueOf_write_ne.
  - unfold cellValueOf. rewrite Hcell. simpl. by rewrite Hv.
  - rewrite Htiles2. subst g2. simpl. rewrite Htiles1. subst g1. simpl.
    by apply (updateTile_used_again t tile).
  - by rewrite Hid.
  - done.
  - rewrite Hmoves2. by subst g2.
Qed.

Lemma remove_then_undo_restores_witness :
  exists g e1,
    gameState sampleFilled = Some g
    /\ removeTile 2 "2-0" sampleFilled = (true, e1)
    /\ exists e2 g2 tile,
         undoLastMove 3 e1 = (true, e2) /\ gameState e2 = Some g2
         /\ (forall c, cellValueOf c g2 = cellValueOf c g)
         /\ cellValueOf "2-0" g = Some (VNum (tile_value tile))
         /\ availableNumbers g2 = availableNumbers g
         /\ findTile (tile_id tile) (availableNumbers g) = Some tile
         /\ tile_isUsed tile = true
         /\ moves g2 = moves g.
Proof.
  pose proof sampleFilledState_eq as Hg. unfold sampleFilledState in Hg.
  assert (Hr : removeTile 2 "2-0" sampleFilled
               = (true, snd (removeTile 2 "2-0" sampleFilled)))
    by (vm_compute; reflexivity).
  eexists _, _. split; [exact Hg|]. split; [exact Hr|].
  exact (remove_then_undo_restores 2 3 "2-0" sampleFilled _ _
           sampleFilled_reachable Hg Hr).
Defined.

(** ** Solving a generated board *)

(** The five cells of an equation of the board, one by one. *)
Lemma equation_strip size cs q operation num1 num2 result hintIndex :
  equationHolds size cs q operation num1 num2 result hintIndex ->
  exists k0 k1 k2 k3 k4 c0 c1 c2 c3 c4,
    eq_cells q = [k0; k1; k2; k3; k4]
    /\ NoDup [k0; k1; k2; k3; k4]
    /\ JsMap.get k0 cs = Some c0 /\ JsMap.get k1 cs = Some c1
    /\ JsMap.get k2 cs = Some c2 /\ JsMap.get k3 cs = Some c3
    /\ JsMap.get k4 cs = Some c4
    /\ (cell_id c0 = k0 /\ cell_type c0 = number
        /\ cell_belongsToEquation c0 = [eq_id q]
        /\ cell_value c0 = (if cell_isFixed c0 then VNum num1 else VNull))
    /\ (cell_type c1 = operator /\ cell_value c1 = VStr (opSymbol operation))
    /\ (cell_id c2 = k2 /\ cell_type c2 = number
        /\ cell_belongsToEquation c2 = [eq_id q]
        /\ cell_value c2 = (if cell_isFixed c2 then VNum num2 else VNull))
    /\ (cell_type c3 = equals /\ cell_value c3 = VStr "=")
    /\ (cell_id c4 = k4 /\ cell_type c4 = number
        /\ cell_belongsToEquation c4 = [eq_id q]
        /\ cell_value c4 = (if cell_isFixed c4 then VNum result else VNull))
    /\ (cell_isFixed c0 = false \/ cell_isFixed c2 = false).
Proof.
  intros (Hx & Hy & _ & _ & _ & _ & _ & _ & _ & Hc & Hs).
  pose proof (NoDup_stripIds (eq_isHorizontal q) _ _ Hx Hy) as Hnd.
  rewrite <- (slotId_slotsOf q operation num1 num2 result hintIndex), <- Hc in Hnd.
  rewrite slotsOf_eq in Hc, Hs. cbn zeta in Hc, Hs. simpl map in Hc.
  rewrite Hc in Hnd.
  apply Forall_cons in Hs as [H0 Hs]. apply Forall_cons in Hs as [H1 Hs].
  apply Forall_cons in Hs as [H2 Hs]. apply Forall_cons in Hs as [H3 Hs].
  apply Forall_cons in Hs as [H4 _].
  destruct (JsMap.get _ cs) as [c0|] eqn:G0 in H0; [|done].
  destruct (JsMap.get _ cs) as [c1|] eqn:G1 in H1; [|done].
  destruct (JsMap.get _ cs) as [c2|] eqn:G2 in H2; [|done].
  destruct (JsMap.get _ cs) as [c3|] eqn:G3 in H3; [|done].
  destruct (JsMap.get _ cs) as [c4|] eqn:G4 in H4; [|done].
  apply (inj Some) in H0. unfold cellCore, slotCore in H0.
  injection H0 as I0 T0 V0 _ F0 B0.
  apply (inj Some) in H1. unfold cellCore, slotCore in H1.
  injection H1 as I1 T1 V1 _ F1 B1.
  apply (inj Some) in H2. unfold cellCore, slotCore in H2.
  injection H2 as I2 T2 V2 _ F2 B2.
  apply (inj Some) in H3. unfold cellCore, slotCore in H3.
  injection H3 as I3 T3 V3 _ F3 B3.
  apply (inj Some) in H4. unfold cellCore, slotCore in H4.
  injection H4 as I4 T4 V4 _ F4 B4.
  simpl in *.
  eexists _, _, _, _, _, c0, c1, c2, c3, c4.
  split; [exact Hc|]. split; [exact Hnd|].
  split; [exact G0|]. split; [exact G1|]. split; [exact G2|].
  split; [exact G3|]. split; [exact G4|].
  split; [|split; [|split; [|split; [|split]]]].
  - split; [done|]. split; [done|]. split; [done|].
    rewrite V0, F0. by destruct (hintIndex =? 0).
  - done.
  - split; [done|]. split; [done|]. split; [done|].
    rewrite V2, F2. by destruct (hintIndex =? 1).
  - done.
  - split; [done|]. split; [done|]. split; [done|].
    rewrite V4, F4. by destruct (hintIndex =? 2).
  - rewrite F0, F2. destruct (Z.eqb_spec hintIndex 0) as [->|]; [by right|by left].
Qed.

Lemma BoardOk_equation b q :
  BoardOk b -> q ∈ JsMap.values (equations b) ->
  JsMap.get (eq_id q) (equations b) = Some q.
Proof.
  intros Hok Hq. rewrite (bo_equationKeys _ Hok).
  apply (get_mk eq_id (fun q => q)); [apply (bo_equationIds _ Hok)|done].
Qed.

(** The number that [generateAvailableNumbers] pushes for a blank cell
    is the number of its equation at the place of the cell. *)
Lemma numbersFor_strip b q operation num1 num2 result hintIndex
    k0 k1 k2 k3 k4 cell :
  BoardOk b -> q ∈ JsMap.values (equations b) ->
  equationHolds (gridSize b) (cells b) q operation num1 num2 result hintIndex ->
  eq_cells q = [k0; k1; k2; k3; k4] -> NoDup [k0; k1; k2; k3; k4] ->
  cell_type cell = number -> cell_isFixed cell = false ->
  cell_belongsToEquation cell = [eq_id q] ->
  (cell_id cell = k0 -> numbersFor b cell = [num1])
  /\ (cell_id cell = k2 -> numbersFor b cell = [num2])
  /\ (cell_id cell = k4 -> numbersFor b cell = [result]).
Proof.
  intros Hok Hq Hholds Hcells Hnd Hty Hfix Hbel.
  pose proof Hholds as (_ & _ & _ & Hn1 & Hn2 & Hr & _ & _ & Hexpr & _).
  assert (exists o, opSymbol operation = String o "" /\ isOperatorChar o = true)
    as (o & Ho & Hoc) by (destruct operation; eexists; split; reflexivity).
  assert (Hm : matchExpression (eq_expression q)
               = Some (mkExprMatch (showZ num1) o (showZ num2) (showZ result))).
  { rewrite Hexpr, Ho. apply matchExpression_showExpression; [lia..|done]. }
  unfold numbersFor, isBlank. rewrite Hty, Hfix, bool_decide_true by done.
  rewrite Hbel. simpl flat_map.
  rewrite (BoardOk_equation b q Hok Hq), Hm, Hcells. simpl.
  apply NoDup_cons in Hnd as [N0 Hnd]. apply NoDup_cons in Hnd as [N1 Hnd].
  apply NoDup_cons in Hnd as [N2 Hnd]. apply NoDup_cons in Hnd as [N3 _].
  rewrite !not_elem_of_cons in N0. rewrite !not_elem_of_cons in N1.
  rewrite !not_elem_of_cons in N2. rewrite !not_elem_of_cons in N3.
  unfold toNumber. split; [|split]; intros ->.
  - rewrite String.eqb_refl. simpl. by rewrite digitsValue_showZ by lia.
  - rewrite (proj2 (String.eqb_neq k0 k2)) by tauto.
    rewrite (proj2 (String.eqb_neq k1 k2)) by tauto.
    rewrite String.eqb_refl. simpl. by rewrite digitsValue_showZ by lia.
  - rewrite (proj2 (String.eqb_neq k0 k4)) by tauto.
    rewrite (proj2 (String.eqb_neq k1 k4)) by tauto.
    rewrite (proj2 (String.eqb_neq k2 k4)) by tauto.
    rewrite (proj2 (String.eqb_neq k3 k4)) by tauto.
    rewrite String.eqb_refl. simpl. by rewrite digitsValue_showZ by lia.
Qed.

Lemma BoardOk_id b k c :
  BoardOk b -> JsMap.get k (cells b) = Some c -> cell_id c = k.
Proof.
  intros Hok Hget.
  destruct (decide (k ∈ concat (map eq_cells (JsMap.values (equations b)))))
    as [Hk|Hk].
  - apply elem_of_concat in Hk as (l & Hk & Hl).
    apply list_elem_of_fmap in Hl as (q & -> & Hq).
    destruct (BoardOk_claimed b q k Hok Hq Hk) as (c' & Hget' & Hid & _).
    congruence.
  - destruct (BoardOk_cell b k c Hok Hget) as (x & y & Hx & Hy & ->).
    pose proof (bo_unclaimed _ Hok x y Hx Hy Hk) as Hcore.
    rewrite Hget in Hcore. apply (inj Some), cellCore_eq in Hcore.
    by destruct Hcore as (-> & _).
Qed.

Lemma BoardOk_value b c :
  BoardOk b -> c ∈ JsMap.values (cells b) ->
  JsMap.get (cell_id c) (cells b) = Some c.
Proof.
  intros Hok Hc. apply list_elem_of_fmap in Hc as ([k c'] & -> & Hin). simpl.
  assert (Hget : JsMap.get k (cells b) = Some c').
  { apply get_entry; [|done]. rewrite (bo_cellKeys _ Hok). apply NoDup_gridKeys. }
  by rewrite (BoardOk_id b k c' Hok Hget).
Qed.

Lemma BoardOk_blank_claimed b c :
  BoardOk b -> c ∈ JsMap.values (cells b) -> isBlank c = true ->
  exists q, q ∈ JsMap.values (equations b) /\ cell_id c ∈ eq_cells q
            /\ cell_belongsToEquation c = [eq_id q].
Proof.
  intros Hok Hc Hb. pose proof (BoardOk_value b c Hok Hc) as Hget.
  apply andb_prop in Hb as [Hty _]. apply bool_decide_eq_true in Hty.
  destruct (decide (cell_id c ∈ concat (map eq_cells (JsMap.values (equations b)))))
    as [Hk|Hk].
  - apply elem_of_concat in Hk as (l & Hk & Hl).
    apply list_elem_of_fmap in Hl as (q & -> & Hq).
    destruct (BoardOk_claimed b q _ Hok Hq Hk) as (c' & Hget' & _ & _ & Hbel & _).
    assert (c' = c) as -> by congruence. by exists q.
  - destruct (BoardOk_unclaimed b _ c Hok Hget Hk) as (Hty' & _). congruence.
Qed.

Lemma numbersFor_blank b c :
  BoardOk b -> c ∈ JsMap.values (cells b) -> isBlank c = true ->
  exists v, numbersFor b c = [v].
Proof.
  intros Hok Hc Hb. pose proof (BoardOk_value b c Hok Hc) as Hget.
  destruct (BoardOk_blank_claimed b c Hok Hc Hb) as (q & Hq & Hk & Hbel).
  apply andb_prop in Hb as [Hty Hfix]. apply bool_decide_eq_true in Hty.
  apply negb_true_iff in Hfix.
  pose proof (bo_equations _ Hok) as Heqs. rewrite Forall_forall in Heqs.
  destruct (Heqs q Hq) as (operation & num1 & num2 & result & hintIndex & Hholds).
  destruct (equation_strip _ _ _ _ _ _ _ _ Hholds)
    as (k0 & k1 & k2 & k3 & k4 & c0 & c1 & c2 & c3 & c4 & Hcells & Hnd
        & G0 & G1 & G2 & G3 & G4 & _ & [T1 _] & _ & [T3 _] & _).
  destruct (numbersFor_strip b q operation num1 num2 result hintIndex
              k0 k1 k2 k3 k4 c Hok Hq Hholds Hcells Hnd Hty Hfix Hbel)
    as (N0 & N2 & N4).
  rewrite Hcells in Hk.
  repeat (apply elem_of_cons in Hk as [Hk|Hk]); [eauto| |eauto| |eauto|].
  - rewrite Hk in Hget. congruence.
  - rewrite Hk in Hget. congruence.
  - by apply elem_of_nil in Hk.
Qed.

Lemma numbersFor_fixed b c : isBlank c = false -> numbersFor b c = [].
Proof. unfold numbersFor. by intros ->. Qed.

(** The needed numbers, each with the blank cell that it is for. *)
Lemma cell_numbers b :
  BoardOk b ->
  exists cn : list (string * Z),
    map snd cn = neededNumbers b
    /\ map fst cn = map cell_id (blankCells b)
    /\ Forall (fun kv => exists c,
                 c ∈ JsMap.values (cells b) /\ isBlank c = true
                 /\ cell_id c = kv.1 /\ numbersFor b c = [kv.2]) cn.
Proof.
  intros Hok. unfold neededNumbers, blankCells.
  assert (H : forall l, (forall c, c ∈ l -> c ∈ JsMap.values (cells b)) ->
    exists cn : list (string * Z),
      map snd cn = flat_map (numbersFor b) l
      /\ map fst cn = map cell_id (List.filter isBlank l)
      /\ Forall (fun kv => exists c,
                   c ∈ JsMap.values (cells b) /\ isBlank c = true
                   /\ cell_id c = kv.1 /\ numbersFor b c = [kv.2]) cn).
  { induction l as [|c l IH]; intros Hl; [by exists []|].
    destruct IH as (cn & H1 & H2 & H3); [intros; apply Hl; by right|].
    simpl. destruct (isBlank c) eqn:Hb.
    - assert (Hc : c ∈ JsMap.values (cells b)) by (apply Hl; by left).
      destruct (numbersFor_blank b c Hok Hc Hb) as [v Hv].
      exists ((cell_id c, v) :: cn). simpl. rewrite Hv, H1, H2.
      split; [done|]. split; [done|]. constructor; [|done]. by exists c.
    - exists cn. by rewrite numbersFor_fixed, H1, H2. }
  by apply H.
Qed.

Lemma elem_of_blankCells b c :
  c ∈ blankCells b <-> c ∈ JsMap.values (cells b) /\ isBlank c = true.
Proof. unfold blankCells. by rewrite !list_elem_of_In, filter_In. Qed.

Lemma NoDup_blankCells b : BoardOk b -> NoDup (map cell_id (blankCells b)).
Proof.
  intros Hok.
  apply (NoDup_fmap_2_strong cell_id).
  - intros c c' [Hc _]%elem_of_blankCells [Hc' _]%elem_of_blankCells Hid.
    pose proof (BoardOk_value b c Hok Hc) as H.
    pose proof (BoardOk_value b c' Hok Hc') as H'. congruence.
  - unfold blankCells. apply NoDup_ListNoDup, List.NoDup_filter, NoDup_ListNoDup.
    apply (NoDup_fmap_1 cell_id).
    assert (Hkeys : cell_id <$> JsMap.values (cells b) = JsMap.keys (cells b)).
    { unfold JsMap.values, JsMap.keys.
      assert (H : forall kc, kc ∈ cells b -> cell_id kc.2 = kc.1).
      { intros [k c] Hin. simpl. apply (BoardOk_id b k c Hok), get_entry; [|done].
        rewrite (bo_cellKeys _ Hok). apply NoDup_gridKeys. }
      induction (cells b) as [|kc l IH]; [done|]. simpl. f_equal.
      - apply H. by left.
      - apply IH. intros ? ?. apply H. by right. }
    rewrite Hkeys, (bo_cellKeys _ Hok). apply NoDup_gridKeys.
Qed.

Lemma findTile_imap (k i : nat) nums v :
  nums !! i = Some v ->
  findTile ("tile-" +:+ showZ (Z.of_nat (k + i)))
    (imap (fun index value =>
             mkTile ("tile-" +:+ showZ (Z.of_nat (k + index))) value false) nums)
  = Some (mkTile ("tile-" +:+ showZ (Z.of_nat (k + i))) v false).
Proof.
  revert k i. induction nums as [|x l IH]; intros k [|i] H; [done|done| |].
  - injection H as ->. cbn [imap findTile tile_id].
    by rewrite String.eqb_refl.
  - cbn [imap findTile tile_id].
    destruct (String.eqb_spec ("tile-" +:+ showZ (Z.of_nat (k + 0)))
                ("tile-" +:+ showZ (Z.of_nat (k + S i)))) as [E|_].
    { apply prefixed_inj in E. lia. }
    replace (k + S i)%nat with (S k + i)%nat by lia.
    rewrite <- (IH (S k) i H). f_equal. apply imap_ext. intros j y _. simpl.
    by replace (k + S j)%nat with (S (k + j))%nat by lia.
Qed.

Lemma findTile_makeTiles nums i v :
  nums !! i = Some v ->
  findTile ("tile-" +:+ showZ (Z.of_nat i)) (makeTiles nums)
  = Some (mkTile ("tile-" +:+ showZ (Z.of_nat i)) v false).
Proof. intros H. exact (findTile_imap 0 i nums v H). Qed.

(** A plan for a generated board and its hand: one tile of the hand for
    each blank cell, with the number that [generateAvailableNumbers]
    pushed for the cell. *)
Lemma initial_plan b nums extras :
  BoardOk b -> nums ≡ₚ neededNumbers b ++ extras ->
  exists ps : Plan,
    map planCell ps = map cell_id (blankCells b)
    /\ map planValue ps = neededNumbers b
    /\ NoDup (map planTile ps) /\ NoDup (map planCell ps)
    /\ Forall (fun p => findTile (planTile p) (makeTiles nums)
                        = Some (mkTile (planTile p) (planValue p) false)) ps
    /\ Forall (fun p => exists cell,
                 JsMap.get (planCell p) (cells b) = Some cell
                 /\ cell_type cell = number /\ cell_isFixed cell = false
                 /\ cell_value cell = VNull
                 /\ exists q, q ∈ JsMap.values (equations b)
                              /\ planCell p ∈ eq_cells q) ps
    /\ Forall (solvedBy (cells b) ps) (JsMap.values (equations b)).
Proof.
  intros Hok Hperm.
  destruct (cell_numbers b Hok) as (cn & Hsnd & Hfst & Hcn).
  rewrite Forall_forall in Hcn.
  symmetry in Hperm. apply Permutation_inj in Hperm as [_ (f & Hinj & Hf)].
  set (name := fun i : nat => "tile-" +:+ showZ (Z.of_nat i)).
  set (ps := imap (fun j (kv : string * Z) => (name (f j), kv.1, kv.2)) cn).
  assert (Hcellsps : map planCell ps = map fst cn).
  { change (planCell <$> ps = fst <$> cn). apply list_eq. intros j. subst ps.
    rewrite !list_lookup_fmap, list_lookup_imap. by destruct (cn !! j). }
  assert (Hvalsps : map planValue ps = map snd cn).
  { change (planValue <$> ps = snd <$> cn). apply list_eq. intros j. subst ps.
    rewrite !list_lookup_fmap, list_lookup_imap. by destruct (cn !! j). }
  assert (Hin : forall p, p ∈ ps ->
            exists j kv, cn !! j = Some kv /\ p = (name (f j), kv.1, kv.2)).
  { intros p Hp. apply elem_of_lookup_imap in Hp as (j & kv & -> & Hj). eauto. }
  assert (Hnot : forall k c, JsMap.get k (cells b) = Some c -> isBlank c = false ->
            k ∉ map planCell ps).
  { intros k c Hget Hb. rewrite Hcellsps, Hfst.
    intros (c' & -> & [Hc' Hb']%elem_of_blankCells)%list_elem_of_fmap.
    rewrite (BoardOk_value b c' Hok Hc') in Hget. congruence. }
  assert (Hnum : forall k c n,
            JsMap.get k (cells b) = Some c -> cell_type c = number ->
            cell_value c = (if cell_isFixed c then VNum n else VNull) ->
            (cell_isFixed c = false -> numbersFor b c = [n]) ->
            settled (cells b) ps k (VNum n)).
  { intros k c n Hget Hty Hv Hn. destruct (cell_isFixed c) eqn:Hfix.
    - left. split.
      + apply (Hnot k c Hget). unfold isBlank. by rewrite Hfix, andb_false_r.
      + by rewrite Hget, <- Hv.
    - right.
      assert (Hb : isBlank c = true).
      { unfold isBlank. by rewrite Hty, Hfix, bool_decide_true. }
      pose proof (get_Some_values _ _ _ Hget) as Hc.
      pose proof (BoardOk_id b k c Hok Hget) as Hid.
      assert (Hk : k ∈ map fst cn).
      { rewrite Hfst, <- Hid. apply list_elem_of_fmap_2. by apply elem_of_blankCells. }
      apply list_elem_of_fmap in Hk as (kv & -> & Hkv).
      destruct (Hcn kv Hkv) as (c' & Hc' & _ & Hid' & Hn').
      assert (c' = c) as ->.
      { pose proof (BoardOk_value b c' Hok Hc') as H. rewrite Hid' in H. congruence. }
      rewrite (Hn eq_refl) in Hn'. injection Hn' as Hn'.
      apply list_elem_of_lookup in Hkv as [j Hj].
      exists (name (f j), kv.1, kv.2). split; [|split; [done|by rewrite <- Hn']].
      exact (elem_of_lookup_imap_2
               (fun j (kv : string * Z) => (name (f j), kv.1, kv.2)) cn kv j Hj). }
  assert (Hfix : forall k c v,
            JsMap.get k (cells b) = Some c -> cell_type c <> number ->
            cell_value c = v -> settled (cells b) ps k v).
  { intros k c v Hget Hty Hv. left. split.
    - apply (Hnot k c Hget). unfold isBlank. by rewrite bool_decide_false.
    - by rewrite Hget, <- Hv. }
  exists ps. split; [by rewrite Hcellsps|]. split; [by rewrite Hvalsps|].
  split; [|split; [|split; [|split]]].
  - change (NoDup (planTile <$> ps)). apply NoDup_alt. intros i j x. subst ps.
    rewrite !list_lookup_fmap, !list_lookup_imap.
    destruct (cn !! i) as [kv|]; [|done]. destruct (cn !! j) as [kv'|]; [|done].
    simpl. intros [= <-] [= E]. apply prefixed_inj, Nat2Z.inj in E.
    symmetry. by apply Hinj.
  - rewrite Hcellsps, Hfst. by apply NoDup_blankCells.
  - apply Forall_forall. intros p (j & kv & Hj & ->)%Hin.
    apply findTile_makeTiles. rewrite <- Hf, lookup_app_l.
    + rewrite <- Hsnd. change (map snd cn) with (snd <$> cn).
      by rewrite list_lookup_fmap, Hj.
    + rewrite <- Hsnd, length_map. by apply lookup_lt_Some in Hj.
  - apply Forall_forall. intros p (j & kv & Hj & ->)%Hin.
    destruct (Hcn kv) as (c & Hc & Hb & Hid & _); [by eapply list_elem_of_lookup_2|].
    pose proof (BoardOk_value b c Hok Hc) as Hget. rewrite Hid in Hget.
    destruct (BoardOk_blank_claimed b c Hok Hc Hb) as (q & Hq & Hk & _).
    apply andb_prop in Hb as [Hty Hfx]. apply bool_decide_eq_true in Hty.
    apply negb_true_iff in Hfx.
    exists c. split; [done|]. split; [done|]. split; [done|].
    split; [by apply (BoardOk_blank b kv.1)|].
    exists q. split; [done|]. by rewrite <- Hid.
  - apply Forall_forall. intros q Hq.
    pose proof (bo_equations _ Hok) as Heqs. rewrite Forall_forall in Heqs.
    destruct (Heqs q Hq) as (operation & num1 & num2 & result & hintIndex & Hholds).
    destruct (equation_strip _ _ _ _ _ _ _ _ Hholds)
      as (k0 & k1 & k2 & k3 & k4 & c0 & c1 & c2 & c3 & c4 & Hcells & Hnd
          & G0 & G1 & G2 & G3 & G4 & (I0 & T0 & B0 & V0) & [T1 V1]
          & (I2 & T2 & B2 & V2) & [T3 V3] & (I4 & T4 & B4 & V4) & _).
    pose proof Hholds as (_ & _ & _ & _ & _ & _ & Hop & _).
    exists k0, k1, k2, k3, k4, num1, (opSymbol operation), num2, result.
    split; [done|]. split; [done|].
    split; [|split; [|split; [|split]]].
    + apply (Hnum k0 c0); try done. intros F0.
      by apply (numbersFor_strip b q operation num1 num2 result hintIndex
                  k0 k1 k2 k3 k4 c0 Hok Hq Hholds Hcells Hnd T0 F0 B0).
    + apply (Hfix k1 c1); try done. by rewrite T1.
    + apply (Hnum k2 c2); try done. intros F2.
      by apply (numbersFor_strip b q operation num1 num2 result hintIndex
                  k0 k1 k2 k3 k4 c2 Hok Hq Hholds Hcells Hnd T2 F2 B2).
    + apply (Hfix k3 c3); try done. by rewrite T3.
    + apply (Hnum k4 c4); try done. intros F4.
      by apply (numbersFor_strip b q operation num1 num2 result hintIndex
                  k0 k1 k2 k3 k4 c4 Hok Hq Hholds Hcells Hnd T4 F4 B4).
Qed.

(** ** Carrying out a plan *)

(** A placement that [placeTile] accepts. *)
Lemma placeTile_spec now t c e g tile cell :
  gameState e = Some g -> isComplete g = false ->
  findTile t (availableNumbers g) = Some tile -> tile_isUsed tile = false ->
  JsMap.get c (cells (board g)) = Some cell ->
  cell_isFixed cell = false -> cell_type cell = number ->
  exists e' g',
    placeTile now t c e = (true, e') /\ gameState e' = Some g'
    /\ sameCores (JsMap.update c (setValue (VNum (tile_value tile))) (cells (board g)))
         (cells (board g'))
    /\ availableNumbers g' = updateTile t (setIsUsed true) (availableNumbers g)
    /\ (exists cs, JsMap.values (equations (board g'))
                   = map (refreshFlags cs) (JsMap.values (equations (board g))))
    /\ isComplete g' = allEquationsSatisfied g'
    /\ forallb (fun q => eq_isComplete q && eq_isValid q)
         (JsMap.values (equations (board g'))) = allEquationsSatisfied g'.
Proof.
  intros Hg Hc Htile Hunused Hcell Hfix Hty.
  unfold placeTile. rewrite Hg, Hc, Htile, Hcell, Hunused, Hfix, Hty.
  rewrite bool_decide_true by done. cbn [orb negb].
  set (e1 := emit _ _).
  destruct (checkEquations_spec now e1 _ eq_refl)
    as (g1 & Hg1 & _ & _ & Hcores & Heqs & _ & Htiles & _ & _ & Hi1 & _).
  pose proof (checkEquations_flags now e1 _ g1 eq_refl Hg1) as Hflags.
  simpl in Hi1. rewrite Hc in Hi1.
  destruct (checkGameCompletion_spec now _ g1 Hg1 Hi1)
    as (g2 & Hg2 & Hb & Ht2 & _ & Hi2).
  exists (checkGameCompletion now (checkEquations now e1)), g2.
  split; [done|]. split; [done|].
  assert (Hsat : allEquationsSatisfied g2 = allEquationsSatisfied g1)
    by (unfold allEquationsSatisfied; by rewrite Hb).
  rewrite Hb, Hsat. split; [exact Hcores|]. split; [by rewrite Ht2, Htiles|].
  split; [|split; [by rewrite Hi2|done]].
  eexists. rewrite Heqs. unfold JsMap.values. rewrite !map_map. reflexivity.
Qed.

Lemma settled_now cs k v :
  settled cs [] k v -> cell_value <$> JsMap.get k cs = Some v.
Proof. intros [[_ H]|(p & Hp & _)]; [done|by apply elem_of_nil in Hp]. Qed.

(** Once a plan is carried out, the equations that it solves are
    complete and valid. *)
Lemma solvedBy_now cs q :
  solvedBy cs [] q -> isEquationComplete cs q && validateEquation cs q = true.
Proof.
  intros (k0 & k1 & k2 & k3 & k4 & num1 & o & num2 & result & Hcells & Hop
          & S0%settled_now & S1%settled_now & S2%settled_now & S3%settled_now
          & S4%settled_now).
  apply andb_true_intro. split.
  - unfold isEquationComplete. rewrite Hcells. cbn [forallb].
    destruct (JsMap.get k0 cs) as [c0|]; [|done].
    destruct (JsMap.get k1 cs) as [c1|]; [|done].
    destruct (JsMap.get k2 cs) as [c2|]; [|done].
    destruct (JsMap.get k3 cs) as [c3|]; [|done].
    destruct (JsMap.get k4 cs) as [c4|]; [|done].
    simpl in S0, S1, S2, S3, S4.
    injection S0 as S0. injection S1 as S1. injection S2 as S2.
    injection S3 as S3. injection S4 as S4.
    by rewrite S0, S1, S2, S3, S4.
  - unfold validateEquation, valueAt. rewrite Hcells. cbn [nth_error].
    by rewrite S0, S1, S2, S4.
Qed.

Lemma solvedBy_refresh cs cs' ps q :
  solvedBy cs ps (refreshFlags cs' q) <-> solvedBy cs ps q.
Proof. done. Qed.

(** A blank cell keeps its equation incomplete. *)
Lemma blank_incomplete cs q k cell :
  k ∈ eq_cells q -> JsMap.get k cs = Some cell ->
  cell_type cell = number -> cell_value cell = VNull ->
  isEquationComplete cs q = false.
Proof.
  intros Hk Hget Hty Hv. unfold isEquationComplete.
  destruct (forallb _ _) eqn:E; [|done].
  rewrite forallb_forall in E. specialize (E k).
  rewrite <- list_elem_of_In in E. specialize (E Hk).
  rewrite Hget, Hty, Hv in E. done.
Qed.

Lemma settled_step cs cs1 (p : string * string * Z) ps k v cell :
  sameCores (JsMap.update (planCell p) (setValue (VNum (planValue p))) cs) cs1 ->
  JsMap.get (planCell p) cs = Some cell ->
  planCell p ∉ map planCell ps ->
  settled cs (p :: ps) k v -> settled cs1 ps k v.
Proof.
  intros Hcores Hget Hfresh [[Hk Hv]|(p0 & Hp0 & Hk & Hv)].
  - apply not_elem_of_cons in Hk as [Hne Hk]. left. split; [done|].
    rewrite <- (sameCores_value _ _ k Hcores), get_update_ne; done.
  - apply elem_of_cons in Hp0 as [->|Hp0].
    + left. subst k. split; [done|].
      rewrite <- (sameCores_value _ _ _ Hcores), get_update_eq, Hget. by subst v.
    + right. by exists p0.
Qed.

Lemma placeAll_cons now t c l e e1 r :
  placeTile now t c e = (true, e1) -> placeAll now l e1 = r ->
  placeAll now ((t, c) :: l) e = r.
Proof. intros H <-. cbn [placeAll]. rewrite H. by destruct (placeAll now l e1). Qed.

(** A plan that solves the board can be carried out: every placement is
    accepted, and the last one completes the game. *)
Lemma placeAll_solves now (ps : Plan) : forall e g,
  gameState e = Some g -> isComplete g = false -> ps <> [] ->
  NoDup (map planTile ps) -> NoDup (map planCell ps) ->
  Forall (fun p => findTile (planTile p) (availableNumbers g)
                   = Some (mkTile (planTile p) (planValue p) false)) ps ->
  Forall (fun p => exists cell,
            JsMap.get (planCell p) (cells (board g)) = Some cell
            /\ cell_type cell = number /\ cell_isFixed cell = false
            /\ cell_value cell = VNull
            /\ exists q, q ∈ JsMap.values (equations (board g))
                         /\ planCell p ∈ eq_cells q) ps ->
  Forall (solvedBy (cells (board g)) ps) (JsMap.values (equations (board g))) ->
  exists e' g',
    placeAll now (map (fun p => (planTile p, planCell p)) ps) e = (true, e')
    /\ gameState e' = Some g'
    /\ allEquationsSatisfied g' = true
    /\ isComplete g' = true
    /\ forallb (fun q => eq_isComplete q && eq_isValid q)
         (JsMap.values (equations (board g'))) = true.
Proof.
  induction ps as [|p ps IH]; intros e g Hg Hc Hne Hnt Hnc Htiles Hblank Hsol; [done|].
  cbn [map] in Hnt, Hnc.
  apply NoDup_cons in Hnt as [Htfresh Hnt]. apply NoDup_cons in Hnc as [Hcfresh Hnc].
  apply Forall_cons in Htiles as [Htile Htiles].
  apply Forall_cons in Hblank as [(cell & Hcell & Hty & Hfix & Hval & _) Hblank].
  destruct (placeTile_spec now (planTile p) (planCell p) e g _ cell
              Hg Hc Htile eq_refl Hcell Hfix Hty)
    as (e1 & g1 & Hplace & Hg1 & Hcores & Ht1 & [cs Heq1] & Hi1 & Hflags1).
  cbn [tile_value] in Hcores.
  assert (Hsol1 : Forall (solvedBy (cells (board g1)) ps)
                    (JsMap.values (equations (board g1)))).
  { rewrite Heq1. rewrite Forall_forall in Hsol. apply Forall_forall.
    intros q' (q & -> & Hq)%list_elem_of_fmap. apply solvedBy_refresh.
    destruct (Hsol q Hq) as (k0 & k1 & k2 & k3 & k4 & num1 & o & num2 & result
                             & Hcells & Hop & S0 & S1 & S2 & S3 & S4).
    exists k0, k1, k2, k3, k4, num1, o, num2, result.
    split; [done|]. split; [done|].
    split; [|split; [|split; [|split]]];
      by apply (settled_step (cells (board g)) _ p ps _ _ cell). }
  assert (Hblank1 : Forall (fun p => exists cell,
            JsMap.get (planCell p) (cells (board g1)) = Some cell
            /\ cell_type cell = number /\ cell_isFixed cell = false
            /\ cell_value cell = VNull
            /\ exists q, q ∈ JsMap.values (equations (board g1))
                         /\ planCell p ∈ eq_cells q) ps).
  { rewrite Forall_forall in Hblank. apply Forall_forall. intros p' Hp'.
    destruct (Hblank p' Hp') as (cell' & Hget' & Hty' & Hfix' & Hv' & q & Hq & Hk).
    assert (planCell p <> planCell p').
    { intros E. apply Hcfresh. rewrite E. by apply list_elem_of_fmap_2. }
    pose proof (sameCores_get _ _ (planCell p') Hcores) as Hk1.
    rewrite get_update_ne, Hget' in Hk1 by done.
    destruct (JsMap.get (planCell p') (cells (board g1))) as [cell1|] eqn:Hget1; [|done].
    simpl in Hk1. apply (inj Some), cellCore_eq in Hk1 as (_ & T & V & _ & F & _).
    exists cell1. split; [done|]. split; [congruence|]. split; [congruence|].
    split; [congruence|]. exists (refreshFlags cs q).
    split; [|done]. rewrite Heq1. by apply list_elem_of_fmap_2. }
  assert (Htiles1 : Forall (fun p => findTile (planTile p) (availableNumbers g1)
                      = Some (mkTile (planTile p) (planValue p) false)) ps).
  { rewrite Forall_forall in Htiles. apply Forall_forall. intros p' Hp'.
    rewrite Ht1, findTile_updateTile_ne; [by apply Htiles|done|].
    intros E. apply Htfresh. rewrite E. by apply list_elem_of_fmap_2. }
  destruct ps as [|p' ps'].
  - assert (Hsat : allEquationsSatisfied g1 = true).
    { unfold allEquationsSatisfied. apply forallb_forall.
      intros q Hq%list_elem_of_In. rewrite Forall_forall in Hsol1.
      by apply solvedBy_now, Hsol1. }
    exists e1, g1. split; [by apply (placeAll_cons now _ _ [] e e1)|].
    split; [done|]. split; [done|]. split; [by rewrite Hi1|by rewrite Hflags1].
  - assert (Hinc : isComplete g1 = false).
    { rewrite Hi1.
      pose proof Hblank1 as [(cell1 & Hget1 & Hty1 & _ & Hv1 & q & Hq & Hk) _]%Forall_cons.
      destruct (allEquationsSatisfied g1) eqn:E; [|done].
      unfold allEquationsSatisfied in E.
      rewrite forallb_forall in E. specialize (E q).
      rewrite <- list_elem_of_In in E. specialize (E Hq). cbn beta in E.
      by rewrite (blank_incomplete _ q _ cell1 Hk Hget1 Hty1 Hv1) in E. }
    destruct (IH e1 g1 Hg1 Hinc ltac:(done) Hnt Hnc Htiles1 Hblank1 Hsol1)
      as (e' & g' & Hall & Hrest).
    exists e', g'. split; [|done].
    by apply (placeAll_cons now _ _ _ e e1).
Qed.

(** Of the three numbers of an equation at most one is given: the
    first or the second is left to the player. *)
Lemma equation_has_blank size cs q operation num1 num2 result hintIndex :
  equationHolds size cs q operation num1 num2 result hintIndex ->
  exists c, JsMap.get (cell_id c) cs = Some c /\ isBlank c = true.
Proof.
  intros Hholds.
  destruct (equation_strip _ _ _ _ _ _ _ _ Hholds)
    as (k0 & k1 & k2 & k3 & k4 & c0 & c1 & c2 & c3 & c4 & _ & _
        & G0 & _ & G2 & _ & _ & (I0 & T0 & _) & _ & (I2 & T2 & _) & _ & _ & [F|F]).
  - exists c0. rewrite I0. split; [done|]. unfold isBlank.
    by rewrite T0, F, bool_decide_true.
  - exists c2. rewrite I2. split; [done|]. unfold isBlank.
    by rewrite T2, F, bool_decide_true.
Qed.

(** C2: whatever the tier and the draws, the hand of a new game holds,
    for each blank cell of the board, a tile of its own that carries the
    number that [generateAvailableNumbers] collected for the cell; when
    these tiles are placed on their cells, one after the other, every
    placement is accepted, every equation ends up complete and valid,
    and the game is complete.  No other tile of the hand is used. *)
Theorem needed_tiles_solve_the_puzzle now now' d rng e :
  exists g e0 rng' (ps : list (string * string)),
    startNewGame now d rng e = Some (g, e0, rng')
    /\ map snd ps = map cell_id (blankCells (board g))
    /\ NoDup (map fst ps)
    /\ Forall2 (fun p v => exists tile,
                  findTile p.1 (availableNumbers g) = Some tile
                  /\ tile_value tile = v)
         ps (neededNumbers (board g))
    /\ exists e' g',
         placeAll now' ps e0 = (true, e') /\ gameState e' = Some g'
         /\ allEquationsSatisfied g' = true
         /\ forallb (fun q => eq_isComplete q && eq_isValid q)
              (JsMap.values (equations (board g'))) = true
         /\ isComplete g' = true.
Proof.
  destruct (startNewGame_spec now d rng e)
    as (g & e0 & rng' & nums & extras & Hstart & Hg & Hok & _ & Hne & Hhand
        & Hperm & _ & Hc).
  destruct (initial_plan (board g) nums extras Hok Hperm)
    as (plan & Hcells & Hvals & Hnt & Hnc & Htiles & Hblank & Hsol).
  assert (Hplan : plan <> []).
  { destruct (JsMap.values (equations (board g))) as [|q qs] eqn:Hq; [done|].
    pose proof (bo_equations _ Hok) as Heqs. rewrite Hq in Heqs.
    apply Forall_cons in Heqs
      as [(operation & num1 & num2 & result & hintIndex & Hholds) _].
    destruct (equation_has_blank _ _ _ _ _ _ _ _ Hholds) as (c & Hget & Hb).
    assert (Hin : c ∈ blankCells (board g)).
    { apply elem_of_blankCells. split; [|done]. by eapply get_Some_values. }
    intros ->. simpl in Hcells. symmetry in Hcells.
    apply map_eq_nil in Hcells. rewrite Hcells in Hin. by apply elem_of_nil in Hin. }
  rewrite <- Hhand in Htiles.
  destruct (placeAll_solves now' plan e0 g Hg Hc Hplan Hnt Hnc Htiles Hblank Hsol)
    as (e' & g' & Hall & Hg' & Hsat & Hi & Hflags).
  exists g, e0, rng', (map (fun p => (planTile p, planCell p)) plan).
  split; [done|]. split; [by rewrite map_map|]. split; [by rewrite map_map|].
  split.
  - rewrite <- Hvals. change (map planValue plan) with (planValue <$> plan).
    change (map (fun p => (planTile p, planCell p)) plan)
      with ((fun p => (planTile p, planCell p)) <$> plan).
    apply Forall2_fmap, Forall_Forall2_diag.
    eapply Forall_impl; [exact Htiles|]. intros p Hp. simpl in *.
    eexists. split; [exact Hp|done].
  - by exists e', g'.
Qed.

(** ** What play leaves alone *)

Lemma cellFrames_update cs k f :
  (forall c, cellFrame (f c) = cellFrame c) ->
  map (fun kc : string * CellData => (kc.1, cellFrame kc.2)) (JsMap.update k f cs)
  = map (fun kc => (kc.1, cellFrame kc.2)) cs.
Proof.
  intros Hf. induction cs as [|[k' c] cs IH]; simpl; [done|].
  destruct (String.eqb k k'); simpl; [by rewrite Hf|by rewrite IH].
Qed.

Lemma cellFrames_sameCores cs cs' :
  sameCores cs cs' ->
  map (fun kc : string * CellData => (kc.1, cellFrame kc.2)) cs
  = map (fun kc => (kc.1, cellFrame kc.2)) cs'.
Proof.
  unfold sameCores. revert cs'.
  induction cs as [|[k c] cs IH]; intros [|[k' c'] cs']; simpl; try done.
  intros H. apply (inj2 cons) in H as [H1 Hrest].
  apply pair_equal_spec in H1 as [-> Hc].
  apply cellCore_eq in Hc as (Hi & Ht & _ & Hp & Hf & Hb).
  unfold cellFrame. rewrite Hi, Ht, Hp, Hf, Hb. f_equal. by apply IH.
Qed.

Lemma tileFrames_updateTile t b ts :
  map tileFrame (updateTile t (setIsUsed b) ts) = map tileFrame ts.
Proof.
  induction ts as [|t0 ts IH]; simpl; [done|].
  destruct (String.eqb (tile_id t0) t); simpl; [done|by rewrite IH].
Qed.

Lemma layoutOf_writeTileAndCell t c b v g :
  layoutOf (writeTileAndCell t c b v g) = layoutOf g.
Proof.
  unfold layoutOf, writeTileAndCell. simpl.
  by rewrite cellFrames_update, tileFrames_updateTile.
Qed.

Lemma layoutOf_revertMove m g : layoutOf (revertMove m g) = layoutOf g.
Proof.
  unfold revertMove. destruct (findTile _ _); [|done].
  destruct (JsMap.get _ _); [|done].
  destruct (move_type m); apply layoutOf_writeTileAndCell.
Qed.

Lemma layoutOf_checkEquations now e :
  layoutOf <$> gameState (checkEquations now e) = layoutOf <$> gameState e.
Proof.
  unfold checkEquations. destruct (gameState e) as [g|] eqn:Hg; [|by rewrite Hg].
  destruct (checkEquationsLoop _ _ _) as [es a] eqn:Hloop.
  apply checkEquationsLoop_spec in Hloop as (Hc & _ & ->). simpl in *.
  f_equal. unfold layoutOf. simpl. f_equal.
  - symmetry. by apply cellFrames_sameCores.
  - by rewrite map_map.
Qed.

Lemma layoutOf_checkGameCompletion now e :
  layoutOf <$> gameState (checkGameCompletion now e) = layoutOf <$> gameState e.
Proof.
  unfold checkGameCompletion. destruct (gameState e) as [g|] eqn:Hg; [|by rewrite Hg].
  destruct (isComplete g); [by rewrite Hg|].
  destruct (forallb _ _); [|by rewrite Hg].
  unfold completeGame. by rewrite Hg.
Qed.

Lemma layoutOf_exec now c e :
  layoutOf <$> gameState (exec now c e) = layoutOf <$> gameState e.
Proof.
  destruct c as [t c|c| |rng|]; simpl.
  - destruct (placeTile now t c e) as [[] e'] eqn:Hp; simpl.
    + apply placeTile_true in Hp as (g & tile & cell & Hg & _ & _ & _ & _ & _ & _ & ->).
      rewrite layoutOf_checkGameCompletion, layoutOf_checkEquations, Hg. simpl.
      f_equal. apply layoutOf_writeTileAndCell.
    + by apply placeTile_false in Hp as ->.
  - destruct (removeTile now c e) as [[] e'] eqn:Hr; simpl.
    + apply removeTile_true in Hr
        as (g & cell & lastMove & tile & Hg & _ & _ & _ & _ & _ & _ & ->).
      rewrite layoutOf_checkEquations, Hg. simpl.
      f_equal. apply layoutOf_writeTileAndCell.
    + by apply removeTile_false in Hr as ->.
  - destruct (undoLastMove now e) as [[] e'] eqn:Hu; simpl.
    + apply undoLastMove_true in Hu as (g & lastMove & rest & Hg & _ & ->).
      rewrite layoutOf_checkEquations, Hg. simpl.
      f_equal. apply (layoutOf_revertMove lastMove (setMoves rest g)).
    + by apply undoLastMove_false in Hu as ->.
  - unfold getHint. destruct (gameState e) as [g|] eqn:Hg; [|simpl; by rewrite Hg].
    destruct (hints g <=? 0); [simpl; by rewrite Hg|].
    destruct (List.filter isUnfilled _) as [|u us]; [simpl; by rewrite Hg|].
    destruct (random rng) as [r rng'].
    destruct (nth_error _ _) as [target|]; [|simpl; by rewrite Hg].
    destruct (getCorrectValueForCell g target); simpl; [done|by rewrite Hg].
  - unfold timerTick. destruct (gameTimer e); [|done].
    destruct (gameState e) as [g|] eqn:Hg; [|by rewrite Hg].
    destruct (isComplete g); [by rewrite Hg|done].
Qed.

(** X1: no command of a session creates, deletes, renames or moves a
    cell, changes its type, its fixedness or its equation; none changes
    the cells or the expression of an equation; none adds, drops, renames
    or revalues a tile.  Play writes cell values, marks, equation flags
    and used-flags only. *)
Theorem play_keeps_the_layout cs e :
  layoutOf <$> gameState (run cs e) = layoutOf <$> gameState e.
Proof.
  revert e. induction cs as [|[now c] cs IH]; intros e; simpl; [done|].
  by rewrite IH, layoutOf_exec.
Qed.

(** ** The given numbers *)

Lemma givens_update cs k v :
  (forall cell, JsMap.get k cs = Some cell -> cell_isFixed cell = false) ->
  List.filter (fun kc : string * CellData => cell_isFixed kc.2)
    (JsMap.update k (setValue v) cs)
  = List.filter (fun kc => cell_isFixed kc.2) cs.
Proof.
  induction cs as [|[k' c] cs IH]; simpl; [done|].
  destruct (String.eqb k k'); simpl.
  - intros H. by rewrite (H c eq_refl).
  - intros H. by rewrite IH.
Qed.

Lemma givens_sameCores cs cs' :
  sameCores cs cs' ->
  map (fun kc : string * CellData => (kc.1, cell_value kc.2))
    (List.filter (fun kc => cell_isFixed kc.2) cs)
  = map (fun kc => (kc.1, cell_value kc.2))
      (List.filter (fun kc => cell_isFixed kc.2) cs').
Proof.
  unfold sameCores. revert cs'.
  induction cs as [|[k c] cs IH]; intros [|[k' c'] cs']; simpl; try done.
  intros H. apply (inj2 cons) in H as [H1 Hrest].
  apply pair_equal_spec in H1 as [-> Hc].
  apply cellCore_eq in Hc as (_ & _ & Hv & _ & Hf & _).
  rewrite Hf. destruct (cell_isFixed c'); simpl; [rewrite Hv; f_equal|]; by apply IH.
Qed.

Lemma givens_writeTileAndCell t c b v g :
  (forall cell, JsMap.get c (cells (board g)) = Some cell -> cell_isFixed cell = false) ->
  givens (writeTileAndCell t c b v g) = givens g.
Proof. intros H. unfold givens, writeTileAndCell. simpl. by rewrite givens_update. Qed.

Lemma givens_checkEquations now e :
  givens <$> gameState (checkEquations now e) = givens <$> gameState e.
Proof.
  destruct (gameState e) as [g|] eqn:Hg.
  - destruct (checkEquations_spec now e g Hg) as (g' & -> & _ & _ & Hc & _).
    simpl. f_equal. unfold givens. symmetry. by apply givens_sameCores.
  - unfold checkEquations. by rewrite Hg, Hg.
Qed.

Lemma givens_checkGameCompletion now e :
  givens <$> gameState (checkGameCompletion now e) = givens <$> gameState e.
Proof.
  unfold checkGameCompletion. destruct (gameState e) as [g|] eqn:Hg; [|by rewrite Hg].
  destruct (isComplete g); [by rewrite Hg|].
  destruct (forallb _ _); [|by rewrite Hg].
  unfold completeGame. by rewrite Hg.
Qed.

Lemma fixed_frames cs cs' k :
  map (fun kc : string * CellData => (kc.1, cellFrame kc.2)) cs
  = map (fun kc => (kc.1, cellFrame kc.2)) cs' ->
  cell_isFixed <$> JsMap.get k cs = cell_isFixed <$> JsMap.get k cs'.
Proof.
  revert cs'. induction cs as [|[k1 c1] cs IH]; intros [|[k2 c2] cs']; simpl; try done.
  intros H. apply (inj2 cons) in H as [H1 Hrest].
  apply pair_equal_spec in H1 as [-> Hc].
  destruct (String.eqb k k2); simpl; [|by apply IH].
  unfold cellFrame in Hc. by injection Hc as _ _ _ -> _.
Qed.

(** A step of a session keeps the log on cells left to the player, and
    the given numbers as they are. *)
Lemma logOnBlanks_exec now c e g :
  gameState e = Some g -> logOnBlanks g ->
  exists g', gameState (exec now c e) = Some g' /\ logOnBlanks g'
             /\ givens g' = givens g.
Proof.
  intros Hg Hlog.
  pose proof (layoutOf_exec now c e) as Hlay. rewrite Hg in Hlay.
  assert (Hkeep : forall g' ms,
            gameState (exec now c e) = Some g' ->
            Forall (fun m => forall cell,
                      JsMap.get (move_cellId m) (cells (board g)) = Some cell ->
                      cell_isFixed cell = false) ms ->
            moves g' = ms -> logOnBlanks g').
  { intros g' ms Hg' Hms <-. rewrite Hg' in Hlay. simpl in Hlay.
    apply (inj Some) in Hlay. apply (f_equal lay_cells) in Hlay. simpl in Hlay.
    unfold logOnBlanks. eapply Forall_impl; [exact Hms|].
    intros m Hm cell' Hget'. simpl in Hm.
    pose proof (fixed_frames _ _ (move_cellId m) Hlay) as Hf.
    rewrite Hget' in Hf.
    destruct (JsMap.get (move_cellId m) (cells (board g))) as [cell|]; [|done].
    simpl in Hf. injection Hf as ->. by apply Hm. }
  destruct c as [t c|c| |rng|]; simpl in *.
  - destruct (placeTile now t c e) as [[] e'] eqn:Hp; simpl in *.
    + apply placeTile_true in Hp
        as (g0 & tile & cell & Hg0 & _ & _ & Hcell & _ & Hfix & _ & ->).
      assert (g0 = g) as -> by congruence.
      set (g1 := pushMove _ _) in *.
      assert (Hgiv : givens <$> gameState (checkGameCompletion now (checkEquations now
                (emit (TilePlaced now t c (tile_value tile)) (withState g1 e))))
              = Some (givens g)).
      { rewrite givens_checkGameCompletion, givens_checkEquations. simpl. f_equal.
        subst g1. unfold pushMove. 
        change (givens (writeTileAndCell t c true (VNum (tile_value tile)) g) = givens g).
        apply givens_writeTileAndCell. intros ? ?. congruence. }
      destruct (gameState _) as [g'|] eqn:Hg' in Hgiv; [|done].
      exists g'. split; [done|]. split; [|by injection Hgiv].
      destruct (checkEquations_state now
                  (emit (TilePlaced now t c (tile_value tile)) (withState g1 e)) g1 eq_refl)
        as (g2 & Hg2 & _ & _ & Hm2 & Hi2).
      apply (Hkeep g' (moves g ++ [mkMove now place t c now]) Hg').
      * apply Forall_app. split; [done|]. apply Forall_singleton. simpl.
        intros ? ?. congruence.
      * revert Hg'. unfold checkGameCompletion. rewrite Hg2.
        assert (Hsame : forall g3, gameState (checkEquations now
                  (emit (TilePlaced now t c (tile_value tile)) (withState g1 e)))
                  = Some g3 -> moves g3 = moves g ++ [mkMove now place t c now]).
        { intros g3 H3. assert (g3 = g2) as -> by congruence. by rewrite Hm2. }
        destruct (isComplete g2); [apply Hsame|].
        destruct (forallb _ _); [|apply Hsame].
        unfold completeGame. rewrite Hg2. simpl. intros [= <-]. simpl. by rewrite Hm2.
    + apply placeTile_false in Hp as ->. by exists g.
  - destruct (removeTile now c e) as [[] e'] eqn:Hr; simpl in *.
    + apply removeTile_true in Hr
        as (g0 & cell & lastMove & tile & Hg0 & _ & Hcell & Hfix & _ & _ & _ & ->).
      assert (g0 = g) as -> by congruence.
      set (g1 := pushMove _ _) in *.
      destruct (checkEquations_state now (withState g1 e) g1 eq_refl)
        as (g2 & Hg2 & _ & _ & Hm2 & _).
      exists g2. split; [done|]. split.
      * apply (Hkeep g2 (moves g ++ [mkMove now remove (move_tileId lastMove) c now]) Hg2);
          [|done].
        apply Forall_app. split; [done|]. apply Forall_singleton. simpl.
        intros ? ?. congruence.
      * pose proof (givens_checkEquations now (withState g1 e)) as Hgiv.
        rewrite Hg2 in Hgiv. simpl in Hgiv. injection Hgiv as ->.
        subst g1.
        change (givens (writeTileAndCell (move_tileId lastMove) c false VNull g)
                = givens g).
        apply givens_writeTileAndCell. intros ? ?. congruence.
    + apply removeTile_false in Hr as ->. by exists g.
  - destruct (undoLastMove now e) as [[] e'] eqn:Hu; simpl in *.
    + apply undoLastMove_true in Hu as (g0 & lastMove & rest & Hg0 & Hm & ->).
      assert (g0 = g) as -> by congruence.
      unfold logOnBlanks in Hlog. rewrite Hm in Hlog.
      apply Forall_app in Hlog as [Hrest Hlast]. rewrite Forall_singleton in Hlast.
      set (g1 := revertMove lastMove (setMoves rest g)) in *.
      destruct (checkEquations_state now (withState g1 e) g1 eq_refl)
        as (g2 & Hg2 & _ & _ & Hm2 & _).
      exists g2. split; [done|]. split.
      * apply (Hkeep g2 rest Hg2); [done|]. rewrite Hm2. subst g1.
        unfold revertMove. destruct (findTile _ _); [|done].
        destruct (JsMap.get _ _); [|done]. by destruct (move_type lastMove).
      * pose proof (givens_checkEquations now (withState g1 e)) as Hgiv.
        rewrite Hg2 in Hgiv. simpl in Hgiv. injection Hgiv as ->.
        subst g1. unfold revertMove. simpl.
        destruct (findTile _ _); [|done].
        destruct (JsMap.get _ _) as [cell|] eqn:Hcell; [|done].
        destruct (move_type lastMove);
          apply (givens_writeTileAndCell _ _ _ _ (setMoves rest g));
          intros cell0 H0; apply Hlast; simpl in H0; congruence.
    + apply undoLastMove_false in Hu as ->. by exists g.
  - unfold getHint in *. rewrite Hg in *.
    destruct (hints g <=? 0); [by exists g|].
    destruct (List.filter isUnfilled _) as [|u us]; [by exists g|].
    destruct (random rng) as [r rng'].
    destruct (nth_error _ _) as [target|]; [|by exists g].
    destruct (getCorrectValueForCell g target); [|by exists g].
    simpl. eexists. split; [done|]. split; [exact Hlog|done].
  - unfold timerTick in *. destruct (gameTimer e); [|by exists g].
    rewrite Hg in *. destruct (isComplete g); [by exists g|].
    simpl. eexists. split; [done|]. split; [exact Hlog|done].
Qed.

Lemma startNewGame_fresh now d rng e g e' rng' :
  startNewGame now d rng e = Some (g, e', rng') ->
  gameState e' = Some g
  /\ currentScore g = 0 /\ hints g = 3 /\ moves g = []
  /\ isComplete g = false /\ timeElapsed g = 0
  /\ config g = DIFFICULTY_CONFIG d
  /\ gameTimer e' = true /\ startTime e' = now
  /\ emitted e' = emitted e ++ [GameStarted now].
Proof.
  unfold startNewGame.
  destruct (bind _ _ _ _) as [[b nums] s rng1|]; [|done].
  intros [= <- <- <-]. by repeat split.
Qed.

Lemma reachable_run cs e : reachable e -> reachable (run cs e).
Proof.
  revert e. induction cs as [|[now c] cs IH]; intros e H; simpl; [done|].
  by apply IH, reachable_step.
Qed.

Lemma reachable_logOnBlanks e :
  reachable e -> exists g, gameState e = Some g /\ logOnBlanks g.
Proof.
  induction 1 as [now d rng e g e' rng' Hstart|now c e _ (g & Hg & Hlog)].
  - apply startNewGame_fresh in Hstart as (Hg & _ & _ & Hm & _).
    exists g. split; [done|]. unfold logOnBlanks. rewrite Hm. apply Forall_nil_2.
  - destruct (logOnBlanks_exec now c e g Hg Hlog) as (g' & Hg' & Hlog' & _). eauto.
Qed.

(** X2: in a session the numbers that the puzzle gives are never
    overwritten: whatever the commands, the fixed cells and their values
    stay as the generator left them. *)
Theorem givens_survive_play cs e :
  reachable e -> givens <$> gameState (run cs e) = givens <$> gameState e.
Proof.
  revert e. induction cs as [|[now c] cs IH]; intros e Hr; simpl; [done|].
  rewrite IH by (by apply reachable_step).
  destruct (reachable_logOnBlanks e Hr) as (g & Hg & Hlog).
  destruct (logOnBlanks_exec now c e g Hg Hlog) as (g' & Hg' & _ & Hgiv).
  rewrite Hg, Hg'. simpl. by rewrite Hgiv.
Qed.

Lemma givens_survive_play_witness :
  givens <$> gameState
    (run [(1, CPlace "tile-1" "0-0"); (2, CPlace "tile-1" "2-0"); (3, CRemove "0-0");
          (4, CUndo); (5, CUndo)] sampleStart)
  = givens <$> gameState sampleStart.
Proof. apply givens_survive_play, sampleStart_reachable. Defined.

(** X3: in a session the score is never negative and the hint counter
    stays between 0 and the 3 hints of a new game. *)
Theorem session_score_and_hints_in_range e :
  reachable e -> 0 <= scoreOf e /\ 0 <= hintsOf e <= 3.
Proof.
  induction 1 as [now d rng e g e' rng' Hstart|now c e _ (Hs & Hh)].
  - apply startNewGame_fresh in Hstart as (Hg & Hs & Hh & _).
    unfold scoreOf, hintsOf. rewrite Hg, Hs, Hh. lia.
  - destruct (isHint c) eqn:Hc.
    + destruct c; try done. simpl.
      destruct (getHint rng e) as [[r e'] rng'] eqn:Hhint. simpl.
      apply getHint_cases in Hhint as [[_ ->]|(h & _ & Hpos & -> & ->)]; lia.
    + pose proof (scoreOf_exec now c e Hc). rewrite (hintsOf_exec now c e Hc). lia.
Qed.

Lemma session_score_and_hints_in_range_witness :
  0 <= scoreOf sampleCompleted /\ 0 <= hintsOf sampleCompleted <= 3.
Proof. apply session_score_and_hints_in_range, sampleCompleted_reachable. Defined.

(** ** Accounting of a re-validation *)

Lemma newlyComplete_sameCores cs cs' q :
  sameCores cs cs' -> newlyComplete cs q = newlyComplete cs' q.
Proof. intros H. unfold newlyComplete. by rewrite (isEquationComplete_sameCores _ _ _ H). Qed.

Lemma newlyValid_sameCores cs cs' q :
  sameCores cs cs' -> newlyValid cs q = newlyValid cs' q.
Proof.
  intros H. unfold newlyValid.
  by rewrite (newlyComplete_sameCores _ _ _ H), (validateEquation_sameCores _ _ _ H).
Qed.

Lemma filter_pointwise {A} (f g : A -> bool) (l : list A) :
  (forall x, f x = g x) -> List.filter f l = List.filter g l.
Proof. intros H. induction l as [|a l IH]; simpl; [done|]. by rewrite H, IH. Qed.

(** [checkEquations] awards [BASE_POINTS] for each equation that it finds
    newly complete and valid, and emits one event for each equation that
    it finds newly complete. *)
Lemma checkEquationsLoop_account now es a es' a' :
  checkEquationsLoop now es a = (es', a') ->
  acc_score a'
  = acc_score a
    + SCORING.BASE_POINTS
      * Z.of_nat (length (List.filter (newlyValid (acc_cells a)) (JsMap.values es)))
  /\ acc_events a'
     = acc_events a
       ++ map (fun q => EquationCompleted now (eq_id q) (validateEquation (acc_cells a) q))
            (List.filter (newlyComplete (acc_cells a)) (JsMap.values es)).
Proof.
  revert a es' a'. induction es as [|[k q] es IH]; intros a es' a'; simpl.
  - intros [= <- <-]. simpl. split; [lia|by rewrite app_nil_r].
  - set (cs1 := markCorrectness _ _ _).
    assert (Hsame : sameCores (acc_cells a) cs1) by apply sameCores_markCorrectness.
    destruct (checkEquationsLoop now es _) as [es1 a1] eqn:Hloop.
    intros [= <- <-]. apply IH in Hloop as [Hs He].
    change (JsMap.values ((k, q) :: es)) with (q :: JsMap.values es).
    cbn [List.filter].
    assert (Hnc : newlyComplete (acc_cells a) q
                  = negb (eq_isComplete q) && isEquationComplete (acc_cells a) q) by done.
    assert (Hnv : newlyValid (acc_cells a) q
                  = negb (eq_isComplete q) && isEquationComplete (acc_cells a) q
                    && validateEquation (acc_cells a) q) by done.
    rewrite Hnc, Hnv. clear Hnc Hnv.
    destruct (negb (eq_isComplete q) && isEquationComplete (acc_cells a) q) eqn:Hnew;
      cbn [acc_score acc_cells acc_events andb] in Hs, He; rewrite Hs, He;
      rewrite (filter_pointwise (newlyValid cs1) (newlyValid (acc_cells a)))
        by (intros; symmetry; by apply newlyValid_sameCores);
      rewrite (filter_pointwise (newlyComplete cs1) (newlyComplete (acc_cells a)))
        by (intros; symmetry; by apply newlyComplete_sameCores);
      rewrite (map_ext (fun q0 => EquationCompleted now (eq_id q0) (validateEquation cs1 q0))
                 (fun q0 => EquationCompleted now (eq_id q0)
                              (validateEquation (acc_cells a) q0)))
        by (intros; by rewrite (validateEquation_sameCores _ _ _ Hsame)).
    + apply andb_prop in Hnew as [_ Hcomp]. rewrite Hcomp.
      split.
      * destruct (validateEquation (acc_cells a) q); simpl length; lia.
      * rewrite <- app_assoc. done.
    + done.
Qed.

Lemma checkEquations_account now e g :
  gameState e = Some g ->
  exists g',
    gameState (checkEquations now e) = Some g'
    /\ currentScore g'
       = currentScore g
         + SCORING.BASE_POINTS
           * Z.of_nat (length (List.filter (newlyValid (cells (board g)))
                                 (JsMap.values (equations (board g)))))
    /\ emitted (checkEquations now e)
       = emitted e
         ++ map (fun q => EquationCompleted now (eq_id q)
                            (validateEquation (cells (board g)) q))
              (List.filter (newlyComplete (cells (board g)))
                 (JsMap.values (equations (board g))))
    /\ gameTimer (checkEquations now e) = gameTimer e
    /\ startTime (checkEquations now e) = startTime e
    /\ timeElapsed g' = timeElapsed g /\ config g' = config g
    /\ isComplete g' = isComplete g /\ hints g' = hints g.
Proof.
  intros Hg. unfold checkEquations. rewrite Hg.
  destruct (checkEquationsLoop _ _ _) as [es a] eqn:Hloop.
  apply checkEquationsLoop_account in Hloop as [Hs He]. simpl in *.
  eexists. split; [reflexivity|]. simpl. by repeat split.
Qed.

Lemma checkGameCompletion_cases now e g :
  gameState e = Some g -> isComplete g = false ->
  (forallb (fun q => eq_isComplete q && eq_isValid q)
     (JsMap.values (equations (board g))) = false
   /\ checkGameCompletion now e = e)
  \/ (forallb (fun q => eq_isComplete q && eq_isValid q)
        (JsMap.values (equations (board g))) = true
      /\ checkGameCompletion now e
         = emit (GameCompleted now (currentScore g + completionBonus g)
                   (timeElapsed g) (level (config g)))
             (withState (setScore (currentScore g + completionBonus g)
                           (setIsComplete true g))
                (stopTimer e))).
Proof.
  intros Hg Hc. unfold checkGameCompletion. rewrite Hg, Hc.
  destruct (forallb _ _); [right|by left].
  split; [done|]. unfold completeGame. by rewrite Hg.
Qed.

(** X4: the score and the events of an accepted placement.  The score
    grows by [BASE_POINTS] for each equation that the placement newly
    completes correctly, and by the time and difficulty bonus when it
    completes the game; the events are [tile-placed], one
    [equation-completed] for each newly complete equation, in the order of
    the map, and [game-completed] last when the game is complete; the timer
    is stopped then, and only then. *)
Theorem placement_accounting now t c e e' g :
  gameState e = Some g ->
  placeTile now t c e = (true, e') ->
  exists g' tile,
    gameState e' = Some g'
    /\ findTile t (availableNumbers g) = Some tile
    /\ currentScore g'
       = currentScore g
         + SCORING.BASE_POINTS
           * Z.of_nat (length (List.filter
               (newlyValid (JsMap.update c (setValue (VNum (tile_value tile)))
                              (cells (board g))))
               (JsMap.values (equations (board g)))))
         + (if isComplete g' then completionBonus g else 0)
    /\ emitted e'
       = emitted e ++ [TilePlaced now t c (tile_value tile)]
         ++ map (fun q => EquationCompleted now (eq_id q)
                   (validateEquation
                      (JsMap.update c (setValue (VNum (tile_value tile)))
                         (cells (board g))) q))
              (List.filter
                 (newlyComplete (JsMap.update c (setValue (VNum (tile_value tile)))
                                   (cells (board g))))
                 (JsMap.values (equations (board g))))
         ++ (if isComplete g'
             then [GameCompleted now (currentScore g') (timeElapsed g) (level (config g))]
             else [])
    /\ gameTimer e' = (if isComplete g' then false else gameTimer e).
Proof.
  intros Hg Hp.
  apply placeTile_true in Hp
    as (g0 & tile & cell & Hg0 & Hc & Htile & _ & _ & _ & _ & ->).
  assert (g0 = g) as -> by congruence. clear Hg0.
  set (e1 := emit _ _).
  destruct (checkEquations_account now e1 _ eq_refl)
    as (g1 & Hg1 & Hs1 & He1 & Ht1 & _ & Hte1 & Hcf1 & Hi1 & _).
  simpl in Hs1, He1, Ht1, Hte1, Hcf1, Hi1. rewrite Hc in Hi1.
  destruct (checkGameCompletion_cases now _ g1 Hg1 Hi1) as [[_ ->]|[_ ->]].
  - exists g1, tile. rewrite Hi1. split; [done|]. split; [done|].
    split; [rewrite Hs1; lia|]. split; [|done].
    rewrite He1, app_nil_r. by rewrite <- app_assoc.
  - eexists _, tile. split; [reflexivity|]. split; [done|]. simpl.
    unfold completionBonus. rewrite Hte1, Hcf1, Hs1, He1.
    split; [lia|]. split; [|done].
    rewrite <- !app_assoc. simpl. do 3 f_equal.
Qed.

Lemma placement_accounting_witness :
  exists g e',
    gameState sampleFilled = Some g
    /\ placeTile 2 "tile-0" "4-0" sampleFilled = (true, e')
    /\ exists g' tile,
         gameState e' = Some g'
         /\ findTile "tile-0" (availableNumbers g) = Some tile
         /\ currentScore g'
            = currentScore g
              + SCORING.BASE_POINTS
                * Z.of_nat (length (List.filter
                    (newlyValid (JsMap.update "4-0" (setValue (VNum (tile_value tile)))
                                   (cells (board g))))
                    (JsMap.values (equations (board g)))))
              + (if isComplete g' then completionBonus g else 0)
         /\ emitted e'
            = emitted sampleFilled ++ [TilePlaced 2 "tile-0" "4-0" (tile_value tile)]
              ++ map (fun q => EquationCompleted 2 (eq_id q)
                        (validateEquation
                           (JsMap.update "4-0" (setValue (VNum (tile_value tile)))
                              (cells (board g))) q))
                   (List.filter
                      (newlyComplete (JsMap.update "4-0" (setValue (VNum (tile_value tile)))
                                        (cells (board g))))
                      (JsMap.values (equations (board g))))
              ++ (if isComplete g'
                  then [GameCompleted 2 (currentScore g') (timeElapsed g) (level (config g))]
                  else [])
         /\ gameTimer e' = (if isComplete g' then false else gameTimer sampleFilled).
Proof.
  pose proof sampleFilledState_eq as Hg. unfold sampleFilledState in Hg.
  assert (Hp : placeTile 2 "tile-0" "4-0" sampleFilled
               = (true, snd (placeTile 2 "tile-0" "4-0" sampleFilled)))
    by (vm_compute; reflexivity).
  eexists _, _. split; [exact Hg|]. split; [exact Hp|].
  exact (placement_accounting 2 "tile-0" "4-0" sampleFilled _ _ Hg Hp).
Defined.

(** ** Placing, and taking back *)

Lemma placeTile_state now t c e g tile cell :
  gameState e = Some g -> isComplete g = false ->
  findTile t (availableNumbers g) = Some tile -> tile_isUsed tile = false ->
  JsMap.get c (cells (board g)) = Some cell ->
  cell_isFixed cell = false -> cell_type cell = number ->
  exists e' g',
    placeTile now t c e = (true, e') /\ gameState e' = Some g'
    /\ (forall k, cellValueOf k g'
                  = cellValueOf k (writeTileAndCell t c true (VNum (tile_value tile)) g))
    /\ availableNumbers g' = updateTile t (setIsUsed true) (availableNumbers g)
    /\ moves g' = moves g ++ [mkMove now place t c now].
Proof.
  intros Hg Hc Htile Hunused Hcell Hfix Hty.
  unfold placeTile. rewrite Hg, Hc, Htile, Hcell, Hunused, Hfix, Hty.
  rewrite bool_decide_true by done. cbn [orb negb].
  set (e1 := emit _ _).
  destruct (checkEquations_spec now e1 _ eq_refl)
    as (g1 & Hg1 & _ & _ & Hcores & _ & _ & Htiles & Hmoves & _ & Hi1 & _).
  simpl in Hi1, Htiles, Hmoves, Hcores. rewrite Hc in Hi1.
  assert (Hvals : forall k, cellValueOf k g1
            = cellValueOf k (writeTileAndCell t c true (VNum (tile_value tile)) g)).
  { intros k. unfold cellValueOf. symmetry. by apply sameCores_value. }
  destruct (checkGameCompletion_cases now _ g1 Hg1 Hi1) as [[_ ->]|[_ ->]].
  - by exists (checkEquations now e1), g1.
  - eexists _, _. split; [reflexivity|]. split; [reflexivity|]. by simpl.
Qed.

(** X5: [canPlaceTile] is a sound test for [placeTile] while a game is
    active: when it answers [true] the placement is accepted, the cell
    was blank and now holds the value of the tile, the tile is used, no
    other cell and no other tile changes, and the log grows by this one
    move. *)
Theorem canPlaceTile_then_placeTile now t c e :
  isGameActive e = true -> canPlaceTile t c e = true ->
  exists e' g g' tile,
    placeTile now t c e = (true, e')
    /\ gameState e = Some g /\ gameState e' = Some g'
    /\ findTile t (availableNumbers g) = Some tile /\ tile_isUsed tile = false
    /\ cellValueOf c g = Some VNull
    /\ cellValueOf c g' = Some (VNum (tile_value tile))
    /\ (forall k, k <> c -> cellValueOf k g' = cellValueOf k g)
    /\ availableNumbers g' = updateTile t (setIsUsed true) (availableNumbers g)
    /\ moves g' = moves g ++ [mkMove now place t c now].
Proof.
  unfold isGameActive, canPlaceTile.
  destruct (gameState e) as [g|] eqn:Hg; [|done].
  intros Hc%negb_true_iff.
  destruct (findTile t (availableNumbers g)) as [tile|] eqn:Htile; [|done].
  destruct (JsMap.get c (cells (board g))) as [cell|] eqn:Hcell; [|done].
  intros [[[Hu%negb_true_iff Hf%negb_true_iff]%andb_prop
           Hty%bool_decide_eq_true]%andb_prop Hv%bool_decide_eq_true]%andb_prop.
  destruct (placeTile_state now t c e g tile cell Hg Hc Htile Hu Hcell Hf Hty)
    as (e' & g' & Hp & Hg' & Hvals & Htiles & Hmoves).
  exists e', g, g', tile. split; [done|]. split; [done|]. split; [done|].
  split; [done|]. split; [done|].
  split; [unfold cellValueOf; by rewrite Hcell, <- Hv|].
  split; [rewrite Hvals; by apply (cellValueOf_write_eq _ _ _ _ _ cell)|].
  split; [|done]. intros k Hk. rewrite Hvals. by apply cellValueOf_write_ne.
Qed.

Lemma canPlaceTile_then_placeTile_witness :
  exists e' g g' tile,
    placeTile 1 "tile-1" "2-0" sampleStart = (true, e')
    /\ gameState sampleStart = Some g /\ gameState e' = Some g'
    /\ findTile "tile-1" (availableNumbers g) = Some tile /\ tile_isUsed tile = false
    /\ cellValueOf "2-0" g = Some VNull
    /\ cellValueOf "2-0" g' = Some (VNum (tile_value tile))
    /\ (forall k, k <> "2-0" -> cellValueOf k g' = cellValueOf k g)
    /\ availableNumbers g' = updateTile "tile-1" (setIsUsed true) (availableNumbers g)
    /\ moves g' = moves g ++ [mkMove 1 place "tile-1" "2-0" 1].
Proof.
  apply (canPlaceTile_then_placeTile 1 "tile-1" "2-0" sampleStart);
    vm_compute; reflexivity.
Defined.

Lemma updateTile_unused_again t tile ts :
  findTile t ts = Some tile -> tile_isUsed tile = false ->
  updateTile t (setIsUsed false) (updateTile t (setIsUsed true) ts) = ts.
Proof.
  induction ts as [|t0 ts IH]; simpl; [done|].
  destruct (String.eqb (tile_id t0) t) eqn:E; simpl.
  - intros [= ->] Hu. rewrite E. destruct tile as [i v u]. simpl in *. by subst u.
  - intros H Hu. rewrite E. by rewrite IH.
Qed.

(** X6: a placement on a blank cell followed at once by [undoLastMove]
    gives back the board, the hand and the log: every cell holds what it
    held, the tiles are as they were, the move is off the log.  (This
    holds even when the placement completed the game.) *)
Theorem place_then_undo_restores now now' t c e e1 g :
  gameState e = Some g ->
  cellValueOf c g = Some VNull ->
  placeTile now t c e = (true, e1) ->
  exists e2 g2,
    undoLastMove now' e1 = (true, e2) /\ gameState e2 = Some g2
    /\ (forall k, cellValueOf k g2 = cellValueOf k g)
    /\ availableNumbers g2 = availableNumbers g
    /\ moves g2 = moves g.
Proof.
  intros Hg Hblank Hp.
  pose proof Hp as (g0 & tile & cell & Hg0 & Hc & Htile & Hcell & Hu & Hf & Hty & _)%placeTile_true.
  assert (g0 = g) as -> by congruence. clear Hg0.
  destruct (placeTile_state now t c e g tile cell Hg Hc Htile Hu Hcell Hf Hty)
    as (e1' & g1 & Hp' & Hg1 & Hvals1 & Htiles1 & Hmoves1).
  assert (e1' = e1) as -> by congruence.
  assert (Hget1 : exists cell1, JsMap.get c (cells (board g1)) = Some cell1).
  { pose proof (Hvals1 c) as H. rewrite (cellValueOf_write_eq _ _ _ _ _ cell) in H by done.
    unfold cellValueOf in H. destruct (JsMap.get c (cells (board g1))); [eauto|done]. }
  destruct Hget1 as [cell1 Hget1].
  assert (Htile1 : findTile t (availableNumbers g1) = Some (setIsUsed true tile)).
  { rewrite Htiles1, findTile_updateTile_eq by done. by rewrite Htile. }
  set (g2 := writeTileAndCell t c false VNull (setMoves (moves g) g1)).
  assert (Hundo : undoLastMove now' e1
                  = (true, checkEquations now' (withState g2 e1))).
  { unfold undoLastMove. rewrite Hg1, Hmoves1, popMove_snoc.
    unfold revertMove. cbn [move_tileId move_cellId move_type availableNumbers setMoves board].
    by rewrite Htile1, Hget1. }
  destruct (checkEquations_state now' (withState g2 e1) g2 eq_refl)
    as (g2' & Hg2' & Hcells2 & Htiles2 & Hmoves2 & _).
  exists (checkEquations now' (withState g2 e1)), g2'.
  split; [done|]. split; [done|]. split; [|split].
  - intros k. rewrite Hcells2. subst g2.
    destruct (decide (c = k)) as [<-|Hne].
    + by rewrite (cellValueOf_write_eq _ _ _ _ _ cell1), Hblank.
    + rewrite cellValueOf_write_ne by done.
      transitivity (cellValueOf k g1); [done|].
      rewrite Hvals1. by apply cellValueOf_write_ne.
  - rewrite Htiles2. subst g2. simpl. rewrite Htiles1.
    by apply (updateTile_unused_again t tile).
  - rewrite Hmoves2. by subst g2.
Qed.

Lemma place_then_undo_restores_witness :
  exists g e1,
    gameState sampleFilled = Some g
    /\ placeTile 2 "tile-0" "4-0" sampleFilled = (true, e1)
    /\ exists e2 g2,
         undoLastMove 3 e1 = (true, e2) /\ gameState e2 = Some g2
         /\ (forall k, cellValueOf k g2 = cellValueOf k g)
         /\ availableNumbers g2 = availableNumbers g
         /\ moves g2 = moves g.
Proof.
  pose proof sampleFilledState_eq as Hg. unfold sampleFilledState in Hg.
  assert (Hp : placeTile 2 "tile-0" "4-0" sampleFilled
               = (true, snd (placeTile 2 "tile-0" "4-0" sampleFilled)))
    by (vm_compute; reflexivity).
  eexists _, _. split; [exact Hg|]. split; [exact Hp|].
  exact (place_then_undo_restores 2 3 "tile-0" "4-0" sampleFilled _ _ Hg eq_refl Hp).
Defined.

(** ** A completed game *)

Lemma completed_exec now c e g :
  gameState e = Some g -> isComplete g = true ->
  exists g', gameState (exec now c e) = Some g'
             /\ isComplete g' = true /\ timeElapsed g' = timeElapsed g.
Proof.
  intros Hg Hc. destruct c as [t c|c| |rng|]; simpl.
  - unfold placeTile. rewrite Hg, Hc. by exists g.
  - unfold removeTile. rewrite Hg, Hc. by exists g.
  - destruct (undoLastMove now e) as [[] e'] eqn:Hu; simpl.
    + apply undoLastMove_true in Hu as (g0 & lastMove & rest & Hg0 & _ & ->).
      assert (g0 = g) as -> by congruence.
      destruct (checkEquations_account now
                  (withState (revertMove lastMove (setMoves rest g)) e) _ eq_refl)
        as (g' & Hg' & _ & _ & _ & _ & Ht & _ & Hi & _).
      exists g'. split; [done|]. rewrite Hi, Ht, isComplete_revertMove.
      split; [done|]. unfold revertMove. destruct (findTile _ _); [|done].
      destruct (JsMap.get _ _); [|done]. by destruct (move_type lastMove).
    + apply undoLastMove_false in Hu as ->. by exists g.
  - unfold getHint. rewrite Hg.
    destruct (hints g <=? 0); [by exists g|].
    destruct (List.filter isUnfilled _) as [|u us]; [by exists g|].
    destruct (random rng) as [r rng'].
    destruct (nth_error _ _) as [target|]; [|by exists g].
    destruct (getCorrectValueForCell g target); [|by exists g].
    simpl. eexists. by split.
  - unfold timerTick. destruct (gameTimer e); [|by exists g].
    rewrite Hg, Hc. by exists g.
Qed.

(** X7: completion is final.  Whatever commands follow it, a completed
    game stays completed and its elapsed time stays what it was: only
    [startNewGame] leaves the completed state. *)
Theorem completed_game_stays_completed cs e g :
  gameState e = Some g -> isComplete g = true ->
  exists g', gameState (run cs e) = Some g'
             /\ isComplete g' = true /\ timeElapsed g' = timeElapsed g.
Proof.
  revert e g. induction cs as [|[now c] cs IH]; intros e g Hg Hc; simpl.
  - by exists g.
  - destruct (completed_exec now c e g Hg Hc) as (g1 & Hg1 & Hc1 & Ht1).
    destruct (IH _ g1 Hg1 Hc1) as (g' & Hg' & Hc' & Ht'). exists g'.
    split; [done|]. split; [done|]. congruence.
Qed.

Lemma completed_game_stays_completed_witness :
  exists g g',
    gameState sampleCompleted = Some g
    /\ gameState (run [(3, CUndo); (4, CTick); (5, CPlace "tile-0" "4-0");
                       (6, CHint zeroDraws); (7, CRemove "2-0")] sampleCompleted)
       = Some g'
    /\ isComplete g' = true /\ timeElapsed g' = timeElapsed g.
Proof.
  pose proof sampleCompletedState_eq as Hg. unfold sampleCompletedState in Hg.
  eexists _. 
  destruct (completed_game_stays_completed
              [(3, CUndo); (4, CTick); (5, CPlace "tile-0" "4-0");
               (6, CHint zeroDraws); (7, CRemove "2-0")] sampleCompleted _ Hg eq_refl)
    as (g' & Hg' & Hc' & Ht').
  exists g'. split; [exact Hg|]. split; [exact Hg'|]. split; [exact Hc'|exact Ht'].
Defined.

(** ** Hints *)

Lemma idShape_nonempty count bound id : idShape count bound id -> id <> "".
Proof. by intros [(j & _ & ->)|(i & _ & ->)]. Qed.

(** The board and the hand of a new game come from a generator that
    satisfies its invariant. *)
Lemma startNewGame_generator now d rng e g e' rng' :
  startNewGame now d rng e = Some (g, e', rng') ->
  exists s bound rng1 nums,
    V2.generatePuzzle (newGenerator d) rng = Returned (boardOf s) s rng1
    /\ generateAvailableNumbers (boardOf s) s rng1 = Returned nums s rng'
    /\ board g = boardOf s
    /\ GenInv (cfg_gridSize (DIFFICULTY_CONFIG d)) bound s
    /\ (1 <= length (gen_equations s))%nat
    /\ availableNumbers g = makeTiles nums.
Proof.
  intros Hstart.
  destruct (returns_eq _ _ _ _ (V2_generatePuzzle_spec d rng))
    as (b & s & rng1 & Hgen & -> & [bound Inv] & Hlen).
  destruct (returns_eq _ _ _ _ (generateAvailableNumbers_spec (boardOf s) s rng1))
    as (nums & s2 & rng2 & Hnums & -> & extras & Hperm).
  unfold startNewGame, bind in Hstart. rewrite Hgen, Hnums in Hstart.
  injection Hstart as <- <- <-. simpl.
  by exists s, bound, rng1, nums.
Qed.

Lemma frames_lookup {A B} (f : A -> B) (l l' : list (string * A)) i k a :
  map (fun ka : string * A => (ka.1, f ka.2)) l
  = map (fun ka => (ka.1, f ka.2)) l' ->
  l !! i = Some (k, a) ->
  exists a', l' !! i = Some (k, a') /\ f a' = f a.
Proof.
  intros H Hi.
  assert (H' : (map (fun ka : string * A => (ka.1, f ka.2)) l') !! i = Some (k, f a)).
  { rewrite <- H. change (map ?g l) with (g <$> l). by rewrite list_lookup_fmap, Hi. }
  change (map ?g l') with (g <$> l') in H'. rewrite list_lookup_fmap in H'.
  destruct (l' !! i) as [[k' a']|]; [|done]. simpl in H'.
  injection H' as -> Ha. by exists a'.
Qed.

Lemma frames_get {A B} (f : A -> B) (l l' : JsMap.t A) k :
  map (fun ka : string * A => (ka.1, f ka.2)) l
  = map (fun ka => (ka.1, f ka.2)) l' ->
  f <$> JsMap.get k l = f <$> JsMap.get k l'.
Proof.
  revert l'. induction l as [|[k1 a1] l IH]; intros [|[k2 a2] l']; simpl; try done.
  intros H. apply (inj2 cons) in H as [H1 Hrest].
  apply pair_equal_spec in H1 as [-> Ha].
  destruct (String.eqb k k2); simpl; [by rewrite Ha|by apply IH].
Qed.

Lemma frames_keys {A B} (f : A -> B) (l l' : JsMap.t A) :
  map (fun ka : string * A => (ka.1, f ka.2)) l
  = map (fun ka => (ka.1, f ka.2)) l' ->
  JsMap.keys l = JsMap.keys l'.
Proof.
  intros H. apply (f_equal (map fst)) in H. rewrite !map_map in H. exact H.
Qed.

(** In a session the board is a generated one. *)
Lemma reachable_Generated e :
  reachable e -> exists g, gameState e = Some g /\ Generated g.
Proof.
  induction 1 as [now d rng e g e' rng' Hstart|now c e _ (g & Hg & b0 & Hok & Hid & Hc & Hq)].
  - pose proof (startNewGame_fresh _ _ _ _ _ _ _ Hstart) as (Hg & _).
    destruct (startNewGame_generator _ _ _ _ _ _ _ Hstart)
      as (s & bound & rng1 & nums & _ & _ & Hb & Inv & _).
    exists g. split; [done|]. exists (board g).
    destruct (GenInv_BoardOk _ _ _ Inv) as [Hok Hv]. rewrite Hb.
    split; [done|]. split; [|done].
    rewrite Hv. eapply Forall_impl; [apply (inv_idShape _ _ _ Inv)|].
    intros q Hq. exact (idShape_nonempty _ _ _ Hq).
  - pose proof (layoutOf_exec now c e) as Hlay. rewrite Hg in Hlay.
    destruct (gameState (exec now c e)) as [g'|]; [|done].
    simpl in Hlay. apply (inj Some) in Hlay.
    exists g'. split; [done|]. exists b0. split; [done|]. split; [done|].
    rewrite <- Hc, <- Hq.
    split; [exact (f_equal lay_cells Hlay)|exact (f_equal lay_equations Hlay)].
Qed.

Lemma indexOf_strip k0 k1 k2 k3 k4 :
  NoDup [k0; k1; k2; k3; k4] ->
  indexOf k0 [k0; k1; k2; k3; k4] = 0
  /\ indexOf k2 [k0; k1; k2; k3; k4] = 2
  /\ indexOf k4 [k0; k1; k2; k3; k4] = 4.
Proof.
  intros Hnd.
  apply NoDup_cons in Hnd as [N0 Hnd]. apply NoDup_cons in Hnd as [N1 Hnd].
  apply NoDup_cons in Hnd as [N2 Hnd]. apply NoDup_cons in Hnd as [N3 _].
  rewrite !not_elem_of_cons in N0. rewrite !not_elem_of_cons in N1.
  rewrite !not_elem_of_cons in N2. rewrite !not_elem_of_cons in N3.
  cbn [indexOf]. split; [|split].
  - by rewrite String.eqb_refl.
  - rewrite (proj2 (String.eqb_neq k0 k2)) by tauto.
    rewrite (proj2 (String.eqb_neq k1 k2)) by tauto.
    by rewrite String.eqb_refl.
  - rewrite (proj2 (String.eqb_neq k0 k4)) by tauto.
    rewrite (proj2 (String.eqb_neq k1 k4)) by tauto.
    rewrite (proj2 (String.eqb_neq k2 k4)) by tauto.
    rewrite (proj2 (String.eqb_neq k3 k4)) by tauto.
    by rewrite String.eqb_refl.
Qed.

(** On a generated board [getCorrectValueForCell] finds, for every cell
    left to fill, the number of its equation at the place of the cell. *)
Lemma hint_value g target :
  Generated g -> target ∈ JsMap.values (cells (board g)) ->
  isUnfilled target = true ->
  exists v, getCorrectValueForCell g target = Some v
            /\ JsMap.get (cell_id target) (cells (board g)) = Some target
            /\ solutionAt (board g) (cell_id target) v.
Proof.
  intros (b0 & Hok & Hids & Hc & Hq) Hin Hun.
  apply list_elem_of_fmap in Hin as ([k' c] & -> & Hin). simpl in *.
  pose proof Hin as [i Hi]%list_elem_of_lookup.
  destruct (frames_lookup cellFrame _ _ i k' c Hc Hi) as (t0 & Hi0 & Hf).
  assert (Hnd0 : NoDup (JsMap.keys (cells b0))).
  { rewrite (bo_cellKeys _ Hok). apply NoDup_gridKeys. }
  assert (Hget0 : JsMap.get k' (cells b0) = Some t0).
  { apply get_entry; [done|]. by eapply list_elem_of_lookup_2. }
  pose proof (BoardOk_id b0 k' t0 Hok Hget0) as Hid0.
  unfold cellFrame in Hf. injection Hf as Hid Hty _ Hfix Hbel.
  assert (Hget : JsMap.get k' (cells (board g)) = Some c).
  { apply get_entry; [|done]. by rewrite (frames_keys cellFrame _ _ Hc). }
  apply andb_prop in Hun as [[Tn%bool_decide_eq_true Fx%negb_true_iff]%andb_prop
                             Vn%bool_decide_eq_true].
  assert (Hb0 : isBlank t0 = true).
  { unfold isBlank. by rewrite Hty, Hfix, Tn, Fx, bool_decide_true. }
  pose proof (get_Some_values _ _ _ Hget0) as Hin0.
  destruct (BoardOk_blank_claimed b0 t0 Hok Hin0 Hb0) as (q0 & Hq0 & Hk & Hbel0).
  pose proof (bo_equations _ Hok) as Heqs. rewrite Forall_forall in Heqs.
  destruct (Heqs q0 Hq0) as (operation & num1 & num2 & result & hintIndex & Hholds).
  destruct (equation_strip _ _ _ _ _ _ _ _ Hholds)
    as (k0 & k1 & k2 & k3 & k4 & c0 & c1 & c2 & c3 & c4 & Hcells & Hnd
        & G0 & G1 & G2 & G3 & G4 & _ & [T1 _] & _ & [T3 _] & _).
  pose proof Hholds as (_ & _ & _ & Hn1 & Hn2 & Hr & Hop & _ & Hexpr & _).
  assert (exists o, opSymbol operation = String o "" /\ isOperatorChar o = true)
    as (o & Ho & Hoc) by (destruct operation; eexists; split; reflexivity).
  pose proof (frames_get equationFrame _ _ (eq_id q0) Hq) as Hgq.
  rewrite (BoardOk_equation b0 q0 Hok Hq0) in Hgq.
  destruct (JsMap.get (eq_id q0) (equations (board g))) as [q|] eqn:Hgetq; [|done].
  simpl in Hgq. apply (inj Some) in Hgq. unfold equationFrame in Hgq.
  injection Hgq as _ Hqc Hqe _ _ _.
  assert (Hm : matchExpression (eq_expression q)
               = Some (mkExprMatch (showZ num1) o (showZ num2) (showZ result))).
  { rewrite Hqe, Hexpr, Ho. apply matchExpression_showExpression; [lia..|done]. }
  rewrite Forall_forall in Hids.
  assert (Hne : String.eqb (eq_id q0) "" = false) by (apply String.eqb_neq; auto).
  destruct (indexOf_strip k0 k1 k2 k3 k4 Hnd) as (I0 & I2 & I4).
  assert (Hval : forall v, 
            (k' = k0 /\ v = num1) \/ (k' = k2 /\ v = num2) \/ (k' = k4 /\ v = result) ->
            getCorrectValueForCell g c = Some v).
  { intros v Hv. unfold getCorrectValueForCell.
    rewrite <- Hbel, Hbel0, Hne, Hgetq, Hm, <- Hid, Hid0, Hqc, Hcells.
    cbn [m_num1 m_num2 m_result].
    destruct Hv as [[-> ->]|[[-> ->]|[-> ->]]].
    - rewrite I0. simpl. by rewrite parseInt_showZ by lia.
    - rewrite I2. simpl. by rewrite parseInt_showZ by lia.
    - rewrite I4. simpl. by rewrite parseInt_showZ by lia. }
  assert (Hsol : forall v,
            (k' = k0 /\ v = num1) \/ (k' = k2 /\ v = num2) \/ (k' = k4 /\ v = result) ->
            solutionAt (board g) k' v).
  { intros v Hv.
    exists q, num1, (opSymbol operation), num2, result, k0, k1, k2, k3, k4.
    split; [by eapply get_Some_values|]. split; [by rewrite Hqe|].
    split; [done|]. split; [by rewrite Hqc|done]. }
  rewrite <- Hid, Hid0.
  rewrite Hid0, Hcells in Hk.
  repeat (apply elem_of_cons in Hk as [Hk|Hk]).
  - exists num1. split; [apply Hval|split; [done|apply Hsol]]; tauto.
  - subst k'. congruence.
  - exists num2. split; [apply Hval|split; [done|apply Hsol]]; tauto.
  - subst k'. congruence.
  - exists result. split; [apply Hval|split; [done|apply Hsol]]; tauto.
  - by apply elem_of_nil in Hk.
Qed.

(** X8: in a session [getHint] refuses only when no hint is left or no
    cell is left to fill; otherwise it names a cell that is left to fill
    and gives the number that the cell's equation has at its place, which
    makes the equation true. *)
Theorem session_hints_are_correct rng e :
  reachable e ->
  exists g,
    gameState e = Some g
    /\ (((hints g <= 0
          \/ List.filter isUnfilled (JsMap.values (cells (board g))) = [])
         /\ getHint rng e = (None, e, rng))
        \/ (exists k v e' rng' cell,
              getHint rng e = (Some (k, v), e', rng')
              /\ 0 < hints g
              /\ JsMap.get k (cells (board g)) = Some cell
              /\ isUnfilled cell = true
              /\ solutionAt (board g) k v)).
Proof.
  intros Hr. destruct (reachable_Generated e Hr) as (g & Hg & Hgen).
  exists g. split; [done|]. unfold getHint. rewrite Hg.
  destruct (Z.leb_spec (hints g) 0) as [Hh|Hh]; [left; split; [by left|done]|].
  destruct (List.filter isUnfilled (JsMap.values (cells (board g))))
    as [|u us] eqn:Hfilter; [left; split; [by right|done]|].
  right. rewrite <- Hfilter.
  pose proof (random_range rng) as Hrange.
  destruct (random rng) as [r rng'].
  assert (Hlen : 0 < Z.of_nat (length (List.filter isUnfilled
                                          (JsMap.values (cells (board g))))))
    by (rewrite Hfilter; simpl; lia).
  pose proof (floorMul_range r _ Hrange Hlen) as Hidx.
  destruct (nth_error _ _) as [target|] eqn:Hnth.
  2:{ apply nth_error_None in Hnth. lia. }
  apply nth_error_In in Hnth. apply filter_In in Hnth as [Hin Hun].
  apply list_elem_of_In in Hin.
  destruct (hint_value g target Hgen Hin Hun) as (v & -> & Hget & Hsol).
  by eexists (cell_id target), v, _, rng', target.
Qed.

Lemma session_hints_are_correct_witness :
  exists g,
    gameState sampleFilled = Some g
    /\ (((hints g <= 0
          \/ List.filter isUnfilled (JsMap.values (cells (board g))) = [])
         /\ getHint zeroDraws sampleFilled = (None, sampleFilled, zeroDraws))
        \/ (exists k v e' rng' cell,
              getHint zeroDraws sampleFilled = (Some (k, v), e', rng')
              /\ 0 < hints g
              /\ JsMap.get k (cells (board g)) = Some cell
              /\ isUnfilled cell = true
              /\ solutionAt (board g) k v)).
Proof. apply session_hints_are_correct, sampleFilled_reachable. Defined.

(** ** The generated board *)

Lemma BoardOk_position b x y c :
  BoardOk b -> 0 <= x < width (gridSize b) -> 0 <= y < height (gridSize b) ->
  JsMap.get (cellId x y) (cells b) = Some c ->
  cell_id c = cellId x y /\ cell_position c = mkPosition x y.
Proof.
  intros Hok Hx Hy Hget.
  split; [by apply (BoardOk_id b)|].
  destruct (decide (cellId x y ∈ concat (map eq_cells (JsMap.values (equations b)))))
    as [Hk|Hk].
  - apply elem_of_concat in Hk as (l & Hk & Hl).
    apply list_elem_of_fmap in Hl as (q & -> & Hq).
    pose proof (bo_equations _ Hok) as Heqs. rewrite Forall_forall in Heqs.
    destruct (Heqs q Hq) as (operation & num1 & num2 & result & hintIndex & H).
    destruct H as (Hx0 & Hy0 & _ & _ & _ & _ & _ & _ & _ & Hc & Hs).
    rewrite Hc in Hk. apply list_elem_of_fmap in Hk as (p & Hp & Hin).
    rewrite Forall_forall in Hs. specialize (Hs p Hin).
    destruct (slotsOf_cases _ _ _ _ _ _ _ Hin) as (i & Hi & Hsx & Hsy).
    unfold slotId in Hp, Hs.
    apply cellId_inj in Hp as [Ex Ey]; [|lia|destruct (eq_isHorizontal q); lia].
    rewrite <- Ex, <- Ey, Hget in Hs. simpl in Hs. apply (inj Some) in Hs.
    unfold cellCore, slotCore in Hs. injection Hs as _ _ _ Hpos _ _.
    by rewrite Hpos, <- Ex, <- Ey.
  - pose proof (bo_unclaimed _ Hok x y Hx Hy Hk) as Hcore.
    rewrite Hget in Hcore. apply (inj Some), cellCore_eq in Hcore.
    by destruct Hcore as (_ & _ & _ & -> & _).
Qed.

(** X9: the board that [generatePuzzle] returns has the grid of its
    tier and exactly one cell for each coordinate of this grid, stored row
    by row under the key [x-y]; the cell's identifier is its key and its
    position is [(x, y)]. *)
Theorem generated_board_covers_the_grid d rng :
  exists b s' rng',
    V2.generatePuzzle (newGenerator d) rng = Returned b s' rng'
    /\ gridSize b = cfg_gridSize (DIFFICULTY_CONFIG d)
    /\ JsMap.keys (cells b)
       = map (fun p : Z * Z => cellId p.1 p.2) (gridCoords (gridSize b))
    /\ NoDup (JsMap.keys (cells b))
    /\ Z.of_nat (length (cells b)) = width (gridSize b) * height (gridSize b)
    /\ (forall x y,
          0 <= x < width (gridSize b) -> 0 <= y < height (gridSize b) ->
          exists c, JsMap.get (cellId x y) (cells b) = Some c
                    /\ cell_id c = cellId x y
                    /\ cell_position c = mkPosition x y).
Proof.
  destruct (V2_generatePuzzle_board d rng)
    as (b & s1 & rng1 & s' & rng' & _ & _ & Hgen & Hok & Hsize & _).
  exists b, s', rng'. split; [done|]. split; [done|].
  pose proof (bo_cellKeys _ Hok) as Hkeys.
  split; [done|]. split; [rewrite Hkeys; apply NoDup_gridKeys|].
  split.
  - transitivity (Z.of_nat (length (JsMap.keys (cells b))));
      [unfold JsMap.keys; by rewrite length_map|].
    rewrite Hkeys, length_map. apply length_gridCoords.
    + rewrite Hsize. destruct d; by vm_compute.
    + rewrite Hsize. destruct d; by vm_compute.
  - intros x y Hx Hy.
    destruct (JsMap.get (cellId x y) (cells b)) as [c|] eqn:Hget.
    + exists c. split; [done|]. by apply (BoardOk_position b).
    + apply get_None_keys in Hget. destruct Hget. rewrite Hkeys.
      apply (list_elem_of_fmap_2 (fun p : Z * Z => cellId p.1 p.2) _ (x, y)).
      by apply elem_of_gridCoords.
Qed.

(** The three number cells of an equation: the one that the hint index
    names is given, the others are blank. *)
Lemma equation_numbers size cs q operation num1 num2 result hintIndex :
  equationHolds size cs q operation num1 num2 result hintIndex ->
  exists k0 k1 k2 k3 k4 c0 c2 c4,
    eq_cells q = [k0; k1; k2; k3; k4]
    /\ cell_value <$> JsMap.get k1 cs = Some (VStr (opSymbol operation))
    /\ cell_value <$> JsMap.get k3 cs = Some (VStr "=")
    /\ JsMap.get k0 cs = Some c0 /\ JsMap.get k2 cs = Some c2
    /\ JsMap.get k4 cs = Some c4
    /\ (cell_isFixed c0 = (hintIndex =? 0)
        /\ cell_value c0 = if hintIndex =? 0 then VNum num1 else VNull)
    /\ (cell_isFixed c2 = (hintIndex =? 1)
        /\ cell_value c2 = if hintIndex =? 1 then VNum num2 else VNull)
    /\ (cell_isFixed c4 = (hintIndex =? 2)
        /\ cell_value c4 = if hintIndex =? 2 then VNum result else VNull).
Proof.
  intros (_ & _ & _ & _ & _ & _ & _ & _ & _ & Hc & Hs).
  rewrite slotsOf_eq in Hc, Hs. cbn zeta in Hc, Hs. simpl map in Hc.
  apply Forall_cons in Hs as [H0 Hs]. apply Forall_cons in Hs as [H1 Hs].
  apply Forall_cons in Hs as [H2 Hs]. apply Forall_cons in Hs as [H3 Hs].
  apply Forall_cons in Hs as [H4 _].
  destruct (JsMap.get _ cs) as [c0|] eqn:G0 in H0; [|done].
  destruct (JsMap.get _ cs) as [c1|] eqn:G1 in H1; [|done].
  destruct (JsMap.get _ cs) as [c2|] eqn:G2 in H2; [|done].
  destruct (JsMap.get _ cs) as [c3|] eqn:G3 in H3; [|done].
  destruct (JsMap.get _ cs) as [c4|] eqn:G4 in H4; [|done].
  apply (inj Some) in H0. unfold cellCore, slotCore in H0.
  injection H0 as _ _ V0 _ F0 _.
  apply (inj Some) in H1. unfold cellCore, slotCore in H1.
  injection H1 as _ _ V1 _ _ _.
  apply (inj Some) in H2. unfold cellCore, slotCore in H2.
  injection H2 as _ _ V2 _ F2 _.
  apply (inj Some) in H3. unfold cellCore, slotCore in H3.
  injection H3 as _ _ V3 _ _ _.
  apply (inj Some) in H4. unfold cellCore, slotCore in H4.
  injection H4 as _ _ V4 _ F4 _.
  simpl in *.
  eexists _, _, _, _, _, c0, c2, c4. split; [exact Hc|].
  rewrite G0, G1, G2, G3, G4. simpl. rewrite V1, V3.
  by repeat split.
Qed.

(** X10: every equation of a generated board is a true statement of
    positive integers: its expression spells [num1 o num2 = result] with
    [o] applied exactly; its operator and equals cells show [o] and [=];
    of its three number cells at most one is given, and a given cell
    holds the number of the expression at its place, while the others are
    blank. *)
Theorem generated_equations_are_true d rng :
  exists b s' rng',
    V2.generatePuzzle (newGenerator d) rng = Returned b s' rng'
    /\ Forall (fun q =>
         exists num1 o num2 result hintIndex k0 k1 k2 k3 k4 c0 c2 c4,
           eq_expression q = showExpression num1 o num2 result
           /\ applyOperator o num1 num2 result = true
           /\ 1 <= num1 /\ 1 <= num2 /\ 1 <= result
           /\ -1 <= hintIndex <= 2
           /\ eq_cells q = [k0; k1; k2; k3; k4]
           /\ cell_value <$> JsMap.get k1 (cells b) = Some (VStr o)
           /\ cell_value <$> JsMap.get k3 (cells b) = Some (VStr "=")
           /\ JsMap.get k0 (cells b) = Some c0 /\ JsMap.get k2 (cells b) = Some c2
           /\ JsMap.get k4 (cells b) = Some c4
           /\ (cell_isFixed c0 = (hintIndex =? 0)
               /\ cell_value c0 = if hintIndex =? 0 then VNum num1 else VNull)
           /\ (cell_isFixed c2 = (hintIndex =? 1)
               /\ cell_value c2 = if hintIndex =? 1 then VNum num2 else VNull)
           /\ (cell_isFixed c4 = (hintIndex =? 2)
               /\ cell_value c4 = if hintIndex =? 2 then VNum result else VNull))
         (JsMap.values (equations b)).
Proof.
  destruct (V2_generatePuzzle_board d rng)
    as (b & s1 & rng1 & s' & rng' & _ & _ & Hgen & Hok & _ & _).
  exists b, s', rng'. split; [done|].
  eapply Forall_impl; [apply (bo_equations _ Hok)|].
  intros q (operation & num1 & num2 & result & hintIndex & Hholds).
  destruct (equation_numbers _ _ _ _ _ _ _ _ Hholds)
    as (k0 & k1 & k2 & k3 & k4 & c0 & c2 & c4 & Hcells & V1 & V3 & G0 & G2 & G4
        & [F0 W0] & [F2 W2] & [F4 W4]).
  destruct Hholds as (_ & _ & _ & Hn1 & Hn2 & Hr & Hop & [Hh1 Hh2] & Hexpr & _).
  exists num1, (opSymbol operation), num2, result, hintIndex, k0, k1, k2, k3, k4,
    c0, c2, c4.
  split_and!; done.
Qed.

(** ** A new game *)

Lemma numbersFor_pos b c v :
  BoardOk b -> c ∈ JsMap.values (cells b) -> isBlank c = true ->
  numbersFor b c = [v] -> 1 <= v.
Proof.
  intros Hok Hc Hb Hv. pose proof (BoardOk_value b c Hok Hc) as Hget.
  destruct (BoardOk_blank_claimed b c Hok Hc Hb) as (q & Hq & Hk & Hbel).
  apply andb_prop in Hb as [Hty Hfix]. apply bool_decide_eq_true in Hty.
  apply negb_true_iff in Hfix.
  pose proof (bo_equations _ Hok) as Heqs. rewrite Forall_forall in Heqs.
  destruct (Heqs q Hq) as (operation & num1 & num2 & result & hintIndex & Hholds).
  pose proof Hholds as (_ & _ & _ & Hn1 & Hn2 & Hr & _).
  destruct (equation_strip _ _ _ _ _ _ _ _ Hholds)
    as (k0 & k1 & k2 & k3 & k4 & c0 & c1 & c2 & c3 & c4 & Hcells & Hnd
        & G0 & G1 & G2 & G3 & G4 & _ & [T1 _] & _ & [T3 _] & _).
  destruct (numbersFor_strip b q operation num1 num2 result hintIndex
              k0 k1 k2 k3 k4 c Hok Hq Hholds Hcells Hnd Hty Hfix Hbel)
    as (N0 & N2 & N4).
  rewrite Hcells in Hk.
  repeat (apply elem_of_cons in Hk as [Hk|Hk]).
  - rewrite (N0 Hk) in Hv. by injection Hv as <-.
  - rewrite Hk in Hget. congruence.
  - rewrite (N2 Hk) in Hv. by injection Hv as <-.
  - rewrite Hk in Hget. congruence.
  - rewrite (N4 Hk) in Hv. by injection Hv as <-.
  - by apply elem_of_nil in Hk.
Qed.

Lemma neededNumbers_blanks b :
  BoardOk b ->
  length (neededNumbers b) = length (blankCells b)
  /\ Forall (fun v => 1 <= v) (neededNumbers b).
Proof.
  intros Hok. destruct (cell_numbers b Hok) as (cn & H1 & H2 & H3). split.
  - rewrite <- H1. rewrite <- (length_map cell_id (blankCells b)), <- H2.
    by rewrite !length_map.
  - rewrite <- H1. apply Forall_forall. intros v Hv.
    apply list_elem_of_In, in_map_iff in Hv as ([k v'] & <- & Hin). simpl.
    rewrite Forall_forall in H3.
    destruct (H3 (k, v')) as (c & Hc & Hb & _ & Hn); [by apply list_elem_of_In|].
    by apply (numbersFor_pos b c).
Qed.

Lemma addExtras_range count numbers s rng :
  returns (addExtras count numbers) s rng (fun r s' _ =>
    s' = s /\ exists extras, r = numbers ++ extras /\ length extras = count
                             /\ Forall (fun v => 1 <= v <= 50) extras).
Proof.
  revert numbers rng. induction count as [|count IH]; intros numbers rng;
    cbn [addExtras].
  - apply returns_ret. split; [done|]. exists []. by rewrite app_nil_r.
  - apply returns_bind, returns_randomBelow. intros v rng1 Hv _.
    eapply returns_mono; [apply IH|].
    intros r s' _ [-> (extras & -> & Hl & Hr)]. split; [done|].
    exists ((v + 1) :: extras). rewrite <- app_assoc. split; [done|].
    split; [simpl; by rewrite Hl|]. constructor; [lia|done].
Qed.

Lemma generateAvailableNumbers_range b s rng :
  returns (generateAvailableNumbers b) s rng (fun r s' _ =>
    s' = s /\ exists extras,
      r ≡ₚ neededNumbers b ++ extras
      /\ length extras
         = Z.to_nat (ceilDiv (Z.of_nat (length (neededNumbers b)) * 2) 10)
      /\ Forall (fun v => 1 <= v <= 50) extras).
Proof.
  unfold generateAvailableNumbers. apply returns_bind.
  eapply returns_mono; [apply addExtras_range|].
  intros numbers s1 rng1 [-> (extras & -> & Hl & Hr)]. cbn beta.
  eapply returns_mono; [apply shuffleFrom_spec|].
  intros r s' _ [-> Hp]. split; [done|]. by exists extras.
Qed.

Lemma lookup_makeTiles nums i tile :
  makeTiles nums !! i = Some tile ->
  exists v, nums !! i = Some v
            /\ tile = mkTile ("tile-" +:+ showZ (Z.of_nat i)) v false.
Proof.
  unfold makeTiles. rewrite list_lookup_imap.
  destruct (nums !! i) as [v|]; [|done]. intros [= <-]. by exists v.
Qed.

(** X11: [startNewGame] always starts a game of the chosen tier with
    score 0, no time elapsed, three hints, an empty log and a running
    clock, and announces it.  The hand holds one tile for each blank
    cell and a fifth as many more, rounded up; the extra values lie
    between 1 and 50.  The tiles are named [tile-0], [tile-1], ... in
    order, none is used, and every value is at least 1. *)
Theorem new_game_state_and_hand now d rng e :
  exists g e' rng' extras,
    startNewGame now d rng e = Some (g, e', rng')
    /\ gameState e' = Some g
    /\ config g = DIFFICULTY_CONFIG d
    /\ currentScore g = 0 /\ timeElapsed g = 0 /\ hints g = 3
    /\ moves g = [] /\ isComplete g = false
    /\ gameTimer e' = true /\ startTime e' = now
    /\ emitted e' = emitted e ++ [GameStarted now]
    /\ map tile_value (availableNumbers g) ≡ₚ neededNumbers (board g) ++ extras
    /\ length (neededNumbers (board g)) = length (blankCells (board g))
    /\ Z.of_nat (length extras) = (Z.of_nat (length (blankCells (board g))) + 4) / 5
    /\ Forall (fun v => 1 <= v <= 50) extras
    /\ (forall i tile, availableNumbers g !! i = Some tile ->
          tile_id tile = "tile-" +:+ showZ (Z.of_nat i)
          /\ tile_isUsed tile = false /\ 1 <= tile_value tile).
Proof.
  destruct (V2_generatePuzzle_board d rng)
    as (b & s1 & rng1 & s' & rng2 & _ & _ & Hgen & Hok & Hsize & Hne).
  destruct (returns_eq _ _ _ _ (generateAvailableNumbers_range b s' rng2))
    as (nums & s2 & rng3 & Hnums & -> & extras & Hperm & Hlen & Hrange).
  destruct (neededNumbers_blanks b Hok) as [Hn Hpos].
  assert (Hstart : startNewGame now d rng e
                   = Some (mkState (DIFFICULTY_CONFIG d) b (makeTiles nums)
                             0 0 false [] 3,
                           emit (GameStarted now)
                             (startTimer now
                                (withState
                                   (mkState (DIFFICULTY_CONFIG d) b (makeTiles nums)
                                      0 0 false [] 3) (stopTimer e))),
                           rng3)).
  { unfold startNewGame, bind. by rewrite Hgen, Hnums. }
  assert (Hvalues : map tile_value (makeTiles nums) = nums).
  { apply list_eq. intros i. unfold makeTiles.
    change (map tile_value ?l) with (tile_value <$> l).
    rewrite list_lookup_fmap, list_lookup_imap. by destruct (nums !! i). }
  eexists _, _, rng3, extras. split; [exact Hstart|]. simpl.
  rewrite Hvalues. split_and!; try done.
  - rewrite Hlen, Hn. unfold ceilDiv.
    rewrite Z2Nat.id; Z.div_mod_to_equations; lia.
  - intros i tile Hi. apply lookup_makeTiles in Hi as (v & Hv & ->). simpl.
    split_and!; try done.
    assert (Hin : v ∈ neededNumbers b ++ extras).
    { rewrite <- Hperm. by apply list_elem_of_lookup_2 in Hv. }
    apply elem_of_app in Hin as [Hin|Hin].
    + rewrite Forall_forall in Hpos. by apply Hpos.
    + rewrite Forall_forall in Hrange. apply Hrange in Hin. lia.
Qed.

(** X12: [shuffleArray] returns a rearrangement of its argument: the
    same elements, each as often as before.  It leaves the generator as
    it was, whatever the draws are. *)
Theorem shuffleArray_permutes {A} (array : list A) s rng :
  exists r rng',
    shuffleArray array s rng = Returned r s rng'
    /\ r ≡ₚ array /\ length r = length array.
Proof.
  destruct (returns_eq _ _ _ _ (shuffleFrom_spec (length array - 1) array s rng))
    as (r & s' & rng' & Heq & -> & Hp).
  exists r, rng'. split; [exact Heq|]. split; [done|]. by rewrite Hp.
Qed.

(** ** How many equations a board has *)

Lemma countHorizontal_snoc hz s s' q :
  gen_equations s' = gen_equations s ++ [q] ->
  countHorizontal hz s'
  = countHorizontal hz s + (if Bool.eqb (eq_isHorizontal q) hz then 1 else 0).
Proof.
  intros He. unfold countHorizontal. rewrite He, List.filter_app, length_app.
  cbn [List.filter]. destruct (Bool.eqb _ _); simpl; lia.
Qed.

Lemma countHorizontal_total s :
  Z.of_nat (length (gen_equations s))
  = countHorizontal true s + countHorizontal false s.
Proof.
  unfold countHorizontal. induction (gen_equations s) as [|q l IH]; [done|].
  cbn [List.filter length]. destruct (eq_isHorizontal q); simpl; lia.
Qed.

Lemma attempt_counted size h (can : bool) x y s rng :
  GenInv size 0 s ->
  (can = true -> stripFits size h x y /\ stripFree h x y s) ->
  returns (if can then createEquation h x y else ret tt) s rng (fun _ s' _ =>
    GenInv size 0 s'
    /\ gen_equationCount s' = gen_equationCount s
    /\ countHorizontal (negb h) s' = countHorizontal (negb h) s
    /\ countHorizontal h s <= countHorizontal h s' <= countHorizontal h s + 1).
Proof.
  intros Inv Hcan. destruct can.
  - destruct (Hcan eq_refl) as (Hfit & Hfree).
    eapply returns_mono; [by apply (createEquation_spec size)|].
    intros ? s' ? (Inv' & Hc & q & He & Hq). cbn beta.
    rewrite !(countHorizontal_snoc _ s s' q He), Hq.
    split; [done|]. split; [done|]. destruct h; simpl; lia.
  - apply returns_ret. split; [done|]. split; [done|]. lia.
Qed.

Lemma V2_horizontalAttempts_counted size budget targetCount s rng :
  GenInv size 0 s -> roomy size ->
  returns (V2.horizontalAttempts budget targetCount) s rng (fun _ s' _ =>
    GenInv size 0 s'
    /\ gen_equationCount s' = gen_equationCount s
    /\ countHorizontal false s' = countHorizontal false s
    /\ countHorizontal true s' <= Z.max (countHorizontal true s) targetCount).
Proof.
  intros Inv [Hw Hh]. revert s rng Inv.
  induction budget as [|budget IH]; intros s rng Inv; cbn [V2.horizontalAttempts].
  - apply returns_ret. split_and!; try done. lia.
  - apply returns_bind, returns_this.
    destruct (Z.ltb_spec (countHorizontal true s) targetCount);
      [|apply returns_ret; split_and!; [done..|lia]].
    rewrite (inv_size _ _ _ Inv).
    apply returns_bind, returns_randomBelow. intros startX rng1 Hx _.
    apply returns_bind, returns_randomBelow. intros startY rng2 Hy _.
    apply returns_bind.
    eapply returns_mono; [apply (attempt_counted size true); [done|]|].
    + intros Hcan. apply (horizontal_feasible size 5 startX startY s);
        try done; try lia; apply (inv_size _ _ _ Inv).
    + intros ? s1 rng3 (Inv1 & Hc1 & Hv1 & Hh1). cbn beta. simpl in Hv1.
      eapply returns_mono; [apply IH, Inv1|].
      intros ? s2 ? (Inv2 & Hc2 & Hv2 & Hh2). cbn beta.
      split_and!; [done|congruence|congruence|lia].
Qed.

Lemma V2_verticalAttempts_counted size budget targetCount s rng :
  GenInv size 0 s -> roomy size ->
  returns (V2.verticalAttempts budget targetCount) s rng (fun _ s' _ =>
    GenInv size 0 s'
    /\ gen_equationCount s' = gen_equationCount s
    /\ countHorizontal true s' = countHorizontal true s
    /\ countHorizontal false s' <= Z.max (countHorizontal false s) targetCount).
Proof.
  intros Inv [Hw Hh]. revert s rng Inv.
  induction budget as [|budget IH]; intros s rng Inv; cbn [V2.verticalAttempts].
  - apply returns_ret. split_and!; try done. lia.
  - apply returns_bind, returns_this.
    destruct (Z.ltb_spec (countHorizontal false s) targetCount);
      [|apply returns_ret; split_and!; [done..|lia]].
    rewrite (inv_size _ _ _ Inv).
    apply returns_bind, returns_randomBelow. intros startX rng1 Hx _.
    apply returns_bind, returns_randomBelow. intros startY rng2 Hy _.
    apply returns_bind.
    eapply returns_mono; [apply (attempt_counted size false); [done|]|].
    + intros Hcan. apply (vertical_feasible size 5 startX startY s);
        try done; try lia; apply (inv_size _ _ _ Inv).
    + intros ? s1 rng3 (Inv1 & Hc1 & Hv1 & Hh1). cbn beta. simpl in Hv1.
      eapply returns_mono; [apply IH, Inv1|].
      intros ? s2 ? (Inv2 & Hc2 & Hv2 & Hh2). cbn beta.
      split_and!; [done|congruence|congruence|lia].
Qed.

Lemma V2_addRandomEquation_counted size s rng :
  GenInv size 0 s -> roomy size ->
  returns V2.addRandomEquation s rng (fun _ s' _ =>
    GenInv size 0 s'
    /\ gen_equationCount s' = gen_equationCount s
    /\ (length (gen_equations s') <= S (length (gen_equations s)))%nat).
Proof.
  intros Inv [Hw Hh]. unfold V2.addRandomEquation.
  generalize 50%nat. intros budget. revert rng.
  induction budget as [|budget IH]; intros rng; cbn [addRandomEquationLoop].
  - apply returns_ret. split_and!; try done. lia.
  - apply returns_bind, returns_mathRandom. intros r rng1 _.
    apply returns_bind, returns_this.
    rewrite (inv_size _ _ _ Inv). destruct (below r 6 10).
    + apply returns_bind, returns_randomBelow. intros startX rng2 Hx Hx0.
      apply returns_bind, returns_randomBelow. intros startY rng3 Hy _.
      destruct (V2.canPlaceHorizontalEquation startX startY s) eqn:Hcan; [|apply IH].
      eapply returns_mono; [apply (createEquation_spec size); [done|..]|].
      * apply (horizontal_feasible size 5 startX startY s);
          [apply (inv_size _ _ _ Inv)|lia| |lia|done].
        destruct (decide (width size - 6 = 0)); [rewrite Hx0 by done|]; lia.
      * apply (horizontal_feasible size 5 startX startY s);
          [apply (inv_size _ _ _ Inv)|lia| |lia|done].
        destruct (decide (width size - 6 = 0)); [rewrite Hx0 by done|]; lia.
      * intros ? s1 ? (Inv1 & Hc1 & q & He & _). cbn beta.
        split_and!; try done. rewrite He, length_app. simpl. lia.
    + apply returns_bind, returns_randomBelow. intros startX rng2 Hx _.
      apply returns_bind, returns_randomBelow. intros startY rng3 Hy Hy0.
      destruct (V2.canPlaceVerticalEquation startX startY s) eqn:Hcan; [|apply IH].
      eapply returns_mono; [apply (createEquation_spec size); [done|..]|].
      * apply (vertical_feasible size 5 startX startY s);
          [apply (inv_size _ _ _ Inv)|lia|lia| |done].
        destruct (decide (height size - 6 = 0)); [rewrite Hy0 by done|]; lia.
      * apply (vertical_feasible size 5 startX startY s);
          [apply (inv_size _ _ _ Inv)|lia|lia| |done].
        destruct (decide (height size - 6 = 0)); [rewrite Hy0 by done|]; lia.
      * intros ? s1 ? (Inv1 & Hc1 & q & He & _). cbn beta.
        split_and!; try done. rewrite He, length_app. simpl. lia.
Qed.

Lemma V2_addRandomEquations_counted size budget s rng :
  GenInv size 0 s -> roomy size ->
  returns (V2.addRandomEquations budget) s rng (fun _ s' _ =>
    GenInv size 0 s'
    /\ gen_equationCount s' = gen_equationCount s
    /\ Z.of_nat (length (gen_equations s'))
       <= Z.max (Z.of_nat (length (gen_equations s))) (gen_equationCount s)).
Proof.
  intros Inv Hroomy. revert s rng Inv.
  induction budget as [|budget IH]; intros s rng Inv; cbn [V2.addRandomEquations].
  - apply returns_ret. split_and!; try done. lia.
  - apply returns_bind, returns_this.
    destruct (Z.ltb_spec (Z.of_nat (length (gen_equations s))) (gen_equationCount s));
      [|apply returns_ret; split_and!; [done..|lia]].
    apply returns_bind.
    eapply returns_mono; [by apply V2_addRandomEquation_counted|].
    intros ? s1 rng1 (Inv1 & Hc1 & Hl1). cbn beta in *.
    eapply returns_mono; [apply IH, Inv1|].
    intros ? s2 ? (Inv2 & Hc2 & Hl2). cbn beta in *.
    split_and!; [done|congruence|]. rewrite Hc1 in Hl2. lia.
Qed.

Lemma V2_placeSimple_counted size bound i operation num1 num2 result budget s rng :
  GenInv size bound s -> 0 <= bound <= i -> roomy size ->
  exactContract operation num1 num2 result ->
  1 <= num1 -> 1 <= num2 -> 1 <= result ->
  returns (V2.placeSimple budget
             (showExpression num1 (opSymbol operation) num2 result)
             ("simple-" +:+ showZ i)) s rng
    (fun _ s' _ =>
       GenInv size (i + 1) s'
       /\ gen_equationCount s' = gen_equationCount s
       /\ (length (gen_equations s') <= S (length (gen_equations s)))%nat).
Proof.
  intros Inv Hb [Hw Hh] Hc H1 H2 H3. revert rng.
  induction budget as [|budget IH]; intros rng; cbn [V2.placeSimple].
  - apply returns_ret. split_and!; try done; [|lia].
    apply (GenInv_bound_mono size bound); [done|lia].
  - apply returns_bind, returns_this. rewrite (inv_size _ _ _ Inv).
    apply returns_bind, returns_randomBelow. intros startX rng1 Hx _.
    apply returns_bind, returns_randomBelow. intros startY rng2 Hy _.
    destruct (V2.canPlaceHorizontalEquation startX startY s) eqn:Hcan; [|apply IH].
    destruct (horizontal_feasible size 5 startX startY s) as [Hfit Hfree];
      [apply (inv_size _ _ _ Inv)|lia|lia|lia|done|].
    eapply returns_mono;
      [by apply (createSimpleEquation_spec size bound i operation)|].
    intros ? s1 ? (Inv1 & Hc1 & Hl1). cbn beta. split_and!; try done. lia.
Qed.

Lemma V2_fillWithSimpleEquations_counted size s rng :
  GenInv size 0 s -> roomy size ->
  Z.of_nat (length (gen_equations s)) <= gen_equationCount s ->
  returns V2.fillWithSimpleEquations s rng (fun _ s' _ =>
    (exists bound, GenInv size bound s')
    /\ Z.of_nat (length (gen_equations s')) <= gen_equationCount s).
Proof.
  intros Inv Hroomy Hle. unfold V2.fillWithSimpleEquations.
  apply returns_bind, returns_this.
  set (needed := gen_equationCount s - Z.of_nat (length (gen_equations s))).
  eapply returns_mono.
  - apply (forEach_spec _ _ (fun k s' =>
      GenInv size (Z.of_nat k) s'
      /\ gen_equationCount s' = gen_equationCount s
      /\ (length (gen_equations s') <= length (gen_equations s) + k)%nat));
      [split_and!; [done..|lia]|].
    intros k i s1 rng1 Hk (Inv1 & Hc1 & Hl1).
    apply lookup_seqZ in Hk as [-> _]. rewrite Z.add_0_l.
    apply returns_bind, returns_randomBelow. intros j rng2 Hj _.
    set (op := nth (Z.to_nat j) [Plus; Minus; Times] Plus).
    assert (Hop : op <> Divide).
    { unfold op. destruct (Z.to_nat j) as [|[|[|[|?]]]]; done. }
    apply returns_bind. eapply returns_mono; [by apply simpleNumbers_spec|].
    intros [[num1 num2] result] s2 rng3 (-> & Hc & H1 & H2 & H3). cbn beta iota.
    simpl in Hc, H1, H2, H3.
    eapply returns_mono;
      [apply (V2_placeSimple_counted size (Z.of_nat k) (Z.of_nat k) op);
       try done; lia|].
    intros ? s3 ? (Inv3 & Hc3 & Hl3). cbn beta.
    split_and!; [|congruence|lia].
    by replace (Z.of_nat (S k)) with (Z.of_nat k + 1) by lia.
  - intros ? s' ? (Inv' & Hc' & Hl'). cbn beta. split; [by eexists|].
    rewrite length_seqZ in Hl'. unfold needed in Hl'. lia.
Qed.

Lemma V2_generateOrThrow_counted d s1 rng :
  GenInv (cfg_gridSize (DIFFICULTY_CONFIG d)) 0 s1 ->
  gen_equations s1 = [] ->
  gen_equationCount s1 = equationCount (DIFFICULTY_CONFIG d) ->
  returns V2.generateOrThrow s1 rng (fun b s' _ =>
    Z.of_nat (length (gen_equations s')) <= equationCount (DIFFICULTY_CONFIG d)).
Proof.
  set (size := cfg_gridSize (DIFFICULTY_CONFIG d)).
  pose proof (roomy_tiers d) as Hroomy. fold size in Hroomy.
  intros Inv1 He1 Hc1. unfold V2.generateOrThrow.
  assert (H0 : countHorizontal true s1 = 0 /\ countHorizontal false s1 = 0)
    by (unfold countHorizontal; by rewrite He1).
  destruct H0 as [Hh0 Hv0].
  apply returns_bind. unfold V2.generateHorizontalEquations.
  apply returns_bind, returns_this.
  eapply returns_mono; [by apply (V2_horizontalAttempts_counted size)|].
  intros ? s2 rng2 (Inv2 & Hc2 & Hv2 & Hh2). cbn beta.
  apply returns_bind. unfold V2.generateVerticalEquations.
  apply returns_bind, returns_this.
  eapply returns_mono; [by apply (V2_verticalAttempts_counted size)|].
  intros ? s3 rng3 (Inv3 & Hc3 & Hh3 & Hv3). cbn beta in *.
  assert (Hl3 : Z.of_nat (length (gen_equations s3)) <= gen_equationCount s3).
  { rewrite countHorizontal_total, Hh3.
    rewrite Hv2, Hv0 in Hv3. rewrite Hh0 in Hh2.
    rewrite Hc3, Hc2, Hc1. rewrite Hc2, Hc1 in Hv3. rewrite Hc1 in Hh2.
    rewrite (inv_size _ _ _ Inv2) in Hv3. rewrite (inv_size _ _ _ Inv1) in Hh2.
    revert Hh2 Hv3. unfold size.
    generalize (countHorizontal true s2) (countHorizontal false s3).
    clear. intros a b. destruct d; unfold ceilDiv; simpl; Z.div_mod_to_equations; lia. }
  apply returns_bind.
  eapply returns_mono; [by apply (V2_addRandomEquations_counted size)|].
  intros ? s4 rng4 (Inv4 & Hc4 & Hl4). cbn beta in *.
  apply returns_bind, returns_this. apply returns_bind.
  eapply returns_mono with (P := fun _ s5 _ =>
    Z.of_nat (length (gen_equations s5)) <= gen_equationCount s4).
  { destruct (_ <? _).
    - eapply returns_mono; [apply (V2_fillWithSimpleEquations_counted size); [done..|lia]|].
      by intros ? s5 ? (_ & Hl5).
    - apply returns_ret. lia. }
  intros ? s5 rng5 Hl5. cbn beta.
  apply returns_bind, returns_this. apply returns_ret.
  rewrite <- Hc1, <- Hc2, <- Hc3, <- Hc4. done.
Qed.

(** X13: a generated board has at least one equation and at most as
    many as its tier asks for (10, 15, 20 or 25), whatever the draws
    are. *)
Theorem generated_equation_count d rng :
  exists b s' rng',
    V2.generatePuzzle (newGenerator d) rng = Returned b s' rng'
    /\ 1 <= Z.of_nat (length (JsMap.values (equations b)))
       <= equationCount (DIFFICULTY_CONFIG d).
Proof.
  destruct (returns_eq _ _ _ _ (reset_spec (newGenerator d) rng))
    as ([] & s1 & rng1 & Hreset & _ & Inv1 & He1 & Hu1 & Hc1).
  destruct (returns_eq _ _ _ _ (V2_generateOrThrow_spec d s1 rng1 Inv1 He1 Hu1 Hc1))
    as (b & s' & rng' & Hgen & -> & [bound Inv] & Hlen).
  destruct (returns_eq _ _ _ _ (V2_generateOrThrow_counted d s1 rng1 Inv1 He1 Hc1))
    as (b2 & s2 & rng2 & Hgen2 & Hle).
  rewrite Hgen in Hgen2. injection Hgen2 as _ <- _.
  destruct (GenInv_BoardOk _ _ _ Inv) as [_ Hv].
  exists (boardOf s'), s', rng'. split.
  { unfold V2.generatePuzzle, bind, tryCatch. by rewrite Hreset, Hgen. }
  rewrite Hv. lia.
Qed.

(** ** Cells and equations name each other *)

(** X14: on a generated board the map of equations holds every equation
    that the generator created, in the order of creation and each under
    its own identifier; the identifiers are distinct and not empty.  No
    cell names an equation that is missing: a cell names at most one
    equation, this equation is in the map and it lists the cell. *)
Theorem generated_references_resolve d rng :
  exists b s' rng',
    V2.generatePuzzle (newGenerator d) rng = Returned b s' rng'
    /\ JsMap.values (equations b) = gen_equations s'
    /\ NoDup (JsMap.keys (equations b))
    /\ (forall id q, JsMap.get id (equations b) = Some q ->
          eq_id q = id /\ id <> "" /\ q ∈ gen_equations s')
    /\ (forall q, q ∈ gen_equations s' ->
          JsMap.get (eq_id q) (equations b) = Some q)
    /\ (forall k c id,
          JsMap.get k (cells b) = Some c -> id ∈ cell_belongsToEquation c ->
          cell_belongsToEquation c = [id]
          /\ exists q, JsMap.get id (equations b) = Some q /\ k ∈ eq_cells q).
Proof.
  destruct (returns_eq _ _ _ _ (reset_spec (newGenerator d) rng))
    as ([] & s1 & rng1 & Hreset & _ & Inv1 & He1 & Hu1 & Hc1).
  destruct (returns_eq _ _ _ _ (V2_generateOrThrow_spec d s1 rng1 Inv1 He1 Hu1 Hc1))
    as (b & s' & rng' & Hgen & -> & [bound Inv] & Hlen).
  destruct (GenInv_BoardOk _ _ _ Inv) as [Hok Hv].
  exists (boardOf s'), s', rng'. split.
  { unfold V2.generatePuzzle, bind, tryCatch. by rewrite Hreset, Hgen. }
  pose proof (bo_equationKeys _ Hok) as Hkeys.
  assert (Hk : JsMap.keys (equations (boardOf s')) = map eq_id (gen_equations s')).
  { rewrite Hkeys at 1. unfold JsMap.keys. by rewrite map_map, Hv. }
  split; [done|]. split; [rewrite Hk; apply (inv_ids _ _ _ Inv)|].
  split; [|split].
  - intros id q Hget. apply get_Some_entry in Hget. rewrite Hkeys, Hv in Hget.
    apply list_elem_of_In, in_map_iff in Hget as (q' & [= <- <-] & Hin).
    apply list_elem_of_In in Hin. split; [done|]. split; [|done].
    pose proof (inv_idShape _ _ _ Inv) as Hshape. rewrite Forall_forall in Hshape.
    exact (idShape_nonempty _ _ _ (Hshape _ Hin)).
  - intros q Hq. apply (BoardOk_equation _ _ Hok). by rewrite Hv.
  - intros k c id Hget Hid.
    destruct (decide (k ∈ concat (map eq_cells (JsMap.values (equations (boardOf s'))))))
      as [Hin|Hout].
    + apply elem_of_concat in Hin as (ks & Hk1 & Hk2).
      apply list_elem_of_In, in_map_iff in Hk2 as (q & <- & Hq).
      apply list_elem_of_In in Hq.
      destruct (BoardOk_claimed _ q k Hok Hq Hk1) as (c' & Hget' & _ & _ & Hbel & _).
      assert (c' = c) as -> by congruence.
      rewrite Hbel in Hid. apply list_elem_of_singleton in Hid as ->.
      split; [done|]. exists q. split; [|done]. by apply (BoardOk_equation _ _ Hok).
    + destruct (BoardOk_unclaimed _ k c Hok Hget Hout) as (_ & _ & _ & Hbel).
      rewrite Hbel in Hid. by apply elem_of_nil in Hid.
Qed.

(** ** Taking a number back *)

Lemma findTile_id t ts tile : findTile t ts = Some tile -> tile_id tile = t.
Proof.
  induction ts as [|t0 ts IH]; simpl; [done|].
  destruct (String.eqb_spec (tile_id t0) t); [congruence|auto].
Qed.

(** X16: in a session, as long as the game is not complete, every number
    that the player has put on the board can be taken off again:
    [removeTile] accepts the cell, empties it and no other cell, frees
    the tile whose value the cell held, and logs the removal. *)
Theorem placed_number_can_be_taken_back now c e g cell :
  reachable e -> gameState e = Some g -> isComplete g = false ->
  JsMap.get c (cells (board g)) = Some cell ->
  cell_isFixed cell = false -> cell_value cell <> VNull ->
  exists e' g' tile,
    removeTile now c e = (true, e') /\ gameState e' = Some g'
    /\ cellValueOf c g' = Some VNull
    /\ (forall k, k <> c -> cellValueOf k g' = cellValueOf k g)
    /\ findTile (tile_id tile) (availableNumbers g) = Some tile
    /\ tile_isUsed tile = true
    /\ cell_value cell = VNum (tile_value tile)
    /\ tileUsedOf (tile_id tile) g' = Some false
    /\ moves g' = moves g ++ [mkMove now remove (tile_id tile) c now].
Proof.
  intros Hreach Hg Hi Hcell Hfix Hval.
  destruct (reachable_Consistent e Hreach) as (g0 & Hg0 & Hcon).
  assert (g0 = g) as -> by congruence. clear Hg0.
  destruct (con_cells g Hcon c cell Hcell Hfix Hval) as (t & tile & Hheld & Htile & Hv & Hu).
  destruct (heldBy_findLastPlace c t (moves g) Hheld) as (m & Hlast & Hm).
  pose proof (findTile_id _ _ _ Htile) as Hid.
  set (g1 := pushMove (mkMove now remove t c now) (writeTileAndCell t c false VNull g)).
  assert (Hrem : removeTile now c e = (true, checkEquations now (withState g1 e))).
  { unfold removeTile. rewrite Hg, Hi, Hcell, Hfix.
    rewrite bool_decide_false by done. simpl. rewrite Hlast, Hm, Htile. done. }
  destruct (checkEquations_state now (withState g1 e) g1 eq_refl)
    as (g1' & Hg1' & Hcells1 & Htiles1 & Hmoves1 & _).
  exists (checkEquations now (withState g1 e)), g1', tile.
  rewrite Hid. split_and!; try done.
  - rewrite Hcells1. subst g1.
    change (cellValueOf c (writeTileAndCell t c false VNull g) = Some VNull).
    by apply (cellValueOf_write_eq _ _ _ _ _ cell).
  - intros k Hk. rewrite Hcells1. subst g1.
    change (cellValueOf k (writeTileAndCell t c false VNull g) = cellValueOf k g).
    by apply cellValueOf_write_ne.
  - unfold tileUsedOf. rewrite Htiles1. subst g1. simpl.
    rewrite findTile_updateTile_eq by done. by rewrite Htile.
Qed.

Lemma placed_number_can_be_taken_back_witness :
  exists g cell,
    gameState sampleFilled = Some g
    /\ JsMap.get "2-0" (cells (board g)) = Some cell
    /\ exists e' g' tile,
         removeTile 2 "2-0" sampleFilled = (true, e') /\ gameState e' = Some g'
         /\ cellValueOf "2-0" g' = Some VNull
         /\ (forall k, k <> "2-0" -> cellValueOf k g' = cellValueOf k g)
         /\ findTile (tile_id tile) (availableNumbers g) = Some tile
         /\ tile_isUsed tile = true
         /\ cell_value cell = VNum (tile_value tile)
         /\ tileUsedOf (tile_id tile) g' = Some false
         /\ moves g' = moves g ++ [mkMove 2 remove (tile_id tile) "2-0" 2].
Proof.
  pose proof sampleFilledState_eq as Hg. unfold sampleFilledState in Hg.
  match type of Hg with _ = Some ?g0 => set (g := g0) in * end.
  set (cell := mkCell "2-0" number (VNum 1) (mkPosition 2 0) false (Some false) ["eq-1"]).
  assert (Hcell : JsMap.get "2-0" (cells (board g)) = Some cell)
    by (vm_compute; reflexivity).
  exists g, cell. split; [exact Hg|]. split; [exact Hcell|].
  exact (placed_number_can_be_taken_back 2 "2-0" sampleFilled g cell
           sampleFilled_reachable Hg eq_refl Hcell eq_refl
           (fun H : VNum 1 = VNull => eq_ind (VNum 1)
              (fun v => match v with VNum _ => True | _ => False end) I VNull H)).
Defined.

(** ** A refused command *)

(** X17: a command that the engine refuses changes nothing.  When
    [placeTile], [removeTile] or [undoLastMove] returns [false], or
    [getHint] returns no hint, the engine is as it was before: no cell,
    tile, log entry, score or hint count has changed and no event was
    announced. *)
Theorem refused_commands_change_nothing now t c rng e :
  ((placeTile now t c e).1 = true \/ (placeTile now t c e).2 = e)
  /\ ((removeTile now c e).1 = true \/ (removeTile now c e).2 = e)
  /\ ((undoLastMove now e).1 = true \/ (undoLastMove now e).2 = e)
  /\ ((getHint rng e).1.1 <> None \/ (getHint rng e).1.2 = e).
Proof.
  split_and!.
  - destruct (placeTile now t c e) as [[] e'] eqn:Hp; [by left|right].
    by apply placeTile_false in Hp.
  - destruct (removeTile now c e) as [[] e'] eqn:Hr; [by left|right].
    by apply removeTile_false in Hr.
  - destruct (undoLastMove now e) as [[] e'] eqn:Hu; [by left|right].
    by apply undoLastMove_false in Hu.
  - destruct (getHint rng e) as [[r e'] rng'] eqn:Hh.
    destruct (getHint_cases _ _ _ _ _ Hh) as [[-> ->]|(h & -> & _)];
      [by right|by left].
Qed.

(** ** The clock *)

Lemma clock_exec now c e g :
  gameState e = Some g -> gameTimer e = negb (isComplete g) ->
  exists g', gameState (exec now c e) = Some g'
             /\ gameTimer (exec now c e) = negb (isComplete g')
             /\ startTime (exec now c e) = startTime e.
Proof.
  intros Hg Ht. destruct c as [t c|c| |rng|]; simpl.
  - destruct (placeTile now t c e) as [[] e'] eqn:Hp; simpl.
    + apply placeTile_true in Hp
        as (g0 & tile & cell & Hg0 & Hi & _ & _ & _ & _ & _ & ->).
      assert (g0 = g) as -> by congruence.
      match goal with
      | |- context [checkEquations now ?e1] =>
          destruct (checkEquations_spec now e1 _ eq_refl)
            as (g2 & Hg2 & Ht2 & Hs2 & _ & _ & _ & _ & _ & _ & Hi2 & _)
      end.
      simpl in Ht2, Hs2, Hi2. rewrite Hi in Hi2.
      destruct (checkGameCompletion_cases now _ g2 Hg2 Hi2) as [[_ ->]|[_ ->]].
      * exists g2. rewrite Hg2, Ht2, Hs2, Hi2, Ht, Hi. done.
      * eexists. simpl. split; [done|]. by rewrite Hs2.
    + apply placeTile_false in Hp as ->. by exists g.
  - destruct (removeTile now c e) as [[] e'] eqn:Hr; simpl.
    + apply removeTile_true in Hr
        as (g0 & cell & lastMove & tile & Hg0 & Hi & _ & _ & _ & _ & _ & ->).
      assert (g0 = g) as -> by congruence.
      match goal with
      | |- context [checkEquations now ?e1] =>
          destruct (checkEquations_spec now e1 _ eq_refl)
            as (g2 & Hg2 & Ht2 & Hs2 & _ & _ & _ & _ & _ & _ & Hi2 & _)
      end.
      simpl in Ht2, Hs2, Hi2. exists g2. by rewrite Hg2, Ht2, Hs2, Hi2.
    + apply removeTile_false in Hr as ->. by exists g.
  - destruct (undoLastMove now e) as [[] e'] eqn:Hu; simpl.
    + apply undoLastMove_true in Hu as (g0 & lastMove & rest & Hg0 & _ & ->).
      assert (g0 = g) as -> by congruence.
      match goal with
      | |- context [checkEquations now ?e1] =>
          destruct (checkEquations_spec now e1 _ eq_refl)
            as (g2 & Hg2 & Ht2 & Hs2 & _ & _ & _ & _ & _ & _ & Hi2 & _)
      end.
      simpl in Ht2, Hs2, Hi2. exists g2. rewrite Hg2, Ht2, Hs2, Hi2.
      by rewrite isComplete_revertMove.
    + apply undoLastMove_false in Hu as ->. by exists g.
  - unfold getHint. rewrite Hg.
    destruct (hints g <=? 0); [by exists g|].
    destruct (List.filter _ _) as [|c0 l]; [by exists g|].
    destruct (random rng) as [k rng1].
    destruct (nth_error _ _) as [target|]; [|by exists g].
    destruct (getCorrectValueForCell _ _); [|by exists g].
    simpl. eexists. split; [done|]. by simpl.
  - unfold timerTick. destruct (gameTimer e) eqn:Hgt;
      [|exists g; by rewrite Hgt].
    rewrite Hg. destruct (isComplete g) eqn:Hi; [exists g; by rewrite Hgt, Hi|].
    simpl. eexists. split; [done|]. simpl. by rewrite Hi.
Qed.

(** X18: in a session the clock runs exactly as long as the game is not
    complete, and from the instant the game started: no command moves
    the start.  A tick of an unfinished game sets the elapsed time to
    the whole seconds since the start; a tick of a completed game
    changes nothing. *)
Theorem clock_runs_until_completion e :
  reachable e ->
  exists g,
    gameState e = Some g
    /\ gameTimer e = negb (isComplete g)
    /\ (forall cs, startTime (run cs e) = startTime e)
    /\ (forall now,
          if isComplete g then timerTick now e = e
          else timeElapsed <$> gameState (timerTick now e)
               = Some ((now - startTime e) / 1000)).
Proof.
  intros Hreach.
  assert (H : exists g, gameState e = Some g /\ gameTimer e = negb (isComplete g)).
  { induction Hreach as [now d rng e g e' rng' Hstart|now c e _ (g & Hg & Ht)].
    - apply startNewGame_fresh in Hstart as (Hg & _ & _ & _ & Hi & _ & _ & Ht & _).
      exists g. by rewrite Hi.
    - destruct (clock_exec now c e g Hg Ht) as (g' & Hg' & Ht' & _). by exists g'. }
  destruct H as (g & Hg & Ht). exists g. split_and!; try done.
  - intros cs. clear Hreach. revert e g Hg Ht.
    induction cs as [|[now c] cs IH]; intros e g Hg Ht; [done|]. simpl.
    destruct (clock_exec now c e g Hg Ht) as (g' & Hg' & Ht' & Hs').
    by rewrite (IH _ g' Hg' Ht').
  - intros now. unfold timerTick. rewrite Ht, Hg.
    by destruct (isComplete g).
Qed.

Lemma clock_runs_until_completion_witness :
  exists g,
    gameState sampleFilled = Some g
    /\ gameTimer sampleFilled = negb (isComplete g)
    /\ (forall cs, startTime (run cs sampleFilled) = startTime sampleFilled)
    /\ (forall now,
          if isComplete g then timerTick now sampleFilled = sampleFilled
          else timeElapsed <$> gameState (timerTick now sampleFilled)
               = Some ((now - startTime sampleFilled) / 1000)).
Proof. exact (clock_runs_until_completion sampleFilled sampleFilled_reachable). Defined.

(** ** The flags of the equations *)

Section Keeps.
Context (I : Generator -> Prop).

Lemma keeps_ret {A} (a : A) : keeps I (ret a).
Proof. by intros s rng a' s' rng' [= _ <- _]. Qed.

Lemma keeps_bind {A B} (m : Gen A) (k : A -> Gen B) :
  keeps I m -> (forall a, keeps I (k a)) -> keeps I (bind m k).
Proof.
  intros Hm Hk s rng b s' rng'. unfold bind.
  destruct (m s rng) as [a s1 rng1|] eqn:E; [|done].
  intros H HI. exact (Hk a _ _ _ _ _ H (Hm _ _ _ _ _ E HI)).
Qed.

Lemma keeps_this : keeps I this.
Proof. by intros s rng a' s' rng' [= _ <- _]. Qed.

Lemma keeps_throw {A} : keeps I (@throw A).
Proof. by intros s rng a s' rng'. Qed.

Lemma keeps_modify f : (forall s, I s -> I (f s)) -> keeps I (modify f).
Proof. intros H s rng a' s' rng' E HI. inversion E. by apply H. Qed.

Lemma keeps_mathRandom : keeps I mathRandom.
Proof.
  intros s rng a s' rng'. unfold mathRandom. destruct (random rng).
  by intros [= _ <- _].
Qed.

Lemma keeps_randomBelow n : keeps I (randomBelow n).
Proof.
  intros s rng a s' rng'. unfold randomBelow. destruct (random rng).
  by intros [= _ <- _].
Qed.

Lemma keeps_forEach {A} (l : list A) (body : A -> Gen unit) :
  (forall a, keeps I (body a)) -> keeps I (forEach l body).
Proof.
  intros H. induction l as [|a l IH]; cbn [forEach]; [apply keeps_ret|].
  apply keeps_bind; [apply H|done].
Qed.

End Keeps.

Ltac keeps_step :=
  first
    [ apply keeps_ret | apply keeps_this | apply keeps_throw
    | apply keeps_mathRandom | apply keeps_randomBelow
    | apply keeps_bind; [|intros ?]
    | match goal with
      | |- keeps _ (if ?b then _ else _) => destruct b
      | |- keeps _ (match ?x with _ => _ end) => destruct x
      | |- keeps _ (let '(_, _) := ?x in _) => destruct x
      end ].

Lemma keeps_commitSlots id positions cellIds :
  keeps unflagged (commitSlots id positions cellIds).
Proof.
  revert cellIds. induction positions as [|pos rest IH]; intros cellIds;
    cbn [commitSlots]; [apply keeps_ret|].
  apply keeps_bind; [by apply keeps_modify|intros _].
  apply keeps_bind; [apply keeps_this|intros s].
  destruct (JsMap.get _ _); [|apply keeps_throw].
  apply keeps_bind; [by apply keeps_modify|intros _]. apply IH.
Qed.

Lemma keeps_pushEquation q :
  eq_isComplete q = false -> eq_isValid q = false ->
  keeps unflagged (pushEquation q).
Proof.
  intros H1 H2. apply keeps_modify. intros s Hs. unfold unflagged. simpl.
  apply Forall_app. split; [done|]. by apply Forall_singleton.
Qed.

Lemma keeps_createEquation h x y : keeps unflagged (createEquation h x y).
Proof.
  unfold createEquation, getRandomOperation, drawHintIndex.
  apply keeps_bind; [apply keeps_this|intros s].
  apply keeps_bind; [repeat keeps_step|intros operation].
  apply keeps_bind; [destruct operation; cbn [generateNumbers]; repeat keeps_step|].
  intros [[num1 num2] result].
  apply keeps_bind; [repeat keeps_step|intros hintIndex].
  apply keeps_bind; [apply keeps_commitSlots|intros cellIds].
  by apply keeps_pushEquation.
Qed.

Lemma keeps_createSimpleEquation x y expression id :
  keeps unflagged (V2.createSimpleEquation x y expression id).
Proof.
  unfold V2.createSimpleEquation, drawHintIndex.
  apply keeps_bind; [repeat keeps_step|intros hintIndex].
  apply keeps_bind; [apply keeps_commitSlots|intros cellIds].
  by apply keeps_pushEquation.
Qed.

Lemma keeps_generateOrThrow : keeps unflagged V2.generateOrThrow.
Proof.
  unfold V2.generateOrThrow.
  apply keeps_bind.
  { unfold V2.generateHorizontalEquations.
    apply keeps_bind; [apply keeps_this|intros s]. generalize 50%nat.
    intros budget. generalize (Z.min (ceilDiv (gen_equationCount s * 6) 10)
                                 (height (gen_gridSize s) * 8 / 10)).
    intros targetCount. clear s.
    induction budget as [|budget IH]; cbn [V2.horizontalAttempts];
      [apply keeps_ret|].
    apply keeps_bind; [apply keeps_this|intros s].
    destruct (_ <? _); [|apply keeps_ret].
    do 2 (apply keeps_bind; [apply keeps_randomBelow|intros ?]).
    apply keeps_bind; [|done].
    destruct (V2.canPlaceHorizontalEquation _ _ _);
      [apply keeps_createEquation|apply keeps_ret]. }
  intros _. apply keeps_bind.
  { unfold V2.generateVerticalEquations.
    apply keeps_bind; [apply keeps_this|intros s]. generalize 50%nat.
    intros budget. generalize (Z.min (ceilDiv (gen_equationCount s * 4) 10)
                                 (width (gen_gridSize s) * 8 / 10)).
    intros targetCount. clear s.
    induction budget as [|budget IH]; cbn [V2.verticalAttempts];
      [apply keeps_ret|].
    apply keeps_bind; [apply keeps_this|intros s].
    destruct (_ <? _); [|apply keeps_ret].
    do 2 (apply keeps_bind; [apply keeps_randomBelow|intros ?]).
    apply keeps_bind; [|done].
    destruct (V2.canPlaceVerticalEquation _ _ _);
      [apply keeps_createEquation|apply keeps_ret]. }
  intros _. apply keeps_bind.
  { generalize 50%nat. intros budget.
    induction budget as [|budget IH]; cbn [V2.addRandomEquations];
      [apply keeps_ret|].
    apply keeps_bind; [apply keeps_this|intros s].
    destruct (_ <? _); [|apply keeps_ret].
    apply keeps_bind; [|done].
    unfold V2.addRandomEquation. generalize 50%nat. intros n.
    induction n as [|n IHn]; cbn [addRandomEquationLoop]; [apply keeps_ret|].
    apply keeps_bind; [apply keeps_mathRandom|intros r].
    apply keeps_bind; [apply keeps_this|intros s1].
    destruct (below r 6 10);
      do 2 (apply keeps_bind; [apply keeps_randomBelow|intros ?]).
    - destruct (V2.canPlaceHorizontalEquation _ _ _); [apply keeps_createEquation|done].
    - destruct (V2.canPlaceVerticalEquation _ _ _); [apply keeps_createEquation|done]. }
  intros _. apply keeps_bind; [apply keeps_this|intros s].
  apply keeps_bind; [|intros _; repeat keeps_step].
  destruct (_ <? _); [|apply keeps_ret].
  unfold V2.fillWithSimpleEquations.
  apply keeps_bind; [apply keeps_this|intros s0].
  apply keeps_forEach. intros i.
  apply keeps_bind; [apply keeps_randomBelow|intros k].
  apply keeps_bind.
  { destruct (nth _ _ _); cbn [V2.simpleNumbers]; repeat keeps_step. }
  intros [[num1 num2] result]. generalize 20%nat. intros budget.
  induction budget as [|budget IH]; cbn [V2.placeSimple]; [apply keeps_ret|].
  apply keeps_bind; [apply keeps_this|intros s1].
  do 2 (apply keeps_bind; [apply keeps_randomBelow|intros ?]).
  destruct (V2.canPlaceHorizontalEquation _ _ _);
    [apply keeps_createSimpleEquation|done].
Qed.

Lemma startNewGame_unflagged now d rng e g e' rng' :
  startNewGame now d rng e = Some (g, e', rng') ->
  Forall (fun q => eq_isComplete q = false /\ eq_isValid q = false)
    (JsMap.values (equations (board g))).
Proof.
  intros Hstart.
  destruct (startNewGame_generator now d rng e g e' rng' Hstart)
    as (s & bound & rng1 & nums & Hgen & _ & Hb & Inv & _).
  destruct (V2_generatePuzzle_board d rng)
    as (b & s1 & rng0 & s' & rng2 & Hreset & Hor & Hgen' & _).
  rewrite Hgen in Hgen'. injection Hgen' as _ <- _.
  destruct (GenInv_BoardOk _ _ _ Inv) as [_ Hv]. rewrite Hb, Hv.
  apply (keeps_generateOrThrow _ _ _ _ _ Hor).
  destruct (returns_eq _ _ _ _ (reset_spec (newGenerator d) rng))
    as ([] & s1' & rng1' & Hreset' & _ & _ & He1 & _).
  rewrite Hreset in Hreset'. injection Hreset' as <- _.
  unfold unflagged. by rewrite He1.
Qed.

Lemma forallb_Forall_ext {A} (f f' : A -> bool) l :
  Forall (fun a => f a = f' a) l -> forallb f l = forallb f' l.
Proof. induction 1 as [|a l Ha _ IH]; simpl; [done|]. by rewrite Ha, IH. Qed.

Lemma filter_Forall_ext {A} (f f' : A -> bool) l :
  Forall (fun a => f a = f' a) l -> List.filter f l = List.filter f' l.
Proof. induction 1 as [|a l Ha _ IH]; simpl; [done|]. by rewrite Ha, IH. Qed.

Lemma equation_incomplete b q :
  BoardOk b -> q ∈ JsMap.values (equations b) ->
  isEquationComplete (cells b) q = false.
Proof.
  intros Hok Hq.
  pose proof (bo_equations _ Hok) as Heqs. rewrite Forall_forall in Heqs.
  destruct (Heqs q Hq) as (operation & num1 & num2 & result & hintIndex & Hholds).
  destruct (equation_strip _ _ _ _ _ _ _ _ Hholds)
    as (k0 & k1 & k2 & k3 & k4 & c0 & c1 & c2 & c3 & c4 & Hcells & _
        & G0 & G1 & G2 & _ & _ & (_ & T0 & _ & V0) & _ & (_ & T2 & _ & V2) & _ & _ & [F|F]).
  - unfold isEquationComplete. rewrite Hcells. cbn [forallb].
    rewrite G0, V0, T0, F. done.
  - unfold isEquationComplete. rewrite Hcells. cbn [forallb].
    rewrite G2, V2, T2, F. simpl. by rewrite !andb_false_r.
Qed.

Lemma flagsFresh_start now d rng e g e' rng' :
  startNewGame now d rng e = Some (g, e', rng') -> flagsFresh (board g).
Proof.
  intros Hstart. pose proof (startNewGame_unflagged _ _ _ _ _ _ _ Hstart) as Hun.
  destruct (startNewGame_spec now d rng e)
    as (g0 & e0 & rng0 & nums & extras & Hs & _ & Hok & _).
  rewrite Hstart in Hs. injection Hs as <- _ _.
  unfold flagsFresh. apply Forall_forall. intros q Hq.
  rewrite Forall_forall in Hun. destruct (Hun q Hq) as [-> ->].
  by rewrite (equation_incomplete _ _ Hok Hq).
Qed.

Lemma flagsFresh_checkEquations now e g :
  gameState e = Some g ->
  exists g', gameState (checkEquations now e) = Some g'
             /\ flagsFresh (board g') /\ isComplete g' = isComplete g.
Proof.
  intros Hg.
  destruct (checkEquations_spec now e g Hg)
    as (g' & Hg' & _ & _ & Hc & He & _ & _ & _ & _ & Hi & _).
  exists g'. split; [done|]. split; [|done].
  unfold flagsFresh. rewrite He. unfold JsMap.values. rewrite map_map. simpl.
  apply Forall_forall. intros q' Hin.
  apply list_elem_of_In, in_map_iff in Hin as ([k q] & <- & _). simpl.
  rewrite (isEquationComplete_sameCores _ _ q Hc),
    (validateEquation_sameCores _ _ q Hc).
  split; reflexivity.
Qed.

Lemma flagsFresh_exec now c e g :
  gameState e = Some g -> flagsFresh (board g) ->
  exists g', gameState (exec now c e) = Some g' /\ flagsFresh (board g').
Proof.
  intros Hg Hf. destruct c as [t c|c| |rng|]; simpl.
  - destruct (placeTile now t c e) as [[] e'] eqn:Hp; simpl.
    + apply placeTile_true in Hp
        as (g0 & tile & cell & _ & _ & _ & _ & _ & _ & _ & ->).
      match goal with
      | |- context [checkEquations now ?e1] =>
          destruct (flagsFresh_checkEquations now e1 _ eq_refl) as (g2 & Hg2 & Hf2 & _)
      end.
      destruct (isComplete g2) eqn:Hi2.
      * exists g2. unfold checkGameCompletion. by rewrite Hg2, Hi2.
      * destruct (checkGameCompletion_spec now _ g2 Hg2 Hi2) as (g3 & Hg3 & Hb & _).
        exists g3. by rewrite Hb.
    + apply placeTile_false in Hp as ->. by exists g.
  - destruct (removeTile now c e) as [[] e'] eqn:Hr; simpl.
    + apply removeTile_true in Hr
        as (g0 & cell & lastMove & tile & _ & _ & _ & _ & _ & _ & _ & ->).
      match goal with
      | |- context [checkEquations now ?e1] =>
          destruct (flagsFresh_checkEquations now e1 _ eq_refl) as (g2 & Hg2 & Hf2 & _)
      end.
      by exists g2.
    + apply removeTile_false in Hr as ->. by exists g.
  - destruct (undoLastMove now e) as [[] e'] eqn:Hu; simpl.
    + apply undoLastMove_true in Hu as (g0 & lastMove & rest & _ & _ & ->).
      match goal with
      | |- context [checkEquations now ?e1] =>
          destruct (flagsFresh_checkEquations now e1 _ eq_refl) as (g2 & Hg2 & Hf2 & _)
      end.
      by exists g2.
    + apply undoLastMove_false in Hu as ->. by exists g.
  - unfold getHint. rewrite Hg.
    destruct (hints g <=? 0); [by exists g|].
    destruct (List.filter _ _) as [|c0 l]; [by exists g|].
    destruct (random rng) as [k rng1].
    destruct (nth_error _ _) as [target|]; [|by exists g].
    destruct (getCorrectValueForCell _ _); [|by exists g].
    simpl. by eexists.
  - unfold timerTick. destruct (gameTimer e); [|by exists g].
    rewrite Hg. destruct (isComplete g); [by exists g|].
    simpl. by eexists.
Qed.

Lemma checkSolution_fresh g :
  flagsFresh (board g) ->
  checkSolution (Some g)
  = Some (if allEquationsSatisfied g
          then ShowSuccess (currentScore g) (timeElapsed g) (level (config g))
          else StillToSolve
                 (Z.of_nat (length (List.filter
                    (fun q => negb (isEquationComplete (cells (board g)) q
                                    && validateEquation (cells (board g)) q))
                    (JsMap.values (equations (board g))))))).
Proof.
  intros Hf. unfold checkSolution, allEquationsSatisfied.
  rewrite (forallb_Forall_ext _
             (fun q => isEquationComplete (cells (board g)) q
                       && validateEquation (cells (board g)) q)
             (JsMap.values (equations (board g)))).
  2:{ eapply Forall_impl; [exact Hf|]. intros q [-> ->]. simpl.
      by destruct (isEquationComplete _ _). }
  rewrite (filter_Forall_ext (fun q => negb (eq_isComplete q) || negb (eq_isValid q))
             (fun q => negb (isEquationComplete (cells (board g)) q
                             && validateEquation (cells (board g)) q))
             (JsMap.values (equations (board g)))).
  2:{ eapply Forall_impl; [exact Hf|]. intros q [-> ->]. simpl.
      by destruct (isEquationComplete _ _). }
  by destruct (forallb _ _).
Qed.

(** X19: in a session the flags of the equations are never stale: after
    every command they are what [checkEquations] computes from the cells
    as they stand.  So the check button answers from the board: it
    shows the success dialogue exactly when every equation is filled and
    true, and otherwise announces the number of equations that are not. *)
Theorem check_button_reads_the_board e :
  reachable e ->
  exists g,
    gameState e = Some g
    /\ flagsFresh (board g)
    /\ checkSolution (gameState e)
       = Some (if allEquationsSatisfied g
               then ShowSuccess (currentScore g) (timeElapsed g) (level (config g))
               else StillToSolve
                      (Z.of_nat (length (List.filter
                         (fun q => negb (isEquationComplete (cells (board g)) q
                                         && validateEquation (cells (board g)) q))
                         (JsMap.values (equations (board g))))))).
Proof.
  intros Hreach.
  assert (H : exists g, gameState e = Some g /\ flagsFresh (board g)).
  { induction Hreach as [now d rng e g e' rng' Hstart|now c e _ (g & Hg & Hf)].
    - exists g. split; [|by apply (flagsFresh_start now d rng e g e' rng')].
      by apply startNewGame_fresh in Hstart as (Hg & _).
    - by apply (flagsFresh_exec now c e g). }
  destruct H as (g & Hg & Hf). exists g. split; [done|]. split; [done|].
  rewrite Hg. by apply checkSolution_fresh.
Qed.

Lemma check_button_reads_the_board_witness :
  exists g,
    gameState sampleCompleted = Some g
    /\ flagsFresh (board g)
    /\ checkSolution (gameState sampleCompleted)
       = Some (if allEquationsSatisfied g
               then ShowSuccess (currentScore g) (timeElapsed g) (level (config g))
               else StillToSolve
                      (Z.of_nat (length (List.filter
                         (fun q => negb (isEquationComplete (cells (board g)) q
                                         && validateEquation (cells (board g)) q))
                         (JsMap.values (equations (board g))))))).
Proof. exact (check_button_reads_the_board sampleCompleted sampleCompleted_reachable). Defined.

(** ** Numbers on the board and tiles of the hand *)

(** X15: in a session, every number that the player has put on the board
    is the value of a tile of the hand that is marked used, the tile
    that the log says was placed on the cell last; and no tile is on two
    cells at once. *)
Theorem placed_numbers_have_their_tiles e :
  reachable e ->
  exists g,
    gameState e = Some g
    /\ (forall c cell,
          JsMap.get c (cells (board g)) = Some cell ->
          cell_isFixed cell = false -> cell_value cell <> VNull ->
          exists t tile,
            heldBy c t (moves g)
            /\ findTile t (availableNumbers g) = Some tile
            /\ tile_isUsed tile = true
            /\ cell_value cell = VNum (tile_value tile))
    /\ (forall c c' t, heldBy c t (moves g) -> heldBy c' t (moves g) -> c = c').
Proof.
  intros Hreach. destruct (reachable_Consistent e Hreach) as (g & Hg & Hcon).
  exists g. split; [done|]. split.
  - intros c cell Hcell Hfix Hval.
    destruct (con_cells g Hcon c cell Hcell Hfix Hval) as (t & tile & H1 & H2 & H3 & H4).
    by exists t, tile.
  - intros c c' t. apply heldBy_inj.
Qed.

Lemma placed_numbers_have_their_tiles_witness :
  exists g,
    gameState sampleFilled = Some g
    /\ (forall c cell,
          JsMap.get c (cells (board g)) = Some cell ->
          cell_isFixed cell = false -> cell_value cell <> VNull ->
          exists t tile,
            heldBy c t (moves g)
            /\ findTile t (availableNumbers g) = Some tile
            /\ tile_isUsed tile = true
            /\ cell_value cell = VNum (tile_value tile))
    /\ (forall c c' t, heldBy c t (moves g) -> heldBy c' t (moves g) -> c = c').
Proof. exact (placed_numbers_have_their_tiles sampleFilled sampleFilled_reachable). Defined.

(** ** Loading a game *)

Lemma clock_run cs e g :
  gameState e = Some g -> gameTimer e = negb (isComplete g) ->
  exists g', gameState (run cs e) = Some g'
             /\ gameTimer (run cs e) = negb (isComplete g')
             /\ startTime (run cs e) = startTime e.
Proof.
  revert e g. induction cs as [|[now c] cs IH]; intros e g Hg Ht; [by exists g|].
  simpl. destruct (clock_exec now c e g Hg Ht) as (g1 & Hg1 & Ht1 & Hs1).
  destruct (IH _ g1 Hg1 Ht1) as (g2 & Hg2 & Ht2 & Hs2).
  exists g2. split; [done|]. split; [done|]. congruence.
Qed.

(** X20: loading an unfinished game installs the saved state as it is
    and restarts the clock at the instant of loading, whatever the
    engine held before.  Through all play that follows, the start of the
    clock stays there, and as long as the game is unfinished a tick sets
    the elapsed time to the whole seconds since the load: the elapsed
    time that was saved is not counted. *)
Theorem loaded_game_clock_restarts now now' g e cs :
  isComplete g = false ->
  exists e1 g',
    loadGameState now (Some g) e = (true, e1)
    /\ gameState e1 = Some g
    /\ emitted e1 = emitted e
    /\ gameState (run cs e1) = Some g'
    /\ startTime (run cs e1) = now
    /\ (if isComplete g' then timerTick now' (run cs e1) = run cs e1
        else gameState (timerTick now' (run cs e1))
             = Some (setTimeElapsed ((now' - now) / 1000) g')).
Proof.
  intros Hi. unfold loadGameState. rewrite Hi.
  set (e1 := startTimer now (withState g e)).
  destruct (clock_run cs e1 g eq_refl) as (g' & Hg' & Ht' & Hs'); [by rewrite Hi|].
  exists e1, g'. split_and!; try done.
  unfold timerTick. rewrite Ht', Hg'. destruct (isComplete g'); [done|].
  simpl. by rewrite Hs'.
Qed.

Lemma loaded_game_clock_restarts_witness :
  exists e1 g',
    loadGameState 3 sampleFilledState freshEngine = (true, e1)
    /\ gameState e1 = sampleFilledState
    /\ emitted e1 = emitted freshEngine
    /\ gameState (run [(4, CUndo)] e1) = Some g'
    /\ startTime (run [(4, CUndo)] e1) = 3
    /\ (if isComplete g' then timerTick 9000 (run [(4, CUndo)] e1) = run [(4, CUndo)] e1
        else gameState (timerTick 9000 (run [(4, CUndo)] e1))
             = Some (setTimeElapsed ((9000 - 3) / 1000) g')).
Proof.
  unfold sampleFilledState.
  match goal with
  | |- context [loadGameState 3 (Some ?g0)] =>
      exact (loaded_game_clock_restarts 3 9000 g0 freshEngine [(4, CUndo)] eq_refl)
  end.
Defined.

(** ** Undoing everything *)

Lemma is_Some_get_update m k k' (f : CellData -> CellData) :
  is_Some (JsMap.get k' (JsMap.update k f m)) <-> is_Some (JsMap.get k' m).
Proof.
  destruct (decide (k = k')) as [->|Hne].
  - rewrite get_update_eq. apply fmap_is_Some.
  - by rewrite get_update_ne.
Qed.

Lemma is_Some_findTile_updateTile t t' b ts :
  is_Some (findTile t' (updateTile t (setIsUsed b) ts)) <-> is_Some (findTile t' ts).
Proof.
  destruct (decide (t = t')) as [->|Hne].
  - rewrite findTile_updateTile_eq by done. apply fmap_is_Some.
  - by rewrite findTile_updateTile_ne.
Qed.

Lemma usedTilesLogged_ext g g' :
  (forall c, cellValueOf c g' = cellValueOf c g) ->
  availableNumbers g' = availableNumbers g -> moves g' = moves g ->
  usedTilesLogged g -> usedTilesLogged g'.
Proof.
  intros Hc Ht Hm [H1 H2]. split; rewrite Hm, Ht; [|done].
  eapply Forall_impl; [exact H1|]. intros m [Hcell Htile]. split; [|done].
  pose proof (Hc (move_cellId m)) as H. unfold cellValueOf in H.
  destruct Hcell as [cell Hcell]. rewrite Hcell in H.
  destruct (JsMap.get (move_cellId m) (cells (board g'))); [done|done].
Qed.

Lemma usedTilesLogged_write now ty t c b v g tile cell :
  usedTilesLogged g ->
  findTile t (availableNumbers g) = Some tile ->
  JsMap.get c (cells (board g)) = Some cell ->
  (ty = place \/ b = false) ->
  usedTilesLogged (pushMove (mkMove now ty t c now) (writeTileAndCell t c b v g)).
Proof.
  intros [H1 H2] Htile Hcell Hty. split; simpl.
  - apply Forall_app. split.
    + eapply Forall_impl; [exact H1|]. intros m [Hc Ht].
      by rewrite is_Some_get_update, is_Some_findTile_updateTile.
    + apply Forall_singleton. simpl.
      rewrite is_Some_get_update, is_Some_findTile_updateTile.
      by rewrite Hcell, Htile.
  - intros t' tile' Hfind Hused.
    destruct (decide (t = t')) as [<-|Hne].
    + rewrite findTile_updateTile_eq, Htile in Hfind by done.
      injection Hfind as <-. simpl in Hused.
      destruct Hty as [->| ->]; [|done].
      eexists. split; [apply elem_of_app; right; by apply list_elem_of_singleton|done].
    + rewrite findTile_updateTile_ne in Hfind by done.
      destruct (H2 t' tile' Hfind Hused) as (m & Hm & Hp & Hid).
      exists m. split; [apply elem_of_app; by left|done].
Qed.

Lemma moves_revertMove m g : moves (revertMove m g) = moves g.
Proof.
  unfold revertMove. destruct (findTile _ _); [|done].
  destruct (JsMap.get _ _); [|done]. by destruct (move_type m).
Qed.

Lemma usedTilesLogged_undo g m rest :
  usedTilesLogged g -> removalsJustified (moves g) -> moves g = rest ++ [m] ->
  usedTilesLogged (revertMove m (setMoves rest g)).
Proof.
  intros [H1 H2] Hjust Hm. rewrite Hm in H1, H2.
  apply Forall_app in H1 as [H1 Hlast]. rewrite Forall_singleton in Hlast.
  destruct Hlast as [[cell Hcell] [tile Htile]].
  unfold revertMove. cbn [availableNumbers setMoves board].
  rewrite Htile, Hcell.
  assert (Hrest : forall b v,
    Forall (fun m0 =>
      is_Some (JsMap.get (move_cellId m0)
                 (cells (board (writeTileAndCell (move_tileId m) (move_cellId m) b v
                                  (setMoves rest g)))))
      /\ is_Some (findTile (move_tileId m0)
                    (availableNumbers (writeTileAndCell (move_tileId m) (move_cellId m) b v
                                         (setMoves rest g))))) rest).
  { intros b v. eapply Forall_impl; [exact H1|]. intros m0 [Hc Ht]. simpl.
    by rewrite is_Some_get_update, is_Some_findTile_updateTile. }
  destruct (move_type m) eqn:Hty.
  - split; [apply Hrest|]. simpl. intros t' tile' Hfind Hused.
    destruct (decide (move_tileId m = t')) as [<-|Hne].
    + rewrite findTile_updateTile_eq, Htile in Hfind by done.
      by injection Hfind as <-.
    + rewrite findTile_updateTile_ne in Hfind by done.
      destruct (H2 t' tile' Hfind Hused) as (m' & Hin & Hp & Hid).
      exists m'. split; [|done].
      apply elem_of_app in Hin as [Hin|Hin]; [done|].
      apply list_elem_of_singleton in Hin. congruence.
  - split; [apply Hrest|]. simpl. intros t' tile' Hfind Hused.
    destruct (decide (move_tileId m = t')) as [<-|Hne].
    + destruct (Hjust rest m [] Hm Hty) as (before & m0 & after & -> & Hp & _ & Hid & _).
      exists m0. split; [|done]. apply elem_of_app. right. by left.
    + rewrite findTile_updateTile_ne in Hfind by done.
      destruct (H2 t' tile' Hfind Hused) as (m' & Hin & Hp & Hid).
      exists m'. split; [|done].
      apply elem_of_app in Hin as [Hin|Hin]; [done|].
      apply list_elem_of_singleton in Hin. congruence.
Qed.

Lemma checkGameCompletion_state now e g :
  gameState e = Some g ->
  exists g', gameState (checkGameCompletion now e) = Some g'
             /\ board g' = board g
             /\ availableNumbers g' = availableNumbers g
             /\ moves g' = moves g.
Proof.
  intros Hg. destruct (isComplete g) eqn:Hi.
  - unfold checkGameCompletion. rewrite Hg, Hi. by exists g.
  - destruct (checkGameCompletion_spec now e g Hg Hi) as (g' & Hg' & Hb & Ht & Hm & _).
    by exists g'.
Qed.

Lemma usedTilesLogged_exec now c e g :
  gameState e = Some g -> Consistent g -> usedTilesLogged g ->
  exists g', gameState (exec now c e) = Some g' /\ usedTilesLogged g'.
Proof.
  intros Hg Hcon Hlog. destruct c as [t c|c| |rng|]; simpl.
  - destruct (placeTile now t c e) as [[] e'] eqn:Hp; simpl.
    + apply placeTile_true in Hp
        as (g0 & tile & cell & Hg0 & _ & Htile & Hcell & _ & _ & _ & ->).
      assert (g0 = g) as -> by congruence.
      pose proof (usedTilesLogged_write now place t c true (VNum (tile_value tile))
                    g tile cell Hlog Htile Hcell (or_introl eq_refl)) as H1.
      match goal with
      | |- context [checkEquations now ?e1] =>
          destruct (checkEquations_state now e1 _ eq_refl) as (g2 & Hg2 & Hc2 & Ht2 & Hm2 & _)
      end.
      destruct (checkGameCompletion_state now _ g2 Hg2) as (g3 & Hg3 & Hb3 & Ht3 & Hm3).
      exists g3. split; [done|].
      apply (usedTilesLogged_ext g2); [by intros; unfold cellValueOf; rewrite Hb3|done|done|].
      by apply (usedTilesLogged_ext _ g2) in H1.
    + apply placeTile_false in Hp as ->. by exists g.
  - destruct (removeTile now c e) as [[] e'] eqn:Hr; simpl.
    + apply removeTile_true in Hr
        as (g0 & cell & lastMove & tile & Hg0 & _ & Hcell & _ & _ & _ & Htile & ->).
      assert (g0 = g) as -> by congruence.
      pose proof (usedTilesLogged_write now remove (move_tileId lastMove) c false VNull
                    g tile cell Hlog Htile Hcell (or_intror eq_refl)) as H1.
      match goal with
      | |- context [checkEquations now ?e1] =>
          destruct (checkEquations_state now e1 _ eq_refl) as (g2 & Hg2 & Hc2 & Ht2 & Hm2 & _)
      end.
      exists g2. split; [done|]. by apply (usedTilesLogged_ext _ g2) in H1.
    + apply removeTile_false in Hr as ->. by exists g.
  - destruct (undoLastMove now e) as [[] e'] eqn:Hu; simpl.
    + apply undoLastMove_true in Hu as (g0 & lastMove & rest & Hg0 & Hm & ->).
      assert (g0 = g) as -> by congruence.
      pose proof (usedTilesLogged_undo g lastMove rest Hlog (con_log g Hcon) Hm) as H1.
      match goal with
      | |- context [checkEquations now ?e1] =>
          destruct (checkEquations_state now e1 _ eq_refl) as (g2 & Hg2 & Hc2 & Ht2 & Hm2 & _)
      end.
      exists g2. split; [done|]. by apply (usedTilesLogged_ext _ g2) in H1.
    + apply undoLastMove_false in Hu as ->. by exists g.
  - unfold getHint. rewrite Hg.
    destruct (hints g <=? 0); [by exists g|].
    destruct (List.filter _ _) as [|c0 l]; [by exists g|].
    destruct (random rng) as [k rng1].
    destruct (nth_error _ _) as [target|]; [|by exists g].
    destruct (getCorrectValueForCell _ _); [|by exists g].
    simpl. by eexists.
  - unfold timerTick. destruct (gameTimer e); [|by exists g].
    rewrite Hg. destruct (isComplete g); [by exists g|].
    simpl. by eexists.
Qed.

Lemma findTile_In t ts tile : findTile t ts = Some tile -> tile ∈ ts.
Proof.
  induction ts as [|t0 ts IH]; simpl; [done|].
  destruct (String.eqb (tile_id t0) t); [intros [= ->]; by left|].
  intros H. right. by apply IH.
Qed.

Lemma findTile_NoDup ts tile :
  NoDup (map tile_id ts) -> tile ∈ ts -> findTile (tile_id tile) ts = Some tile.
Proof.
  induction ts as [|t0 ts IH]; simpl; [by intros _ ?%elem_of_nil|].
  intros [Hnotin Hnd]%NoDup_cons [->|Hin]%elem_of_cons.
  - by rewrite String.eqb_refl.
  - destruct (String.eqb_spec (tile_id t0) (tile_id tile)) as [E|_]; [|by apply IH].
    destruct Hnotin. rewrite E.
    by apply (list_elem_of_fmap_2 tile_id).
Qed.

Lemma reachable_usedTilesLogged e :
  reachable e ->
  exists g, gameState e = Some g /\ Consistent g /\ usedTilesLogged g
            /\ NoDup (map tile_id (availableNumbers g)).
Proof.
  induction 1 as [now d rng e g e' rng' Hstart|now c e Hreach (g & Hg & Hcon & Hlog & Hnd)].
  - destruct (reachable_Consistent e' (reachable_start _ _ _ _ _ _ _ Hstart))
      as (g0 & Hg0 & Hcon).
    destruct (startNewGame_spec now d rng e)
      as (g1 & e1 & rng1 & nums & extras & Hs & Hg1 & _ & _ & _ & Hnums & _ & Hm & _).
    rewrite Hstart in Hs. injection Hs as <- <- <-.
    assert (g0 = g) as -> by congruence.
    exists g. split; [done|]. split; [done|]. split; [split|].
    + rewrite Hm. apply Forall_nil_2.
    + intros t tile Hfind Hused. rewrite Hnums in Hfind.
      apply findTile_In, list_elem_of_lookup in Hfind as [i Hi].
      apply lookup_makeTiles in Hi as (v & _ & ->). done.
    + rewrite Hnums. apply NoDup_alt. intros i j id Hi Hj.
      change (map tile_id ?l) with (tile_id <$> l) in Hi, Hj.
      rewrite list_lookup_fmap in Hi, Hj.
      destruct (makeTiles nums !! i) as [ti|] eqn:Ei; [|done].
      destruct (makeTiles nums !! j) as [tj|] eqn:Ej; [|done].
      apply lookup_makeTiles in Ei as (vi & _ & ->).
      apply lookup_makeTiles in Ej as (vj & _ & ->).
      simpl in Hi, Hj. injection Hi as <-. injection Hj as Hj.
      apply prefixed_inj in Hj. lia.
  - destruct (Consistent_exec now c e g Hg Hcon) as (g1 & Hg1 & Hcon1).
    destruct (usedTilesLogged_exec now c e g Hg Hcon Hlog) as (g2 & Hg2 & Hlog2).
    assert (g2 = g1) as -> by congruence.
    exists g1. split; [done|]. split; [done|]. split; [done|].
    pose proof (layoutOf_exec now c e) as Hlay. rewrite Hg, Hg1 in Hlay.
    apply (inj Some) in Hlay.
    apply (f_equal lay_tiles) in Hlay. simpl in Hlay.
    apply (f_equal (map fst)) in Hlay. rewrite !map_map in Hlay. simpl in Hlay.
    change (map tile_id (availableNumbers g1) = map tile_id (availableNumbers g)) in Hlay.
    by rewrite Hlay.
Qed.

Lemma undo_run cs e g :
  Forall (fun nc : Z * Command => nc.2 = CUndo) cs ->
  length cs = length (moves g) -> gameState e = Some g ->
  exists g', gameState (run cs e) = Some g' /\ moves g' = [].
Proof.
  revert e g. induction cs as [|[now c] cs IH]; intros e g Hall Hlen Hg.
  - exists g. split; [done|]. by destruct (moves g).
  - apply Forall_cons in Hall as [Hc Hall]. simpl in Hc. subst c. simpl.
    destruct (moves g) as [|m0 ms] eqn:Hm using rev_ind; [done|]. clear IHms.
    rewrite length_app in Hlen. simpl in Hlen.
    unfold undoLastMove. rewrite Hg, Hm, popMove_snoc. simpl.
    match goal with
    | |- context [checkEquations now ?e1] =>
        destruct (checkEquations_state now e1 _ eq_refl) as (g2 & Hg2 & _ & _ & Hm2 & _)
    end.
    rewrite moves_revertMove in Hm2. simpl in Hm2.
    apply (IH _ g2); [done| |done]. rewrite Hm2. lia.
Qed.

(** X21: in a session, undoing as many times as the log has entries
    empties the log, and then no tile of the hand is marked used and
    every cell that is not a given number is blank: the board and the
    hand are back where the game started. *)
Theorem undoing_everything_clears_the_board cs e g :
  reachable e -> gameState e = Some g ->
  Forall (fun nc : Z * Command => nc.2 = CUndo) cs ->
  length cs = length (moves g) ->
  exists g',
    gameState (run cs e) = Some g'
    /\ moves g' = []
    /\ Forall (fun tile => tile_isUsed tile = false) (availableNumbers g')
    /\ (forall c cell,
          JsMap.get c (cells (board g')) = Some cell ->
          cell_isFixed cell = false -> cell_value cell = VNull).
Proof.
  intros Hreach Hg Hall Hlen.
  destruct (undo_run cs e g Hall Hlen Hg) as (g' & Hg' & Hm).
  destruct (reachable_usedTilesLogged (run cs e) (reachable_run cs e Hreach))
    as (g0 & Hg0 & Hcon & [_ Hlog] & Hnd).
  assert (g0 = g') as -> by congruence.
  exists g'. split; [done|]. split; [done|]. split.
  - apply Forall_forall. intros tile Hin.
    destruct (tile_isUsed tile) eqn:Hused; [|done].
    destruct (Hlog (tile_id tile) tile (findTile_NoDup _ _ Hnd Hin) Hused)
      as (m & Hmin & _).
    rewrite Hm in Hmin. by apply elem_of_nil in Hmin.
  - intros c cell Hcell Hfix.
    destruct (decide (cell_value cell = VNull)) as [|Hval]; [done|].
    destruct (con_cells g' Hcon c cell Hcell Hfix Hval) as (t & tile & Hheld & _).
    rewrite Hm in Hheld. by apply heldBy_nil in Hheld.
Qed.

Lemma undoing_everything_clears_the_board_witness :
  exists g g',
    gameState sampleFilled = Some g
    /\ gameState (run [(5, CUndo)] sampleFilled) = Some g'
    /\ moves g' = []
    /\ Forall (fun tile => tile_isUsed tile = false) (availableNumbers g')
    /\ (forall c cell,
          JsMap.get c (cells (board g')) = Some cell ->
          cell_isFixed cell = false -> cell_value cell = VNull).
Proof.
  pose proof sampleFilledState_eq as Hg. unfold sampleFilledState in Hg.
  match type of Hg with _ = Some ?g0 => exists g0 end.
  assert (Hall : Forall (fun nc : Z * Command => nc.2 = CUndo) [(5, CUndo)])
    by (constructor; [reflexivity|constructor]).
  destruct (undoing_everything_clears_the_board [(5, CUndo)] sampleFilled _
              sampleFilled_reachable Hg Hall eq_refl) as (g' & H).
  exists g'. by split.
Defined.

(** ** A new game is open *)

(** X22: a new game is never solved already.  On the board that
    [startNewGame] installs no equation is complete, so the check button
    announces that all of them, at least one, are still to solve, and
    the game is not marked complete. *)
Theorem new_game_is_unsolved now d rng e :
  exists g e' rng',
    startNewGame now d rng e = Some (g, e', rng')
    /\ isComplete g = false
    /\ Forall (fun q => isEquationComplete (cells (board g)) q = false
                        /\ eq_isComplete q = false /\ eq_isValid q = false)
         (JsMap.values (equations (board g)))
    /\ (1 <= length (JsMap.values (equations (board g))))%nat
    /\ checkSolution (gameState e')
       = Some (StillToSolve (Z.of_nat (length (JsMap.values (equations (board g)))))).
Proof.
  destruct (startNewGame_spec now d rng e)
    as (g & e' & rng' & nums & extras & Hs & Hg & Hok & _ & Hne & _ & _ & _ & Hi).
  pose proof (startNewGame_unflagged _ _ _ _ _ _ _ Hs) as Hun.
  exists g, e', rng'. split; [done|]. split; [done|].
  assert (Hall : Forall (fun q => isEquationComplete (cells (board g)) q = false
                                  /\ eq_isComplete q = false /\ eq_isValid q = false)
                   (JsMap.values (equations (board g)))).
  { apply Forall_forall. intros q Hq. rewrite Forall_forall in Hun.
    split; [by apply equation_incomplete|by apply Hun]. }
  split; [done|]. split.
  { destruct (JsMap.values (equations (board g))); [done|simpl; lia]. }
  rewrite Hg. unfold checkSolution.
  destruct (JsMap.values (equations (board g))) as [|q qs] eqn:Hv; [done|].
  assert (Hq : eq_isComplete q = false)
    by (apply Forall_cons in Hall as [(_ & H & _) _]; exact H).
  cbn [forallb]. rewrite Hq. cbn [negb andb]. do 3 f_equal.
  rewrite (filter_Forall_ext _ (fun _ => true) (q :: qs)).
  - clear. induction (q :: qs) as [|a l IH]; [done|]. simpl. by rewrite IH.
  - eapply Forall_impl; [exact Hall|]. by intros q' (_ & -> & _).
Qed.

(** ** A game in progress is not solved *)

Lemma lower_refl cs : lower cs cs.
Proof.
  intros k. destruct (JsMap.get k cs); constructor. split; [done|by left].
Qed.

Lemma lower_sameCores cs' cs : sameCores cs' cs -> lower cs' cs.
Proof.
  intros H k. pose proof (sameCores_get _ _ k H) as Hk.
  destruct (JsMap.get k cs') as [c'|], (JsMap.get k cs) as [c|];
    simpl in Hk; try done; constructor.
  apply (inj Some), cellCore_eq in Hk as (H1 & H2 & H3 & H4 & H5 & H6).
  split; [unfold cellFrame; congruence|by left].
Qed.

Lemma lower_update cs k v :
  (forall cell, JsMap.get k cs = Some cell ->
     v = cell_value cell
     \/ (v = VNull /\ cell_type cell <> operator /\ cell_type cell <> equals)) ->
  lower (JsMap.update k (setValue v) cs) cs.
Proof.
  intros H k'. destruct (decide (k = k')) as [<-|Hne].
  - rewrite get_update_eq. destruct (JsMap.get k cs) as [cell|] eqn:Hget;
      simpl; constructor. split; [done|]. simpl. by apply H.
  - rewrite get_update_ne by done. apply lower_refl.
Qed.

Lemma lower_update_both cs' cs k v :
  lower cs' cs ->
  lower (JsMap.update k (setValue v) cs') (JsMap.update k (setValue v) cs).
Proof.
  intros H k'. destruct (decide (k = k')) as [<-|Hne].
  - rewrite !get_update_eq. destruct (H k) as [c' c [Hf _]|]; simpl; constructor.
    split; [|by left]. unfold cellFrame in *. simpl. exact Hf.
  - rewrite !get_update_ne by done. apply H.
Qed.

Lemma lower_revertCells ts m cs' cs :
  lower cs' cs -> lower (revertCells ts m cs') (revertCells ts m cs).
Proof.
  intros H. unfold revertCells. destruct (findTile _ _) as [tile|]; [|done].
  destruct (H (move_cellId m)) as [c' c _|]; [|done]. by apply lower_update_both.
Qed.

Lemma lower_unwindCells ts ms cs' cs :
  lower cs' cs -> lower (unwindCells ts ms cs') (unwindCells ts ms cs).
Proof.
  intros H. induction ms as [|m ms IH]; [done|]. by apply lower_revertCells.
Qed.

Lemma unwindCells_snoc ts ms m cs :
  unwindCells ts (ms ++ [m]) cs = unwindCells ts ms (revertCells ts m cs).
Proof. unfold unwindCells. by rewrite foldr_app. Qed.

Lemma revertCells_updateTile t b ts m cs :
  revertCells (updateTile t (setIsUsed b) ts) m cs = revertCells ts m cs.
Proof.
  unfold revertCells. destruct (decide (t = move_tileId m)) as [->|Hne].
  - rewrite findTile_updateTile_eq by done. by destruct (findTile _ ts).
  - by rewrite findTile_updateTile_ne.
Qed.

Lemma unwindCells_updateTile t b ts ms cs :
  unwindCells (updateTile t (setIsUsed b) ts) ms cs = unwindCells ts ms cs.
Proof.
  induction ms as [|m ms IH]; [done|]. simpl.
  by rewrite revertCells_updateTile, IH.
Qed.

(** Where an equation is complete, emptied cells are not among its
    cells. *)
Lemma lower_complete cs' cs q :
  lower cs' cs -> isEquationComplete cs' q = true ->
  forall k, In k (eq_cells q) ->
    exists c' c, JsMap.get k cs' = Some c' /\ JsMap.get k cs = Some c
                 /\ cell_type c' = cell_type c /\ cell_value c' = cell_value c.
Proof.
  intros Hl Hc k Hk. unfold isEquationComplete in Hc.
  rewrite forallb_forall in Hc. specialize (Hc k Hk).
  destruct (Hl k) as [c' c [Hf Hv]|]; [|done]. exists c', c.
  split; [done|]. split; [done|].
  assert (Hty : cell_type c' = cell_type c) by (unfold cellFrame in Hf; congruence).
  split; [done|]. destruct Hv as [Hv|(Hv & H1 & H2)]; [done|].
  rewrite Hv in Hc.
  rewrite (bool_decide_false (cell_type c' = operator)) in Hc by done.
  rewrite (bool_decide_false (cell_type c' = equals)) in Hc by done.
  rewrite (bool_decide_true (VNull = VNull)) in Hc by done. done.
Qed.

Lemma allSatOn_lower es cs' cs :
  lower cs' cs -> allSatOn es cs = false -> allSatOn es cs' = false.
Proof.
  intros Hl Hcs. destruct (allSatOn es cs') eqn:Hcs'; [|done].
  rewrite <- Hcs. symmetry. unfold allSatOn in *.
  rewrite forallb_forall in *. intros q Hq. specialize (Hcs' q Hq).
  apply andb_prop in Hcs' as [Hc Hv].
  pose proof (lower_complete cs' cs q Hl Hc) as Hcells.
  apply andb_true_intro. split.
  - unfold isEquationComplete in *. rewrite forallb_forall in *.
    intros k Hk. specialize (Hc k Hk).
    destruct (Hcells k Hk) as (c' & c & G' & G & Hty & Hval).
    rewrite G' in Hc. by rewrite G, <- Hty, <- Hval.
  - rewrite <- Hv. unfold validateEquation.
    assert (Hat : forall i, valueAt cs q i = valueAt cs' q i).
    { intros i. unfold valueAt. destruct (nth_error (eq_cells q) i) as [k|] eqn:Hi; [|done].
      apply nth_error_In in Hi.
      destruct (Hcells k Hi) as (c' & c & G' & G & _ & Hval).
      rewrite G, G'. simpl. by rewrite Hval. }
    by rewrite !Hat.
Qed.

Lemma allSatOn_refresh cs0 es cs :
  allSatOn (map (fun kq : string * Equation => (kq.1, refreshFlags cs0 kq.2)) es) cs
  = allSatOn es cs.
Proof.
  unfold allSatOn, JsMap.values. rewrite map_map. simpl.
  induction es as [|[k q] es IH]; [done|]. simpl. by rewrite IH.
Qed.

Lemma allSatOn_sameCores es cs cs' :
  sameCores cs cs' -> allSatOn es cs = allSatOn es cs'.
Proof.
  intros H. unfold allSatOn. apply forallb_pointwise. intros q.
  by rewrite (isEquationComplete_sameCores _ _ q H), (validateEquation_sameCores _ _ q H).
Qed.

Lemma cells_revertMove m g :
  cells (board (revertMove m g))
  = revertCells (availableNumbers g) m (cells (board g)).
Proof.
  unfold revertMove, revertCells. destruct (findTile _ _) as [tile|]; [|done].
  destruct (JsMap.get _ _) as [cell|]; [|done]. by destruct (move_type m).
Qed.

Lemma tiles_revertMove m g ms cs :
  unwindCells (availableNumbers (revertMove m g)) ms cs
  = unwindCells (availableNumbers g) ms cs.
Proof.
  unfold revertMove. destruct (findTile _ _) as [tile|] eqn:Ht; [|done].
  destruct (JsMap.get _ _) as [cell|]; [|done].
  destruct (move_type m); simpl; apply unwindCells_updateTile.
Qed.

Lemma lower_update_twice cs c v v' cell :
  JsMap.get c cs = Some cell ->
  (v' = cell_value cell
   \/ (v' = VNull /\ cell_type cell <> operator /\ cell_type cell <> equals)) ->
  lower (JsMap.update c (setValue v') (JsMap.update c (setValue v) cs)) cs.
Proof.
  intros Hcell Hv k. destruct (decide (c = k)) as [<-|Hne].
  - rewrite !get_update_eq, Hcell. simpl. constructor. by split.
  - rewrite !get_update_ne by done. apply lower_refl.
Qed.

Lemma removalsUnsolved_place now t c v g tile cell :
  removalsUnsolved g ->
  findTile t (availableNumbers g) = Some tile ->
  JsMap.get c (cells (board g)) = Some cell ->
  cell_type cell = number ->
  removalsUnsolved (pushMove (mkMove now place t c now) (writeTileAndCell t c true v g)).
Proof.
  intros H Htile Hcell Hty before m after Hm Hrem. simpl in Hm. symmetry in Hm.
  apply snoc_split in Hm as [(-> & -> & ->)|(after' & -> & Hm)]; [done|].
  rewrite app_comm_cons, unwindCells_snoc. cbn [pushMove writeTileAndCell setMoves
    setCells setTiles board cells equations availableNumbers].
  rewrite unwindCells_updateTile, revertCells_updateTile.
  apply (allSatOn_lower _ _ (unwindCells (availableNumbers g) (m :: after')
                               (cells (board g)))); [|by apply (H before)].
  apply lower_unwindCells. unfold revertCells.
  cbn [move_tileId move_cellId move_type]. rewrite Htile, get_update_eq, Hcell.
  simpl. apply (lower_update_twice _ _ _ _ cell); [done|].
  right. by rewrite Hty.
Qed.

Lemma removalsUnsolved_remove now t c g tile cell :
  removalsUnsolved g -> allEquationsSatisfied g = false ->
  findTile t (availableNumbers g) = Some tile ->
  JsMap.get c (cells (board g)) = Some cell ->
  cell_value cell = VNum (tile_value tile) ->
  removalsUnsolved (pushMove (mkMove now remove t c now)
                      (writeTileAndCell t c false VNull g)).
Proof.
  intros H Hsat Htile Hcell Hval.
  set (r := mkMove now remove t c now).
  assert (Hlow : lower (revertCells (availableNumbers g) r
                          (JsMap.update c (setValue VNull) (cells (board g))))
                   (cells (board g))).
  { unfold revertCells. cbn [r move_tileId move_cellId move_type].
    rewrite Htile, get_update_eq, Hcell. simpl.
    apply (lower_update_twice _ _ _ _ cell); [done|]. by left. }
  intros before m after Hm Hrem. simpl in Hm. symmetry in Hm.
  cbn [pushMove writeTileAndCell setMoves setCells setTiles board cells equations
       availableNumbers].
  apply snoc_split in Hm as [(-> & -> & ->)|(after' & -> & Hm)].
  - change (unwindCells ?ts [r] ?cs) with (revertCells ts r cs).
    rewrite revertCells_updateTile. by apply (allSatOn_lower _ _ (cells (board g))).
  - rewrite app_comm_cons, unwindCells_snoc.
    rewrite unwindCells_updateTile, revertCells_updateTile.
    apply (allSatOn_lower _ _ (unwindCells (availableNumbers g) (m :: after')
                                 (cells (board g)))); [|by apply (H before)].
    by apply lower_unwindCells.
Qed.

Lemma equations_revertMove m g :
  equations (board (revertMove m g)) = equations (board g).
Proof.
  unfold revertMove. destruct (findTile _ _); [|done].
  destruct (JsMap.get _ _); [|done]. by destruct (move_type m).
Qed.

Lemma removalsUnsolved_undo g m rest :
  moves g = rest ++ [m] -> removalsUnsolved g ->
  removalsUnsolved (revertMove m (setMoves rest g)).
Proof.
  intros Hm H before m0 after Hm0 Hrem. rewrite moves_revertMove in Hm0.
  simpl in Hm0. rewrite tiles_revertMove, cells_revertMove, equations_revertMove.
  cbn [setMoves board cells equations availableNumbers].
  rewrite <- unwindCells_snoc. apply (H before); [|done].
  by rewrite Hm, Hm0, <- app_assoc.
Qed.

Lemma unsolved_after_undo g m rest :
  moves g = rest ++ [m] -> Unsolved g -> isComplete g = false ->
  (forall cell, JsMap.get (move_cellId m) (cells (board g)) = Some cell ->
     cell_type cell <> operator /\ cell_type cell <> equals) ->
  allSatOn (equations (board g))
    (revertCells (availableNumbers g) m (cells (board g))) = false.
Proof.
  intros Hm [HM HR] Hi Hty. destruct (move_type m) eqn:Hmt.
  - apply (allSatOn_lower _ _ (cells (board g))); [|by apply HM].
    unfold revertCells. destruct (findTile _ _) as [tile|]; [|apply lower_refl].
    destruct (JsMap.get _ _) as [cell|] eqn:Hcell; [|apply lower_refl].
    rewrite Hmt. apply lower_update. intros cell0 H0. right.
    split; [done|]. apply Hty. congruence.
  - by apply (HR rest m []).
Qed.

Lemma removalsUnsolved_checkEquations now e g :
  gameState e = Some g -> removalsUnsolved g ->
  exists g', gameState (checkEquations now e) = Some g'
             /\ removalsUnsolved g'
             /\ isComplete g' = isComplete g
             /\ allEquationsSatisfied g'
                = allSatOn (equations (board g)) (cells (board g)).
Proof.
  intros Hg H.
  destruct (checkEquations_spec now e g Hg)
    as (g' & Hg' & _ & _ & Hc & He & _ & Ht & Hm & _ & Hi & _).
  exists g'. split; [done|]. split; [|split; [done|]].
  - intros before m after Hm' Hrem. rewrite Hm in Hm'.
    rewrite He, allSatOn_refresh, Ht.
    apply (allSatOn_lower _ _ (unwindCells (availableNumbers g) (m :: after)
                                 (cells (board g)))); [|by apply (H before)].
    apply lower_unwindCells, lower_sameCores. unfold sameCores in *. by symmetry.
  - unfold allEquationsSatisfied. fold (allSatOn (equations (board g')) (cells (board g'))).
    rewrite He, allSatOn_refresh. symmetry. by apply allSatOn_sameCores.
Qed.

Lemma Generated_nonfixed_type g k cell :
  Generated g -> JsMap.get k (cells (board g)) = Some cell ->
  cell_isFixed cell = false ->
  cell_type cell <> operator /\ cell_type cell <> equals.
Proof.
  intros (b0 & Hok & _ & Hcells & _) Hget Hfix.
  pose proof (frames_get cellFrame _ _ k Hcells) as Hk. rewrite Hget in Hk.
  destruct (JsMap.get k (cells b0)) as [c0|] eqn:Hget0; [|done].
  simpl in Hk. apply (inj Some) in Hk. unfold cellFrame in Hk.
  assert (Hty : cell_type cell = cell_type c0) by congruence.
  assert (Hfx : cell_isFixed c0 = false) by congruence.
  rewrite Hty.
  destruct (decide (k ∈ concat (map eq_cells (JsMap.values (equations b0)))))
    as [Hin|Hout].
  - apply elem_of_concat in Hin as (ks & Hk1 & Hk2).
    apply list_elem_of_In, in_map_iff in Hk2 as (q & <- & Hq).
    apply list_elem_of_In in Hq.
    destruct (BoardOk_claimed _ q k Hok Hq Hk1) as (c' & Hget' & _ & _ & _ & Hnum).
    assert (c' = c0) as -> by congruence.
    destruct (Hnum Hfx) as [-> _]. done.
  - destruct (BoardOk_unclaimed _ k c0 Hok Hget0 Hout) as (-> & _). done.
Qed.

Lemma Unsolved_exec now c e g :
  reachable e -> gameState e = Some g -> Unsolved g ->
  exists g', gameState (exec now c e) = Some g' /\ Unsolved g'.
Proof.
  intros Hreach Hg Hun. pose proof Hun as [HM HR].
  destruct (reachable_Consistent e Hreach) as (g0 & Hg0 & Hcon).
  assert (g0 = g) as -> by congruence. clear Hg0.
  destruct (reachable_logOnBlanks e Hreach) as (g0 & Hg0 & Hlog).
  assert (g0 = g) as -> by congruence. clear Hg0.
  destruct (reachable_Generated e Hreach) as (g0 & Hg0 & Hgen).
  assert (g0 = g) as -> by congruence. clear Hg0.
  destruct c as [t c|c| |rng|]; simpl.
  - destruct (placeTile now t c e) as [[] e'] eqn:Hp; simpl.
    + pose proof Hp as (g0 & tile & cell & Hg0 & Hi & Htile & Hcell & _ & _ & Hty & ->)%placeTile_true.
      assert (g0 = g) as -> by congruence. clear Hg0.
      pose proof (removalsUnsolved_place now t c (VNum (tile_value tile)) g tile cell
                    HR Htile Hcell Hty) as H1.
      set (e1 := emit _ _) in *.
      destruct (removalsUnsolved_checkEquations now e1 _ eq_refl H1)
        as (g2 & Hg2 & HR2 & Hi2 & _).
      pose proof (checkEquations_flags now e1 _ g2 eq_refl Hg2) as Hflags.
      simpl in Hi2. rewrite Hi in Hi2.
      destruct (checkGameCompletion_spec now _ g2 Hg2 Hi2)
        as (g3 & Hg3 & Hb & Ht3 & Hm3 & Hi3).
      exists g3. split; [done|]. split.
      * intros Hc3. rewrite Hi3, Hflags in Hc3.
        unfold allEquationsSatisfied in *. by rewrite Hb.
      * intros before m after Hm Hrem. rewrite Hb, Ht3.
        apply (HR2 before). by rewrite <- Hm3. done.
    + apply placeTile_false in Hp as ->. by exists g.
  - destruct (removeTile now c e) as [[] e'] eqn:Hr; simpl.
    + pose proof Hr
        as (g0 & cell & lastMove & tile & Hg0 & Hi & Hcell & Hfix & Hval & Hlast & Htile & ->)%removeTile_true.
      assert (g0 = g) as -> by congruence. clear Hg0.
      destruct (Consistent_remove now c g cell lastMove tile Hcon Hcell Hfix Hval Hlast Htile)
        as (_ & Hv & _).
      pose proof (removalsUnsolved_remove now (move_tileId lastMove) c g tile cell
                    HR (HM Hi) Htile Hcell Hv) as H1.
      match goal with
      | |- context [checkEquations now ?e1] =>
          destruct (removalsUnsolved_checkEquations now e1 _ eq_refl H1)
            as (g2 & Hg2 & HR2 & Hi2 & Hs2)
      end.
      exists g2. split; [done|]. split; [|done]. intros _. rewrite Hs2.
      cbn [pushMove writeTileAndCell setMoves setCells setTiles board cells equations].
      apply (allSatOn_lower _ _ (cells (board g))); [|by apply HM].
      apply lower_update. intros cell0 H0. right. split; [done|].
      apply (Generated_nonfixed_type g c); [done|done|congruence].
    + apply removeTile_false in Hr as ->. by exists g.
  - destruct (undoLastMove now e) as [[] e'] eqn:Hu; simpl.
    + pose proof Hu as (g0 & lastMove & rest & Hg0 & Hm & ->)%undoLastMove_true.
      assert (g0 = g) as -> by congruence. clear Hg0.
      pose proof (removalsUnsolved_undo g lastMove rest Hm HR) as H1.
      match goal with
      | |- context [checkEquations now ?e1] =>
          destruct (removalsUnsolved_checkEquations now e1 _ eq_refl H1)
            as (g2 & Hg2 & HR2 & Hi2 & Hs2)
      end.
      exists g2. split; [done|]. split; [|done]. intros Hc2. rewrite Hs2.
      rewrite Hi2, isComplete_revertMove in Hc2. simpl in Hc2.
      rewrite cells_revertMove, equations_revertMove.
      cbn [setMoves board cells equations availableNumbers].
      apply (unsolved_after_undo g lastMove rest); [done|done|done|].
      intros cell Hcell. apply (Generated_nonfixed_type g (move_cellId lastMove)); [done|done|].
      unfold logOnBlanks in Hlog. rewrite Hm in Hlog.
      apply Forall_app in Hlog as [_ Hlast]. rewrite Forall_singleton in Hlast.
      by apply Hlast.
    + apply undoLastMove_false in Hu as ->. by exists g.
  - unfold getHint. rewrite Hg.
    destruct (hints g <=? 0); [by exists g|].
    destruct (List.filter _ _) as [|c0 l]; [by exists g|].
    destruct (random rng) as [k rng1].
    destruct (nth_error _ _) as [target|]; [|by exists g].
    destruct (getCorrectValueForCell _ _); [|by exists g].
    simpl. by eexists.
  - unfold timerTick. destruct (gameTimer e); [|by exists g].
    rewrite Hg. destruct (isComplete g); [by exists g|].
    simpl. by eexists.
Qed.

Lemma reachable_Unsolved e :
  reachable e -> exists g, gameState e = Some g /\ Unsolved g.
Proof.
  induction 1 as [now d rng e g e' rng' Hstart|now c e Hreach (g & Hg & Hun)].
  - destruct (startNewGame_spec now d rng e)
      as (g1 & e1 & rng1 & nums & extras & Hs & Hg1 & Hok & _ & Hne & _ & _ & Hm & _).
    rewrite Hstart in Hs. injection Hs as <- <- <-.
    exists g. split; [done|]. split.
    + intros _. unfold allEquationsSatisfied.
      destruct (JsMap.values (equations (board g))) as [|q qs] eqn:Hv; [done|].
      cbn [forallb]. rewrite (equation_incomplete _ q Hok); [done|].
      rewrite Hv. by left.
    + intros before m after Hm'. rewrite Hm in Hm'. by destruct before.
  - by apply (Unsolved_exec now c e g).
Qed.

(** C3: in a session the game is complete exactly when it is solved.  A
    game in progress is never solved: some equation is open or false.
    After any command on it, be it a placement, a removal, an undo, a
    hint or a tick of the clock, accepted or refused, the game is
    complete if and only if every equation is complete and valid on the
    cells as they stand.  ([checkGameCompletion] is called by
    [placeTile] alone; a removal or an undo never leaves the board of a
    game in progress solved, so there is nothing for it to find after
    them.) *)
Theorem completion_follows_every_mutation now c e g :
  reachable e -> gameState e = Some g -> isComplete g = false ->
  allEquationsSatisfied g = false
  /\ exists g',
       gameState (exec now c e) = Some g'
       /\ (isComplete g' = true <-> allEquationsSatisfied g' = true).
Proof.
  intros Hreach Hg Hi.
  destruct (reachable_Unsolved e Hreach) as (g0 & Hg0 & [HM _]).
  assert (g0 = g) as -> by congruence. clear Hg0.
  split; [by apply HM|].
  destruct (reachable_Unsolved _ (reachable_step now c e Hreach)) as (g' & Hg' & [HM' _]).
  exists g'. split; [done|]. split; [|].
  - intros Hc'.
    destruct (placement_checks_completion now e g Hg Hi) as (Hplace & Hremove & Hundo).
    destruct c as [t k|k| |rng|]; simpl in Hg'.
    + destruct (placeTile now t k e) as [[] e'] eqn:Hp; simpl in Hg'.
      * by apply (Hplace t k e' g').
      * apply placeTile_false in Hp as ->. congruence.
    + destruct (removeTile now k e) as [[] e'] eqn:Hr; simpl in Hg'.
      * rewrite (Hremove k e' g' Hr Hg') in Hc'. done.
      * apply removeTile_false in Hr as ->. congruence.
    + destruct (undoLastMove now e) as [[] e'] eqn:Hu; simpl in Hg'.
      * rewrite (Hundo e' g' eq_refl Hg') in Hc'. done.
      * apply undoLastMove_false in Hu as ->. congruence.
    + unfold getHint in Hg'. rewrite Hg in Hg'.
      destruct (hints g <=? 0); [simpl in Hg'; congruence|].
      destruct (List.filter _ _) as [|c0 l]; [simpl in Hg'; congruence|].
      destruct (random rng) as [r rng1].
      destruct (nth_error _ _) as [target|]; [|simpl in Hg'; congruence].
      destruct (getCorrectValueForCell _ _); [|simpl in Hg'; congruence].
      simpl in Hg'. injection Hg' as <-. simpl in Hc'. congruence.
    + unfold timerTick in Hg'. destruct (gameTimer e); [|congruence].
      rewrite Hg, Hi in Hg'. simpl in Hg'. injection Hg' as <-.
      simpl in Hc'. congruence.
  - intros Hs'. destruct (isComplete g') eqn:Hc'; [done|].
    rewrite (HM' eq_refl) in Hs'. done.
Qed.

Lemma completion_follows_every_mutation_witness :
  exists g,
    gameState sampleFilled = Some g
    /\ allEquationsSatisfied g = false
    /\ exists g',
         gameState (exec 2 (CPlace "tile-0" "4-0") sampleFilled) = Some g'
         /\ (isComplete g' = true <-> allEquationsSatisfied g' = true).
Proof.
  pose proof sampleFilledState_eq as Hg. unfold sampleFilledState in Hg.
  match type of Hg with _ = Some ?g0 => exists g0 end.
  split; [exact Hg|].
  exact (completion_follows_every_mutation 2 (CPlace "tile-0" "4-0") sampleFilled _
           sampleFilled_reachable Hg eq_refl).
Defined.
